(** * Correlograms of spike trains: a shallow embedding of
      [spikeinterface/postprocessing/correlograms.py]

    The development follows the module top-down as the Python file is laid
    out: the bin planner [_make_bins], the numpy strategy
    ([compute_correlograms_numpy], [correlogram_for_one_segment]), the numba
    strategy ([compute_correlograms_numba], [_compute_correlograms_numba],
    [_compute_autocorr_numba], [_compute_crosscorr_numba]) and the entry
    point [compute_correlograms_on_sorting].

    Modelling conventions.
    - Python exceptions are values of [exn]; a call either returns [Ok v] or
      [Raise e].  An [assert] is [py_assert].
    - Python [float]s are IEEE binary64 numbers, Rocq's primitive floats:
      their [*] and [/] round to the nearest number, ties to the even
      significand.  [round] is Python 3's round-half-to-even.
    - Where integers are divided as floats ([a / b] on Python ints,
      [diff / bin_size] on int64 in numba) the quotient is written with
      [binary64_round], the rounding of a rational to the nearest binary64
      number, which the theorems can reason about.
    - int64 numpy arithmetic is written with its wrap-around ([wrap64]).
    - A 3-D numpy array is its shape together with its C-ordered flat buffer,
      so that [ravel], [ravel_multi_index] and slices read as in the source.
    - In-place updates of an array are explicit state passing: the function
      returns the updated array. *)

From Stdlib Require Import String.
From Stdlib Require Import ZArith List Bool Lia QArith Qround Qabs Qpower Lqa.
From Stdlib Require Import Arith.
From Stdlib Require Import Floats.PrimFloat Floats.FloatOps Floats.SpecFloat.
From Stdlib Require Floats.FloatAxioms.
Import ListNotations.

Open Scope Z_scope.

(** ** Exceptions and the result monad *)

Inductive exn : Type :=
| AssertionError
| ZeroDivisionError
| TypeError
| ValueError
| IndexError
| UnboundLocalError
| OverflowError
| OutOfBounds.  (* a write outside the buffer in numba's nopython mode,
                   which performs no bounds check *)

Inductive result (A : Type) : Type :=
| Ok (a : A)
| Raise (e : exn).

Arguments Ok {A} a.
Arguments Raise {A} e.

Definition bind {A B : Type} (m : result A) (k : A -> result B) : result B :=
  match m with
  | Ok a => k a
  | Raise e => Raise e
  end.

Notation "x <- m ;; k" := (bind m (fun x => k))
  (at level 61, m at next level, right associativity).
Notation "' p <- m ;; k" := (bind m (fun x => match x with p => k end))
  (at level 61, p pattern, m at next level, right associativity).

Definition py_assert (b : bool) : result unit :=
  if b then Ok tt else Raise AssertionError.

Definition is_ok {A : Type} (m : result A) : bool :=
  match m with Ok _ => true | Raise _ => false end.

(** ** Python numbers *)

(** [round(x)] on a float, with no [ndigits]: the nearest integer, ties going
    to the even one. *)
Definition py_round (x : Q) : Z :=
  let f := Qfloor x in
  match Qcompare (x - inject_Z f) (1 # 2) with
  | Lt => f
  | Gt => f + 1
  | Eq => if Z.even f then f else f + 1
  end.

(** [int(x)] on a float truncates towards zero. *)
Definition py_int (x : Q) : Z :=
  match Qcompare x 0 with
  | Lt => Qceiling x
  | _ => Qfloor x
  end.

(** [a % b] on Python ints: the sign follows the divisor, as [Z.modulo]. *)
Definition py_mod (a b : Z) : result Z :=
  if b =? 0 then Raise ZeroDivisionError else Ok (a mod b).

(** [a // b] on Python ints. *)
Definition py_floordiv (a b : Z) : result Z :=
  if b =? 0 then Raise ZeroDivisionError else Ok (a / b).

(** *** binary64 numbers *)

(** [floor(log2 q)] for a positive rational. *)
Definition ilog2 (q : Q) : Z :=
  let e := Z.log2 (Qnum q) - Z.log2 (Z.pos (Qden q)) in
  if Qle_bool (2 ^ e) q then e else e - 1.

(** The binary64 number nearest to [q], ties going to the even significand:
    [q] is rounded to a multiple of the unit in the last place of its
    binade, [2^(e - 52)] for [2^e <= |q| < 2^(e + 1)], and of [2^-1074] in
    the subnormal range.  Overflow is left to the caller. *)
Definition binary64_round (q : Q) : Q :=
  let q := Qred q in
  if Qeq_bool q 0 then 0%Q
  else
    let e := Z.max (ilog2 (Qabs q) - 52) (-1074) in
    (inject_Z (py_round (q / 2 ^ e)) * 2 ^ e)%Q.

(** [a / b] on Python ints: true division, the binary64 number nearest to
    the quotient of the two integers; past the largest float it is an
    [OverflowError]. *)
Definition py_truediv (a b : Z) : result Q :=
  if b =? 0 then Raise ZeroDivisionError
  else
    let q := binary64_round (inject_Z a / inject_Z b) in
    if Qle_bool (2 ^ 1024) (Qabs q) then Raise OverflowError else Ok q.

(** The rational a finite float stands for. *)
Definition float_to_Q (f : float) : option Q :=
  match Prim2SF f with
  | S754_zero _ => Some 0%Q
  | S754_finite s m e =>
      let v :=
        if 0 <=? e then inject_Z (Z.pos m * 2 ^ e)
        else Qmake (Z.pos m) (2 ^ Z.to_pos (- e)) in
      Some (if s then Qopp v else v)
  | S754_infinity _ => None
  | S754_nan => None
  end.

(** [float(z)] for an int, and the conversion of an int64 to float64: to
    nearest. *)
Definition float_of_Z (z : Z) : float :=
  SF2Prim (binary_normalize prec emax z 0 false).

(** Converting an infinity to an int is an [OverflowError], a NaN a
    [ValueError]. *)
Definition not_finite (x : float) : exn :=
  match Prim2SF x with
  | S754_nan => ValueError
  | _ => OverflowError
  end.

(** [int(round(x))] on a float. *)
Definition py_round_binary64 (x : float) : result Z :=
  match float_to_Q x with
  | Some q => Ok (py_round q)
  | None => Raise (not_finite x)
  end.

(** [1e-3], the float nearest to one thousandth. *)
Definition milli : float := 0x1.0624dd2f1a9fcp-10%float.

(** Two's complement wrap-around of a [w]-bit signed integer. *)
Definition wrap_signed (w : Z) (z : Z) : Z :=
  (z + 2 ^ (w - 1)) mod 2 ^ w - 2 ^ (w - 1).

Definition wrap64 : Z -> Z := wrap_signed 64.
Definition wrap32 : Z -> Z := wrap_signed 32.

(** [np.arange(start, stop, step)] on integers. *)
Definition np_arange (start stop step : Z) : list Z :=
  let len := Z.to_nat (- ((- (stop - start)) / step)) in
  map (fun i => start + Z.of_nat i * step) (seq 0 len).

(** ** The sorting object

    Only what the module reads from a [Sorting]: its sampling frequency, its
    unit ids, and the spike vector of each segment
    ([to_spike_vector(concatenated=False)]), whose records carry a
    [sample_index] and a [unit_index]. *)

Record Spike : Type := mkSpike { sample_index : Z; unit_index : Z }.

Record Sorting : Type := mkSorting {
  sampling_frequency : float;
  unit_ids : list Z;
  to_spike_vector : list (list Spike)
}.

Definition get_num_segments (sorting : Sorting) : nat :=
  length (to_spike_vector sorting).

(** ** The bin planner *)

Definition _make_bins (sorting : Sorting) (window_ms bin_ms : float)
  : result (list float * Z * Z) :=
  let fs := sampling_frequency sorting in
  window_size <- py_round_binary64 (fs * window_ms / 2 * milli)%float ;;
  bin_size <- py_round_binary64 (fs * bin_ms * milli)%float ;;
  r <- py_mod window_size bin_size ;;
  let window_size := window_size - r in
  q <- py_truediv window_size bin_size ;;
  let num_bins := 2 * py_int q in
  _ <- py_assert (1 <=? num_bins) ;;
  let bins :=
    map (fun k => (float_of_Z k * 1000 / fs)%float)
        (np_arange (- window_size) (window_size + bin_size) bin_size) in
  Ok (bins, window_size, bin_size).

Definition _compute_num_bins (window_size bin_size : Z) : result (Z * Z) :=
  num_half_bins <- py_floordiv window_size bin_size ;;
  let num_bins := 2 * num_half_bins in
  Ok (num_bins, num_half_bins).

(** ** numpy arrays *)

(** A 3-D int64 array: its shape and its flat buffer in C order. *)
Record ndarray3 : Type := mkArr3 {
  shape : nat * nat * nat;
  data : list Z
}.

Definition dim0 (a : ndarray3) : nat := fst (fst (shape a)).
Definition dim1 (a : ndarray3) : nat := snd (fst (shape a)).
Definition dim2 (a : ndarray3) : nat := snd (shape a).

(** [np.zeros((d0, d1, d2), dtype="int64")]; a negative dimension is a
    [ValueError]. *)
Definition np_zeros3 (d0 d1 : nat) (d2 : Z) : result ndarray3 :=
  if d2 <? 0 then Raise ValueError
  else Ok (mkArr3 (d0, d1, Z.to_nat d2) (repeat 0 (d0 * d1 * Z.to_nat d2))).

(** [np.zeros(n, dtype=np.int64)]. *)
Definition np_zeros1 (n : Z) : result (list Z) :=
  if n <? 0 then Raise ValueError else Ok (repeat 0 (Z.to_nat n)).

(** [a[:-shift]] for a positive [shift]; [a[:-0]] is [a[:0]], empty. *)
Definition slice_to_neg {A : Type} (shift : nat) (a : list A) : list A :=
  match shift with
  | O => []
  | _ => firstn (length a - shift) a
  end.

(** [a[shift:]]. *)
Definition slice_from {A : Type} (shift : nat) (a : list A) : list A :=
  skipn shift a.

(** Elementwise int64 operations on 1-D arrays of equal length. *)
Fixpoint np_sub (a b : list Z) : list Z :=
  match a, b with
  | x :: a', y :: b' => wrap64 (x - y) :: np_sub a' b'
  | _, _ => []
  end.

Definition np_mul_scalar (a : list Z) (s : Z) : list Z :=
  map (fun x => wrap64 (x * s)) a.

Definition np_add_scalar (a : list Z) (s : Z) : list Z :=
  map (fun x => wrap64 (x + s)) a.

(** [a // s] is [np.floor_divide]. *)
Definition np_floor_divide (a : list Z) (s : Z) : list Z :=
  map (fun x => x / s) a.

(** [a[:len(cond)][cond] = False] on a boolean array, in place: the entries
    of the slice where [cond] holds are cleared, the others and the
    remainder of [a] are kept. *)
Fixpoint mask_clear (a cond : list bool) : list bool :=
  match a, cond with
  | m :: a', c :: cond' => (if c then false else m) :: mask_clear a' cond'
  | _, _ => a
  end.

(** [a[m]] for a boolean array [m] of the length of [a]. *)
Fixpoint np_select {A : Type} (a : list A) (m : list bool) : list A :=
  match a, m with
  | x :: a', b :: m' => if b then x :: np_select a' m' else np_select a' m'
  | _, _ => []
  end.

(** [a.any()] on a boolean array. *)
Definition np_any (a : list bool) : bool := existsb (fun b => b) a.

(** [np.unique(a)] is only used for its length. *)
Definition np_unique (a : list Z) : list Z := nodup Z.eq_dec a.

(** [np.ravel_multi_index((i, j, k), shape)] with the default
    [mode="raise"]: a coordinate outside its dimension is a [ValueError]. *)
Definition ravel_one (shp : nat * nat * nat) (i j k : Z) : result Z :=
  let '(d0, d1, d2) := shp in
  if (0 <=? i) && (i <? Z.of_nat d0) && (0 <=? j) && (j <? Z.of_nat d1)
     && (0 <=? k) && (k <? Z.of_nat d2)
  then Ok ((i * Z.of_nat d1 + j) * Z.of_nat d2 + k)
  else Raise ValueError.

Fixpoint np_ravel_multi_index (i j k : list Z) (shp : nat * nat * nat)
  : result (list Z) :=
  match i, j, k with
  | x :: i', y :: j', z :: k' =>
      r <- ravel_one shp x y z ;;
      rs <- np_ravel_multi_index i' j' k' shp ;;
      Ok (r :: rs)
  | _, _, _ => Ok []
  end.

(** [np.bincount(x)] for non-negative [x]: one counter per value up to the
    largest one; empty for an empty [x]. *)
Definition np_bincount (x : list Z) : list Z :=
  match x with
  | [] => []
  | _ =>
      let top := fold_right Z.max 0 x in
      map (fun v => Z.of_nat (count_occ Z.eq_dec x (Z.of_nat v)))
          (seq 0 (S (Z.to_nat top)))
  end.

(** [buf[:len(b)] += b] on the flat buffer. *)
Fixpoint iadd_prefix (buf b : list Z) : result (list Z) :=
  match b with
  | [] => Ok buf
  | y :: b' =>
      match buf with
      | [] => Raise ValueError
      | x :: buf' =>
          r <- iadd_prefix buf' b' ;;
          Ok (wrap64 (x + y) :: r)
      end
  end.

(** [correlograms.ravel()[:len(bbins)] += bbins]: the array is contiguous, so
    [ravel] is a view and the update lands in [correlograms]. *)
Definition ravel_iadd_prefix (c : ndarray3) (bbins : list Z)
  : result ndarray3 :=
  d <- iadd_prefix (data c) bbins ;;
  Ok (mkArr3 (shape c) d).

(** [a += b] for 3-D arrays, with numpy's broadcasting of [b] to the shape
    of [a]: each dimension of [b] is that of [a] or 1, otherwise the
    operands cannot be broadcast ([ValueError]). *)
Definition broadcastable (da db : nat) : bool :=
  Nat.eqb db da || Nat.eqb db 1.

Definition bidx (db i : nat) : nat := if Nat.eqb db 1 then O else i.

Definition np_iadd3 (a b : ndarray3) : result ndarray3 :=
  let '(a0, a1, a2) := shape a in
  let '(b0, b1, b2) := shape b in
  if broadcastable a0 b0 && broadcastable a1 b1 && broadcastable a2 b2 then
    let cell (p : nat) : Z :=
      let k := Nat.modulo p a2 in
      let j := Nat.modulo (Nat.div p a2) a1 in
      let i := Nat.div (Nat.div p a2) a1 in
      nth ((bidx b0 i * b1 + bidx b1 j) * b2 + bidx b2 k)%nat (data b) 0 in
    Ok (mkArr3 (shape a)
          (map (fun '(p, x) => wrap64 (x + cell p))
               (combine (seq 0 (length (data a))) (data a))))
  else Raise ValueError.

(** Entry [a[i, j, k]]. *)
Definition get3 (a : ndarray3) (i j k : nat) : Z :=
  nth ((i * dim1 a + j) * dim2 a + k)%nat (data a) 0.

(** The bins [a[i, j, :]]. *)
Definition row3 (a : ndarray3) (i j : nat) : list Z :=
  firstn (dim2 a) (skipn ((i * dim1 a + j) * dim2 a) (data a)).

(** The sum of all entries. *)
Definition total (a : ndarray3) : Z := fold_right Z.add 0 (data a).

(** ** The numpy strategy *)

Definition times_of (spikes : list Spike) : list Z := map sample_index spikes.
Definition labels_of (spikes : list Spike) : list Z := map unit_index spikes.

(** One pass of the body of the [while] loop of
    [correlogram_for_one_segment], for one [sign]. *)
Definition sign_pass (spike_times spike_labels : list Z)
    (bin_size num_half_bins : Z) (shift : nat) (sign : Z)
    (st : list bool * ndarray3) : result (list bool * ndarray3) :=
  let '(mask, correlograms) := st in
  let spike_diff :=
    np_sub (slice_from shift spike_times) (slice_to_neg shift spike_times) in
  let spike_diff_b :=
    np_floor_divide (np_mul_scalar spike_diff sign) bin_size in
  let mask :=
    if sign =? -1
    then mask_clear mask (map (fun b => b <? - num_half_bins) spike_diff_b)
    else mask_clear mask (map (fun b => b >=? num_half_bins) spike_diff_b) in
  let m := slice_to_neg shift mask in
  indices <-
    (if sign =? 1 then
       np_ravel_multi_index
         (np_select (slice_from shift spike_labels) m)
         (np_select (slice_to_neg shift spike_labels) m)
         (np_add_scalar (np_select spike_diff_b m) num_half_bins)
         (shape correlograms)
     else
       np_ravel_multi_index
         (np_select (slice_to_neg shift spike_labels) m)
         (np_select (slice_from shift spike_labels) m)
         (np_add_scalar (np_select spike_diff_b m) num_half_bins)
         (shape correlograms)) ;;
  let bbins := np_bincount indices in
  correlograms <- ravel_iadd_prefix correlograms bbins ;;
  Ok (mask, correlograms).

(** The [while mask[:-shift].any()] loop.  [mask[:-shift]] is empty as soon
    as [shift] reaches the number of spikes, so the loop runs at most that
    many times: [fuel] is only the structural argument, and
    [shift_loop_fuel] below shows that it is never what stops the loop. *)
Fixpoint shift_loop (fuel : nat) (spike_times spike_labels : list Z)
    (bin_size num_half_bins : Z) (shift : nat)
    (st : list bool * ndarray3) : result ndarray3 :=
  if np_any (slice_to_neg shift (fst st)) then
    match fuel with
    | O => Ok (snd st)
    | S fuel' =>
        st <- sign_pass spike_times spike_labels bin_size num_half_bins
                shift (-1) st ;;
        st <- sign_pass spike_times spike_labels bin_size num_half_bins
                shift 1 st ;;
        shift_loop fuel' spike_times spike_labels bin_size num_half_bins
          (S shift) st
    end
  else Ok (snd st).

Definition correlogram_for_one_segment (spike_times spike_labels : list Z)
    (window_size bin_size : Z) : result ndarray3 :=
  '(num_bins, num_half_bins) <- _compute_num_bins window_size bin_size ;;
  let num_units := length (np_unique spike_labels) in
  correlograms <- np_zeros3 num_units num_units num_bins ;;
  let mask := repeat true (length spike_times) in
  shift_loop (length spike_times) spike_times spike_labels bin_size
    num_half_bins 1 (mask, correlograms).

(** The loop over the segments of [compute_correlograms_numpy]. *)
Fixpoint numpy_segments (segs : list (list Spike)) (window_size bin_size : Z)
    (correlograms : ndarray3) : result ndarray3 :=
  match segs with
  | [] => Ok correlograms
  | seg :: segs' =>
      let spike_times := times_of seg in
      let spike_labels := labels_of seg in
      c0 <- correlogram_for_one_segment spike_times spike_labels
              window_size bin_size ;;
      correlograms <- np_iadd3 correlograms c0 ;;
      numpy_segments segs' window_size bin_size correlograms
  end.

Definition compute_correlograms_numpy (sorting : Sorting)
    (window_size bin_size : Z) : result ndarray3 :=
  let num_units := length (unit_ids sorting) in
  let spikes := to_spike_vector sorting in
  '(num_bins, num_half_bins) <- _compute_num_bins window_size bin_size ;;
  correlograms <- np_zeros3 num_units num_units num_bins ;;
  numpy_segments spikes window_size bin_size correlograms.

(** ** The numba strategy *)

(** [a[k] += 1] in a function compiled by numba in nopython mode: a negative
    index counts from the end, and no bounds check is made, so an index
    outside the buffer is a stray write; the model stops there with
    [OutOfBounds]. *)
Fixpoint incr_nth (a : list Z) (n : nat) : list Z :=
  match a, n with
  | [], _ => []
  | x :: a', O => wrap64 (x + 1) :: a'
  | x :: a', S n' => x :: incr_nth a' n'
  end.

Definition wraparound (len k : Z) : Z := if k <? 0 then k + len else k.

Definition numba_incr (a : list Z) (k : Z) : result (list Z) :=
  let len := Z.of_nat (length a) in
  let k := wraparound len k in
  if (0 <=? k) && (k <? len) then Ok (incr_nth a (Z.to_nat k))
  else Raise OutOfBounds.

(** [int(math.floor(x / bin_size))] on int64 operands: both are converted
    to float64, the quotient is a float64, and its floor is converted back
    to int64.  The floor is outside int64 only at 2^63, where the conversion
    gives the smallest int64.  (A [bin_size] of 0 never comes here: the
    [window_size // bin_size] that opens each function raises first.) *)
Definition floor_div (x bin_size : Z) : Z :=
  wrap64
    (Qfloor
       (binary64_round
          (binary64_round (inject_Z x)
           / binary64_round (inject_Z bin_size)))).

Section Autocorr.
Variables (window_size bin_size num_half_bins : Z).

(** [for j in range(i + 1, len(spike_times))], given [spike_times[i]] and
    the spikes after it. *)
Fixpoint autocorr_inner (ti : Z) (later : list Z) (auto_corr : list Z)
  : result (list Z) :=
  match later with
  | [] => Ok auto_corr
  | tj :: later' =>
      let diff := wrap64 (tj - ti) in
      if diff >? window_size then Ok auto_corr
      else
        let bin := floor_div diff bin_size in
        auto_corr <- numba_incr auto_corr (num_half_bins + bin) ;;
        let bin := floor_div (wrap64 (- diff)) bin_size in
        auto_corr <- numba_incr auto_corr (num_half_bins + bin) ;;
        autocorr_inner ti later' auto_corr
  end.

(** [for i in range(len(spike_times))]. *)
Fixpoint autocorr_outer (spike_times : list Z) (auto_corr : list Z)
  : result (list Z) :=
  match spike_times with
  | [] => Ok auto_corr
  | ti :: later =>
      auto_corr <- autocorr_inner ti later auto_corr ;;
      autocorr_outer later auto_corr
  end.
End Autocorr.

Definition _compute_autocorr_numba (spike_times : list Z)
    (window_size bin_size : Z) : result (list Z) :=
  num_half_bins <- py_floordiv window_size bin_size ;;
  let num_bins := 2 * num_half_bins in
  auto_corr <- np_zeros1 num_bins ;;
  autocorr_outer window_size bin_size num_half_bins spike_times auto_corr.

Section Crosscorr.
Variables (window_size bin_size num_half_bins : Z).

(** [for j in range(start_j, len(spike_times2))], over the spikes of the
    second train from the [start_j] read when the loop starts; the state
    is the running [start_j] and [cross_corr]. *)
Fixpoint crosscorr_inner (ti : Z) (from_start : list Z)
    (st : nat * list Z) : result (nat * list Z) :=
  match from_start with
  | [] => Ok st
  | tj :: rest =>
      let '(start_j, cross_corr) := st in
      let diff := wrap64 (ti - tj) in
      if diff >=? window_size then
        crosscorr_inner ti rest (S start_j, cross_corr)
      else if diff <? - window_size then Ok st
      else
        let bin := floor_div diff bin_size in
        cross_corr <- numba_incr cross_corr (num_half_bins + bin) ;;
        crosscorr_inner ti rest (start_j, cross_corr)
  end.

(** [for i in range(len(spike_times1))]. *)
Fixpoint crosscorr_outer (spike_times1 spike_times2 : list Z)
    (st : nat * list Z) : result (list Z) :=
  match spike_times1 with
  | [] => Ok (snd st)
  | ti :: rest =>
      st <- crosscorr_inner ti (slice_from (fst st) spike_times2) st ;;
      crosscorr_outer rest spike_times2 st
  end.
End Crosscorr.

Definition _compute_crosscorr_numba (spike_times1 spike_times2 : list Z)
    (window_size bin_size : Z) : result (list Z) :=
  num_half_bins <- py_floordiv window_size bin_size ;;
  let num_bins := 2 * num_half_bins in
  cross_corr <- np_zeros1 num_bins ;;
  crosscorr_outer window_size bin_size num_half_bins
    spike_times1 spike_times2 (O, cross_corr).

(** [correlograms[i, j, :] += v]: [v] must have the length of the last
    axis. *)
Fixpoint iadd_at (buf : list Z) (off : nat) (v : list Z) : list Z :=
  match off, buf with
  | _, [] => []
  | S off', x :: buf' => x :: iadd_at buf' off' v
  | O, x :: buf' =>
      match v with
      | [] => buf
      | y :: v' => wrap64 (x + y) :: iadd_at buf' O v'
      end
  end.

Definition iadd_row (c : ndarray3) (i j : nat) (v : list Z)
  : result ndarray3 :=
  if Nat.eqb (length v) (dim2 c) && Nat.ltb i (dim0 c) && Nat.ltb j (dim1 c)
  then Ok (mkArr3 (shape c)
             (iadd_at (data c) ((i * dim1 c + j) * dim2 c)%nat v))
  else Raise ValueError.

(** [spike_times[spike_labels == i]]. *)
Definition times_of_unit (spike_times spike_labels : list Z) (i : nat)
  : list Z :=
  np_select spike_times (map (fun l => l =? Z.of_nat i) spike_labels).

Section CorrelogramsNumba.
Variables (spike_times spike_labels : list Z) (window_size bin_size : Z).

(** [for j in range(i, n_units)], over the list of those [j]. *)
Fixpoint numba_units_inner (i : nat) (js : list nat)
    (correlograms : ndarray3) : result ndarray3 :=
  match js with
  | [] => Ok correlograms
  | j :: js' =>
      let spike_times1 := times_of_unit spike_times spike_labels i in
      let spike_times2 := times_of_unit spike_times spike_labels j in
      correlograms <-
        (if Nat.eqb i j then
           ac <- _compute_autocorr_numba spike_times1
                   window_size bin_size ;;
           iadd_row correlograms i j ac
         else
           cc <- _compute_crosscorr_numba spike_times1 spike_times2
                   window_size bin_size ;;
           correlograms <- iadd_row correlograms i j cc ;;
           iadd_row correlograms j i (rev cc)) ;;
      numba_units_inner i js' correlograms
  end.

(** [for i in numba.prange(n_units)]: the iterations write disjoint rows,
    so their order does not matter; they are run in increasing order. *)
Fixpoint numba_units_outer (n_units : nat) (units : list nat)
    (correlograms : ndarray3) : result ndarray3 :=
  match units with
  | [] => Ok correlograms
  | i :: units' =>
      correlograms <-
        numba_units_inner i (seq i (n_units - i)) correlograms ;;
      numba_units_outer n_units units' correlograms
  end.
End CorrelogramsNumba.

Definition _compute_correlograms_numba (correlograms : ndarray3)
    (spike_times spike_labels : list Z) (window_size bin_size : Z)
  : result ndarray3 :=
  let n_units := dim0 correlograms in
  numba_units_outer spike_times spike_labels window_size bin_size
    n_units (seq 0 n_units) correlograms.

(** The loop over the segments of [compute_correlograms_numba]; the call
    of [_compute_correlograms_one_segment_numba] under [if False] never
    runs. *)
Fixpoint numba_segments (segs : list (list Spike)) (window_size bin_size : Z)
    (correlograms : ndarray3) : result ndarray3 :=
  match segs with
  | [] => Ok correlograms
  | seg :: segs' =>
      let spike_times := times_of seg in
      let spike_labels := labels_of seg in
      correlograms <-
        _compute_correlograms_numba correlograms
          (map wrap64 spike_times) (map wrap32 spike_labels)
          window_size bin_size ;;
      numba_segments segs' window_size bin_size correlograms
  end.

(** [HAVE_NUMBA] is the module-level flag set by the guarded [import numba];
    it is a parameter of every function that reads it. *)
Definition compute_correlograms_numba (HAVE_NUMBA : bool) (sorting : Sorting)
    (window_size bin_size : Z) : result ndarray3 :=
  _ <- py_assert HAVE_NUMBA ;;
  '(num_bins, num_half_bins) <- _compute_num_bins window_size bin_size ;;
  let num_units := length (unit_ids sorting) in
  let spikes := to_spike_vector sorting in
  correlograms <- np_zeros3 num_units num_units num_bins ;;
  numba_segments spikes window_size bin_size correlograms.

(** ** The entry point *)

Open Scope string_scope.

Definition method_in (method : string) (l : list string) : bool :=
  existsb (String.eqb method) l.

Definition compute_correlograms_on_sorting (HAVE_NUMBA : bool)
    (sorting : Sorting) (window_ms bin_ms : float) (method : string)
  : result (ndarray3 * list float) :=
  _ <- py_assert (method_in method ["auto"; "numba"; "numpy"]) ;;
  let method :=
    if String.eqb method "auto"
    then (if HAVE_NUMBA then "numba" else "numpy")
    else method in
  '(bins, window_size, bin_size) <- _make_bins sorting window_ms bin_ms ;;
  let correlograms : option ndarray3 := None in
  correlograms <-
    (if String.eqb method "numpy"
     then c <- compute_correlograms_numpy sorting window_size bin_size ;;
          Ok (Some c)
     else Ok correlograms) ;;
  correlograms <-
    (if String.eqb method "numba"
     then c <- compute_correlograms_numba HAVE_NUMBA sorting
                 window_size bin_size ;;
          Ok (Some c)
     else Ok correlograms) ;;
  match correlograms with
  | Some c => Ok (c, bins)
  | None => Raise UnboundLocalError
  end.

Close Scope string_scope.

(** ** The spike-train functions kept for backwards compatibility

    [compute_autocorrelogram_from_spiketrain] and
    [compute_crosscorrelogram_from_spiketrain] call
    [_compute_correlograms_one_segment_numba] positionally.  To model the
    call itself - Python binds the positional arguments to the parameters
    before the body runs, and a wrong count is a [TypeError] - the callee
    takes the list of the values it is applied to. *)

Inductive pyval : Type :=
| PyArr3 (a : ndarray3)
| PyArr1 (a : list Z)
| PyInt (z : Z).

(** [c[i, j, k] += 1] on a numpy array from plain Python: each negative
    index counts from the end of its axis, and an index outside it is an
    [IndexError]. *)
Definition py_axis (d : nat) (k : Z) : result nat :=
  let k := wraparound (Z.of_nat d) k in
  if (0 <=? k) && (k <? Z.of_nat d) then Ok (Z.to_nat k)
  else Raise IndexError.

Definition py_incr3 (c : ndarray3) (i j k : Z) : result ndarray3 :=
  i <- py_axis (dim0 c) i ;;
  j <- py_axis (dim1 c) j ;;
  k <- py_axis (dim2 c) k ;;
  Ok (mkArr3 (shape c)
        (incr_nth (data c) ((i * dim1 c + j) * dim2 c + k)%nat)).

Section OneSegment.
Variables (window_size bin_size num_half_bins : Z).

(** [for j in range(start_j, spike_times.size)], over the spikes from
    position [j] on; [ti], [li] are the time and label of spike [i]. *)
Fixpoint one_segment_inner (i : nat) (ti li : Z) (j : nat)
    (from_j : list (Z * Z)) (st : nat * ndarray3)
  : result (nat * ndarray3) :=
  match from_j with
  | [] => Ok st
  | (tj, lj) :: rest =>
      let '(start_j, correlograms) := st in
      if Nat.eqb i j then one_segment_inner i ti li (S j) rest st
      else
        let diff := wrap64 (ti - tj) in
        if diff =? window_size then
          one_segment_inner i ti li (S j) rest st
        else if diff >? window_size then
          one_segment_inner i ti li (S j) rest (S start_j, correlograms)
        else if diff <? - window_size then Ok st
        else
          let bin := diff / bin_size in
          correlograms <-
            py_incr3 correlograms li lj (num_half_bins + bin) ;;
          one_segment_inner i ti li (S j) rest (start_j, correlograms)
  end.

(** [for i in range(spike_times.size)], over the spikes from position [i]
    on; [all] is the whole segment. *)
Fixpoint one_segment_outer (all : list (Z * Z)) (i : nat)
    (from_i : list (Z * Z)) (st : nat * ndarray3) : result ndarray3 :=
  match from_i with
  | [] => Ok (snd st)
  | (ti, li) :: rest =>
      st <- one_segment_inner i ti li (fst st)
              (slice_from (fst st) all) st ;;
      one_segment_outer all (S i) rest st
  end.
End OneSegment.

(** The function fills [correlograms] in place; the model returns the
    filled array. *)
Definition _compute_correlograms_one_segment_numba (args : list pyval)
  : result ndarray3 :=
  match args with
  | [correlograms; spike_times; spike_labels; window_size; bin_size;
     num_half_bins] =>
      match correlograms, spike_times, spike_labels, window_size, bin_size,
            num_half_bins with
      | PyArr3 c, PyArr1 t, PyArr1 l, PyInt w, PyInt b, PyInt h =>
          let spikes := combine t l in
          one_segment_outer w b h spikes O spikes (O, c)
      | _, _, _, _, _, _ => Raise TypeError
      end
  | _ => Raise TypeError
  end.

(** [a.astype(np.int64)]. *)
Definition astype_int64 (a : list Z) : list Z := map wrap64 a.

Definition compute_autocorrelogram_from_spiketrain (HAVE_NUMBA : bool)
    (spike_times : list Z) (window_size bin_size : Z) : result ndarray3 :=
  _ <- py_assert HAVE_NUMBA ;;
  _compute_correlograms_one_segment_numba
    [PyArr1 (astype_int64 spike_times); PyInt window_size; PyInt bin_size].

Definition compute_crosscorrelogram_from_spiketrain (HAVE_NUMBA : bool)
    (spike_times1 spike_times2 : list Z) (window_size bin_size : Z)
  : result ndarray3 :=
  _ <- py_assert HAVE_NUMBA ;;
  _compute_correlograms_one_segment_numba
    [PyArr1 (astype_int64 spike_times1); PyArr1 (astype_int64 spike_times2);
     PyInt window_size; PyInt bin_size].

(** ** What the specification says

    The geometry, in the words of the specification, and the inputs it calls
    valid. *)

Definition spec_bin_size (sampling_rate bin_ms : Q) : Z :=
  py_round (sampling_rate * bin_ms / 1000)%Q.

(** The rounded half window, truncated down to a multiple of the bin. *)
Definition spec_window_size (sampling_rate window_ms bin_ms : Q) : Z :=
  let w := py_round (sampling_rate * window_ms / 2 / 1000)%Q in
  let b := spec_bin_size sampling_rate bin_ms in
  b * (w / b).

Definition spec_num_bins (sampling_rate window_ms bin_ms : Q) : Z :=
  2 * (spec_window_size sampling_rate window_ms bin_ms
       / spec_bin_size sampling_rate bin_ms).

(** The same steps read in binary64, each operation rounded, with the
    division by 1000 the specification writes where the code multiplies by
    [1e-3]. *)
Definition spec_bin_size_binary64 (sampling_rate bin_ms : float) : result Z :=
  py_round_binary64 (sampling_rate * bin_ms / 1000)%float.

Definition spec_window_size_binary64 (sampling_rate window_ms bin_ms : float)
  : result Z :=
  w <- py_round_binary64 (sampling_rate * window_ms / 2 / 1000)%float ;;
  b <- spec_bin_size_binary64 sampling_rate bin_ms ;;
  r <- py_mod w b ;;
  Ok (w - r).

Definition spec_num_bins_binary64 (sampling_rate window_ms bin_ms : float)
  : result Z :=
  w <- spec_window_size_binary64 sampling_rate window_ms bin_ms ;;
  b <- spec_bin_size_binary64 sampling_rate bin_ms ;;
  q <- py_floordiv w b ;;
  Ok (2 * q).

Fixpoint sortedb (l : list Z) : bool :=
  match l with
  | x :: (y :: _) as l' => (x <=? y) && sortedb l'
  | _ => true
  end.

(** A segment is valid when its events are in ascending time order, at
    non-negative int64 sample indices, and its labels cover exactly
    [0 .. num_units - 1]. *)
Definition valid_segment (num_units : nat) (seg : list Spike) : bool :=
  sortedb (times_of seg)
  && forallb (fun t => (0 <=? t) && (t <? 2 ^ 62)) (times_of seg)
  && forallb (fun l => (0 <=? l) && (l <? Z.of_nat num_units)) (labels_of seg)
  && forallb (fun u => existsb (fun l => l =? Z.of_nat u) (labels_of seg))
       (seq 0 num_units).

Definition valid_sorting (sorting : Sorting) : bool :=
  forallb (valid_segment (length (unit_ids sorting)))
    (to_spike_vector sorting).

(** The ordered pairs of distinct events of a segment whose signed time
    difference lies in (-window_size, window_size]. *)
Definition pairs_in_window (window_size : Z) (seg : list Spike) : Z :=
  let ts := combine (seq 0 (length seg)) (times_of seg) in
  Z.of_nat
    (length
       (filter
          (fun '((i, ti), (j, tj)) =>
             negb (Nat.eqb i j)
             && (- window_size <? tj - ti) && (tj - ti <=? window_size))
          (list_prod ts ts))).

Definition pairs_in_window_all (window_size : Z) (sorting : Sorting) : Z :=
  fold_right Z.add 0
    (map (pairs_in_window window_size) (to_spike_vector sorting)).

(** Mirror symmetry of a tensor: reversing the bins of [A, B] gives the bins
    of [B, A]. *)
Definition mirror_symmetric (c : ndarray3) : bool :=
  forallb
    (fun a =>
       forallb
         (fun b =>
            if list_eq_dec Z.eq_dec (rev (row3 c a b)) (row3 c b a)
            then true else false)
         (seq 0 (dim1 c)))
    (seq 0 (dim0 c)).

(** ** Inputs used in the properties below *)

(** A sorting with every spike moved by [t] samples. *)
Definition shift_segment (t : Z) (seg : list Spike) : list Spike :=
  map (fun s => mkSpike (sample_index s + t) (unit_index s)) seg.

Definition shift_sorting (t : Z) (sorting : Sorting) : Sorting :=
  mkSorting (sampling_frequency sorting) (unit_ids sorting)
    (map (shift_segment t) (to_spike_vector sorting)).

(** The numba strategy converts the times to int64 first; the converted
    times of a shifted segment and of the original one differ by the shift,
    modulo 2^64. *)
Definition shifted64 (t x y : Z) : Prop := exists k, x = y + t + k * 2 ^ 64.

(** One unit with two spikes, at [t] and [d] samples later, recorded at
    30 kHz. *)
Definition pair_apart (t d : Z) : Sorting :=
  mkSorting 30000 [0] [[mkSpike t 0; mkSpike (t + d) 0]].

Definition one_unit_two_spikes : Sorting :=
  mkSorting 30000 [0] [[mkSpike 0 0; mkSpike 10 0]].

Definition simultaneous_pair : Sorting :=
  mkSorting 30000 [0; 1] [[mkSpike 0 0; mkSpike 0 1]].

Definition one_bin_apart : Sorting :=
  mkSorting 30000 [0] [[mkSpike 0 0; mkSpike 30 0]].

Definition one_bin_less_apart : Sorting :=
  mkSorting 30000 [0] [[mkSpike 0 0; mkSpike 29 0]].

Definition window_apart_units : Sorting :=
  mkSorting 30000 [0; 1] [[mkSpike 0 1; mkSpike 30 0]].

Definition window_apart_ties : Sorting :=
  mkSorting 30000 [0] [[mkSpike 0 0; mkSpike 30 0; mkSpike 30 0]].

Definition two_silent_units : Sorting := mkSorting 30000 [0; 1] [[]].

(** [P ti tj] for every spike [ti] of a train and every later spike [tj]. *)
Fixpoint all_later (P : Z -> Z -> Prop) (times : list Z) : Prop :=
  match times with
  | [] => True
  | ti :: later => Forall (P ti) later /\ all_later P later
  end.

(** The later spike is not before the earlier one, and not exactly
    [window_size] after it. *)
Definition lag_ok (window_size ti tj : Z) : Prop :=
  0 <= tj - ti < 2 ^ 62 /\ tj - ti <> window_size.

(** A sorting none of whose segments has an event. *)
Definition silent (sorting : Sorting) : Prop :=
  Forall (fun seg => seg = []) (to_spike_vector sorting).

(** The all-zero tensor of [num_units] units and [num_bins] bins. *)
Definition zeros3 (num_units : nat) (num_bins : Z) : ndarray3 :=
  mkArr3 (num_units, num_units, Z.to_nat num_bins)
    (repeat 0 (num_units * num_units * Z.to_nat num_bins)).

(** ** Definitions used in the further properties *)

(** The edge, in milliseconds, at [k] samples from zero lag, as the
    planner computes it. *)
Definition edge (fs : float) (k : Z) : float :=
  (float_of_Z k * 1000 / fs)%float.


(** Some spike of the train has a later spike exactly [window_size] after
    it. *)
Fixpoint has_lag (window_size : Z) (times : list Z) : bool :=
  match times with
  | [] => false
  | ti :: later =>
      existsb (fun tj => tj - ti =? window_size) later
      || has_lag window_size later
  end.

(** The later spike is not before the earlier one, and less than 2^62
    samples after it. *)
Definition lag_bounded (ti tj : Z) : Prop := 0 <= tj - ti < 2 ^ 62.

(** The buffer of a tensor has one cell per index. *)
Definition well_formed (c : ndarray3) : Prop :=
  length (data c) = (dim0 c * dim1 c * dim2 c)%nat.

(** The tensor is square, its buffer complete, and off the diagonal the row
    of (B, A) is the row of (A, B) read backwards. *)
Definition mirrored_off_diagonal (n nb : nat) (c : ndarray3) : Prop :=
  shape c = (n, n, nb)
  /\ well_formed c
  /\ forall i j k,
       (i < n)%nat -> (j < n)%nat -> i <> j -> (k < nb)%nat ->
       get3 c j i k = get3 c i j (nb - 1 - k).

(** The lag [ti - tj] lies in the window [-window_size, window_size) and
    its bin is the [k]-th one. *)
Definition lag_in_bin (window_size bin_size : Z) (k : nat) (ti tj : Z)
  : bool :=
  (- window_size <=? ti - tj) && (ti - tj <? window_size)
  && (window_size / bin_size + (ti - tj) / bin_size =? Z.of_nat k).

(** The number of pairs of a spike of the first train and a spike of the
    second one that satisfy [P]. *)
Definition count_pairs (P : Z -> Z -> bool) (times1 times2 : list Z) : nat :=
  length (filter (fun p => P (fst p) (snd p)) (list_prod times1 times2)).

(** The array holds the counts [f], as int64 counters do. *)
Definition holds_counts (a : list Z) (f : nat -> nat) : Prop :=
  forall k, (k < length a)%nat -> nth k a 0 = wrap64 (Z.of_nat (f k)).

(** The number of pairs of a spike of the train and a later one that
    satisfy [P]. *)
Fixpoint count_later (P : Z -> Z -> bool) (times : list Z) : nat :=
  match times with
  | [] => O
  | ti :: later => (length (filter (P ti) later) + count_later P later)%nat
  end.

(** The number of ordered pairs of two different spikes of the train (two
    positions, whatever their times) that satisfy [P]. *)
Definition count_distinct (P : Z -> Z -> bool) (times : list Z) : nat :=
  (count_later P times + count_later (fun ti tj => P tj ti) times)%nat.

(** The spike times of unit [i] in a segment. *)
Definition train (seg : list Spike) (i : nat) : list Z :=
  map sample_index (filter (fun s => unit_index s =? Z.of_nat i) seg).

(** A segment in time order, with sample indices in [0, 2^62) and int32
    unit indices. *)
Definition ordered_segment (seg : list Spike) : Prop :=
  all_later Z.le (times_of seg)
  /\ Forall (fun t => 0 <= t < 2 ^ 62) (times_of seg)
  /\ Forall (fun l => - 2 ^ 31 <= l < 2 ^ 31) (labels_of seg).

(** The pairs of a spike of unit [a] and a spike of unit [b] of a segment
    whose lag falls in bin [k]; for [a = b], the pairs of two different
    spikes of the unit. *)
Definition pairs_in_bin (window_size bin_size : Z) (a b k : nat)
    (seg : list Spike) : nat :=
  if Nat.eqb a b
  then count_distinct (lag_in_bin window_size bin_size k) (train seg a)
  else count_pairs (lag_in_bin window_size bin_size k)
         (train seg a) (train seg b).

Definition pairs_in_bin_all (window_size bin_size : Z) (a b k : nat)
    (segs : list (list Spike)) : nat :=
  list_sum (map (pairs_in_bin window_size bin_size a b k) segs).

(** On and above the diagonal, the cells of the tensor hold the counts
    [F], as int64 counters do. *)
Definition tensor_counts (n nb : nat) (c : ndarray3)
    (F : nat -> nat -> nat -> nat) : Prop :=
  shape c = (n, n, nb)
  /\ well_formed c
  /\ forall a b k,
       (a <= b)%nat -> (b < n)%nat -> (k < nb)%nat ->
       get3 c a b k = wrap64 (Z.of_nat (F a b k)).

(** The pairs of a spike and the spike [shift] places later in the
    segment: the pairs one round of the loop of the numpy strategy
    compares. *)
Definition pairs_at (shift : nat) (seg : list Spike) : list (Spike * Spike) :=
  combine seg (skipn shift seg).

(** The binarized delay of a pair for one sign. *)
Definition pair_bin (bin_size sign : Z) (p : Spike * Spike) : Z :=
  wrap64 (wrap64 (sample_index (snd p) - sample_index (fst p)) * sign)
  / bin_size.

(** The test that clears the mask of the earlier spike of a pair. *)
Definition pair_cleared (bin_size num_half_bins sign : Z)
    (p : Spike * Spike) : bool :=
  if sign =? -1 then pair_bin bin_size sign p <? - num_half_bins
  else pair_bin bin_size sign p >=? num_half_bins.

(** The cell a pair is counted in. *)
Definition pair_cell (bin_size num_half_bins sign : Z) (p : Spike * Spike)
  : Z * Z * Z :=
  if sign =? 1
  then (unit_index (snd p), unit_index (fst p),
        wrap64 (pair_bin bin_size sign p + num_half_bins))
  else (unit_index (fst p), unit_index (snd p),
        wrap64 (pair_bin bin_size sign p + num_half_bins)).

Fixpoint ravel_cells (shp : nat * nat * nat) (cells : list (Z * Z * Z))
  : result (list Z) :=
  match cells with
  | [] => Ok []
  | (x, y, z) :: cells' =>
      r <- ravel_one shp x y z ;;
      rs <- ravel_cells shp cells' ;;
      Ok (r :: rs)
  end.

(** Every cell of the tensor holds the count [F], as int64 counters do. *)
Definition tensor_holds (n nb : nat) (c : ndarray3)
    (F : nat -> nat -> nat -> nat) : Prop :=
  shape c = (n, n, nb)
  /\ well_formed c
  /\ forall a b k,
       (a < n)%nat -> (b < n)%nat -> (k < nb)%nat ->
       get3 c a b k = wrap64 (Z.of_nat (F a b k)).

Definition cell_is (a b k : nat) (cl : Z * Z * Z) : bool :=
  let '(x, y, z) := cl in
  (x =? Z.of_nat a) && (y =? Z.of_nat b) && (z =? Z.of_nat k).

Definition cell_in_range (n nb : nat) (cl : Z * Z * Z) : Prop :=
  let '(x, y, z) := cl in
  0 <= x < Z.of_nat n /\ 0 <= y < Z.of_nat n /\ 0 <= z < Z.of_nat nb.

(** The position of a cell in the flat buffer. *)
Definition flat_cell (n nb : nat) (cl : Z * Z * Z) : Z :=
  let '(x, y, z) := cl in (x * Z.of_nat n + y) * Z.of_nat nb + z.

(** [R x y] for every spike [x] of a segment and every later spike [y]. *)
Fixpoint each_later (R : Spike -> Spike -> Prop) (seg : list Spike) : Prop :=
  match seg with
  | [] => True
  | x :: later => Forall (R x) later /\ each_later R later
  end.

(** The later spike is not before the earlier one, less than 2^62 samples
    after it, and not exactly [window_size] after it. *)
Definition apart (window_size : Z) (x y : Spike) : Prop :=
  0 <= sample_index y - sample_index x < 2 ^ 62
  /\ sample_index y - sample_index x <> window_size.

(** The later spike of the pair is less than [window_size] after the
    earlier one. *)
Definition in_window (window_size : Z) (p : Spike * Spike) : bool :=
  sample_index (snd p) - sample_index (fst p) <? window_size.

(** The mask of every spike with a partner inside the window is still
    set. *)
Definition mask_keeps (window_size : Z) (mask : list bool)
    (pairs : list (Spike * Spike)) : Prop :=
  Forall (fun bp => in_window window_size (snd bp) = true -> fst bp = true)
    (combine mask pairs).

(** The sum of [G] over [fuel] rounds from round [s]. *)
Fixpoint sum_rounds (G : nat -> nat) (fuel s : nat) : nat :=
  match fuel with
  | O => O
  | S fuel' => (G s + sum_rounds G fuel' (S s))%nat
  end.

(** The cells one pass of round [s] counts: one per pair inside the
    window. *)
Definition round_cells (window_size bin_size sign : Z) (seg : list Spike)
    (s : nat) : list (Z * Z * Z) :=
  map (pair_cell bin_size (window_size / bin_size) sign)
    (filter (in_window window_size) (pairs_at (S s) seg)).

Definition round_count (window_size bin_size : Z) (seg : list Spike)
    (a b k s : nat) : nat :=
  (length (filter (cell_is a b k)
             (round_cells window_size bin_size (-1) seg s))
   + length (filter (cell_is a b k)
               (round_cells window_size bin_size 1 seg s)))%nat.

(** The number of pairs of a spike of the segment and a later one that
    satisfy [P]. *)
Fixpoint count_later_spikes (P : Spike -> Spike -> bool) (seg : list Spike)
  : nat :=
  match seg with
  | [] => O
  | x :: later =>
      (length (filter (P x) later) + count_later_spikes P later)%nat
  end.

(** Spike [x] is of unit [a], spike [y] of unit [b], and the lag between
    them falls in bin [k]. *)
Definition spike_lag_in_bin (window_size bin_size : Z) (a b k : nat)
    (x y : Spike) : bool :=
  (unit_index x =? Z.of_nat a) && (unit_index y =? Z.of_nat b)
  && lag_in_bin window_size bin_size k (sample_index x) (sample_index y).

(** The lag [ti - tj], in samples, lies in [lo, hi). *)
Definition lag_between (lo hi : Z) (ti tj : Z) : bool :=
  (lo <=? ti - tj) && (ti - tj <? hi).

(** The pairs of a spike of unit [a] and a spike of unit [b] of a segment
    whose lag in samples lies in [lo, hi); for [a = b], the pairs of two
    different spikes of the unit. *)
Definition pairs_between (lo hi : Z) (a b : nat) (seg : list Spike)
  : nat :=
  if Nat.eqb a b
  then count_distinct (lag_between lo hi) (train seg a)
  else count_pairs (lag_between lo hi) (train seg a) (train seg b).

Definition pairs_between_all (lo hi : Z) (a b : nat)
    (segs : list (list Spike)) : nat :=
  list_sum (map (pairs_between lo hi a b) segs).

(** A spike as the pair of its time and its label. *)
Definition spike_pair (s : Spike) : Z * Z := (sample_index s, unit_index s).

(** The spikes from position [j] on, other than spike [i], that satisfy
    [P]. *)
Fixpoint partners (P : Spike -> bool) (i j : nat) (from_j : list Spike)
  : nat :=
  match from_j with
  | [] => O
  | y :: rest =>
      ((if Nat.eqb i j then O else if P y then 1 else O)
       + partners P i (S j) rest)%nat
  end.

(** For every spike from position [i] on, its partners in the whole
    segment. *)
Fixpoint sum_partners (R : Spike -> Spike -> bool) (all : list Spike)
    (i : nat) (from_i : list Spike) : nat :=
  match from_i with
  | [] => O
  | x :: rest =>
      (partners (R x) i O all + sum_partners R all (S i) rest)%nat
  end.

(** The lag [t_x - t_y] lies in the window [-window_size, window_size). *)
Definition spike_lag_in_window (window_size : Z) (x y : Spike) : bool :=
  (- window_size <=? sample_index x - sample_index y)
  && (sample_index x - sample_index y <? window_size).

(** The position in the flat buffer of the cell a pair is counted in;
    [n * n * nb], past the end, for a pair outside the window. *)
Definition pair_position (window_size bin_size : Z) (n nb : nat)
    (x y : Spike) : nat :=
  if spike_lag_in_window window_size x y
  then Z.to_nat
         (flat_cell n nb
            (unit_index x, unit_index y,
             window_size / bin_size
             + (sample_index x - sample_index y) / bin_size))
  else (n * n * nb)%nat.

(** A float that is not below zero: its sign bit is clear, or it is not a
    number. *)
Definition not_negative (x : spec_float) : Prop :=
  match x with
  | S754_zero s | S754_infinity s | S754_finite s _ _ => s = false
  | S754_nan => True
  end.

(** ** The hardware quotient, for comparison *)

(** The floor of a finite float. *)
Definition float_floor (f : float) : option Z :=
  match float_to_Q f with
  | Some q => Some (Qfloor q)
  | None => None
  end.

(** Lags and bin sizes on both sides of 2^53, the quotient of which is
    rounded by the division. *)
Definition sample_quotients : list (Z * Z) :=
  [ (7, 2); (-7, 2); (1, 3); (-1, 3); (29, 30); (-30, 30); (30, 30);
    (2 ^ 53 - 1, 3); (- (2 ^ 53 - 1), 7); (2 ^ 53 + 1, 1);
    (2 ^ 59 - 1, 2 ^ 59); (- (2 ^ 59 - 1), 2 ^ 59);
    (3 * 2 ^ 53 - 1, 2 ^ 53); (- (3 * 2 ^ 53 - 1), 2 ^ 53);
    (2 ^ 55 - 1, 2 ^ 53); (2 ^ 62 - 1, 3); (- (2 ^ 62), 2 ^ 61 - 1);
    (2 ^ 60 + 12345, 1000003); (123456789012345678, 987654321) ].

(** * Properties *)

(** ** Rounding to binary64 *)

Lemma py_round_near (y : Q) :
  (inject_Z (py_round y) - (1 # 2) <= y <= inject_Z (py_round y) + (1 # 2))%Q.
Proof.
  unfold py_round.
  pose proof (Qfloor_le y) as Hl. pose proof (Qlt_floor y) as Hu.
  rewrite inject_Z_plus in Hu. change (inject_Z 1) with 1%Q in Hu.
  destruct (Qcompare (y - inject_Z (Qfloor y)) (1 # 2)) eqn:C.
  - apply Qeq_alt in C.
    destruct (Z.even (Qfloor y)); rewrite ?inject_Z_plus;
      change (inject_Z 1) with 1%Q; lra.
  - apply Qlt_alt in C. lra.
  - apply Qgt_alt in C. rewrite inject_Z_plus.
    change (inject_Z 1) with 1%Q. lra.
Qed.

Lemma py_round_ge_int (n : Z) (y : Q) :
  (inject_Z n <= y)%Q -> n <= py_round y.
Proof.
  intros H. destruct (py_round_near y) as [_ Hu].
  destruct (Z_lt_le_dec (py_round y) n) as [L|L]; [|exact L].
  exfalso. assert (L' : py_round y + 1 <= n) by lia.
  rewrite Zle_Qle, inject_Z_plus in L'.
  change (inject_Z 1) with 1%Q in L'. lra.
Qed.

Lemma py_round_le_int (n : Z) (y : Q) :
  (y <= inject_Z n)%Q -> py_round y <= n.
Proof.
  intros H. destruct (py_round_near y) as [Hl _].
  destruct (Z_lt_le_dec n (py_round y)) as [L|L]; [|exact L].
  exfalso. assert (L' : n + 1 <= py_round y) by lia.
  rewrite Zle_Qle, inject_Z_plus in L'.
  change (inject_Z 1) with 1%Q in L'. lra.
Qed.

Lemma py_round_int (n : Z) : py_round (inject_Z n) = n.
Proof.
  pose proof (py_round_ge_int n (inject_Z n) (Qle_refl _)).
  pose proof (py_round_le_int n (inject_Z n) (Qle_refl _)). lia.
Qed.

Lemma py_round_comp (x y : Q) : (x == y)%Q -> py_round x = py_round y.
Proof.
  intros H. unfold py_round. rewrite (Qfloor_comp _ _ H).
  assert (E : (x - inject_Z (Qfloor y) == y - inject_Z (Qfloor y))%Q)
    by (rewrite H; reflexivity).
  rewrite (Qcompare_comp _ _ E _ _ (Qeq_refl (1 # 2))). reflexivity.
Qed.

Lemma pow2_pos (e : Z) : (0 < 2 ^ e)%Q.
Proof. apply Qpower_0_lt. reflexivity. Qed.

Lemma pow2_inject (e : Z) : 0 <= e -> (2 ^ e == inject_Z (2 ^ e))%Q.
Proof. intros H. rewrite Zpower_Qpower by exact H. reflexivity. Qed.

Lemma pow2_neg (s : Z) : 0 <= s -> (2 ^ (- s) == / inject_Z (2 ^ s))%Q.
Proof. intros H. rewrite Qpower_opp, pow2_inject by exact H. reflexivity. Qed.

(** The floor of the logarithm is not above the logarithm. *)
Lemma ilog2_le (q : Q) : (0 < q)%Q -> (2 ^ ilog2 q <= q)%Q.
Proof.
  intros Hq. unfold ilog2.
  set (n := Qnum q). set (d := Z.pos (Qden q)).
  destruct (Qle_bool (2 ^ (Z.log2 n - Z.log2 d)) q) eqn:E.
  - apply Qle_bool_iff, E.
  - assert (Hn : 0 < n).
    { unfold Qlt in Hq. cbn in Hq. unfold n. lia. }
    pose proof (Z.log2_spec n Hn) as [Ln _].
    pose proof (Z.log2_spec d ltac:(unfold d; lia)) as [_ Ld].
    pose proof (Z.log2_nonneg n). pose proof (Z.log2_nonneg d).
    replace (Z.log2 n - Z.log2 d - 1) with (Z.log2 n - Z.succ (Z.log2 d))
      by lia.
    rewrite Qpower_minus by discriminate.
    rewrite !pow2_inject by lia.
    apply Qle_shift_div_r.
    + change 0%Q with (inject_Z 0). rewrite <- Zlt_Qlt. lia.
    + assert (Eq : (q == inject_Z n / inject_Z d)%Q).
      { unfold n, d. destruct q as [qn qd]. cbn [Qnum Qden].
        rewrite (Qmake_Qdiv qn qd). reflexivity. }
      rewrite Eq. unfold Qdiv. rewrite <- Qmult_assoc.
      rewrite (Qmult_comm (/ inject_Z d)), Qmult_assoc.
      apply Qle_shift_div_l.
      * change 0%Q with (inject_Z 0). rewrite <- Zlt_Qlt. unfold d. lia.
      * rewrite <- !inject_Z_mult, <- Zle_Qle. nia.
Qed.

Lemma binary64_round_comp (x y : Q) :
  (x == y)%Q -> binary64_round x = binary64_round y.
Proof.
  intros H. unfold binary64_round. rewrite (Qred_complete _ _ H). reflexivity.
Qed.

Lemma binary64_round_0 : binary64_round 0 = 0%Q.
Proof. reflexivity. Qed.

(** [round] in integers: twice the distance to the rounded value is at most
    the denominator. *)
Lemma py_round_frac (n : Z) (d : positive) :
  2 * py_round (n # d) * Z.pos d - Z.pos d <= 2 * n
  <= 2 * py_round (n # d) * Z.pos d + Z.pos d.
Proof.
  destruct (py_round_near (n # d)) as [Hl Hu].
  set (m := py_round (n # d)) in *.
  unfold Qle, Qminus, Qplus, Qopp, inject_Z in Hl, Hu.
  cbn [Qnum Qden] in Hl, Hu. split; lia.
Qed.

(** A nonzero number below 2^53 in magnitude is rounded to a multiple of
    [2^-s] for some [s >= 0], and it fills at least 53 bits in that unit
    unless it is subnormal. *)
Lemma binary64_round_scaled (a : Z) (b : positive) :
  a <> 0 -> Z.abs a < 2 ^ 53 * Z.pos b ->
  exists s,
    0 <= s
    /\ (binary64_round (a # b)
        == py_round (a * 2 ^ s # b) # Z.to_pos (2 ^ s))%Q
    /\ (2 ^ 52 * Z.pos b <= Z.abs a * 2 ^ s \/ s = 1074).
Proof.
  intros Ha Hs. unfold binary64_round.
  set (q := Qred (a # b)).
  assert (Eq : (q == a # b)%Q) by apply Qred_correct.
  assert (Hnz : ~ (q == 0)%Q).
  { rewrite Eq. unfold Qeq. cbn. lia. }
  destruct (Qeq_bool q 0) eqn:E0; [apply Qeq_bool_iff in E0; contradiction|].
  assert (Hpos : (0 < Qabs q)%Q).
  { destruct (Qlt_le_dec 0 (Qabs q)) as [H|H]; [exact H|].
    exfalso. apply Hnz. apply Qabs_Qle_condition in H.
    destruct H as [H1 H2]. lra. }
  pose proof (ilog2_le _ Hpos) as Hl.
  set (e := ilog2 (Qabs q)) in *.
  assert (Habs : (Qabs q == Z.abs a # b)%Q).
  { rewrite Eq. reflexivity. }
  assert (He : e < 53).
  { apply (Qpower_lt_compat_l_inv 2); [|reflexivity].
    eapply Qle_lt_trans; [exact Hl|]. rewrite Habs.
    rewrite pow2_inject by lia. unfold Qlt, inject_Z. cbn [Qnum Qden]. lia. }
  set (ue := Z.max (e - 52) (-1074)).
  exists (- ue). assert (Hue : ue <= 0) by (unfold ue; lia).
  split; [lia|]. split.
  - rewrite <- (Z.opp_involutive ue) at 2.
    rewrite (pow2_neg (- ue)) by lia.
    assert (Hp : 0 < 2 ^ (- ue)) by (apply Z.pow_pos_nonneg; lia).
    assert (Ea : (q / 2 ^ ue == a * 2 ^ (- ue) # b)%Q).
    { rewrite <- (Z.opp_involutive ue) at 1.
      rewrite (pow2_neg (- ue)) by lia. rewrite Eq.
      unfold Qdiv. rewrite Qinv_involutive.
      unfold Qeq, Qmult, inject_Z. cbn [Qnum Qden]. lia. }
    rewrite (py_round_comp _ _ Ea).
    set (m := py_round (a * 2 ^ (- ue) # b)).
    unfold Qeq, Qmult, Qinv, inject_Z. cbn [Qnum Qden].
    destruct (2 ^ (- ue)) as [|p|p] eqn:Ep; try lia.
    cbn [Qnum Qden Z.to_pos]. lia.
  - destruct (Z.max_spec (e - 52) (-1074)) as [[_ Em]|[_ Em]];
      fold ue in Em; [right; lia|left].
    assert (Hle : (2 ^ e <= Z.abs a # b)%Q) by (rewrite <- Habs; exact Hl).
    replace e with (52 - - ue) in Hle by lia.
    rewrite Qpower_minus in Hle by discriminate.
    rewrite !pow2_inject in Hle by lia.
    assert (Hp : 0 < 2 ^ (- ue)) by (apply Z.pow_pos_nonneg; lia).
    apply (Qmult_le_compat_r _ _ (inject_Z (2 ^ (- ue)))) in Hle;
      [|change 0%Q with (inject_Z 0); rewrite <- Zle_Qle; lia].
    unfold Qdiv in Hle. rewrite <- Qmult_assoc in Hle.
    rewrite (Qmult_comm (/ _)), Qmult_inv_r, Qmult_1_r in Hle.
    + unfold Qle, Qmult, inject_Z in Hle. cbn [Qnum Qden] in Hle. lia.
    + intros H. unfold Qeq, inject_Z in H. cbn in H. lia.
Qed.

(** Integers below 2^53 in magnitude are binary64 numbers. *)
Lemma binary64_round_int (z : Z) :
  Z.abs z < 2 ^ 53 -> (binary64_round (inject_Z z) == inject_Z z)%Q.
Proof.
  intros Hz. destruct (Z.eq_dec z 0) as [->|Hnz]; [reflexivity|].
  destruct (binary64_round_scaled z 1 Hnz ltac:(lia)) as (s & Hs & E & _).
  unfold inject_Z. rewrite E.
  change (z * 2 ^ s # 1) with (inject_Z (z * 2 ^ s)). rewrite py_round_int.
  assert (Hp : 0 < 2 ^ s) by (apply Z.pow_pos_nonneg; lia).
  unfold Qeq. cbn [Qnum Qden]. rewrite Z2Pos.id by exact Hp. lia.
Qed.

(** The floor of the binary64 quotient of two integers below 2^53 is their
    floor division: the quotient is never rounded up to the next integer. *)
Lemma floor_binary64_quotient (a : Z) (b : positive) :
  Z.abs a < 2 ^ 53 -> Z.pos b < 2 ^ 53 ->
  Qfloor (binary64_round (a # b)) = a / Z.pos b.
Proof.
  intros Ha Hb. destruct (Z.eq_dec a 0) as [->|Hnz].
  - rewrite (binary64_round_comp (0 # b) 0) by reflexivity. reflexivity.
  - destruct (binary64_round_scaled a b Hnz ltac:(nia))
      as (s & Hs & E & Hprec).
    rewrite (Qfloor_comp _ _ E).
    assert (Hp : 0 < 2 ^ s) by (apply Z.pow_pos_nonneg; lia).
    set (P := 2 ^ s) in *. set (m := py_round (a * P # b)) in *.
    change (Qfloor (m # Z.to_pos P)) with (m / Z.pos (Z.to_pos P)).
    rewrite Z2Pos.id by exact Hp.
    pose proof (py_round_frac (a * P) b) as [Hl Hu]. fold m in Hl, Hu.
    pose proof (Z.div_mod a (Z.pos b) ltac:(lia)) as Hdm.
    pose proof (Z.mod_pos_bound a (Z.pos b) ltac:(lia)) as Hr.
    set (k := a / Z.pos b) in *. set (r := a mod Z.pos b) in *.
    assert (H2P : Z.pos b < 2 * P).
    { destruct Hprec as [Hprec| ->].
      - assert (Z.abs a * P < 2 ^ 53 * P) by nia.
        change (2 ^ 53) with (2 * 2 ^ 52) in *. nia.
      - unfold P. change (2 ^ 1074) with (2 ^ 53 * 2 ^ 1021).
        assert (0 < 2 ^ 1021) by (apply Z.pow_pos_nonneg; lia). nia. }
    assert (Lo : k * P <= m).
    { destruct (Z_lt_le_dec m (k * P)) as [L|L]; [exfalso|exact L].
      assert (m + 1 <= k * P) by lia.
      assert (2 * m * Z.pos b + 2 * Z.pos b <= 2 * (k * P) * Z.pos b)
        by nia.
      assert (0 <= r * P) by nia. nia. }
    assert (Hi : m < (k + 1) * P).
    { destruct (Z_lt_le_dec m ((k + 1) * P)) as [L|L]; [exact L|exfalso].
      assert (2 * ((k + 1) * P) * Z.pos b <= 2 * m * Z.pos b) by nia.
      assert (1 * P <= (Z.pos b - r) * P) by nia. nia. }
    symmetry. apply (Z.div_unique m P k (m - k * P)); lia.
Qed.

Lemma binary64_round_nonpos (q : Q) :
  (q <= 0)%Q -> (binary64_round q <= 0)%Q.
Proof.
  intros H. unfold binary64_round.
  assert (Hq : (Qred q <= 0)%Q) by (rewrite Qred_correct; exact H).
  destruct (Qeq_bool (Qred q) 0); [apply Qle_refl|].
  set (e := Z.max _ _). pose proof (pow2_pos e) as Hp.
  assert (Hm : py_round (Qred q / 2 ^ e) <= 0).
  { apply py_round_le_int. change (inject_Z 0) with 0%Q.
    unfold Qdiv. rewrite <- (Qmult_0_l (/ 2 ^ e)).
    apply Qmult_le_compat_r; [exact Hq|].
    apply Qlt_le_weak, Qinv_lt_0_compat, Hp. }
  rewrite Zle_Qle in Hm. change (inject_Z 0) with 0%Q in Hm.
  rewrite <- (Qmult_0_l (2 ^ e)).
  apply Qmult_le_compat_r; [exact Hm|apply Qlt_le_weak, Hp].
Qed.


Lemma py_round_nonneg (x : Q) : (0 <= x)%Q -> 0 <= py_round x.
Proof.
  intros H. unfold py_round.
  assert (F : 0 <= Qfloor x).
  { change 0 with (Qfloor 0). apply Qfloor_resp_le, H. }
  destruct (Qcompare _ _); [destruct (Z.even _)| |]; lia.
Qed.

Lemma py_int_inject (k : Z) : py_int (inject_Z k) = k.
Proof.
  unfold py_int. destruct (Qcompare _ _).
  - apply Qfloor_Z. - apply Qceiling_Z. - apply Qfloor_Z.
Qed.

Lemma py_int_comp (x y : Q) : (x == y)%Q -> py_int x = py_int y.
Proof.
  intros H. unfold py_int.
  rewrite (Qcompare_comp _ _ H _ _ (Qeq_refl 0)).
  rewrite (Qfloor_comp _ _ H), (Qceiling_comp _ _ H). reflexivity.
Qed.

Lemma py_int_nonpos (x : Q) : (x <= 0)%Q -> py_int x <= 0.
Proof.
  intros H. unfold py_int.
  assert (F : Qfloor x <= 0).
  { change 0 with (Qfloor 0). apply Qfloor_resp_le, H. }
  assert (C : Qceiling x <= 0).
  { change 0 with (Qceiling 0). apply Qceiling_resp_le, H. }
  destruct (Qcompare x 0); assumption.
Qed.

(** ** The sign of a product and of a quotient of floats *)

Lemma binary_round_aux_not_negative (m e : Z) (l : location) :
  not_negative (binary_round_aux prec emax false m e l).
Proof.
  unfold binary_round_aux.
  destruct (shr_fexp prec emax m e l) as [mrs' e'].
  destruct (shr_fexp prec emax _ e' loc_Exact) as [mrs'' e''].
  destruct (shr_m mrs''); [reflexivity| |exact I].
  destruct (Z.leb _ _); reflexivity.
Qed.

Lemma mul_not_negative (x y : float) :
  not_negative (Prim2SF x) -> not_negative (Prim2SF y) ->
  not_negative (Prim2SF (x * y)).
Proof.
  rewrite FloatAxioms.mul_spec. unfold FloatAxioms.SF64mul, SFmul.
  destruct (Prim2SF x) as [sx|sx| |sx mx ex],
           (Prim2SF y) as [sy|sy| |sy my ey]; cbn [not_negative];
    intros Hx Hy; subst; try reflexivity; try exact I.
  apply binary_round_aux_not_negative.
Qed.

Lemma div_not_negative (x y : float) :
  not_negative (Prim2SF x) -> not_negative (Prim2SF y) ->
  not_negative (Prim2SF (x / y)).
Proof.
  rewrite FloatAxioms.div_spec. unfold FloatAxioms.SF64div, SFdiv.
  destruct (Prim2SF x) as [sx|sx| |sx mx ex],
           (Prim2SF y) as [sy|sy| |sy my ey]; cbn [not_negative];
    intros Hx Hy; subst; try reflexivity; try exact I.
  destruct (SFdiv_core_binary _ _ _ _ _ _) as [[mz ez] lz].
  apply binary_round_aux_not_negative.
Qed.

Lemma positive_not_negative (x : float) :
  (0 <? x)%float = true -> not_negative (Prim2SF x).
Proof.
  rewrite FloatAxioms.ltb_spec. unfold SFltb.
  change (Prim2SF 0) with (S754_zero false).
  destruct (Prim2SF x) as [s|s| |s m e]; cbn; try discriminate;
    destruct s; (discriminate || reflexivity).
Qed.

Lemma float_to_Q_nonneg (x : float) (q : Q) :
  not_negative (Prim2SF x) -> float_to_Q x = Some q -> (0 <= q)%Q.
Proof.
  unfold float_to_Q.
  destruct (Prim2SF x) as [s|s| |s m e]; cbn [not_negative]; intros Hs H;
    try discriminate; injection H as <-; [apply Qle_refl|]. subst s.
  destruct (0 <=? e).
  - change 0%Q with (inject_Z 0). rewrite <- Zle_Qle.
    pose proof (Z.pow_nonneg 2 e ltac:(lia)) as Hp.
    destruct (2 ^ e); cbn; lia.
  - unfold Qle. cbn. lia.
Qed.

Lemma py_round_binary64_nonneg (x : float) (z : Z) :
  not_negative (Prim2SF x) -> py_round_binary64 x = Ok z -> 0 <= z.
Proof.
  intros Hx. unfold py_round_binary64.
  destruct (float_to_Q x) as [q|] eqn:E; [|discriminate].
  intros H. injection H as <-.
  apply py_round_nonneg. apply (float_to_Q_nonneg x q Hx E).
Qed.

(** The two products the planner rounds are not negative when the rate and
    the durations are positive. *)
Lemma planner_products_not_negative (fs window_ms bin_ms : float) :
  (0 <? fs)%float = true -> (0 <? window_ms)%float = true ->
  (0 <? bin_ms)%float = true ->
  not_negative (Prim2SF (fs * window_ms / 2 * milli)%float)
  /\ not_negative (Prim2SF (fs * bin_ms * milli)%float).
Proof.
  intros Hf Hw Hb.
  apply positive_not_negative in Hf, Hw, Hb.
  split.
  - apply mul_not_negative; [|reflexivity].
    apply div_not_negative; [|reflexivity].
    apply mul_not_negative; assumption.
  - apply mul_not_negative; [|reflexivity].
    apply mul_not_negative; assumption.
Qed.

(** ** The planner's arithmetic *)

Lemma truncate_to_multiple (w b : Z) : w - w mod b = b * (w / b).
Proof.
  destruct (Z.eq_dec b 0) as [->|Hb].
  - rewrite Z.mod_0_r. lia.
  - pose proof (Z.div_mod w b Hb). lia.
Qed.

Lemma np_arange_length (start stop step : Z) :
  length (np_arange start stop step)
  = Z.to_nat (- ((- (stop - start)) / step)).
Proof. unfold np_arange. rewrite length_map, length_seq. reflexivity. Qed.

Lemma arange_bins_length (b k : Z) :
  b <> 0 -> 0 <= k ->
  Z.of_nat (length (np_arange (- (b * k)) (b * k + b) b)) = 2 * k + 1.
Proof.
  intros Hb Hk. rewrite np_arange_length.
  replace (- (b * k + b - - (b * k))) with ((- (2 * k + 1)) * b) by ring.
  rewrite Z.div_mul by lia. lia.
Qed.

Lemma quotient_of_multiple (b k : Z) :
  b <> 0 -> (inject_Z (b * k) / inject_Z b == inject_Z k)%Q.
Proof.
  intros Hb. rewrite inject_Z_mult. field.
  intros E. apply Hb. apply (proj1 (inject_Z_injective b 0)), E.
Qed.

(** The float quotient of a multiple of [b] by [b] truncates to a positive
    integer only if the multiple is positive. *)
Lemma truediv_multiple (b k : Z) (q : Q) :
  py_truediv (b * k) b = Ok q -> 1 <= 2 * py_int q -> 1 <= k.
Proof.
  unfold py_truediv. destruct (Z.eqb_spec b 0) as [|Hb]; [discriminate|].
  destruct (Qle_bool _ _); [discriminate|].
  intros E H. injection E as <-.
  destruct (Z_lt_le_dec k 1) as [L|L]; [exfalso|exact L].
  rewrite (binary64_round_comp _ _ (quotient_of_multiple b k Hb)) in H.
  assert (N : (binary64_round (inject_Z k) <= 0)%Q).
  { apply binary64_round_nonpos. change 0%Q with (inject_Z 0).
    rewrite <- Zle_Qle. lia. }
  pose proof (py_int_nonpos _ N). lia.
Qed.

Lemma make_bins_inv (sorting : Sorting) (window_ms bin_ms : float)
    (bins : list float) (window_size bin_size : Z) :
  _make_bins sorting window_ms bin_ms = Ok (bins, window_size, bin_size) ->
  let fs := sampling_frequency sorting in
  exists rounded,
    py_round_binary64 (fs * window_ms / 2 * milli)%float = Ok rounded /\
    py_round_binary64 (fs * bin_ms * milli)%float = Ok bin_size /\
    window_size = bin_size * (rounded / bin_size) /\
    bin_size <> 0 /\
    1 <= window_size / bin_size /\
    bins = map (fun k => (float_of_Z k * 1000 / fs)%float)
             (np_arange (- window_size) (window_size + bin_size) bin_size).
Proof.
  intros H. cbv zeta. unfold _make_bins in H.
  set (fs := sampling_frequency sorting) in *.
  destruct (py_round_binary64 (fs * window_ms / 2 * milli)%float)
    as [w|]; cbn [bind] in H; [|discriminate].
  destruct (py_round_binary64 (fs * bin_ms * milli)%float)
    as [b|]; cbn [bind] in H; [|discriminate].
  unfold py_mod in H.
  destruct (Z.eqb_spec b 0) as [|Hb]; [discriminate|]. cbn [bind] in H.
  rewrite truncate_to_multiple in H.
  destruct (py_truediv (b * (w / b)) b) as [q|] eqn:Eq; cbn [bind] in H;
    [|discriminate].
  destruct (Z.leb_spec 1 (2 * py_int q)) as [Hn|Hn]; cbn [py_assert bind] in H;
    [|discriminate].
  injection H as <- <- <-.
  pose proof (truediv_multiple _ _ _ Eq Hn) as Hk.
  exists w. repeat split; try assumption; try reflexivity.
  rewrite (Z.mul_comm b (w / b)), Z.div_mul by exact Hb. exact Hk.
Qed.

(** C6, as amended.  Whenever the bin planner succeeds on a positive rate,
    window and bin, the bin size is [round(x_b)] and the window size is
    [round(x_w)] truncated down to the nearest multiple of the bin size,
    where [x_w] and [x_b] are the binary64 values of
    [fs * window_ms / 2 * 1e-3] and [fs * bin_ms * 1e-3], every operation
    rounded to the nearest float, and [round] sends a half to the even
    integer; the number of bins [2 * floor(window_size / bin_size)] is even
    and at least 2, and the edges are the floats
    [arange(-window_size, window_size + bin_size, bin_size) * 1e3 / fs], one
    more than there are bins.  In particular a sampling rate of 1000 Hz with
    a window of 50 ms and bins of 5 ms gives a window of 25 samples, bins of
    5 samples, 10 bins and the edges -25, -20, ..., 20, 25 ms; halves go to
    the even integer: 2.5 samples are rounded to 2 and 3.5 samples to 4. *)
Theorem make_bins_plan :
  (forall sorting window_ms bin_ms bins window_size bin_size,
     (0 <? sampling_frequency sorting)%float = true ->
     (0 <? window_ms)%float = true -> (0 <? bin_ms)%float = true ->
     _make_bins sorting window_ms bin_ms = Ok (bins, window_size, bin_size) ->
     let fs := sampling_frequency sorting in
     let num_bins := 2 * (window_size / bin_size) in
     exists rounded,
       py_round_binary64 (fs * window_ms / 2 * milli)%float = Ok rounded /\
       py_round_binary64 (fs * bin_ms * milli)%float = Ok bin_size /\
       0 < bin_size /\
       window_size = bin_size * (rounded / bin_size) /\
       (bin_size | window_size) /\
       window_size <= rounded < window_size + bin_size /\
       _compute_num_bins window_size bin_size
         = Ok (num_bins, window_size / bin_size) /\
       Z.even num_bins = true /\
       2 <= num_bins /\
       bins = map (fun k => (float_of_Z k * 1000 / fs)%float)
                (np_arange (- window_size) (window_size + bin_size)
                   bin_size) /\
       Z.of_nat (length bins) = num_bins + 1)
  /\
  (forall ids spikes,
     _make_bins (mkSorting 1000 ids spikes) 50 5
     = Ok ([-25; -20; -15; -10; -5; 0; 5; 10; 15; 20; 25]%float, 25, 5) /\
     _compute_num_bins 25 5 = Ok (10, 5))
  /\
  (forall ids spikes,
     _make_bins (mkSorting 1000 ids spikes) 5 2.5
     = Ok ([-2; 0; 2]%float, 2, 2) /\
     _make_bins (mkSorting 1000 ids spikes) 7 3.5
     = Ok ([-4; 0; 4]%float, 4, 4)).
Proof.
  split; [|split].
  - intros sorting window_ms bin_ms bins ws bs Hf Hw Hb H fs nb.
    destruct (make_bins_inv _ _ _ _ _ _ H)
      as (rounded & Ew & Eb & Ews & Hnz & Hn & Ebins).
    fold fs in Ew, Eb, Ebins.
    destruct (planner_products_not_negative fs window_ms bin_ms Hf Hw Hb)
      as [_ Nb].
    pose proof (py_round_binary64_nonneg _ _ Nb Eb) as Hb0.
    assert (Hpos : 0 < bs) by lia.
    assert (Hdiv : ws / bs = rounded / bs).
    { rewrite Ews at 1. rewrite Z.mul_comm, Z.div_mul by lia. reflexivity. }
    assert (Hlen : Z.of_nat (length bins) = nb + 1).
    { rewrite Ebins, length_map. rewrite Ews at 1 2.
      rewrite arange_bins_length by lia. unfold nb. rewrite Hdiv. ring. }
    exists rounded. repeat split; try assumption.
    + exists (rounded / bs). lia.
    + rewrite Ews. pose proof (Z.mul_div_le rounded bs Hpos). lia.
    + rewrite Ews. pose proof (Z.mul_succ_div_gt rounded bs Hpos). lia.
    + unfold _compute_num_bins, py_floordiv.
      destruct (Z.eqb_spec bs 0); [lia|]. reflexivity.
    + unfold nb. rewrite Z.even_mul. reflexivity.
    + unfold nb. lia.
  - intros ids spikes. split; [vm_compute; reflexivity|reflexivity].
  - intros ids spikes. split; vm_compute; reflexivity.
Qed.

Lemma make_bins_plan_witness :
  _make_bins (mkSorting 30000 [0; 1] []) 2 1 = Ok ([-1; 0; 1]%float, 30, 30)
  /\ py_round_binary64 (30000 * 1 * milli)%float = Ok 30
  /\ 0 < 30 /\ 2 <= 2 * (30 / 30).
Proof.
  assert (E : _make_bins (mkSorting 30000 [0; 1] []) 2 1
              = Ok ([-1; 0; 1]%float, 30, 30)) by (vm_compute; reflexivity).
  destruct (proj1 make_bins_plan (mkSorting 30000 [0; 1] []) 2%float 1%float
              _ _ _ eq_refl eq_refl eq_refl E)
    as (rounded & _ & Hb & Hp & _ & _ & _ & _ & _ & Hge & _).
  split; [exact E|]. split; [exact Hb|]. split; [exact Hp|exact Hge].
Defined.

(** C6 as the specification states it fails, however its arithmetic is
    read.  At 25 kHz with a window of 4.6 ms and bins of 0.06 ms the planner
    returns a window of 56 samples and bins of 2 samples.  In exact
    arithmetic the half window [25000 * 4.6 / 2 / 1000 = 57.5] is rounded to
    58, a multiple of the bin [round(1.5) = 2]; on the exact values of the
    two floats, which lie just below 4.6 and 0.06, the sizes are 57 and 1.
    Read in binary64 with the division by 1000 that the specification
    writes, the steps differ from the code's multiplication by [1e-3] at
    30 kHz with a window of 500 ms and bins of 68.85 ms: the planner returns
    a window of 6198 samples and bins of 2066, the division gives 6195 and
    2065. *)
Lemma make_bins_rounds_floats :
  let window_ms := 0x1.2666666666666p+2%float in
  let bin_ms := 0x1.eb851eb851eb8p-5%float in
  let wide_bin_ms := 0x1.1366666666666p+6%float in
  (exists bins,
     _make_bins (mkSorting 25000 [0] []) window_ms bin_ms = Ok (bins, 56, 2))
  /\ spec_window_size 25000 (46 # 10) (6 # 100) = 58
  /\ spec_bin_size 25000 (6 # 100) = 2
  /\ (exists w b,
        float_to_Q window_ms = Some w /\ float_to_Q bin_ms = Some b
        /\ (w < 46 # 10)%Q /\ (b < 6 # 100)%Q
        /\ spec_window_size 25000 w b = 57
        /\ spec_bin_size 25000 b = 1)
  /\ (exists bins,
        _make_bins (mkSorting 30000 [0] []) 500 wide_bin_ms
        = Ok (bins, 6198, 2066))
  /\ spec_window_size_binary64 30000 500 wide_bin_ms = Ok 6195
  /\ spec_bin_size_binary64 30000 wide_bin_ms = Ok 2065.
Proof.
  intros window_ms bin_ms wide_bin_ms.
  split; [eexists; vm_compute; reflexivity|].
  split; [reflexivity|]. split; [reflexivity|].
  split.
  { eexists; eexists. split; [vm_compute; reflexivity|].
    split; [vm_compute; reflexivity|].
    repeat split; vm_compute; reflexivity. }
  split; [eexists; vm_compute; reflexivity|].
  split; vm_compute; reflexivity.
Qed.

(** ** The shift loop of the numpy strategy stops by itself *)

Lemma mask_clear_length (a cond : list bool) :
  length (mask_clear a cond) = length a.
Proof.
  revert cond. induction a as [|m a IH]; intros [|c cond]; cbn; auto.
Qed.

Lemma sign_pass_mask_length times labels bs nhb shift sign mask c mask' c' :
  sign_pass times labels bs nhb shift sign (mask, c) = Ok (mask', c') ->
  length mask' = length mask.
Proof.
  unfold sign_pass.
  destruct (sign =? -1);
  (destruct (if sign =? 1 then _ else _) as [idx|]; cbn [bind];
   [|discriminate]);
  (destruct (ravel_iadd_prefix _ _); cbn [bind]; [|discriminate]);
  intros H; injection H as <- <-; apply mask_clear_length.
Qed.

Lemma slice_to_neg_short {A : Type} (shift : nat) (a : list A) :
  (length a < shift)%nat -> slice_to_neg shift a = [].
Proof.
  intros H. destruct shift; [lia|]. unfold slice_to_neg.
  replace (length a - S shift)%nat with O by lia. reflexivity.
Qed.

Lemma shift_loop_fuel (fuel extra : nat) times labels bs nhb :
  forall shift mask c,
    (length mask < fuel + shift)%nat ->
    shift_loop (fuel + extra) times labels bs nhb shift (mask, c)
    = shift_loop fuel times labels bs nhb shift (mask, c).
Proof.
  induction fuel as [|fuel IH]; intros shift mask c H.
  - assert (E : np_any (slice_to_neg shift mask) = false)
      by (rewrite slice_to_neg_short by lia; reflexivity).
    destruct extra; cbn [shift_loop Nat.add fst snd]; rewrite E; reflexivity.
  - cbn [shift_loop Nat.add fst snd].
    destruct (np_any _); [|reflexivity].
    destruct (sign_pass times labels bs nhb shift (-1) (mask, c))
      as [[mask1 c1]|] eqn:E1; cbn [bind]; [|reflexivity].
    destruct (sign_pass times labels bs nhb shift 1 (mask1, c1))
      as [[mask2 c2]|] eqn:E2; cbn [bind]; [|reflexivity].
    apply IH.
    rewrite (sign_pass_mask_length _ _ _ _ _ _ _ _ _ _ E2),
            (sign_pass_mask_length _ _ _ _ _ _ _ _ _ _ E1). lia.
Qed.

(** ** Degenerate geometry *)

(** C7, as amended.  For a positive rate, window and bin: whenever the
    number of bins derived from the sizes the planner rounds in binary64
    arithmetic is below 1 - which includes a bin size that rounds to 0 - the
    bin planner raises and returns nothing: a [ZeroDivisionError] from the
    remainder when the bin size is 0, the failed [assert num_bins >= 1]
    otherwise. *)
Theorem make_bins_invalid_geometry :
  forall sorting window_ms bin_ms rounded bin_size,
    let fs := sampling_frequency sorting in
    (0 <? fs)%float = true ->
    (0 <? window_ms)%float = true -> (0 <? bin_ms)%float = true ->
    py_round_binary64 (fs * window_ms / 2 * milli)%float = Ok rounded ->
    py_round_binary64 (fs * bin_ms * milli)%float = Ok bin_size ->
    let window_size := rounded - rounded mod bin_size in
    2 * (window_size / bin_size) < 1 ->
    _make_bins sorting window_ms bin_ms
    = Raise (if bin_size =? 0 then ZeroDivisionError else AssertionError)
    /\ is_ok (_make_bins sorting window_ms bin_ms) = false.
Proof.
  intros sorting window_ms bin_ms w b fs Hf Hw Hb Ew Eb ws H.
  destruct (planner_products_not_negative fs window_ms bin_ms Hf Hw Hb)
    as [Nw Nb].
  pose proof (py_round_binary64_nonneg _ _ Nw Ew) as Hw0.
  pose proof (py_round_binary64_nonneg _ _ Nb Eb) as Hb0.
  assert (E : _make_bins sorting window_ms bin_ms
              = Raise (if b =? 0 then ZeroDivisionError
                       else AssertionError)).
  { unfold _make_bins. fold fs. rewrite Ew, Eb. cbn [bind].
    unfold py_mod. destruct (Z.eqb_spec b 0) as [|Hnz]; [reflexivity|].
    cbn [bind]. unfold ws in H. rewrite truncate_to_multiple in *.
    rewrite (Z.mul_comm b (w / b)), Z.div_mul in H by exact Hnz.
    assert (Hk : w / b = 0).
    { pose proof (Z.div_pos w b Hw0 ltac:(lia)). lia. }
    rewrite Hk, Z.mul_0_r. unfold py_truediv.
    destruct (Z.eqb_spec b 0); [contradiction|].
    rewrite (binary64_round_comp (inject_Z 0 / inject_Z b) 0)
      by (unfold Qdiv; apply Qmult_0_l).
    reflexivity. }
  split; [exact E|]. rewrite E. reflexivity.
Qed.

Lemma make_bins_invalid_geometry_witness :
  py_round_binary64 (30000 * 1 / 2 * milli)%float = Ok 15
  /\ py_round_binary64 (30000 * 2 * milli)%float = Ok 60
  /\ _make_bins (mkSorting 30000 [0; 1] []) 1 2 = Raise AssertionError
  /\ py_round_binary64 (30000 * 0x1p-10 * milli)%float = Ok 0
  /\ _make_bins (mkSorting 30000 [0; 1] []) 2 0x1p-10
      = Raise ZeroDivisionError.
Proof.
  split; [vm_compute; reflexivity|]. split; [vm_compute; reflexivity|].
  split.
  - apply (make_bins_invalid_geometry (mkSorting 30000 [0; 1] [])
             1%float 2%float 15 60); reflexivity.
  - split; [vm_compute; reflexivity|].
    apply (make_bins_invalid_geometry (mkSorting 30000 [0; 1] [])
             2%float 0x1p-10%float 30 0); reflexivity.
Defined.

(** C7 as the specification states it fails, however its arithmetic is
    read.  At 10 kHz with a window of 1.9 ms (the float nearest to 1.9,
    which lies just below it) and bins of 1 ms, the half window in exact
    arithmetic is just below 9.5 samples and is rounded to 9, less than the
    bin of 10 samples: the number of bins derived is 0.  The planner computes
    [10000 * 1.9] in binary64, which is 19000, rounds 9.5 to 10 and returns a
    window and a bin of 10 samples.  On the decimal values, at 25 kHz with a
    window of 4.56 ms and bins of 2.3 ms the half window is 57 samples and
    the bin [round(57.5) = 58]: no bin; the planner returns 57 and 57.  Read
    in binary64 with the division by 1000, at 25 kHz with a window of
    83.32 ms and bins of 41.68 ms the half window is 1041 samples and the bin
    1042: no bin; the planner, which multiplies by [1e-3], returns 1042 and
    1042. *)
Lemma make_bins_accepts_rounded_window :
  let window_ms := 0x1.e666666666666p+0%float in
  (exists w,
     float_to_Q window_ms = Some w /\ (w < 19 # 10)%Q
     /\ spec_window_size 10000 w 1 = 0
     /\ spec_num_bins 10000 w 1 < 1)
  /\ _make_bins (mkSorting 10000 [0] []) window_ms 1
      = Ok ([-1; 0; 1]%float, 10, 10)
  /\ spec_num_bins 25000 (456 # 100) (23 # 10) < 1
  /\ (exists bins,
        _make_bins (mkSorting 25000 [0] [])
          0x1.23d70a3d70a3dp+2 0x1.2666666666666p+1
        = Ok (bins, 57, 57))
  /\ spec_num_bins_binary64 25000
        0x1.4d47ae147ae14p+6 0x1.4d70a3d70a3d7p+5 = Ok 0
  /\ (exists bins,
        _make_bins (mkSorting 25000 [0] [])
          0x1.4d47ae147ae14p+6 0x1.4d70a3d70a3d7p+5
        = Ok (bins, 1042, 1042)).
Proof.
  intros window_ms. split.
  { eexists. split; [vm_compute; reflexivity|].
    repeat split; vm_compute; reflexivity. }
  split; [vm_compute; reflexivity|].
  split; [vm_compute; reflexivity|].
  split; [eexists; vm_compute; reflexivity|].
  split; [vm_compute; reflexivity|].
  eexists; vm_compute; reflexivity.
Qed.

(** ** Strategy selection *)

Open Scope string_scope.

(** C8, as amended. With method ["auto"] the entry point behaves as with
    ["numba"] when numba was imported and as with ["numpy"] otherwise; an
    explicit ["numba"] without the backend does not fall back: once the bin
    planner has succeeded the call fails with the [AssertionError] of
    [assert HAVE_NUMBA]. *)
Theorem strategy_selection :
  forall HAVE_NUMBA sorting window_ms bin_ms,
    compute_correlograms_on_sorting HAVE_NUMBA sorting window_ms bin_ms "auto"
    = compute_correlograms_on_sorting HAVE_NUMBA sorting window_ms bin_ms
        (if HAVE_NUMBA then "numba" else "numpy")
    /\ compute_correlograms_on_sorting HAVE_NUMBA sorting window_ms bin_ms
         "numpy"
       = ('(bins, window_size, bin_size)
            <- _make_bins sorting window_ms bin_ms ;;
          c <- compute_correlograms_numpy sorting window_size bin_size ;;
          Ok (c, bins))
    /\ compute_correlograms_on_sorting true sorting window_ms bin_ms "numba"
       = ('(bins, window_size, bin_size)
            <- _make_bins sorting window_ms bin_ms ;;
          c <- compute_correlograms_numba true sorting window_size bin_size ;;
          Ok (c, bins))
    /\ compute_correlograms_on_sorting false sorting window_ms bin_ms "numba"
       = (_ <- _make_bins sorting window_ms bin_ms ;; Raise AssertionError).
Proof.
  intros h sorting window_ms bin_ms.
  unfold compute_correlograms_on_sorting.
  repeat split.
  - destruct h; reflexivity.
  - cbn. destruct (_make_bins _ _ _) as [[[bins ws] bs]|]; cbn; [|reflexivity].
    destruct (compute_correlograms_numpy _ _ _); reflexivity.
  - cbn. destruct (_make_bins _ _ _) as [[[bins ws] bs]|]; cbn; [|reflexivity].
    match goal with
    | |- context [bind ?m (fun c => Ok (Some c))] => destruct m; reflexivity
    end.
  - cbn. destruct (_make_bins _ _ _) as [[[bins ws] bs]|]; reflexivity.
Qed.


(** C8 as the specification states it fails: without numba, an explicit ["numba"] on
    a sorting that the numpy strategy handles raises instead of returning
    what the numpy strategy returns. *)
Lemma explicit_numba_does_not_fall_back :
  compute_correlograms_on_sorting false one_unit_two_spikes 2 1 "numba"
    = Raise AssertionError
  /\ is_ok (compute_correlograms_on_sorting false one_unit_two_spikes 2 1
              "numpy") = true
  /\ compute_correlograms_on_sorting false one_unit_two_spikes 2 1 "numba"
     <> compute_correlograms_on_sorting false one_unit_two_spikes 2 1 "numpy".
Proof.
  split; [reflexivity|]. split; [reflexivity|].
  vm_compute. discriminate.
Qed.
Close Scope string_scope.

(** ** The spike-train functions *)

(** C9, as amended. When numba was imported, both spike-train functions
    raise a [TypeError] on every input, because they pass three and four
    positional arguments to a function of six parameters; when it was not,
    their [assert HAVE_NUMBA] fails first.  Neither ever returns a
    correlogram. *)
Theorem spiketrain_functions_raise :
  forall HAVE_NUMBA spike_times spike_times2 window_size bin_size,
    compute_autocorrelogram_from_spiketrain HAVE_NUMBA spike_times
      window_size bin_size
    = Raise (if HAVE_NUMBA then TypeError else AssertionError)
    /\ compute_crosscorrelogram_from_spiketrain HAVE_NUMBA spike_times
         spike_times2 window_size bin_size
       = Raise (if HAVE_NUMBA then TypeError else AssertionError).
Proof.
  intros [|] t t2 w b; split; reflexivity.
Qed.

(** C9 as the specification states it fails: without numba the error is not a
    [TypeError]. *)
Lemma spiketrain_functions_without_numba :
  compute_autocorrelogram_from_spiketrain false [0; 10] 30 30
    = Raise AssertionError
  /\ compute_crosscorrelogram_from_spiketrain false [0; 10] [5] 30 30
     = Raise AssertionError
  /\ compute_autocorrelogram_from_spiketrain false [0; 10] 30 30
     <> Raise TypeError.
Proof.
  split; [reflexivity|]. split; [reflexivity|]. discriminate.
Qed.

(** The callee does run when it is given its six arguments. *)
Example one_segment_numba_six_arguments :
  _compute_correlograms_one_segment_numba
    [PyArr3 (mkArr3 (1, 1, 2)%nat [0; 0]); PyArr1 [0; 29]; PyArr1 [0; 0];
     PyInt 30; PyInt 30; PyInt 1]
  = Ok (mkArr3 (1, 1, 2)%nat [1; 1]).
Proof. reflexivity. Qed.

(** ** Both strategies only look at time differences *)



Lemma times_of_shift (t : Z) (seg : list Spike) :
  times_of (shift_segment t seg) = map (fun x => x + t) (times_of seg).
Proof.
  unfold times_of, shift_segment. rewrite !map_map. reflexivity.
Qed.

Lemma labels_of_shift (t : Z) (seg : list Spike) :
  labels_of (shift_segment t seg) = labels_of seg.
Proof.
  unfold labels_of, shift_segment. rewrite map_map. reflexivity.
Qed.

Lemma wrap64_congr (a b k : Z) : a = b + k * 2 ^ 64 -> wrap64 a = wrap64 b.
Proof.
  intros ->. unfold wrap64, wrap_signed.
  replace (b + k * 2 ^ 64 + 2 ^ (64 - 1))
    with (b + 2 ^ (64 - 1) + k * 2 ^ 64) by ring.
  rewrite Z_mod_plus_full. reflexivity.
Qed.

Lemma np_sub_shift (t : Z) (a b : list Z) :
  np_sub (map (fun x => x + t) a) (map (fun x => x + t) b) = np_sub a b.
Proof.
  revert b. induction a as [|x a IH]; intros [|y b]; cbn; try reflexivity.
  rewrite IH. f_equal. f_equal. ring.
Qed.

Lemma slice_from_map {A B : Type} (f : A -> B) (n : nat) (a : list A) :
  slice_from n (map f a) = map f (slice_from n a).
Proof. unfold slice_from. apply skipn_map. Qed.

Lemma slice_to_neg_map {A B : Type} (f : A -> B) (n : nat) (a : list A) :
  slice_to_neg n (map f a) = map f (slice_to_neg n a).
Proof.
  unfold slice_to_neg. destruct n; [reflexivity|].
  rewrite length_map. apply firstn_map.
Qed.

Lemma sign_pass_shift t times labels bs nhb shift sign st :
  sign_pass (map (fun x => x + t) times) labels bs nhb shift sign st
  = sign_pass times labels bs nhb shift sign st.
Proof.
  unfold sign_pass.
  rewrite slice_from_map, slice_to_neg_map, np_sub_shift. reflexivity.
Qed.

Lemma shift_loop_shift t fuel times labels bs nhb :
  forall shift st,
    shift_loop fuel (map (fun x => x + t) times) labels bs nhb shift st
    = shift_loop fuel times labels bs nhb shift st.
Proof.
  induction fuel as [|fuel IH]; intros shift st; cbn [shift_loop].
  - reflexivity.
  - rewrite !sign_pass_shift.
    destruct (np_any _); [|reflexivity].
    destruct (sign_pass times labels bs nhb shift (-1) st) as [st1|];
      cbn [bind]; [|reflexivity].
    rewrite sign_pass_shift.
    destruct (sign_pass times labels bs nhb shift 1 st1) as [st2|];
      cbn [bind]; [|reflexivity].
    apply IH.
Qed.

Lemma correlogram_for_one_segment_shift t times labels ws bs :
  correlogram_for_one_segment (map (fun x => x + t) times) labels ws bs
  = correlogram_for_one_segment times labels ws bs.
Proof.
  unfold correlogram_for_one_segment. rewrite length_map.
  destruct (_compute_num_bins ws bs) as [[nb nhb]|]; [|reflexivity].
  cbn [bind]. destruct (np_zeros3 _ _ nb) as [c|]; [|reflexivity].
  cbn [bind]. apply shift_loop_shift.
Qed.

Lemma numpy_segments_shift t segs ws bs :
  forall c,
    numpy_segments (map (shift_segment t) segs) ws bs c
    = numpy_segments segs ws bs c.
Proof.
  induction segs as [|seg segs IH]; intros c; cbn [numpy_segments map].
  - reflexivity.
  - rewrite times_of_shift, labels_of_shift,
      correlogram_for_one_segment_shift.
    destruct (correlogram_for_one_segment _ _ ws bs) as [c0|];
      cbn [bind]; [|reflexivity].
    destruct (np_iadd3 c c0) as [c1|]; cbn [bind]; [|reflexivity].
    apply IH.
Qed.

Lemma compute_correlograms_numpy_shift t sorting ws bs :
  compute_correlograms_numpy (shift_sorting t sorting) ws bs
  = compute_correlograms_numpy sorting ws bs.
Proof.
  unfold compute_correlograms_numpy, shift_sorting.
  cbn [unit_ids to_spike_vector].
  destruct (_compute_num_bins ws bs) as [[nb nhb]|]; [|reflexivity].
  cbn [bind]. destruct (np_zeros3 _ _ nb) as [c|]; [|reflexivity].
  cbn [bind]. apply numpy_segments_shift.
Qed.


Lemma wrap64_shifted (t x : Z) : shifted64 t (wrap64 (x + t)) (wrap64 x).
Proof.
  unfold shifted64, wrap64, wrap_signed.
  set (h := 2 ^ (64 - 1)). set (m := 2 ^ 64).
  assert (Hm : m <> 0) by (unfold m; lia).
  pose proof (Z.div_mod (x + t + h) m Hm) as E1.
  pose proof (Z.div_mod (x + h) m Hm) as E2.
  exists ((x + h) / m - (x + t + h) / m). lia.
Qed.

Lemma shifted64_diff (t x1 y1 x2 y2 : Z) :
  shifted64 t x1 y1 -> shifted64 t x2 y2 ->
  wrap64 (x1 - x2) = wrap64 (y1 - y2).
Proof.
  intros [k1 ->] [k2 ->]. apply (wrap64_congr _ _ (k1 - k2)). ring.
Qed.

Section NumbaShift.
Variables (t window_size bin_size num_half_bins : Z).

Lemma autocorr_inner_shift ti ti' later later' :
  shifted64 t ti ti' -> Forall2 (shifted64 t) later later' ->
  forall a,
    autocorr_inner window_size bin_size num_half_bins ti later a
    = autocorr_inner window_size bin_size num_half_bins ti' later' a.
Proof.
  intros Hi H. induction H as [|tj tj' later later' Hj H IH]; intros a;
    cbn [autocorr_inner]; [reflexivity|].
  rewrite (shifted64_diff t tj tj' ti ti' Hj Hi).
  destruct (_ >? _); [reflexivity|].
  destruct (numba_incr a _) as [a1|]; cbn [bind]; [|reflexivity].
  destruct (numba_incr a1 _) as [a2|]; cbn [bind]; [|reflexivity].
  apply IH.
Qed.

Lemma autocorr_outer_shift times times' :
  Forall2 (shifted64 t) times times' ->
  forall a,
    autocorr_outer window_size bin_size num_half_bins times a
    = autocorr_outer window_size bin_size num_half_bins times' a.
Proof.
  intros H. induction H as [|ti ti' later later' Hi H IH]; intros a;
    cbn [autocorr_outer]; [reflexivity|].
  rewrite (autocorr_inner_shift ti ti' later later' Hi H).
  destruct (autocorr_inner _ _ _ ti' later' a) as [a1|]; cbn [bind];
    [|reflexivity].
  apply IH.
Qed.

Lemma crosscorr_inner_shift ti ti' from from' :
  shifted64 t ti ti' -> Forall2 (shifted64 t) from from' ->
  forall st,
    crosscorr_inner window_size bin_size num_half_bins ti from st
    = crosscorr_inner window_size bin_size num_half_bins ti' from' st.
Proof.
  intros Hi H. induction H as [|tj tj' rest rest' Hj H IH];
    intros [start_j cc]; cbn [crosscorr_inner]; [reflexivity|].
  rewrite (shifted64_diff t ti ti' tj tj' Hi Hj).
  destruct (_ >=? _); [apply IH|].
  destruct (_ <? _); [reflexivity|].
  destruct (numba_incr cc _) as [cc1|]; cbn [bind]; [|reflexivity].
  apply IH.
Qed.

Lemma Forall2_skipn {A B : Type} (R : A -> B -> Prop) (n : nat) :
  forall l l', Forall2 R l l' -> Forall2 R (skipn n l) (skipn n l').
Proof.
  induction n as [|n IH]; intros l l' H; [exact H|].
  destruct H; cbn [skipn]; [constructor|]. apply IH. assumption.
Qed.

Lemma crosscorr_outer_shift times1 times1' times2 times2' :
  Forall2 (shifted64 t) times1 times1' ->
  Forall2 (shifted64 t) times2 times2' ->
  forall st,
    crosscorr_outer window_size bin_size num_half_bins times1 times2 st
    = crosscorr_outer window_size bin_size num_half_bins times1' times2' st.
Proof.
  intros H1 H2. induction H1 as [|ti ti' rest rest' Hi H1 IH]; intros st;
    cbn [crosscorr_outer]; [reflexivity|].
  rewrite (crosscorr_inner_shift ti ti' _ _ Hi
             (Forall2_skipn _ (fst st) _ _ H2)).
  unfold slice_from.
  destruct (crosscorr_inner _ _ _ ti' _ st) as [st1|]; cbn [bind];
    [|reflexivity].
  apply IH.
Qed.
End NumbaShift.

Lemma Forall2_select {A B : Type} (R : A -> B -> Prop) :
  forall l l' m, Forall2 R l l' -> Forall2 R (np_select l m) (np_select l' m).
Proof.
  intros l l' m H. revert m.
  induction H as [|x y l l' Hxy H IH]; intros [|b m]; cbn [np_select];
    try constructor.
  destruct b; [constructor; [assumption|]|]; apply IH.
Qed.

Lemma compute_autocorr_numba_shift t times times' ws bs :
  Forall2 (shifted64 t) times times' ->
  _compute_autocorr_numba times ws bs = _compute_autocorr_numba times' ws bs.
Proof.
  intros H. unfold _compute_autocorr_numba.
  destruct (py_floordiv ws bs) as [nhb|]; cbn [bind]; [|reflexivity].
  destruct (np_zeros1 _) as [a|]; cbn [bind]; [|reflexivity].
  apply (autocorr_outer_shift t); assumption.
Qed.

Lemma compute_crosscorr_numba_shift t times1 times1' times2 times2' ws bs :
  Forall2 (shifted64 t) times1 times1' ->
  Forall2 (shifted64 t) times2 times2' ->
  _compute_crosscorr_numba times1 times2 ws bs
  = _compute_crosscorr_numba times1' times2' ws bs.
Proof.
  intros H1 H2. unfold _compute_crosscorr_numba.
  destruct (py_floordiv ws bs) as [nhb|]; cbn [bind]; [|reflexivity].
  destruct (np_zeros1 _) as [a|]; cbn [bind]; [|reflexivity].
  apply (crosscorr_outer_shift t); assumption.
Qed.

Lemma numba_units_inner_shift t times times' labels ws bs i :
  Forall2 (shifted64 t) times times' ->
  forall js c,
    numba_units_inner times labels ws bs i js c
    = numba_units_inner times' labels ws bs i js c.
Proof.
  intros H js. induction js as [|j js IH]; intros c;
    cbn [numba_units_inner]; [reflexivity|].
  unfold times_of_unit.
  rewrite (compute_autocorr_numba_shift t _ _ ws bs
             (Forall2_select _ _ _ _ H)).
  rewrite (compute_crosscorr_numba_shift t _ _ _ _ ws bs
             (Forall2_select _ _ _ (map (fun l => l =? Z.of_nat i) labels) H)
             (Forall2_select _ _ _ (map (fun l => l =? Z.of_nat j) labels) H)).
  destruct (if Nat.eqb i j then _ else _) as [c1|]; cbn [bind];
    [|reflexivity].
  apply IH.
Qed.

Lemma numba_units_outer_shift t times times' labels ws bs n :
  Forall2 (shifted64 t) times times' ->
  forall units c,
    numba_units_outer times labels ws bs n units c
    = numba_units_outer times' labels ws bs n units c.
Proof.
  intros H units. induction units as [|i units IH]; intros c;
    cbn [numba_units_outer]; [reflexivity|].
  rewrite (numba_units_inner_shift t times times' labels ws bs i H).
  destruct (numba_units_inner times' labels ws bs i _ c) as [c1|];
    cbn [bind]; [|reflexivity].
  apply IH.
Qed.

Lemma numba_segments_shift t segs ws bs :
  forall c,
    numba_segments (map (shift_segment t) segs) ws bs c
    = numba_segments segs ws bs c.
Proof.
  induction segs as [|seg segs IH]; intros c; cbn [numba_segments map].
  - reflexivity.
  - rewrite times_of_shift, labels_of_shift.
    unfold _compute_correlograms_numba.
    rewrite (numba_units_outer_shift t
               (map wrap64 (map (fun x => x + t) (times_of seg)))
               (map wrap64 (times_of seg))).
    + destruct (numba_units_outer _ _ _ _ _ _ c) as [c1|]; cbn [bind];
        [|reflexivity].
      apply IH.
    + rewrite map_map. clear. induction (times_of seg) as [|x l IH];
        cbn [map]; constructor; [apply wrap64_shifted|exact IH].
Qed.

Lemma compute_correlograms_numba_shift h t sorting ws bs :
  compute_correlograms_numba h (shift_sorting t sorting) ws bs
  = compute_correlograms_numba h sorting ws bs.
Proof.
  unfold compute_correlograms_numba, shift_sorting.
  cbn [unit_ids to_spike_vector].
  destruct (py_assert h); cbn [bind]; [|reflexivity].
  destruct (_compute_num_bins ws bs) as [[nb nhb]|]; [|reflexivity].
  cbn [bind]. destruct (np_zeros3 _ _ nb) as [c|]; [|reflexivity].
  cbn [bind]. apply numba_segments_shift.
Qed.

(** Shifting every spike of a sorting by the same number of samples changes
    nothing to what the entry point returns. *)
Lemma compute_correlograms_on_sorting_shift h t sorting window_ms bin_ms
    method :
  compute_correlograms_on_sorting h (shift_sorting t sorting) window_ms
    bin_ms method
  = compute_correlograms_on_sorting h sorting window_ms bin_ms method.
Proof.
  unfold compute_correlograms_on_sorting.
  destruct (py_assert _); cbn [bind]; [|reflexivity].
  change (_make_bins (shift_sorting t sorting) window_ms bin_ms)
    with (_make_bins sorting window_ms bin_ms).
  destruct (_make_bins sorting window_ms bin_ms) as [[[bins ws] bs]|];
    cbn [bind]; [|reflexivity].
  rewrite compute_correlograms_numpy_shift, compute_correlograms_numba_shift.
  reflexivity.
Qed.

(** ** Where the strategies leave the specification *)

Open Scope string_scope.


(** C1. Two units firing at the same sample, with a window of 30 samples and
    bins of 30 samples: the input is valid, and the two strategies return
    different tensors - they disagree on the bin of the pair (unit 1,
    unit 0). *)
Theorem strategies_disagree :
  valid_sorting simultaneous_pair = true
  /\ compute_correlograms_on_sorting true simultaneous_pair 2 1 "numpy"
     = Ok (mkArr3 (2, 2, 2)%nat [0; 0; 0; 1; 0; 1; 0; 0],
           [-1; 0; 1]%float)
  /\ compute_correlograms_on_sorting true simultaneous_pair 2 1 "numba"
     = Ok (mkArr3 (2, 2, 2)%nat [0; 0; 0; 1; 1; 0; 0; 0],
           [-1; 0; 1]%float)
  /\ compute_correlograms_on_sorting true simultaneous_pair 2 1 "numpy"
     <> compute_correlograms_on_sorting true simultaneous_pair 2 1 "numba".
Proof.
  split; [reflexivity|]. split; [reflexivity|]. split; [reflexivity|].
  vm_compute. discriminate.
Qed.


(** C2. One unit with two spikes one bin (30 samples) apart, with a window
    of 60 samples: both strategies return the autocorrelogram
    [0; 1; 0; 1], which is not its own reversal. *)
Theorem mirror_symmetry_fails :
  valid_sorting one_bin_apart = true
  /\ (forall method, method = "numpy" \/ method = "numba" ->
      exists c bins,
        compute_correlograms_on_sorting true one_bin_apart 4 1 method
          = Ok (c, bins)
        /\ row3 c 0 0 = [0; 1; 0; 1]
        /\ rev (row3 c 0 0) <> row3 c 0 0
        /\ mirror_symmetric c = false).
Proof.
  split; [reflexivity|].
  intros method [-> | ->]; eexists; eexists;
    (split; [vm_compute; reflexivity|]);
    (split; [reflexivity|]); (split; [discriminate|reflexivity]).
Qed.



(** C4. Unit 1 fires at sample 0 and unit 0 at sample 30, with a window of
    30 samples: one ordered pair of events has its difference in
    (-30, 30], the numpy strategy counts 1 and the numba strategy counts
    0.  With one unit firing at 0, 30 and 30 there are four such pairs and
    the numpy strategy counts 3. *)
Theorem conservation_fails :
  valid_sorting window_apart_units = true
  /\ pairs_in_window_all 30 window_apart_units = 1
  /\ (exists c bins,
        compute_correlograms_on_sorting true window_apart_units 2 1 "numpy"
          = Ok (c, bins) /\ total c = 1)
  /\ (exists c bins,
        compute_correlograms_on_sorting true window_apart_units 2 1 "numba"
          = Ok (c, bins) /\ total c = 0)
  /\ valid_sorting window_apart_ties = true
  /\ pairs_in_window_all 30 window_apart_ties = 4
  /\ (exists c bins,
        compute_correlograms_on_sorting true window_apart_ties 2 1 "numpy"
          = Ok (c, bins) /\ total c = 3).
Proof.
  split; [reflexivity|]. split; [reflexivity|].
  split; [eexists; eexists; split; [vm_compute; reflexivity|reflexivity]|].
  split; [eexists; eexists; split; [vm_compute; reflexivity|reflexivity]|].
  split; [reflexivity|]. split; [reflexivity|].
  eexists; eexists; split; [vm_compute; reflexivity|reflexivity].
Qed.


(** C5. A sorting of two units and one segment without any event: the numba
    strategy returns the all-zero tensor of shape (2, 2, 2), the numpy
    strategy raises a [ValueError], because the tensor of the segment has
    shape (0, 0, 2) and cannot be added to the (2, 2, 2) accumulator.
    [entry_point_on_silent] shows the same for every sorting without
    events. *)
Theorem empty_input_numpy_raises :
  correlogram_for_one_segment [] [] 30 30 = Ok (mkArr3 (0, 0, 2)%nat [])
  /\ compute_correlograms_on_sorting true two_silent_units 2 1 "numpy"
     = Raise ValueError
  /\ compute_correlograms_on_sorting false two_silent_units 2 1 "auto"
     = Raise ValueError
  /\ compute_correlograms_on_sorting true two_silent_units 2 1 "numba"
     = Ok (mkArr3 (2, 2, 2)%nat [0; 0; 0; 0; 0; 0; 0; 0],
           [-1; 0; 1]%float).
Proof. repeat split; reflexivity. Qed.

Close Scope string_scope.

(** ** Sortings without any event *)

Lemma np_zeros3_ok (n : nat) (num_bins : Z) :
  0 <= num_bins -> np_zeros3 n n num_bins = Ok (zeros3 n num_bins).
Proof.
  intros H. unfold np_zeros3. destruct (Z.ltb_spec num_bins 0); [lia|].
  reflexivity.
Qed.

(** The numpy strategy sizes the tensor of a segment by the labels that
    occur in it: none, for a segment without events. *)
Lemma correlogram_for_one_segment_empty (ws bs nb nhb : Z) :
  _compute_num_bins ws bs = Ok (nb, nhb) -> 0 <= nb ->
  correlogram_for_one_segment [] [] ws bs
  = Ok (mkArr3 (0, 0, Z.to_nat nb)%nat []).
Proof.
  intros E H. unfold correlogram_for_one_segment. rewrite E. cbn [bind].
  cbn [np_unique nodup length]. unfold np_zeros3.
  destruct (Z.ltb_spec nb 0); [lia|]. reflexivity.
Qed.

Lemma numpy_raises_on_empty_segment (sorting : Sorting) (ws bs nb nhb : Z)
    (segs : list (list Spike)) :
  unit_ids sorting <> [] ->
  to_spike_vector sorting = [] :: segs ->
  _compute_num_bins ws bs = Ok (nb, nhb) -> 0 <= nb ->
  compute_correlograms_numpy sorting ws bs = Raise ValueError.
Proof.
  intros Hu Hs E H. unfold compute_correlograms_numpy.
  rewrite E, Hs. cbn [bind]. rewrite np_zeros3_ok by exact H.
  cbn [bind numpy_segments times_of labels_of map].
  rewrite (correlogram_for_one_segment_empty ws bs nb nhb E H).
  cbn [bind]. unfold np_iadd3, zeros3. cbn [shape].
  destruct (unit_ids sorting) as [|u ids]; [contradiction|].
  reflexivity.
Qed.

(** The numba strategy sizes it by the units of the sorting. *)
Lemma iadd_at_zeros (n : nat) :
  forall (len off : nat),
    iadd_at (repeat 0 len) off (repeat 0 n) = repeat 0 len.
Proof.
  intros len. revert n. induction len as [|len IH]; intros n off.
  - destruct off; reflexivity.
  - cbn [repeat]. destruct off as [|off].
    + destruct n as [|n]; cbn [repeat iadd_at]; [reflexivity|].
      f_equal. apply (IH n O).
    + cbn [iadd_at]. f_equal. apply IH.
Qed.

Lemma iadd_row_zeros (n : nat) (nb : Z) (i j : nat) :
  (i < n)%nat -> (j < n)%nat ->
  iadd_row (zeros3 n nb) i j (repeat 0 (Z.to_nat nb)) = Ok (zeros3 n nb).
Proof.
  intros Hi Hj. unfold iadd_row, zeros3, dim0, dim1, dim2.
  cbn [shape data fst snd]. rewrite repeat_length, Nat.eqb_refl.
  rewrite (proj2 (Nat.ltb_lt i n) Hi), (proj2 (Nat.ltb_lt j n) Hj).
  cbn [andb]. rewrite iadd_at_zeros. reflexivity.
Qed.

Lemma times_of_unit_nil (i : nat) : times_of_unit [] [] i = [].
Proof. reflexivity. Qed.

Lemma autocorr_empty (ws bs nb nhb : Z) :
  _compute_num_bins ws bs = Ok (nb, nhb) -> 0 <= nb ->
  _compute_autocorr_numba [] ws bs = Ok (repeat 0 (Z.to_nat nb)).
Proof.
  unfold _compute_num_bins, _compute_autocorr_numba, bind.
  destruct (py_floordiv ws bs) as [h|]; [|discriminate].
  intros E H. assert (E1 : nb = 2 * h) by congruence. subst nb.
  unfold np_zeros1.
  destruct (Z.ltb_spec (2 * h) 0); [lia|]. reflexivity.
Qed.

Lemma crosscorr_empty (ws bs nb nhb : Z) :
  _compute_num_bins ws bs = Ok (nb, nhb) -> 0 <= nb ->
  _compute_crosscorr_numba [] [] ws bs = Ok (repeat 0 (Z.to_nat nb)).
Proof.
  unfold _compute_num_bins, _compute_crosscorr_numba, bind.
  destruct (py_floordiv ws bs) as [h|]; [|discriminate].
  intros E H. assert (E1 : nb = 2 * h) by congruence. subst nb.
  unfold np_zeros1.
  destruct (Z.ltb_spec (2 * h) 0); [lia|]. reflexivity.
Qed.

Section SilentNumba.
Variables (ws bs nb nhb : Z) (n : nat).
Hypothesis geometry : _compute_num_bins ws bs = Ok (nb, nhb).
Hypothesis bins_nonneg : 0 <= nb.

Lemma rev_zeros (k : nat) : rev (repeat 0 k) = repeat 0 k.
Proof.
  induction k as [|k IH]; [reflexivity|].
  cbn [repeat rev]. rewrite IH. symmetry. apply repeat_cons.
Qed.

Lemma numba_units_inner_silent (i : nat) (js : list nat) :
  (i < n)%nat -> Forall (fun j => (j < n)%nat) js ->
  numba_units_inner [] [] ws bs i js (zeros3 n nb) = Ok (zeros3 n nb).
Proof.
  intros Hi H. induction H as [|j js Hj H IH]; cbn [numba_units_inner];
    [reflexivity|].
  rewrite !times_of_unit_nil.
  rewrite (autocorr_empty ws bs nb nhb geometry bins_nonneg),
          (crosscorr_empty ws bs nb nhb geometry bins_nonneg).
  cbn [bind]. rewrite rev_zeros, !iadd_row_zeros by assumption.
  cbn [bind]. rewrite iadd_row_zeros by assumption.
  destruct (Nat.eqb i j); cbn [bind]; exact IH.
Qed.

Lemma numba_units_outer_silent (units : list nat) :
  Forall (fun i => (i < n)%nat) units ->
  numba_units_outer [] [] ws bs n units (zeros3 n nb) = Ok (zeros3 n nb).
Proof.
  intros H. induction H as [|i units Hi H IH]; cbn [numba_units_outer];
    [reflexivity|].
  rewrite numba_units_inner_silent; [cbn [bind]; exact IH|exact Hi|].
  apply Forall_forall. intros j Hj. apply in_seq in Hj. lia.
Qed.

Lemma numba_segments_silent (segs : list (list Spike)) :
  Forall (fun seg => seg = []) segs ->
  numba_segments segs ws bs (zeros3 n nb) = Ok (zeros3 n nb).
Proof.
  intros H. induction H as [|seg segs -> H IH]; cbn [numba_segments];
    [reflexivity|].
  cbn [times_of labels_of map]. unfold _compute_correlograms_numba.
  replace (dim0 (zeros3 n nb)) with n by reflexivity.
  rewrite numba_units_outer_silent; [cbn [bind]; exact IH|].
  apply Forall_forall. intros i Hi. apply in_seq in Hi. lia.
Qed.
End SilentNumba.

Lemma numba_zero_on_silent (sorting : Sorting) (ws bs nb nhb : Z) :
  silent sorting ->
  _compute_num_bins ws bs = Ok (nb, nhb) -> 0 <= nb ->
  compute_correlograms_numba true sorting ws bs
  = Ok (zeros3 (length (unit_ids sorting)) nb).
Proof.
  intros Hs E H. unfold compute_correlograms_numba.
  cbn [py_assert bind]. rewrite E. cbn [bind].
  rewrite np_zeros3_ok by exact H. cbn [bind].
  apply (numba_segments_silent ws bs nb nhb _ E H). exact Hs.
Qed.

(** X4. Through the entry point: on a sorting with at least one unit and at
    least one segment, none of which has an event, and a geometry that the
    bin planner accepts, the numba strategy returns the all-zero tensor and
    the numpy strategy raises. *)
Lemma entry_point_on_silent (sorting : Sorting) (window_ms bin_ms : float)
    (bins : list float) (ws bs : Z) :
  silent sorting ->
  unit_ids sorting <> [] -> to_spike_vector sorting <> [] ->
  _make_bins sorting window_ms bin_ms = Ok (bins, ws, bs) ->
  compute_correlograms_on_sorting true sorting window_ms bin_ms "numba"
  = Ok (zeros3 (length (unit_ids sorting)) (2 * (ws / bs)), bins)
  /\ compute_correlograms_on_sorting true sorting window_ms bin_ms "numpy"
     = Raise ValueError
  /\ compute_correlograms_on_sorting false sorting window_ms bin_ms "auto"
     = Raise ValueError.
Proof.
  intros Hs Hu Hv E.
  destruct (make_bins_inv _ _ _ _ _ _ E) as (_ & _ & _ & _ & Hb & Hn & _).
  assert (G : _compute_num_bins ws bs = Ok (2 * (ws / bs), ws / bs)).
  { unfold _compute_num_bins, py_floordiv.
    destruct (Z.eqb_spec bs 0); [contradiction|]. reflexivity. }
  assert (Hnb : 0 <= 2 * (ws / bs)) by lia.
  assert (P : compute_correlograms_numpy sorting ws bs = Raise ValueError).
  { destruct (to_spike_vector sorting) as [|seg segs] eqn:Ev;
      [contradiction|].
    assert (seg = []) as ->.
    { unfold silent in Hs. rewrite Ev in Hs. inversion Hs. assumption. }
    apply (numpy_raises_on_empty_segment sorting ws bs _ _ segs Hu Ev G Hnb). }
  unfold compute_correlograms_on_sorting.
  cbn [method_in existsb String.eqb Ascii.eqb Bool.eqb orb andb py_assert
       bind].
  rewrite E. cbn [bind].
  rewrite (numba_zero_on_silent sorting ws bs _ _ Hs G Hnb), P.
  repeat split.
Qed.

(** ** The autocorrelogram of the numba strategy and the edge of the window *)

Lemma wrap64_small (z : Z) : - 2 ^ 63 <= z < 2 ^ 63 -> wrap64 z = z.
Proof.
  intros H. unfold wrap64, wrap_signed.
  change (64 - 1) with 63.
  rewrite Z.mod_small; [lia|].
  change (2 ^ 64) with (2 * 2 ^ 63). lia.
Qed.

(** Below 2^53 the binary64 quotient floors like the integers. *)
Lemma floor_div_exact (x bin_size : Z) :
  Z.abs x < 2 ^ 53 -> 0 < bin_size < 2 ^ 53 ->
  floor_div x bin_size = x / bin_size.
Proof.
  intros Hx Hb. unfold floor_div.
  destruct bin_size as [|b|b]; try lia.
  assert (E : (binary64_round (inject_Z x)
               / binary64_round (inject_Z (Z.pos b)) == x # b)%Q).
  { rewrite !binary64_round_int by lia. symmetry. apply Qmake_Qdiv. }
  rewrite (binary64_round_comp _ _ E).
  rewrite floor_binary64_quotient by lia.
  apply wrap64_small.
  pose proof (Z.div_mod x (Z.pos b) ltac:(lia)).
  pose proof (Z.mod_pos_bound x (Z.pos b) ltac:(lia)).
  change (2 ^ 63) with (2 ^ 53 * 1024). nia.
Qed.

Lemma floor_div_0 (bin_size : Z) : floor_div 0 bin_size = 0.
Proof.
  unfold floor_div.
  rewrite (binary64_round_comp
             (binary64_round (inject_Z 0)
              / binary64_round (inject_Z bin_size)) 0)
    by (change (inject_Z 0) with 0%Q; rewrite binary64_round_0;
        unfold Qdiv; apply Qmult_0_l).
  reflexivity.
Qed.

(** The lags that are binned lie within the window: below 2^53, and with
    a window that is a multiple of the bin, their binary64 quotient floors
    like the integers. *)
Lemma floor_div_in_window (window_size bin_size x : Z) :
  0 < bin_size -> window_size mod bin_size = 0 ->
  0 <= window_size < 2 ^ 53 -> Z.abs x <= window_size ->
  floor_div x bin_size = x / bin_size.
Proof.
  intros Hb Hm Hw Hx. destruct (Z.eq_dec x 0) as [->|Hnz].
  - rewrite floor_div_0, Z.div_0_l by lia. reflexivity.
  - apply floor_div_exact; [lia|]. split; [exact Hb|].
    apply Z.mod_divide in Hm; [|lia]. destruct Hm as [k Hk].
    assert (0 < k) by nia. nia.
Qed.

Lemma numba_incr_length (a a' : list Z) (k : Z) :
  numba_incr a k = Ok a' -> length a' = length a.
Proof.
  unfold numba_incr. destruct (_ && _); [|discriminate].
  intros H. injection H as <-.
  generalize (Z.to_nat (wraparound (Z.of_nat (length a)) k)).
  induction a as [|x a IH]; intros [|n]; cbn; auto.
Qed.

Lemma numba_incr_in_range (a : list Z) (k : Z) :
  0 <= k < Z.of_nat (length a) -> exists a', numba_incr a k = Ok a'.
Proof.
  intros H. unfold numba_incr, wraparound.
  destruct (Z.ltb_spec k 0); [lia|].
  destruct (Z.leb_spec 0 k); [|lia].
  destruct (Z.ltb_spec k (Z.of_nat (length a))); [|lia].
  eexists. reflexivity.
Qed.

Lemma numba_incr_past_end (a : list Z) (k : Z) :
  Z.of_nat (length a) <= k -> numba_incr a k = Raise OutOfBounds.
Proof.
  intros H. unfold numba_incr, wraparound.
  destruct (Z.ltb_spec k 0); [lia|].
  destruct (Z.ltb_spec k (Z.of_nat (length a))); [lia|].
  rewrite andb_false_r. reflexivity.
Qed.

(** Whatever the geometry below 2^53, two spikes exactly [window_size]
    apart make [_compute_autocorr_numba] write at index [num_bins]. *)
Lemma autocorr_window_apart (t window_size bin_size : Z) :
  0 < bin_size < 2 ^ 53 -> 0 <= window_size < 2 ^ 53 ->
  _compute_autocorr_numba [t; t + window_size] window_size bin_size
  = Raise OutOfBounds.
Proof.
  intros Hb Hw. unfold _compute_autocorr_numba, py_floordiv, np_zeros1.
  destruct (Z.eqb_spec bin_size 0); [lia|]. cbn [bind].
  assert (Hq : 0 <= window_size / bin_size) by (apply Z.div_pos; lia).
  destruct (Z.ltb_spec (2 * (window_size / bin_size)) 0); [lia|].
  cbn [bind autocorr_outer autocorr_inner].
  replace (t + window_size - t) with window_size by ring.
  rewrite wrap64_small by (change (2 ^ 63) with (2 ^ 53 * 1024); lia).
  destruct (Z.gtb_spec window_size window_size); [lia|].
  rewrite numba_incr_past_end; [reflexivity|].
  rewrite repeat_length, floor_div_exact by lia. lia.
Qed.

(** Conversely, with a window below 2^53, on a time-ordered train in which
    no two spikes are exactly [window_size] apart, every write is inside
    the array. *)

Section AutocorrSafe.
Variables (window_size bin_size : Z).
Hypothesis bin_pos : 0 < bin_size.
Hypothesis window_nonneg : 0 <= window_size < 2 ^ 53.
Hypothesis window_multiple : (bin_size | window_size).

Let num_half_bins := window_size / bin_size.

Lemma window_is_bins : window_size = num_half_bins * bin_size.
Proof.
  unfold num_half_bins. destruct window_multiple as [k ->].
  rewrite Z.div_mul by lia. reflexivity.
Qed.

Lemma autocorr_inner_safe (ti : Z) (later : list Z) :
  Forall (lag_ok window_size ti) later ->
  forall a, Z.of_nat (length a) = 2 * num_half_bins ->
    exists a',
      autocorr_inner window_size bin_size num_half_bins ti later a = Ok a'
      /\ length a' = length a.
Proof.
  intros H. induction H as [|tj later [Hr Hne] H IH]; intros a Ha;
    cbn [autocorr_inner].
  - exists a. split; reflexivity.
  - rewrite wrap64_small by (change (2 ^ 63) with (2 * 2 ^ 62); lia).
    destruct (Z.gtb_spec (tj - ti) window_size) as [Hgt|Hle].
    + exists a. split; reflexivity.
    + pose proof window_is_bins as Hw.
      assert (Hd : 0 <= tj - ti < num_half_bins * bin_size) by lia.
      assert (H1 : 0 <= (tj - ti) / bin_size < num_half_bins).
      { split; [apply Z.div_pos; lia|].
        apply Z.div_lt_upper_bound; lia. }
      assert (H2 : - num_half_bins <= (- (tj - ti)) / bin_size <= 0).
      { split.
        - apply Z.div_le_lower_bound; lia.
        - apply Z.div_le_upper_bound; lia. }
      assert (Hm : window_size mod bin_size = 0)
        by (apply Z.mod_divide; [lia|exact window_multiple]).
      rewrite (wrap64_small (- (tj - ti)))
        by (change (2 ^ 63) with (2 * 2 ^ 62); lia).
      rewrite !(floor_div_in_window window_size) by (assumption || lia).
      destruct (numba_incr_in_range a (num_half_bins + (tj - ti) / bin_size))
        as [a1 E1]; [lia|].
      rewrite E1. cbn [bind].
      pose proof (numba_incr_length _ _ _ E1) as L1.
      destruct (numba_incr_in_range a1
                  (num_half_bins + (- (tj - ti)) / bin_size))
        as [a2 E2]; [lia|].
      rewrite E2. cbn [bind].
      pose proof (numba_incr_length _ _ _ E2) as L2.
      destruct (IH a2) as [a' [E' L']]; [lia|].
      exists a'. split; [exact E'|lia].
Qed.

Lemma autocorr_outer_safe (times : list Z) :
  all_later (lag_ok window_size) times ->
  forall a, Z.of_nat (length a) = 2 * num_half_bins ->
    exists a',
      autocorr_outer window_size bin_size num_half_bins times a = Ok a'
      /\ length a' = length a.
Proof.
  induction times as [|ti later IH]; intros H a Ha; cbn [autocorr_outer].
  - exists a. split; reflexivity.
  - destruct H as [Hi Hl].
    destruct (autocorr_inner_safe ti later Hi a Ha) as [a1 [E1 L1]].
    rewrite E1. cbn [bind].
    destruct (IH Hl a1) as [a' [E' L']]; [lia|].
    exists a'. split; [exact E'|lia].
Qed.

Lemma compute_autocorr_numba_safe (times : list Z) :
  all_later (lag_ok window_size) times ->
  exists a,
    _compute_autocorr_numba times window_size bin_size = Ok a
    /\ Z.of_nat (length a) = 2 * num_half_bins.
Proof.
  intros H. unfold _compute_autocorr_numba, py_floordiv, np_zeros1.
  destruct (Z.eqb_spec bin_size 0); [lia|]. cbn [bind].
  fold num_half_bins.
  assert (Hq : 0 <= num_half_bins) by (apply Z.div_pos; lia).
  destruct (Z.ltb_spec (2 * num_half_bins) 0); [lia|]. cbn [bind].
  assert (L : Z.of_nat (length (repeat 0 (Z.to_nat (2 * num_half_bins))))
              = 2 * num_half_bins) by (rewrite repeat_length; lia).
  destruct (autocorr_outer_safe times H _ L) as [a [E La]].
  exists a. split; [exact E|lia].
Qed.
End AutocorrSafe.

(** C10. Two spikes exactly [window_size] apart: with a window and bins of
    30 samples there are 2 bins, the difference 30 passes the test
    [diff > window_size], its bin is 1 and the index written is
    [num_half_bins + bin = 2], one past the last bin.  The same happens
    for every geometry below 2^53 ([autocorr_window_apart]), where it is
    the only way out of the array ([compute_autocorr_numba_safe]). *)
Theorem autocorr_index_out_of_range :
  sortedb [0; 30] = true
  /\ _compute_num_bins 30 30 = Ok (2, 1)
  /\ (30 - 0 >? 30) = false
  /\ 1 + floor_div (30 - 0) 30 = 2
  /\ numba_incr [0; 0] (1 + floor_div (30 - 0) 30) = Raise OutOfBounds
  /\ _compute_autocorr_numba [0; 30] 30 30 = Raise OutOfBounds.
Proof. repeat split; reflexivity. Qed.

(** * Further properties of the module *)

(** ** Only lags matter *)

(** X1. Moving every spike of a sorting by the same number of samples
    changes nothing: neither strategy, nor the entry point with any method,
    returns a different tensor, error or list of edges. *)
Theorem correlograms_depend_on_lags_only :
  forall HAVE_NUMBA t sorting window_ms bin_ms window_size bin_size method,
    compute_correlograms_on_sorting HAVE_NUMBA (shift_sorting t sorting)
      window_ms bin_ms method
    = compute_correlograms_on_sorting HAVE_NUMBA sorting window_ms bin_ms
        method
    /\ compute_correlograms_numpy (shift_sorting t sorting) window_size
         bin_size
       = compute_correlograms_numpy sorting window_size bin_size
    /\ compute_correlograms_numba HAVE_NUMBA (shift_sorting t sorting)
         window_size bin_size
       = compute_correlograms_numba HAVE_NUMBA sorting window_size bin_size.
Proof.
  intros h t sorting window_ms bin_ms ws bs method.
  split; [apply compute_correlograms_on_sorting_shift|].
  split.
  - apply compute_correlograms_numpy_shift.
  - apply compute_correlograms_numba_shift.
Qed.

(** ** The loop of the numpy strategy *)

(** X2. The [while] loop of [correlogram_for_one_segment] stops by itself
    after at most as many rounds as the segment has spikes, whatever the
    times, the labels and the geometry: allowing it more rounds never
    changes what the function returns. *)
Theorem shift_loop_stops_by_itself :
  forall spike_times spike_labels window_size bin_size more,
    correlogram_for_one_segment spike_times spike_labels window_size
      bin_size
    = ('(num_bins, num_half_bins)
         <- _compute_num_bins window_size bin_size ;;
       correlograms <-
         np_zeros3 (length (np_unique spike_labels))
           (length (np_unique spike_labels)) num_bins ;;
       shift_loop (length spike_times + more) spike_times spike_labels
         bin_size num_half_bins 1
         (repeat true (length spike_times), correlograms)).
Proof.
  intros times labels ws bs more. unfold correlogram_for_one_segment.
  destruct (_compute_num_bins ws bs) as [[nb nhb]|]; [|reflexivity].
  cbn [bind]. destruct (np_zeros3 _ _ nb) as [c|]; [|reflexivity].
  cbn [bind]. symmetry. apply shift_loop_fuel.
  rewrite repeat_length. lia.
Qed.

(** ** Lists *)

Lemma nth_map_in {A B : Type} (f : A -> B) (l : list A) (d : B) (d' : A) :
  forall i, (i < length l)%nat -> nth i (map f l) d = f (nth i l d').
Proof.
  induction l as [|x l IH]; intros [|i] H; cbn in *; try lia.
  - reflexivity.
  - apply IH. lia.
Qed.

(** ** Sortings without events, through the entry point *)

Lemma entry_point_on_silent_witness :
  silent two_silent_units
  /\ unit_ids two_silent_units <> []
  /\ to_spike_vector two_silent_units <> []
  /\ _make_bins two_silent_units 2 1
     = Ok ([-1; 0; 1]%float, 30, 30)
  /\ compute_correlograms_on_sorting true two_silent_units 2 1 "numba"
     = Ok (zeros3 2 2, [-1; 0; 1]%float)
  /\ compute_correlograms_on_sorting true two_silent_units 2 1 "numpy"
     = Raise ValueError.
Proof.
  assert (Hs : silent two_silent_units) by (repeat constructor).
  assert (Hu : unit_ids two_silent_units <> []) by discriminate.
  assert (Hv : to_spike_vector two_silent_units <> []) by discriminate.
  assert (E : _make_bins two_silent_units 2 1
              = Ok ([-1; 0; 1]%float, 30, 30)) by (vm_compute; reflexivity).
  pose proof
    (entry_point_on_silent two_silent_units 2%float 1%float _ 30 30 Hs Hu Hv
       E)
    as (N & P & _).
  split; [exact Hs|]. split; [exact Hu|]. split; [exact Hv|].
  split; [exact E|]. split; [exact N|exact P].
Defined.

(** ** When the autocorrelogram of the numba strategy leaves its array *)

Section AutocorrEdge.
Variables (window_size bin_size : Z).
Hypothesis bin_pos : 0 < bin_size.
Hypothesis window_nonneg : 0 <= window_size < 2 ^ 53.
Hypothesis window_multiple : (bin_size | window_size).

Local Notation num_half_bins := (window_size / bin_size).

Lemma half_bins_nonneg : 0 <= num_half_bins.
Proof. apply Z.div_pos; lia. Qed.

Lemma no_lag_past_window (ti tj : Z) (later : list Z) :
  window_size < tj - ti -> Forall (lag_bounded tj) later ->
  existsb (fun t => t - ti =? window_size) later = false.
Proof.
  intros Hgt H. induction H as [|t later Ht H IH]; [reflexivity|].
  cbn [existsb]. rewrite IH. unfold lag_bounded in Ht.
  destruct (Z.eqb_spec (t - ti) window_size); [lia|reflexivity].
Qed.

Lemma autocorr_inner_edge (ti : Z) (later : list Z) :
  all_later lag_bounded (ti :: later) ->
  forall a, Z.of_nat (length a) = 2 * num_half_bins ->
    if existsb (fun tj => tj - ti =? window_size) later
    then autocorr_inner window_size bin_size num_half_bins ti later a
         = Raise OutOfBounds
    else exists a',
        autocorr_inner window_size bin_size num_half_bins ti later a = Ok a'
        /\ length a' = length a.
Proof.
  assert (Hw : window_size = num_half_bins * bin_size).
  { destruct window_multiple as [k Hk].
    rewrite Hk, Z.div_mul by lia. reflexivity. }
  pose proof half_bins_nonneg as Hh.
  assert (Hm : window_size mod bin_size = 0)
    by (apply Z.mod_divide; [lia|exact window_multiple]).
  induction later as [|tj later IH]; intros [Hi Hl] a Ha;
    cbn [existsb autocorr_inner].
  - exists a. split; reflexivity.
  - inversion Hi as [|? ? Hj Hi']; subst.
    destruct Hl as [Hjl Hl]. unfold lag_bounded in Hj.
    rewrite wrap64_small by (change (2 ^ 63) with (2 * 2 ^ 62); lia).
    destruct (Z.gtb_spec (tj - ti) window_size) as [Hgt|Hle].
    + rewrite (no_lag_past_window ti tj later) by (assumption || lia).
      destruct (Z.eqb_spec (tj - ti) window_size); [lia|]. cbn [orb].
      exists a. split; reflexivity.
    + destruct (Z.eqb_spec (tj - ti) window_size) as [E|Hne]; cbn [orb].
      * rewrite numba_incr_past_end; [reflexivity|].
        rewrite (floor_div_in_window window_size) by (assumption || lia).
        rewrite E, Hw, Z.div_mul by lia. lia.
      * assert (H1 : 0 <= (tj - ti) / bin_size < num_half_bins).
        { split; [apply Z.div_pos; lia|].
          apply Z.div_lt_upper_bound; lia. }
        assert (H2 : - num_half_bins <= (- (tj - ti)) / bin_size <= 0).
        { split.
          - apply Z.div_le_lower_bound; lia.
          - apply Z.div_le_upper_bound; lia. }
        rewrite (wrap64_small (- (tj - ti)))
          by (change (2 ^ 63) with (2 * 2 ^ 62); lia).
        rewrite !(floor_div_in_window window_size) by (assumption || lia).
        destruct (numba_incr_in_range a
                    (num_half_bins + (tj - ti) / bin_size))
          as [a1 E1]; [lia|].
        rewrite E1. cbn [bind].
        pose proof (numba_incr_length _ _ _ E1) as L1.
        destruct (numba_incr_in_range a1
                    (num_half_bins + (- (tj - ti)) / bin_size))
          as [a2 E2]; [lia|].
        rewrite E2. cbn [bind].
        pose proof (numba_incr_length _ _ _ E2) as L2.
        assert (Hrest : all_later lag_bounded (ti :: later))
          by (split; assumption).
        specialize (IH Hrest a2).
        destruct (existsb _ later).
        -- apply IH. lia.
        -- destruct IH as [a' [E' L']]; [lia|].
           exists a'. split; [exact E'|lia].
Qed.

Lemma autocorr_outer_edge (times : list Z) :
  all_later lag_bounded times ->
  forall a, Z.of_nat (length a) = 2 * num_half_bins ->
    if has_lag window_size times
    then autocorr_outer window_size bin_size num_half_bins times a
         = Raise OutOfBounds
    else exists a',
        autocorr_outer window_size bin_size num_half_bins times a = Ok a'
        /\ length a' = length a.
Proof.
  induction times as [|ti later IH]; intros H a Ha;
    cbn [has_lag autocorr_outer].
  - exists a. split; reflexivity.
  - pose proof (autocorr_inner_edge ti later H a Ha) as Hin.
    destruct H as [_ Hl].
    destruct (existsb _ later); cbn [orb].
    + rewrite Hin. reflexivity.
    + destruct Hin as [a1 [E1 L1]]. rewrite E1. cbn [bind].
      specialize (IH Hl a1).
      destruct (has_lag window_size later).
      * apply IH. lia.
      * destruct IH as [a' [E' L']]; [lia|].
        exists a'. split; [exact E'|lia].
Qed.

(** X5. On a time-ordered spike train, with a positive bin and a window
    below 2^53 samples that is a multiple of it, [_compute_autocorr_numba]
    writes outside its array exactly when two spikes of the train are
    [window_size] apart; otherwise it returns an array of [num_bins]
    counters.  (From 2^53 on the binary64 quotient of a lag by the bin can
    be rounded up to the next integer.) *)
Theorem autocorr_leaves_array_iff (times : list Z) :
  all_later lag_bounded times ->
  (has_lag window_size times = true ->
   _compute_autocorr_numba times window_size bin_size = Raise OutOfBounds)
  /\ (has_lag window_size times = false ->
      exists a,
        _compute_autocorr_numba times window_size bin_size = Ok a
        /\ Z.of_nat (length a) = 2 * (window_size / bin_size)).
Proof.
  intros H. pose proof half_bins_nonneg as Hh.
  unfold _compute_autocorr_numba, py_floordiv, np_zeros1.
  destruct (Z.eqb_spec bin_size 0); [lia|]. cbn [bind].
  destruct (Z.ltb_spec (2 * num_half_bins) 0); [lia|]. cbn [bind].
  assert (L : Z.of_nat (length (repeat 0 (Z.to_nat (2 * num_half_bins))))
              = 2 * num_half_bins) by (rewrite repeat_length; lia).
  pose proof (autocorr_outer_edge times H _ L) as Hout.
  split; intros E; rewrite E in Hout.
  - exact Hout.
  - destruct Hout as [a [Ea La]]. exists a. split; [exact Ea|lia].
Qed.
End AutocorrEdge.

Lemma autocorr_leaves_array_iff_witness :
  0 < 10 /\ 0 <= 30 /\ (10 | 30)
  /\ all_later lag_bounded [0; 10; 30; 45]
  /\ has_lag 30 [0; 10; 30; 45] = true
  /\ _compute_autocorr_numba [0; 10; 30; 45] 30 10 = Raise OutOfBounds
  /\ has_lag 30 [0; 10; 35; 45] = false
  /\ all_later lag_bounded [0; 10; 35; 45].
Proof.
  assert (Hd : (10 | 30)) by (exists 3; reflexivity).
  assert (H1 : all_later lag_bounded [0; 10; 30; 45])
    by (unfold lag_bounded; cbn; repeat split; repeat constructor; lia).
  assert (H2 : all_later lag_bounded [0; 10; 35; 45])
    by (unfold lag_bounded; cbn; repeat split; repeat constructor; lia).
  split; [lia|]. split; [lia|]. split; [exact Hd|]. split; [exact H1|].
  split; [reflexivity|]. split.
  - apply (proj1 (autocorr_leaves_array_iff 30 10 ltac:(lia) ltac:(lia) Hd
                    [0; 10; 30; 45] H1)).
    reflexivity.
  - split; [reflexivity|exact H2].
Defined.

(** ** Reading a tensor after an update of one of its rows *)

Lemma iadd_at_length (v : list Z) :
  forall buf off, length (iadd_at buf off v) = length buf.
Proof.
  intros buf. revert v. induction buf as [|x buf IH]; intros v off.
  - destruct off; reflexivity.
  - destruct off as [|off]; cbn [iadd_at].
    + destruct v as [|y v]; [reflexivity|]. cbn [length]. f_equal. apply IH.
    + cbn [length]. f_equal. apply IH.
Qed.

Lemma nth_iadd_at_0 :
  forall buf v p,
    nth p (iadd_at buf O v) 0
    = if (p <? length v)%nat && (p <? length buf)%nat
      then wrap64 (nth p buf 0 + nth p v 0)
      else nth p buf 0.
Proof.
  induction buf as [|x buf IH]; intros v p.
  - cbn. rewrite andb_false_r. reflexivity.
  - destruct v as [|y v]; cbn [iadd_at]; [reflexivity|].
    destruct p as [|p]; [reflexivity|].
    cbn [nth length]. rewrite IH. reflexivity.
Qed.

Lemma nth_iadd_at :
  forall off buf v p,
    nth p (iadd_at buf off v) 0
    = if (off <=? p)%nat && (p <? off + length v)%nat
         && (p <? length buf)%nat
      then wrap64 (nth p buf 0 + nth (p - off) v 0)
      else nth p buf 0.
Proof.
  induction off as [|off IH]; intros buf v p.
  - rewrite nth_iadd_at_0, Nat.sub_0_r. reflexivity.
  - destruct buf as [|x buf]; cbn [iadd_at].
    + cbn [length]. rewrite andb_false_r. reflexivity.
    + destruct p as [|p]; [reflexivity|].
      cbn [nth length]. rewrite IH. reflexivity.
Qed.

Lemma iadd_row_inv (c c' : ndarray3) (i j : nat) (v : list Z) :
  iadd_row c i j v = Ok c' ->
  shape c' = shape c
  /\ data c' = iadd_at (data c) ((i * dim1 c + j) * dim2 c)%nat v
  /\ length v = dim2 c /\ (i < dim0 c)%nat /\ (j < dim1 c)%nat.
Proof.
  unfold iadd_row.
  destruct (Nat.eqb_spec (length v) (dim2 c)) as [L|]; [|discriminate].
  destruct (Nat.ltb_spec i (dim0 c)) as [Hi|]; [|discriminate].
  destruct (Nat.ltb_spec j (dim1 c)) as [Hj|]; [|discriminate].
  cbn [andb]. intros E. injection E as <-. repeat split; assumption.
Qed.

Lemma iadd_row_well_formed (c c' : ndarray3) (i j : nat) (v : list Z) :
  iadd_row c i j v = Ok c' -> well_formed c -> well_formed c'.
Proof.
  intros H W. destruct (iadd_row_inv _ _ _ _ _ H) as (S & D & _).
  unfold well_formed, dim0, dim1, dim2 in *.
  rewrite S, D, iadd_at_length. exact W.
Qed.

(** The cells of the flat buffer: one index triple per position. *)
Lemma flat_index_row (d1 d2 i j i' j' k : nat) :
  (j < d1)%nat -> (j' < d1)%nat -> (k < d2)%nat ->
  ((i * d1 + j) * d2 <= (i' * d1 + j') * d2 + k
   /\ (i' * d1 + j') * d2 + k < (i * d1 + j) * d2 + d2)%nat
  <-> i' = i /\ j' = j.
Proof.
  intros Hj Hj' Hk. split.
  - intros [H1 H2].
    assert (E : (i' * d1 + j' = i * d1 + j)%nat).
    { set (A := (i' * d1 + j')%nat) in *. set (B := (i * d1 + j)%nat) in *.
      destruct (Nat.lt_trichotomy A B) as [Hlt|[Heq|Hgt]]; [|exact Heq|].
      - assert ((A + 1) * d2 <= B * d2)%nat
          by (apply Nat.mul_le_mono_r; lia). lia.
      - assert ((B + 1) * d2 <= A * d2)%nat
          by (apply Nat.mul_le_mono_r; lia). lia. }
    assert (Ei : i' = i).
    { destruct (Nat.lt_trichotomy i' i) as [Hlt|[Heq|Hgt]]; [|exact Heq|].
      - assert ((i' + 1) * d1 <= i * d1)%nat
          by (apply Nat.mul_le_mono_r; lia). lia.
      - assert ((i + 1) * d1 <= i' * d1)%nat
          by (apply Nat.mul_le_mono_r; lia). lia. }
    split; [exact Ei|]. subst i'. lia.
  - intros [-> ->]. lia.
Qed.

Lemma flat_index_bound (d0 d1 d2 i j k : nat) :
  (i < d0)%nat -> (j < d1)%nat -> (k < d2)%nat ->
  ((i * d1 + j) * d2 + k < d0 * d1 * d2)%nat.
Proof.
  intros Hi Hj Hk.
  assert ((i * d1 + j + 1) * d2 <= d0 * d1 * d2)%nat.
  { apply Nat.mul_le_mono_r.
    assert ((i + 1) * d1 <= d0 * d1)%nat
      by (apply Nat.mul_le_mono_r; lia). lia. }
  lia.
Qed.

(** [a[i, j, :] += v] adds [v] to the row [(i, j)] and leaves every other
    cell as it was. *)
Lemma get3_iadd_row (c c' : ndarray3) (i j : nat) (v : list Z) :
  iadd_row c i j v = Ok c' -> well_formed c ->
  forall a b k,
    (a < dim0 c)%nat -> (b < dim1 c)%nat -> (k < dim2 c)%nat ->
    get3 c' a b k
    = if Nat.eqb a i && Nat.eqb b j
      then wrap64 (get3 c a b k + nth k v 0)
      else get3 c a b k.
Proof.
  intros H W a b k Ha Hb Hk.
  destruct (iadd_row_inv _ _ _ _ _ H) as (S & D & L & Hi & Hj).
  unfold get3, dim0, dim1, dim2 in *. rewrite S, D, nth_iadd_at, L.
  set (d1 := snd (fst (shape c))) in *.
  set (d2 := snd (shape c)) in *.
  set (d0 := fst (fst (shape c))) in *.
  pose proof (flat_index_row d1 d2 i j a b k Hj Hb Hk) as F.
  pose proof (flat_index_bound d0 d1 d2 a b k Ha Hb Hk) as B.
  unfold well_formed, dim0, dim1, dim2 in W. fold d0 d1 d2 in W.
  destruct (Nat.eqb_spec a i) as [->|Na];
    [destruct (Nat.eqb_spec b j) as [->|Nb]|]; cbn [andb].
  - replace ((i * d1 + j) * d2 <=? (i * d1 + j) * d2 + k)%nat with true
      by (symmetry; apply Nat.leb_le; lia).
    replace ((i * d1 + j) * d2 + k <? (i * d1 + j) * d2 + d2)%nat with true
      by (symmetry; apply Nat.ltb_lt; lia).
    replace ((i * d1 + j) * d2 + k <? length (data c))%nat with true
      by (symmetry; apply Nat.ltb_lt; lia).
    cbn [andb]. do 3 f_equal. lia.
  - destruct (Nat.leb_spec ((i * d1 + j) * d2) ((i * d1 + b) * d2 + k));
      [|reflexivity].
    destruct (Nat.ltb_spec ((i * d1 + b) * d2 + k) ((i * d1 + j) * d2 + d2));
      [|reflexivity].
    exfalso. apply Nb. apply F. split; assumption.
  - destruct (Nat.leb_spec ((i * d1 + j) * d2) ((a * d1 + b) * d2 + k));
      [|reflexivity].
    destruct (Nat.ltb_spec ((a * d1 + b) * d2 + k) ((i * d1 + j) * d2 + d2));
      [|reflexivity].
    exfalso. apply Na. apply F. split; assumption.
Qed.

Lemma row3_as_get3 (c : ndarray3) (i j : nat) :
  well_formed c -> (i < dim0 c)%nat -> (j < dim1 c)%nat ->
  row3 c i j = map (get3 c i j) (seq 0 (dim2 c)).
Proof.
  intros W Hi Hj. unfold row3.
  assert (B : ((i * dim1 c + j) * dim2 c + dim2 c <= length (data c))%nat).
  { rewrite W.
    assert ((i * dim1 c + j + 1) * dim2 c <= dim0 c * dim1 c * dim2 c)%nat.
    { apply Nat.mul_le_mono_r.
      assert ((i + 1) * dim1 c <= dim0 c * dim1 c)%nat
        by (apply Nat.mul_le_mono_r; lia). lia. }
    lia. }
  apply (nth_ext _ _ 0 0).
  - rewrite length_firstn, length_skipn, length_map, length_seq. lia.
  - intros k Hk. rewrite length_firstn, length_skipn in Hk.
    assert (Hk' : (k < dim2 c)%nat) by lia.
    rewrite nth_firstn.
    replace (k <? dim2 c)%nat with true by (symmetry; apply Nat.ltb_lt; lia).
    rewrite nth_skipn.
    rewrite (nth_map_in (get3 c i j) _ 0 O) by (rewrite length_seq; lia).
    rewrite seq_nth by lia. reflexivity.
Qed.

Section MirrorSteps.
Variables (n nb : nat).

Lemma dims_of_shape (c : ndarray3) :
  shape c = (n, n, nb) -> dim0 c = n /\ dim1 c = n /\ dim2 c = nb.
Proof. unfold dim0, dim1, dim2. intros ->. repeat split. Qed.

Lemma mirrored_auto_step (c c' : ndarray3) (i : nat) (v : list Z) :
  iadd_row c i i v = Ok c' ->
  mirrored_off_diagonal n nb c -> mirrored_off_diagonal n nb c'.
Proof.
  intros H (S & W & M).
  destruct (dims_of_shape c S) as (D0 & D1 & D2).
  destruct (iadd_row_inv _ _ _ _ _ H) as (S' & _).
  split; [congruence|]. split; [eapply iadd_row_well_formed; eassumption|].
  intros a b k Ha Hb Hab Hk.
  rewrite !(get3_iadd_row c c' i i v H W) by lia.
  destruct (Nat.eqb_spec b i) as [Eb|Nb]; destruct (Nat.eqb_spec a i) as [Ea|Na];
    cbn [andb]; try (apply M; assumption).
  exfalso. apply Hab. congruence.
Qed.

Lemma mirrored_cross_step (c c1 c2 : ndarray3) (i j : nat) (v : list Z) :
  i <> j ->
  iadd_row c i j v = Ok c1 -> iadd_row c1 j i (rev v) = Ok c2 ->
  mirrored_off_diagonal n nb c -> mirrored_off_diagonal n nb c2.
Proof.
  intros Hij H1 H2 (S & W & M).
  destruct (dims_of_shape c S) as (D0 & D1 & D2).
  destruct (iadd_row_inv _ _ _ _ _ H1) as (S1 & _ & L & Hi & Hj).
  pose proof (iadd_row_well_formed _ _ _ _ _ H1 W) as W1.
  destruct (iadd_row_inv _ _ _ _ _ H2) as (S2 & _).
  assert (S1' : shape c1 = (n, n, nb)) by congruence.
  destruct (dims_of_shape c1 S1') as (E0 & E1 & E2).
  split; [congruence|]. split; [eapply iadd_row_well_formed; eassumption|].
  intros a b k Ha Hb Hab Hk.
  rewrite !(get3_iadd_row c1 c2 j i (rev v) H2 W1) by lia.
  rewrite !(get3_iadd_row c c1 i j v H1 W) by lia.
  assert (Lv : length v = nb) by lia.
  assert (R : forall m, (m < nb)%nat -> nth m (rev v) 0 = nth (nb - 1 - m) v 0).
  { intros m Hm. rewrite rev_nth by lia. f_equal. lia. }
  destruct (Nat.eqb_spec a i) as [Eai|Nai];
    destruct (Nat.eqb_spec b j) as [Ebj|Nbj];
    destruct (Nat.eqb_spec b i) as [Ebi|Nbi];
    destruct (Nat.eqb_spec a j) as [Eaj|Naj];
    cbn [andb]; subst; try contradiction; try (apply M; assumption).
  - rewrite R by lia. rewrite (M i j k) by assumption. reflexivity.
  - rewrite R by lia. rewrite (M j i k) by (assumption || lia).
    do 3 f_equal. lia.
Qed.
End MirrorSteps.

Section MirrorLoops.
Variables (n nb : nat) (spike_times spike_labels : list Z)
  (window_size bin_size : Z).

Lemma numba_units_inner_mirrored (i : nat) (js : list nat) :
  forall c c',
    numba_units_inner spike_times spike_labels window_size bin_size i js c
    = Ok c' ->
    mirrored_off_diagonal n nb c -> mirrored_off_diagonal n nb c'.
Proof.
  induction js as [|j js IH]; intros c c'; cbn [numba_units_inner].
  - intros H. injection H as <-. auto.
  - destruct (Nat.eqb_spec i j) as [<-|Hij].
    + destruct (_compute_autocorr_numba _ _ _) as [ac|]; cbn [bind];
        [|discriminate].
      destruct (iadd_row c i i ac) as [c1|] eqn:E1; cbn [bind];
        [|discriminate].
      intros H M. apply (IH c1 c' H).
      eapply mirrored_auto_step; eassumption.
    + destruct (_compute_crosscorr_numba _ _ _ _) as [cc|]; cbn [bind];
        [|discriminate].
      destruct (iadd_row c i j cc) as [c1|] eqn:E1; cbn [bind];
        [|discriminate].
      destruct (iadd_row c1 j i (rev cc)) as [c2|] eqn:E2; cbn [bind];
        [|discriminate].
      intros H M. apply (IH c2 c' H).
      eapply mirrored_cross_step; eassumption.
Qed.

Lemma numba_units_outer_mirrored (m : nat) (units : list nat) :
  forall c c',
    numba_units_outer spike_times spike_labels window_size bin_size m units c
    = Ok c' ->
    mirrored_off_diagonal n nb c -> mirrored_off_diagonal n nb c'.
Proof.
  induction units as [|i units IH]; intros c c'; cbn [numba_units_outer].
  - intros H. injection H as <-. auto.
  - destruct (numba_units_inner _ _ _ _ i _ c) as [c1|] eqn:E1; cbn [bind];
      [|discriminate].
    intros H M. apply (IH c1 c' H).
    eapply numba_units_inner_mirrored; eassumption.
Qed.
End MirrorLoops.

Lemma numba_segments_mirrored (n nb : nat) (ws bs : Z) (segs : list (list Spike)) :
  forall c c',
    numba_segments segs ws bs c = Ok c' ->
    mirrored_off_diagonal n nb c -> mirrored_off_diagonal n nb c'.
Proof.
  induction segs as [|seg segs IH]; intros c c'; cbn [numba_segments].
  - intros H. injection H as <-. auto.
  - destruct (_compute_correlograms_numba c _ _ ws bs) as [c1|] eqn:E1;
      cbn [bind]; [|discriminate].
    intros H M. apply (IH c1 c' H).
    unfold _compute_correlograms_numba in E1.
    eapply numba_units_outer_mirrored; eassumption.
Qed.

Lemma nth_zeros (len p : nat) : nth p (repeat 0 len) 0 = 0.
Proof.
  revert p. induction len as [|len IH]; intros [|p]; cbn; auto.
Qed.

Lemma zeros_mirrored (n : nat) (nb : Z) (c : ndarray3) :
  np_zeros3 n n nb = Ok c -> mirrored_off_diagonal n (Z.to_nat nb) c.
Proof.
  unfold np_zeros3. destruct (nb <? 0); [discriminate|].
  intros H. injection H as <-. split; [reflexivity|].
  split; [unfold well_formed; cbn; apply repeat_length|].
  intros i j k _ _ _ _. unfold get3. cbn [data]. rewrite !nth_zeros.
  reflexivity.
Qed.

Lemma compute_correlograms_numba_mirrored h sorting ws bs c :
  compute_correlograms_numba h sorting ws bs = Ok c ->
  mirrored_off_diagonal (length (unit_ids sorting))
    (Z.to_nat (2 * (ws / bs))) c.
Proof.
  unfold compute_correlograms_numba, _compute_num_bins, py_floordiv, bind.
  destruct (py_assert h); [|discriminate].
  destruct (bs =? 0); [discriminate|].
  destruct (np_zeros3 _ _ _) as [c0|] eqn:E0; [|discriminate].
  intros H. eapply numba_segments_mirrored; [exact H|].
  apply zeros_mirrored. exact E0.
Qed.

(** X6. Whenever the entry point returns with the numba strategy, the
    tensor has one row of [num_bins] counters for every ordered pair of the
    sorting's units, and for two different units A and B the row of (B, A)
    is the row of (A, B) reversed - whatever the spikes, ordered or not. *)
Theorem numba_rows_mirrored :
  forall sorting window_ms bin_ms c bins,
    compute_correlograms_on_sorting true sorting window_ms bin_ms "numba"
    = Ok (c, bins) ->
    let n := length (unit_ids sorting) in
    exists window_size bin_size,
      _make_bins sorting window_ms bin_ms = Ok (bins, window_size, bin_size)
      /\ shape c = (n, n, Z.to_nat (2 * (window_size / bin_size)))
      /\ well_formed c
      /\ forall a b,
           (a < n)%nat -> (b < n)%nat -> a <> b ->
           row3 c b a = rev (row3 c a b).
Proof.
  intros sorting window_ms bin_ms c bins H n.
  unfold compute_correlograms_on_sorting in H.
  cbn [method_in existsb String.eqb Ascii.eqb Bool.eqb orb andb py_assert
       bind] in H.
  destruct (_make_bins sorting window_ms bin_ms) as [[[bins0 ws] bs]|];
    cbn [bind] in H; [|discriminate].
  destruct (compute_correlograms_numba true sorting ws bs) as [c0|] eqn:E;
    cbn [bind] in H; [|discriminate].
  injection H as <- <-.
  destruct (compute_correlograms_numba_mirrored _ _ _ _ _ E) as (S & W & M).
  fold n in S, M.
  exists ws, bs. split; [reflexivity|]. split; [exact S|].
  split; [exact W|].
  intros a b Ha Hb Hab.
  destruct (dims_of_shape _ _ _ S) as (D0 & D1 & D2).
  rewrite !row3_as_get3 by (assumption || lia).
  rewrite D2. set (nb := Z.to_nat (2 * (ws / bs))) in *.
  apply (nth_ext _ _ 0 0).
  - rewrite length_rev, !length_map. reflexivity.
  - intros k Hk. rewrite length_map, length_seq in Hk.
    rewrite rev_nth by (rewrite length_map, length_seq; exact Hk).
    rewrite length_map, length_seq.
    rewrite !(nth_map_in _ _ 0 O) by (rewrite length_seq; lia).
    rewrite !seq_nth by lia. cbn [Nat.add].
    rewrite (M a b k) by assumption. f_equal. lia.
Qed.

Lemma numba_rows_mirrored_witness :
  let c := mkArr3 (2, 2, 2)%nat [0; 0; 0; 1; 1; 0; 0; 0] in
  compute_correlograms_on_sorting true simultaneous_pair 2 1 "numba"
  = Ok (c, [-1; 0; 1]%float)
  /\ row3 c 1 0 = rev (row3 c 0 1).
Proof.
  intros c.
  assert (E : compute_correlograms_on_sorting true simultaneous_pair 2 1
                "numba" = Ok (c, [-1; 0; 1]%float))
    by (vm_compute; reflexivity).
  split; [exact E|].
  destruct (numba_rows_mirrored simultaneous_pair 2%float 1%float c _ E)
    as (ws & bs & _ & _ & _ & M).
  apply M; cbn; lia.
Defined.

(** ** The shape of what the entry point returns *)

Lemma np_iadd3_shape (a b a' : ndarray3) :
  np_iadd3 a b = Ok a' ->
  shape a' = shape a /\ length (data a') = length (data a).
Proof.
  unfold np_iadd3.
  destruct (shape a) as [[a0 a1] a2] eqn:Sa.
  destruct (shape b) as [[b0 b1] b2].
  destruct (_ && _); [|discriminate].
  intros H. injection H as <-. cbn [shape data]. split; [reflexivity|].
  rewrite length_map, length_combine, length_seq. lia.
Qed.

Lemma numpy_segments_shape (ws bs : Z) (segs : list (list Spike)) :
  forall c c',
    numpy_segments segs ws bs c = Ok c' ->
    shape c' = shape c /\ length (data c') = length (data c).
Proof.
  induction segs as [|seg segs IH]; intros c c'; cbn [numpy_segments].
  - intros H. injection H as <-. split; reflexivity.
  - destruct (correlogram_for_one_segment _ _ ws bs) as [c0|]; cbn [bind];
      [|discriminate].
    destruct (np_iadd3 c c0) as [c1|] eqn:E1; cbn [bind]; [|discriminate].
    intros H. destruct (IH _ _ H) as [S L].
    destruct (np_iadd3_shape _ _ _ E1) as [S1 L1].
    split; congruence.
Qed.

Lemma compute_correlograms_numpy_shape sorting ws bs c :
  compute_correlograms_numpy sorting ws bs = Ok c ->
  let n := length (unit_ids sorting) in
  shape c = (n, n, Z.to_nat (2 * (ws / bs))) /\ well_formed c.
Proof.
  unfold compute_correlograms_numpy, _compute_num_bins, py_floordiv, bind.
  destruct (bs =? 0); [discriminate|].
  destruct (np_zeros3 _ _ _) as [c0|] eqn:E0; [|discriminate].
  intros H. destruct (numpy_segments_shape _ _ _ _ _ H) as [S L].
  destruct (zeros_mirrored _ _ _ E0) as (S0 & W0 & _).
  split; [congruence|].
  unfold well_formed, dim0, dim1, dim2 in *. rewrite L, S, W0. reflexivity.
Qed.

Lemma make_bins_edges_count sorting window_ms bin_ms bins ws bs :
  _make_bins sorting window_ms bin_ms = Ok (bins, ws, bs) ->
  length bins = S (Z.to_nat (2 * (ws / bs))).
Proof.
  intros H.
  destruct (make_bins_inv _ _ _ _ _ _ H)
    as (rounded & _ & _ & Ew & Hnz & Hn & Ebins).
  assert (E : ws = bs * (ws / bs)).
  { rewrite Ew at 1. f_equal. rewrite Ew.
    rewrite (Z.mul_comm bs), Z.div_mul by exact Hnz. reflexivity. }
  apply Nat2Z.inj. rewrite Ebins, length_map.
  remember (ws / bs) as q eqn:Hq. rewrite E.
  rewrite arange_bins_length by lia. lia.
Qed.

(** X7. Whenever the entry point returns, with any method and whether
    numba is there or not, the tensor has shape
    (num_units, num_units, num_bins) for the units of the sorting and the
    [num_bins = 2 * (window_size // bin_size)] of the planned geometry, its
    buffer has one cell per index, and there is one edge more than there
    are bins. *)
Theorem returned_tensor_shape :
  forall HAVE_NUMBA sorting window_ms bin_ms method c bins,
    compute_correlograms_on_sorting HAVE_NUMBA sorting window_ms bin_ms
      method = Ok (c, bins) ->
    let n := length (unit_ids sorting) in
    exists window_size bin_size,
      _make_bins sorting window_ms bin_ms = Ok (bins, window_size, bin_size)
      /\ shape c = (n, n, Z.to_nat (2 * (window_size / bin_size)))
      /\ length (data c) = (n * n * dim2 c)%nat
      /\ length bins = S (dim2 c).
Proof.
  intros h sorting window_ms bin_ms method c bins H n.
  unfold compute_correlograms_on_sorting in H.
  destruct (py_assert _); cbn [bind] in H; [|discriminate].
  destruct (_make_bins sorting window_ms bin_ms) as [[[bins0 ws] bs]|]
    eqn:E; cbn [bind] in H; [|discriminate].
  exists ws, bs.
  assert (G : forall c0,
             shape c0 = (n, n, Z.to_nat (2 * (ws / bs))) /\ well_formed c0 ->
             Ok (c0, bins0) = Ok (c, bins) ->
             Ok (bins0, ws, bs) = Ok (bins, ws, bs)
             /\ shape c = (n, n, Z.to_nat (2 * (ws / bs)))
             /\ length (data c) = (n * n * dim2 c)%nat
             /\ length bins = S (dim2 c)).
  { intros c0 [S W] E0. injection E0 as <- <-.
    split; [reflexivity|]. split; [exact S|].
    destruct (dims_of_shape _ _ _ S) as (D0 & D1 & D2).
    unfold well_formed in W. rewrite D0, D1 in W.
    split; [exact W|].
    rewrite D2. apply (make_bins_edges_count _ _ _ _ _ _ E). }
  destruct (String.eqb _ "numpy").
  - destruct (compute_correlograms_numpy sorting ws bs) as [c1|] eqn:E1;
      cbn [bind] in H; [|discriminate].
    destruct (String.eqb _ "numba").
    + destruct (compute_correlograms_numba h sorting ws bs) as [c2|] eqn:E2;
        cbn [bind] in H; [|discriminate].
      apply (G c2); [|exact H].
      destruct (compute_correlograms_numba_mirrored _ _ _ _ _ E2)
        as (S & W & _). split; assumption.
    + cbn [bind] in H. apply (G c1); [|exact H].
      apply compute_correlograms_numpy_shape. exact E1.
  - cbn [bind] in H. destruct (String.eqb _ "numba").
    + destruct (compute_correlograms_numba h sorting ws bs) as [c2|] eqn:E2;
        cbn [bind] in H; [|discriminate].
      apply (G c2); [|exact H].
      destruct (compute_correlograms_numba_mirrored _ _ _ _ _ E2)
        as (S & W & _). split; assumption.
    + cbn [bind] in H. discriminate.
Qed.

Lemma returned_tensor_shape_witness :
  let c := mkArr3 (1, 1, 2)%nat [1; 1] in
  let bins := [-1; 0; 1]%float in
  compute_correlograms_on_sorting false one_bin_less_apart 2 1 "auto"
  = Ok (c, bins)
  /\ shape c = (1, 1, 2)%nat
  /\ length (data c) = 2%nat /\ length bins = 3%nat.
Proof.
  intros c bins.
  assert (E : compute_correlograms_on_sorting false one_bin_less_apart 2 1
                "auto" = Ok (c, bins)) by (vm_compute; reflexivity).
  split; [exact E|].
  destruct (returned_tensor_shape false one_bin_less_apart 2%float 1%float
              "auto"%string c bins E) as (ws & bs & _ & _ & L & B).
  split; [reflexivity|]. split; [exact L|exact B].
Defined.

(** ** What the cross-correlogram of the numba strategy counts *)

Lemma wrap64_unfold (x : Z) : exists m, wrap64 x = x + m * 2 ^ 64.
Proof.
  unfold wrap64, wrap_signed.
  set (h := 2 ^ (64 - 1)). set (m := 2 ^ 64).
  assert (Hm : m <> 0) by (unfold m; lia).
  pose proof (Z.div_mod (x + h) m Hm) as E.
  exists (- ((x + h) / m)). lia.
Qed.

Lemma wrap64_succ (x : Z) : wrap64 (wrap64 x + 1) = wrap64 (x + 1).
Proof.
  destruct (wrap64_unfold x) as [m E]. rewrite E.
  apply (wrap64_congr _ _ m). ring.
Qed.

Lemma incr_nth_length (a : list Z) : forall n, length (incr_nth a n) = length a.
Proof. induction a as [|x a IH]; intros [|n]; cbn; auto. Qed.

Lemma nth_incr_nth (a : list Z) :
  forall n k,
    (n < length a)%nat ->
    nth k (incr_nth a n) 0
    = if Nat.eqb k n then wrap64 (nth k a 0 + 1) else nth k a 0.
Proof.
  induction a as [|x a IH]; intros [|n] [|k] H; cbn in *; try lia;
    try reflexivity.
  apply IH. lia.
Qed.

Lemma numba_incr_counts (a : list Z) (f : nat -> nat) (idx : nat) :
  (idx < length a)%nat -> holds_counts a f ->
  exists a',
    numba_incr a (Z.of_nat idx) = Ok a'
    /\ length a' = length a
    /\ holds_counts a' (fun k => if Nat.eqb k idx then S (f k) else f k).
Proof.
  intros Hi Hf. unfold numba_incr, wraparound.
  destruct (Z.ltb_spec (Z.of_nat idx) 0); [lia|].
  destruct (Z.leb_spec 0 (Z.of_nat idx)); [|lia].
  destruct (Z.ltb_spec (Z.of_nat idx) (Z.of_nat (length a))); [|lia].
  cbn [andb]. rewrite Nat2Z.id. eexists. split; [reflexivity|].
  split; [apply incr_nth_length|].
  intros k Hk. rewrite incr_nth_length in Hk.
  rewrite nth_incr_nth by exact Hi.
  destruct (Nat.eqb k idx); [|apply Hf; exact Hk].
  rewrite (Hf k Hk), wrap64_succ. f_equal. lia.
Qed.

Lemma all_later_skipn (P : Z -> Z -> Prop) (n : nat) :
  forall l, all_later P l -> all_later P (skipn n l).
Proof.
  induction n as [|n IH]; intros [|x l] H; cbn; auto.
  apply IH, H.
Qed.

Lemma Forall_skipn {A : Type} (P : A -> Prop) (n : nat) :
  forall l, Forall P l -> Forall P (skipn n l).
Proof.
  induction n as [|n IH]; intros [|x l] H; cbn; auto.
  apply IH. inversion H; assumption.
Qed.

Lemma filter_none {A : Type} (p : A -> bool) (l : list A) :
  Forall (fun x => p x = false) l -> filter p l = [].
Proof.
  induction 1 as [|x l Hx _ IH]; cbn; [reflexivity|]. rewrite Hx. exact IH.
Qed.

Lemma count_pairs_cons (P : Z -> Z -> bool) (ti : Z) (times1 times2 : list Z) :
  count_pairs P (ti :: times1) times2
  = (length (filter (P ti) times2) + count_pairs P times1 times2)%nat.
Proof.
  unfold count_pairs. cbn [list_prod].
  rewrite filter_app, length_app. f_equal.
  induction times2 as [|tj l IH]; cbn; [reflexivity|].
  destruct (P ti tj); cbn; rewrite IH; reflexivity.
Qed.

Section CrosscorrCounts.

Variables window_size bin_size : Z.
Hypothesis Hbs : 0 < bin_size.
Hypothesis Hmul : window_size mod bin_size = 0.
Hypothesis Hws : 0 <= window_size < 2 ^ 53.

Local Notation num_half_bins := (window_size / bin_size).
Local Notation in_bin := (lag_in_bin window_size bin_size).

Lemma window_in_bins : window_size = bin_size * num_half_bins.
Proof.
  pose proof (Z.div_mod window_size bin_size) as E. lia.
Qed.

Lemma lag_bin_index (d : Z) :
  - window_size <= d < window_size ->
  0 <= num_half_bins + d / bin_size < 2 * num_half_bins.
Proof.
  intros Hd. pose proof window_in_bins as E.
  assert (- num_half_bins <= d / bin_size).
  { apply Z.div_le_lower_bound; [lia|]. nia. }
  assert (d / bin_size < num_half_bins).
  { apply Z.div_lt_upper_bound; [lia|]. nia. }
  lia.
Qed.

(** Once a spike of the second train is inside the window, the start of
    the scan moves no further. *)
Lemma crosscorr_inner_stays (ti : Z) :
  forall (from_start : list Z) (s s' : nat) (a a' : list Z),
    Forall (fun tj => ti - tj < window_size) from_start ->
    Forall (fun tj => - 2 ^ 62 < ti - tj < 2 ^ 62) from_start ->
    crosscorr_inner window_size bin_size num_half_bins ti from_start (s, a)
    = Ok (s', a') ->
    s' = s.
Proof.
  induction from_start as [|x r IHr]; intros s s' a a' Hall Hb E.
  - cbn in E. congruence.
  - inversion Hall; subst. inversion Hb; subst.
    cbn [crosscorr_inner] in E.
    rewrite (wrap64_small (ti - x)) in E by lia.
    destruct (Z.geb_spec (ti - x) window_size); [lia|].
    destruct (ti - x <? - window_size); [congruence|].
    destruct (numba_incr a _) as [a2|e] in E; cbn [bind] in E;
      [|discriminate].
    eapply IHr; eauto.
Qed.

(** The scan of the second train for one spike [ti] of the first. *)
Lemma crosscorr_inner_counts (ti : Z) :
  forall (from_start : list Z) (start_j : nat) (a : list Z) (f : nat -> nat),
    all_later Z.le from_start ->
    Forall (fun tj => - 2 ^ 62 < ti - tj < 2 ^ 62) from_start ->
    length a = Z.to_nat (2 * num_half_bins) ->
    holds_counts a f ->
    exists start_j' a',
      crosscorr_inner window_size bin_size num_half_bins ti from_start
        (start_j, a) = Ok (start_j', a')
      /\ length a' = length a
      /\ holds_counts a'
           (fun k => (f k + length (filter (in_bin k ti) from_start))%nat)
      /\ (start_j <= start_j')%nat
      /\ Forall (fun tj => window_size <= ti - tj)
           (firstn (start_j' - start_j) from_start).
Proof.
  induction from_start as [|tj rest IH]; intros start_j a f Hs Hb Hl Hf.
  - exists start_j, a. cbn. repeat split; auto.
    + intros k Hk. rewrite Nat.add_0_r. apply Hf, Hk.
    + rewrite Nat.sub_diag. constructor.
  - destruct Hs as [Hle Hs]. inversion Hb as [|? ? Hd Hb']; subst.
    cbn [crosscorr_inner].
    rewrite (wrap64_small (ti - tj)) by lia.
    destruct (Z.geb_spec (ti - tj) window_size) as [Hge|Hlt].
    + destruct (IH (S start_j) a f Hs Hb' Hl Hf)
        as (s' & a' & E & L & C & Hss & Hf').
      exists s', a'. rewrite E. repeat split; auto.
      * intros k Hk. rewrite (C k Hk). cbn [filter].
        unfold lag_in_bin at 2.
        destruct (Z.ltb_spec (ti - tj) window_size); [lia|].
        rewrite andb_false_r. reflexivity.
      * lia.
      * replace (s' - start_j)%nat with (S (s' - S start_j)) by lia.
        cbn [firstn]. constructor; [lia | exact Hf'].
    + destruct (Z.ltb_spec (ti - tj) (- window_size)) as [Hbr|Hin].
      * exists start_j, a. repeat split; auto.
        -- intros k Hk. rewrite filter_none; [cbn; rewrite Nat.add_0_r;
             apply Hf, Hk|].
           constructor.
           ++ unfold lag_in_bin.
              destruct (Z.leb_spec (- window_size) (ti - tj)); [lia|].
              reflexivity.
           ++ rewrite Forall_forall in Hle |- *. intros x Hx.
              specialize (Hle x Hx). unfold lag_in_bin.
              destruct (Z.leb_spec (- window_size) (ti - x)); [lia|].
              reflexivity.
        -- rewrite Nat.sub_diag. constructor.
      * rewrite (floor_div_in_window window_size) by (assumption || lia).
        pose proof (lag_bin_index (ti - tj) ltac:(lia)) as Hidx.
        set (idx := Z.to_nat (num_half_bins + (ti - tj) / bin_size)).
        assert (Eidx : num_half_bins + (ti - tj) / bin_size = Z.of_nat idx)
          by (unfold idx; lia).
        rewrite Eidx.
        destruct (numba_incr_counts a f idx ltac:(lia) Hf)
          as (a1 & E1 & L1 & C1).
        rewrite E1. cbn [bind].
        destruct (IH start_j a1 _ Hs Hb' ltac:(congruence) C1)
          as (s' & a' & E & L & C & Hss & Hf').
        assert (s' = start_j).
        { apply (crosscorr_inner_stays ti rest start_j s' a1 a'); auto.
          rewrite Forall_forall in Hle |- *. intros x Hx.
          specialize (Hle x Hx). lia. }
        subst s'. exists start_j, a'. rewrite E. repeat split; auto.
        -- congruence.
        -- intros k Hk. rewrite (C k Hk). cbn [filter].
           unfold lag_in_bin at 2.
           destruct (Z.leb_spec (- window_size) (ti - tj)); [|lia].
           destruct (Z.ltb_spec (ti - tj) window_size); [|lia].
           cbn [andb]. rewrite Eidx.
           destruct (Nat.eqb_spec k idx) as [->|Hne].
           ++ rewrite Z.eqb_refl. cbn [length]. f_equal. lia.
           ++ destruct (Z.eqb_spec (Z.of_nat idx) (Z.of_nat k)); [lia|].
              reflexivity.
        -- rewrite Nat.sub_diag. constructor.
Qed.

Lemma firstn_add_skipn {A : Type} (m : nat) :
  forall (n : nat) (l : list A),
    firstn (n + m) l = firstn n l ++ firstn m (skipn n l).
Proof.
  induction n as [|n IH]; intros [|x l]; cbn; auto.
  - destruct m; reflexivity.
  - f_equal. apply IH.
Qed.

Section CrosscorrOuter.

Variable times2 : list Z.
Hypothesis Hs2 : all_later Z.le times2.
Hypothesis Hb2 : Forall (fun t => 0 <= t < 2 ^ 62) times2.

(** The scan may start at [start_j]: the spikes of the second train before
    it are a window or more before [ti]. *)
Lemma filter_from_start (k : nat) (ti : Z) (start_j : nat) :
  Forall (fun tj => window_size <= ti - tj) (firstn start_j times2) ->
  length (filter (in_bin k ti) (skipn start_j times2))
  = length (filter (in_bin k ti) times2).
Proof.
  intros H. rewrite <- (firstn_skipn start_j times2) at 2.
  rewrite filter_app, length_app.
  rewrite (filter_none (in_bin k ti) (firstn start_j times2));
    [reflexivity|].
  eapply Forall_impl; [|exact H]. cbn. intros tj Htj. unfold lag_in_bin.
  destruct (Z.ltb_spec (ti - tj) window_size); [lia|].
  rewrite andb_false_r. reflexivity.
Qed.

Lemma crosscorr_outer_counts :
  forall (times1 : list Z) (start_j : nat) (a : list Z) (f : nat -> nat),
    all_later Z.le times1 ->
    Forall (fun t => 0 <= t < 2 ^ 62) times1 ->
    (forall ti, In ti times1 ->
       Forall (fun tj => window_size <= ti - tj) (firstn start_j times2)) ->
    length a = Z.to_nat (2 * num_half_bins) ->
    holds_counts a f ->
    exists a',
      crosscorr_outer window_size bin_size num_half_bins times1 times2
        (start_j, a) = Ok a'
      /\ length a' = length a
      /\ holds_counts a'
           (fun k => (f k + count_pairs (in_bin k) times1 times2)%nat).
Proof.
  induction times1 as [|ti rest IH]; intros start_j a f Hs1 Hb1 Hinv Hl Hf.
  - exists a. cbn. repeat split; auto.
    intros k Hk. unfold count_pairs. cbn. rewrite Nat.add_0_r.
    apply Hf, Hk.
  - destruct Hs1 as [Hle Hs1]. inversion Hb1 as [|? ? Hti Hb1']; subst.
    cbn [crosscorr_outer fst]. unfold slice_from.
    assert (Hbs2 : Forall (fun tj => - 2 ^ 62 < ti - tj < 2 ^ 62)
                     (skipn start_j times2)).
    { apply Forall_skipn. eapply Forall_impl; [|exact Hb2].
      cbn. intros; lia. }
    destruct (crosscorr_inner_counts ti (skipn start_j times2) start_j a f
                (all_later_skipn _ _ _ Hs2) Hbs2 Hl Hf)
      as (s' & a1 & E & L1 & C1 & Hss & Hfirst).
    rewrite E. cbn [bind].
    assert (Hinv' : forall ti', In ti' rest ->
              Forall (fun tj => window_size <= ti' - tj) (firstn s' times2)).
    { intros ti' Hin.
      replace s' with (start_j + (s' - start_j))%nat by lia.
      rewrite firstn_add_skipn. apply Forall_app. split.
      - apply Hinv. right. exact Hin.
      - rewrite Forall_forall in Hle. specialize (Hle ti' Hin).
        eapply Forall_impl; [|exact Hfirst]. cbn. intros; lia. }
    destruct (IH s' a1 _ Hs1 Hb1' Hinv' ltac:(congruence) C1)
      as (a' & E' & L' & C').
    exists a'. rewrite E'. repeat split; [congruence|].
    intros k Hk. rewrite (C' k Hk), count_pairs_cons.
    rewrite (filter_from_start k ti start_j (Hinv ti (or_introl eq_refl))).
    f_equal. lia.
Qed.

End CrosscorrOuter.

End CrosscorrCounts.

Lemma holds_counts_zeros (n : nat) : holds_counts (repeat 0 n) (fun _ => O).
Proof.
  intros k _. rewrite nth_zeros. reflexivity.
Qed.

Lemma count_pairs_le (P : Z -> Z -> bool) (times1 times2 : list Z) :
  (count_pairs P times1 times2 <= length times1 * length times2)%nat.
Proof.
  unfold count_pairs. rewrite <- length_prod. apply filter_length_le.
Qed.

(** X8. On two time-ordered trains of sample indices below 2^62, with a
    positive bin size that divides a window size below 2^53 (where the
    binary64 quotient of a lag by the bin floors exactly), the
    cross-correlogram
    of the numba strategy never leaves its array: it returns
    2 * (window_size // bin_size) bins, and bin k holds, as an int64
    counter, the number of pairs of a spike ti of the first train and a
    spike tj of the second with -window_size <= ti - tj < window_size and
    window_size // bin_size + floor((ti - tj) / bin_size) = k.  Moving the
    start of the scan loses no pair. *)
Theorem crosscorr_counts_pairs :
  forall (spike_times1 spike_times2 : list Z) (window_size bin_size : Z),
    0 < bin_size -> 0 <= window_size < 2 ^ 53 ->
    window_size mod bin_size = 0 ->
    all_later Z.le spike_times1 -> all_later Z.le spike_times2 ->
    Forall (fun t => 0 <= t < 2 ^ 62) spike_times1 ->
    Forall (fun t => 0 <= t < 2 ^ 62) spike_times2 ->
    exists cross_corr,
      _compute_crosscorr_numba spike_times1 spike_times2 window_size bin_size
      = Ok cross_corr
      /\ length cross_corr = Z.to_nat (2 * (window_size / bin_size))
      /\ forall k, (k < length cross_corr)%nat ->
           let pairs :=
             count_pairs (lag_in_bin window_size bin_size k)
               spike_times1 spike_times2 in
           nth k cross_corr 0 = wrap64 (Z.of_nat pairs)
           /\ (Z.of_nat (length spike_times1 * length spike_times2) < 2 ^ 63 ->
               nth k cross_corr 0 = Z.of_nat pairs).
Proof.
  intros t1 t2 ws bs Hbs Hws Hmul Hs1 Hs2 Hb1 Hb2.
  unfold _compute_crosscorr_numba, py_floordiv, np_zeros1.
  destruct (Z.eqb_spec bs 0); [lia|]. cbn [bind].
  assert (0 <= ws / bs) by (apply Z.div_pos; lia).
  destruct (Z.ltb_spec (2 * (ws / bs)) 0); [lia|]. cbn [bind].
  destruct (crosscorr_outer_counts ws bs Hbs Hmul Hws t2 Hs2 Hb2 t1 O
              (repeat 0 (Z.to_nat (2 * (ws / bs)))) (fun _ => O) Hs1 Hb1)
    as (cc & E & L & C).
  - intros; cbn; constructor.
  - apply repeat_length.
  - apply holds_counts_zeros.
  - exists cc. rewrite repeat_length in L.
    split; [exact E|]. split; [exact L|].
    intros k Hk. cbv zeta. split.
    + rewrite (C k Hk). reflexivity.
    + intros Hsmall. rewrite (C k Hk). cbn [Nat.add].
      apply wrap64_small.
      pose proof (count_pairs_le (lag_in_bin ws bs k) t1 t2). lia.
Qed.

Lemma crosscorr_counts_pairs_witness :
  exists cross_corr,
    _compute_crosscorr_numba [0; 10; 35] [5; 30; 40] 20 10 = Ok cross_corr
    /\ length cross_corr = 4%nat
    /\ forall k, (k < length cross_corr)%nat ->
         let pairs :=
           count_pairs (lag_in_bin 20 10 k) [0; 10; 35] [5; 30; 40] in
         nth k cross_corr 0 = wrap64 (Z.of_nat pairs)
         /\ (Z.of_nat (length [0; 10; 35] * length [5; 30; 40]) < 2 ^ 63 ->
             nth k cross_corr 0 = Z.of_nat pairs).
Proof.
  apply (crosscorr_counts_pairs [0; 10; 35] [5; 30; 40] 20 10);
    try lia; try reflexivity.
  - cbn. repeat split; repeat constructor; lia.
  - cbn. repeat split; repeat constructor; lia.
  - repeat constructor; lia.
  - repeat constructor; lia.
Defined.

(** ** What the autocorrelogram of the numba strategy counts *)

Section AutocorrCounts.

Variables window_size bin_size : Z.
Hypothesis Hbs : 0 < bin_size.
Hypothesis Hmul : window_size mod bin_size = 0.
Hypothesis Hws : 0 <= window_size < 2 ^ 53.

Local Notation num_half_bins := (window_size / bin_size).
Local Notation in_bin := (lag_in_bin window_size bin_size).

Lemma autocorr_inner_counts (ti : Z) :
  forall (later : list Z) (a : list Z) (f : nat -> nat),
    Forall (lag_bounded ti) later ->
    all_later lag_bounded later ->
    existsb (fun tj => tj - ti =? window_size) later = false ->
    length a = Z.to_nat (2 * num_half_bins) ->
    holds_counts a f ->
    exists a',
      autocorr_inner window_size bin_size num_half_bins ti later a = Ok a'
      /\ length a' = length a
      /\ holds_counts a'
           (fun k => (f k + (length (filter (in_bin k ti) later)
                             + length (filter (fun tj => in_bin k tj ti)
                                         later)))%nat).
Proof.
  induction later as [|tj later IH]; intros a f Hb Hs Hno Hl Hf.
  - exists a. cbn. repeat split; auto.
    intros k Hk. rewrite Nat.add_0_r. apply Hf, Hk.
  - inversion Hb as [|? ? Hd Hb']; subst. destruct Hs as [Hle Hs].
    cbn [existsb] in Hno. apply orb_false_iff in Hno.
    destruct Hno as [Hne Hno]. apply Z.eqb_neq in Hne.
    unfold lag_bounded in Hd.
    cbn [autocorr_inner]. rewrite (wrap64_small (tj - ti)) by lia.
    destruct (Z.gtb_spec (tj - ti) window_size) as [Hgt|Hin].
    + exists a. repeat split; auto.
      intros k Hk.
      assert (Hout : Forall (fun x => window_size < x - ti) (tj :: later)).
      { constructor; [lia|]. eapply Forall_impl; [|exact Hle].
        unfold lag_bounded. intros; lia. }
      rewrite !filter_none; [cbn; rewrite Nat.add_0_r; apply Hf, Hk| |].
      * eapply Forall_impl; [|exact Hout]. cbn. intros x Hx.
        unfold lag_in_bin.
        destruct (Z.ltb_spec (x - ti) window_size); [lia|].
        rewrite andb_false_r. reflexivity.
      * eapply Forall_impl; [|exact Hout]. cbn. intros x Hx.
        unfold lag_in_bin.
        destruct (Z.leb_spec (- window_size) (ti - x)); [lia|].
        reflexivity.
    + rewrite (wrap64_small (- (tj - ti))) by lia.
      rewrite !(floor_div_in_window window_size) by (assumption || lia).
      pose proof (lag_bin_index window_size bin_size Hbs Hmul (tj - ti)
                    ltac:(lia)) as Hi1.
      pose proof (lag_bin_index window_size bin_size Hbs Hmul (- (tj - ti))
                    ltac:(lia)) as Hi2.
      set (i1 := Z.to_nat (num_half_bins + (tj - ti) / bin_size)).
      set (i2 := Z.to_nat (num_half_bins + - (tj - ti) / bin_size)).
      assert (E1 : num_half_bins + (tj - ti) / bin_size = Z.of_nat i1)
        by (unfold i1; lia).
      assert (E2 : num_half_bins + - (tj - ti) / bin_size = Z.of_nat i2)
        by (unfold i2; lia).
      rewrite E1, E2.
      destruct (numba_incr_counts a f i1 ltac:(lia) Hf)
        as (a1 & Ea1 & L1 & C1).
      rewrite Ea1. cbn [bind].
      destruct (numba_incr_counts a1 _ i2 ltac:(lia) C1)
        as (a2 & Ea2 & L2 & C2).
      rewrite Ea2. cbn [bind].
      destruct (IH a2 _ Hb' Hs Hno ltac:(congruence) C2)
        as (a' & E & L & C).
      exists a'. split; [exact E|]. split; [congruence|].
      intros k Hk. rewrite (C k Hk). f_equal. f_equal.
      cbn [filter].
      assert (A1 : in_bin k tj ti = Nat.eqb k i1).
      { unfold lag_in_bin.
        destruct (Z.leb_spec (- window_size) (tj - ti)); [|lia].
        destruct (Z.ltb_spec (tj - ti) window_size); [|lia].
        cbn [andb]. rewrite E1.
        destruct (Nat.eqb_spec k i1);
          destruct (Z.eqb_spec (Z.of_nat i1) (Z.of_nat k)); lia || reflexivity. }
      assert (A2 : in_bin k ti tj = Nat.eqb k i2).
      { unfold lag_in_bin.
        replace (ti - tj) with (- (tj - ti)) by ring.
        destruct (Z.leb_spec (- window_size) (- (tj - ti))); [|lia].
        destruct (Z.ltb_spec (- (tj - ti)) window_size); [|lia].
        cbn [andb]. rewrite E2.
        destruct (Nat.eqb_spec k i2);
          destruct (Z.eqb_spec (Z.of_nat i2) (Z.of_nat k)); lia || reflexivity. }
      rewrite A1, A2.
      destruct (Nat.eqb k i1); destruct (Nat.eqb k i2); cbn [length]; lia.
Qed.

Lemma autocorr_outer_counts :
  forall (times : list Z) (a : list Z) (f : nat -> nat),
    all_later lag_bounded times ->
    has_lag window_size times = false ->
    length a = Z.to_nat (2 * num_half_bins) ->
    holds_counts a f ->
    exists a',
      autocorr_outer window_size bin_size num_half_bins times a = Ok a'
      /\ length a' = length a
      /\ holds_counts a' (fun k => (f k + count_distinct (in_bin k) times)%nat).
Proof.
  induction times as [|ti later IH]; intros a f Hs Hno Hl Hf.
  - exists a. cbn. repeat split; auto.
    intros k Hk. rewrite Nat.add_0_r. apply Hf, Hk.
  - destruct Hs as [Hb Hs]. cbn [has_lag] in Hno.
    apply orb_false_iff in Hno. destruct Hno as [Hno1 Hno].
    cbn [autocorr_outer].
    destruct (autocorr_inner_counts ti later a f Hb Hs Hno1 Hl Hf)
      as (a1 & E1 & L1 & C1).
    rewrite E1. cbn [bind].
    destruct (IH a1 _ Hs Hno ltac:(congruence) C1) as (a' & E & L & C).
    exists a'. split; [exact E|]. split; [congruence|].
    intros k Hk. rewrite (C k Hk). f_equal. f_equal.
    unfold count_distinct. cbn [count_later]. lia.
Qed.

End AutocorrCounts.

Lemma compute_autocorr_numba_counts :
  forall (spike_times : list Z) (window_size bin_size : Z),
    0 < bin_size -> 0 <= window_size < 2 ^ 53 ->
    window_size mod bin_size = 0 ->
    all_later lag_bounded spike_times ->
    has_lag window_size spike_times = false ->
    exists auto_corr,
      _compute_autocorr_numba spike_times window_size bin_size = Ok auto_corr
      /\ length auto_corr = Z.to_nat (2 * (window_size / bin_size))
      /\ holds_counts auto_corr
           (fun k => count_distinct (lag_in_bin window_size bin_size k)
                       spike_times).
Proof.
  intros t ws bs Hbs Hws Hmul Hs Hno.
  unfold _compute_autocorr_numba, py_floordiv, np_zeros1.
  destruct (Z.eqb_spec bs 0); [lia|]. cbn [bind].
  assert (0 <= ws / bs) by (apply Z.div_pos; lia).
  destruct (Z.ltb_spec (2 * (ws / bs)) 0); [lia|]. cbn [bind].
  destruct (autocorr_outer_counts ws bs Hbs Hmul Hws t
              (repeat 0 (Z.to_nat (2 * (ws / bs)))) (fun _ => O) Hs Hno)
    as (ac & E & L & C).
  - apply repeat_length.
  - apply holds_counts_zeros.
  - exists ac. rewrite repeat_length in L.
    split; [exact E|]. split; [exact L|]. exact C.
Qed.

Lemma compute_crosscorr_numba_counts :
  forall (spike_times1 spike_times2 : list Z) (window_size bin_size : Z),
    0 < bin_size -> 0 <= window_size < 2 ^ 53 ->
    window_size mod bin_size = 0 ->
    all_later Z.le spike_times1 -> all_later Z.le spike_times2 ->
    Forall (fun t => 0 <= t < 2 ^ 62) spike_times1 ->
    Forall (fun t => 0 <= t < 2 ^ 62) spike_times2 ->
    exists cross_corr,
      _compute_crosscorr_numba spike_times1 spike_times2 window_size bin_size
      = Ok cross_corr
      /\ length cross_corr = Z.to_nat (2 * (window_size / bin_size))
      /\ holds_counts cross_corr
           (fun k => count_pairs (lag_in_bin window_size bin_size k)
                       spike_times1 spike_times2).
Proof.
  intros t1 t2 ws bs Hbs Hws Hmul Hs1 Hs2 Hb1 Hb2.
  unfold _compute_crosscorr_numba, py_floordiv, np_zeros1.
  destruct (Z.eqb_spec bs 0); [lia|]. cbn [bind].
  assert (0 <= ws / bs) by (apply Z.div_pos; lia).
  destruct (Z.ltb_spec (2 * (ws / bs)) 0); [lia|]. cbn [bind].
  destruct (crosscorr_outer_counts ws bs Hbs Hmul Hws t2 Hs2 Hb2 t1 O
              (repeat 0 (Z.to_nat (2 * (ws / bs)))) (fun _ => O) Hs1 Hb1)
    as (cc & E & L & C).
  - intros; cbn; constructor.
  - apply repeat_length.
  - apply holds_counts_zeros.
  - exists cc. rewrite repeat_length in L.
    split; [exact E|]. split; [exact L|]. exact C.
Qed.

(** X9. On a time-ordered spike train in which no two spikes are exactly
    [window_size] apart, with a positive bin size that divides a window
    size below 2^53 (where the binary64 quotient of a lag by the bin floors
    exactly), the autocorrelogram of the numba strategy has
    2 * (window_size // bin_size) bins, and bin k holds, as an int64
    counter, the number of ordered pairs of two different spikes of the
    train whose lag d satisfies -window_size <= d < window_size and
    window_size // bin_size + floor(d / bin_size) = k: every pair of spikes
    is counted once with its lag and once with the opposite lag, and no
    spike is paired with itself. *)
Theorem autocorr_counts_pairs :
  forall (spike_times : list Z) (window_size bin_size : Z),
    0 < bin_size -> 0 <= window_size < 2 ^ 53 ->
    window_size mod bin_size = 0 ->
    all_later lag_bounded spike_times ->
    has_lag window_size spike_times = false ->
    exists auto_corr,
      _compute_autocorr_numba spike_times window_size bin_size = Ok auto_corr
      /\ length auto_corr = Z.to_nat (2 * (window_size / bin_size))
      /\ forall k, (k < length auto_corr)%nat ->
           nth k auto_corr 0
           = wrap64 (Z.of_nat (count_distinct
                                 (lag_in_bin window_size bin_size k)
                                 spike_times)).
Proof.
  intros t ws bs Hbs Hws Hmul Hs Hno.
  destruct (compute_autocorr_numba_counts t ws bs Hbs Hws Hmul Hs Hno)
    as (ac & E & L & C).
  exists ac. split; [exact E|]. split; [exact L|]. exact C.
Qed.

(** ** The autocorrelogram and the cross-correlogram of a train with itself *)

Lemma sorted_lag_bounded (times : list Z) :
  all_later Z.le times -> Forall (fun t => 0 <= t < 2 ^ 62) times ->
  all_later lag_bounded times.
Proof.
  induction times as [|ti later IH]; intros Hs Hb; [exact I|].
  destruct Hs as [Hle Hs]. inversion Hb as [|? ? Hti Hb']; subst.
  split; [|apply IH; assumption].
  rewrite Forall_forall in Hle, Hb' |- *. intros tj Hj.
  specialize (Hle tj Hj). specialize (Hb' tj Hj). cbn in Hb'.
  unfold lag_bounded. lia.
Qed.

Lemma count_pairs_cons_r (P : Z -> Z -> bool) (tj : Z) (times2 : list Z) :
  forall times1,
    count_pairs P times1 (tj :: times2)
    = (length (filter (fun ti => P ti tj) times1)
       + count_pairs P times1 times2)%nat.
Proof.
  induction times1 as [|ti l IH]; [reflexivity|].
  rewrite (count_pairs_cons P ti l (tj :: times2)).
  rewrite (count_pairs_cons P ti l times2), IH. cbn [filter].
  destruct (P ti tj); cbn [length]; lia.
Qed.

Lemma count_pairs_self (P : Z -> Z -> bool) (times : list Z) :
  count_pairs P times times
  = (count_distinct P times + length (filter (fun t => P t t) times))%nat.
Proof.
  unfold count_distinct.
  induction times as [|t l IH]; [reflexivity|].
  rewrite count_pairs_cons, count_pairs_cons_r, IH.
  cbn [filter count_later]. destruct (P t t); cbn [length]; lia.
Qed.

Lemma filter_const_length {A : Type} (b : bool) (l : list A) :
  length (filter (fun _ => b) l) = if b then length l else O.
Proof.
  induction l as [|x l IH]; cbn; destruct b; cbn in *; auto.
Qed.

Lemma lag_in_bin_self (window_size bin_size : Z) (k : nat) (t : Z) :
  0 < window_size -> 0 < bin_size ->
  lag_in_bin window_size bin_size k t t
  = Nat.eqb k (Z.to_nat (window_size / bin_size)).
Proof.
  intros Hw Hb. unfold lag_in_bin. rewrite Z.sub_diag.
  assert (0 <= window_size / bin_size) by (apply Z.div_pos; lia).
  destruct (Z.leb_spec (- window_size) 0); [|lia].
  destruct (Z.ltb_spec 0 window_size); [|lia].
  cbn [andb]. rewrite Z.div_0_l by lia.
  destruct (Nat.eqb_spec k (Z.to_nat (window_size / bin_size)));
    destruct (Z.eqb_spec (window_size / bin_size + 0) (Z.of_nat k));
    lia || reflexivity.
Qed.

(** X10. Under the same conditions (window below 2^53 samples, a multiple
    of the positive bin; time-ordered train without two spikes exactly
    [window_size] apart), the cross-correlogram of a train with
    itself is its autocorrelogram plus one count per spike in the bin of
    lag zero (index window_size // bin_size): the two functions differ by
    the self pairs only. *)
Theorem autocorr_is_crosscorr_without_self_pairs :
  forall (spike_times : list Z) (window_size bin_size : Z),
    0 < bin_size -> 0 <= window_size < 2 ^ 53 ->
    window_size mod bin_size = 0 ->
    all_later Z.le spike_times ->
    Forall (fun t => 0 <= t < 2 ^ 62) spike_times ->
    has_lag window_size spike_times = false ->
    exists auto_corr cross_corr,
      _compute_autocorr_numba spike_times window_size bin_size = Ok auto_corr
      /\ _compute_crosscorr_numba spike_times spike_times window_size bin_size
         = Ok cross_corr
      /\ length cross_corr = length auto_corr
      /\ forall k, (k < length auto_corr)%nat ->
           nth k cross_corr 0
           = wrap64 (nth k auto_corr 0
                     + if Nat.eqb k (Z.to_nat (window_size / bin_size))
                       then Z.of_nat (length spike_times) else 0).
Proof.
  intros t ws bs Hbs Hws Hmul Hs Hb Hno.
  destruct (compute_autocorr_numba_counts t ws bs Hbs Hws Hmul
              (sorted_lag_bounded t Hs Hb) Hno) as (ac & Ea & La & Ca).
  destruct (compute_crosscorr_numba_counts t t ws bs Hbs Hws Hmul Hs Hs Hb Hb)
    as (cc & Ec & Lc & Cc).
  exists ac, cc. split; [exact Ea|]. split; [exact Ec|].
  split; [congruence|].
  intros k Hk. rewrite (Cc k ltac:(lia)), (Ca k Hk), count_pairs_self.
  assert (Hpos : 0 < ws).
  { destruct (Z.eq_dec ws 0) as [->|]; [|lia].
    rewrite La in Hk. cbn in Hk. lia. }
  rewrite (filter_ext _ (fun _ => Nat.eqb k (Z.to_nat (ws / bs))))
    by (intros x; apply lag_in_bin_self; assumption).
  rewrite filter_const_length.
  destruct (wrap64_unfold (Z.of_nat (count_distinct (lag_in_bin ws bs k) t)))
    as [m Em].
  rewrite Em. symmetry. apply (wrap64_congr _ _ m).
  destruct (Nat.eqb k (Z.to_nat (ws / bs))); lia.
Qed.

(** ** The symmetry of the autocorrelogram *)

Lemma all_later_and (P Q : Z -> Z -> Prop) (times : list Z) :
  all_later P times -> all_later Q times ->
  all_later (fun ti tj => P ti tj /\ Q ti tj) times.
Proof.
  induction times as [|ti later IH]; intros HP HQ; [exact I|].
  destruct HP as [HP1 HP], HQ as [HQ1 HQ]. split; [|apply IH; assumption].
  rewrite Forall_forall in HP1, HQ1 |- *. intros x Hx. split; auto.
Qed.

Lemma count_later_ext (P Q : Z -> Z -> bool) (times : list Z) :
  all_later (fun ti tj => P ti tj = Q ti tj) times ->
  count_later P times = count_later Q times.
Proof.
  induction times as [|ti later IH]; intros H; [reflexivity|].
  destruct H as [H1 H]. cbn [count_later]. rewrite (IH H). f_equal.
  clear - H1. induction H1 as [|x l Hx _ IHl]; [reflexivity|].
  cbn [filter]. rewrite Hx. destruct (Q ti x); cbn [length]; rewrite IHl;
    reflexivity.
Qed.

Lemma has_lag_off_edges (window_size bin_size : Z) (times : list Z) :
  window_size mod bin_size = 0 ->
  all_later (fun ti tj => (tj - ti) mod bin_size <> 0) times ->
  has_lag window_size times = false.
Proof.
  intros Hmul. induction times as [|ti later IH]; intros H; [reflexivity|].
  destruct H as [H1 H]. cbn [has_lag]. rewrite (IH H), orb_false_r.
  clear - H1 Hmul. induction H1 as [|x l Hx _ IHl]; [reflexivity|].
  cbn [existsb]. rewrite IHl, orb_false_r.
  apply Z.eqb_neq. intros E. rewrite E in Hx. contradiction.
Qed.

(** The lag [d] falls in bin [k] exactly when the lag [-d] falls in the
    mirror bin, unless [d] is a whole number of bins. *)
Lemma lag_in_mirror_bin (window_size bin_size : Z) (k k' : nat) (ti tj : Z) :
  0 < bin_size -> window_size mod bin_size = 0 ->
  Z.of_nat k + Z.of_nat k' = 2 * (window_size / bin_size) - 1 ->
  (tj - ti) mod bin_size <> 0 ->
  lag_in_bin window_size bin_size k' ti tj
  = lag_in_bin window_size bin_size k tj ti.
Proof.
  intros Hbs Hmul Hk Hd. unfold lag_in_bin.
  replace (ti - tj) with (- (tj - ti)) by ring.
  rewrite (Z.div_opp_l_nz (tj - ti) bin_size) by (lia || assumption).
  assert (tj - ti <> window_size) by (intros E; rewrite E in Hd; lia).
  assert (tj - ti <> - window_size).
  { intros E. rewrite E in Hd. apply Hd.
    rewrite Z.mod_opp_l_z; lia. }
  destruct (Z.leb_spec (- window_size) (- (tj - ti)));
    destruct (Z.ltb_spec (- (tj - ti)) window_size);
    destruct (Z.leb_spec (- window_size) (tj - ti));
    destruct (Z.ltb_spec (tj - ti) window_size); cbn [andb];
    lia || reflexivity.
Qed.

(** X11. With a window below 2^53 samples that is a multiple of the
    positive bin: when no two spikes of a time-ordered train are a whole
    number of bins apart, the autocorrelogram of the numba strategy reads
    the same backwards: it is symmetric about lag zero. *)
Theorem autocorr_symmetric_off_bin_edges :
  forall (spike_times : list Z) (window_size bin_size : Z),
    0 < bin_size -> 0 <= window_size < 2 ^ 53 ->
    window_size mod bin_size = 0 ->
    all_later lag_bounded spike_times ->
    all_later (fun ti tj => (tj - ti) mod bin_size <> 0) spike_times ->
    exists auto_corr,
      _compute_autocorr_numba spike_times window_size bin_size = Ok auto_corr
      /\ rev auto_corr = auto_corr.
Proof.
  intros t ws bs Hbs Hws Hmul Hs Hoff.
  destruct (compute_autocorr_numba_counts t ws bs Hbs Hws Hmul Hs
              (has_lag_off_edges ws bs t Hmul Hoff)) as (ac & Ea & La & Ca).
  exists ac. split; [exact Ea|].
  apply (nth_ext _ _ 0 0); [apply length_rev|].
  rewrite length_rev. intros k Hk. rewrite rev_nth by exact Hk.
  rewrite (Ca k Hk), (Ca (length ac - S k)%nat ltac:(lia)).
  f_equal. f_equal. unfold count_distinct.
  assert (Hkk : Z.of_nat k + Z.of_nat (length ac - S k)
                = 2 * (ws / bs) - 1) by lia.
  rewrite Nat.add_comm. f_equal.
  - apply count_later_ext. revert Hoff. clear - Hbs Hmul Hkk.
    induction t as [|ti later IH]; intros H; [exact I|].
    destruct H as [H1 H]. split; [|apply IH; exact H].
    eapply Forall_impl; [|exact H1]. cbn. intros tj Hd.
    symmetry. apply lag_in_mirror_bin; auto. lia.
  - apply count_later_ext. revert Hoff. clear - Hbs Hmul Hkk.
    induction t as [|ti later IH]; intros H; [exact I|].
    destruct H as [H1 H]. split; [|apply IH; exact H].
    eapply Forall_impl; [|exact H1]. cbn. intros tj Hd.
    apply lag_in_mirror_bin; auto.
Qed.

Lemma autocorr_counts_pairs_witness :
  exists auto_corr,
    _compute_autocorr_numba [0; 10; 35; 45] 30 10 = Ok auto_corr
    /\ length auto_corr = 6%nat
    /\ forall k, (k < length auto_corr)%nat ->
         nth k auto_corr 0
         = wrap64 (Z.of_nat (count_distinct (lag_in_bin 30 10 k)
                               [0; 10; 35; 45])).
Proof.
  apply (autocorr_counts_pairs [0; 10; 35; 45] 30 10);
    try lia; try reflexivity.
  cbn. unfold lag_bounded. repeat split; repeat constructor; lia.
Defined.

Lemma autocorr_is_crosscorr_without_self_pairs_witness :
  exists auto_corr cross_corr,
    _compute_autocorr_numba [0; 10; 35; 45] 30 10 = Ok auto_corr
    /\ _compute_crosscorr_numba [0; 10; 35; 45] [0; 10; 35; 45] 30 10
       = Ok cross_corr
    /\ length cross_corr = length auto_corr
    /\ forall k, (k < length auto_corr)%nat ->
         nth k cross_corr 0
         = wrap64 (nth k auto_corr 0
                   + if Nat.eqb k 3 then Z.of_nat (length [0; 10; 35; 45])
                     else 0).
Proof.
  apply (autocorr_is_crosscorr_without_self_pairs [0; 10; 35; 45] 30 10);
    try lia; try reflexivity.
  - cbn. repeat split; repeat constructor; lia.
  - repeat constructor; lia.
Defined.

Lemma autocorr_symmetric_off_bin_edges_witness :
  exists auto_corr,
    _compute_autocorr_numba [0; 3; 17] 20 10 = Ok auto_corr
    /\ rev auto_corr = auto_corr.
Proof.
  apply (autocorr_symmetric_off_bin_edges [0; 3; 17] 20 10);
    try lia; try reflexivity.
  - cbn. unfold lag_bounded. repeat split; repeat constructor; lia.
  - cbn. repeat split; repeat constructor; intros E; discriminate E.
Defined.

(** ** What the tensor of the numba strategy counts *)

Lemma wrap64_add (x y : Z) : wrap64 (wrap64 x + wrap64 y) = wrap64 (x + y).
Proof.
  destruct (wrap64_unfold x) as [m Em], (wrap64_unfold y) as [p Ep].
  rewrite Em, Ep. apply (wrap64_congr _ _ (m + p)). ring.
Qed.

Lemma wrap32_small (z : Z) : - 2 ^ 31 <= z < 2 ^ 31 -> wrap32 z = z.
Proof.
  intros H. unfold wrap32, wrap_signed.
  change (2 ^ (32 - 1)) with (2 ^ 31). change (2 ^ 32) with (2 * 2 ^ 31).
  rewrite Z.mod_small; lia.
Qed.

Lemma times_of_unit_train (seg : list Spike) (i : nat) :
  ordered_segment seg ->
  times_of_unit (map wrap64 (times_of seg)) (map wrap32 (labels_of seg)) i
  = train seg i.
Proof.
  intros (_ & Ht & Hl). unfold times_of_unit, train, times_of, labels_of in *.
  induction seg as [|s seg IH]; [reflexivity|].
  cbn [map] in *. inversion Ht as [|? ? Hs Ht']; subst.
  inversion Hl as [|? ? Hu Hl']; subst.
  cbn [np_select filter].
  rewrite wrap32_small by exact Hu.
  rewrite wrap64_small by lia.
  destruct (unit_index s =? Z.of_nat i); cbn [map]; rewrite IH; auto.
Qed.

Lemma train_ordered (seg : list Spike) (i : nat) :
  ordered_segment seg ->
  all_later Z.le (train seg i)
  /\ Forall (fun t => 0 <= t < 2 ^ 62) (train seg i).
Proof.
  intros (Hs & Ht & _). unfold train, times_of in *.
  induction seg as [|s seg IH]; [split; [exact I|constructor]|].
  cbn [map all_later] in Hs. destruct Hs as [Hle Hs].
  cbn [map] in Ht. inversion Ht as [|? ? Hts Ht']; subst.
  destruct (IH Hs Ht') as [IH1 IH2].
  cbn [filter]. destruct (unit_index s =? Z.of_nat i); [|split; assumption].
  cbn [map all_later]. split; [split; [|exact IH1]|constructor; assumption].
  rewrite Forall_forall in Hle |- *. intros t Hin. apply Hle.
  apply in_map_iff in Hin. destruct Hin as (s' & <- & Hin).
  apply filter_In in Hin. apply in_map. apply Hin.
Qed.

Lemma tensor_counts_ext (n nb : nat) (c : ndarray3)
    (F G : nat -> nat -> nat -> nat) :
  (forall a b k, (a <= b)%nat -> (b < n)%nat -> (k < nb)%nat ->
     F a b k = G a b k) ->
  tensor_counts n nb c F -> tensor_counts n nb c G.
Proof.
  intros E (S & W & H). split; [exact S|]. split; [exact W|].
  intros a b k Hab Hb Hk. rewrite <- E by assumption. apply H; assumption.
Qed.

Lemma iadd_row_ok (n nb : nat) (c : ndarray3) (i j : nat) (v : list Z) :
  shape c = (n, n, nb) -> length v = nb -> (i < n)%nat -> (j < n)%nat ->
  exists c', iadd_row c i j v = Ok c'.
Proof.
  intros S L Hi Hj. unfold iadd_row, dim0, dim1, dim2. rewrite S. cbn [fst snd].
  rewrite L, Nat.eqb_refl.
  rewrite (proj2 (Nat.ltb_lt i n) Hi), (proj2 (Nat.ltb_lt j n) Hj).
  cbn [andb]. eexists. reflexivity.
Qed.

(** Adding a row of counts on or above the diagonal. *)
Lemma iadd_row_upper (n nb : nat) (c : ndarray3) (i j : nat) (v : list Z)
    (F : nat -> nat -> nat -> nat) (P : nat -> nat) :
  tensor_counts n nb c F -> length v = nb -> holds_counts v P ->
  (i < n)%nat -> (j < n)%nat ->
  exists c',
    iadd_row c i j v = Ok c'
    /\ tensor_counts n nb c'
         (fun a b k =>
            (F a b k + if Nat.eqb a i && Nat.eqb b j then P k else O)%nat).
Proof.
  intros (S & W & H) L C Hi Hj.
  destruct (iadd_row_ok n nb c i j v S L Hi Hj) as [c' E].
  exists c'. split; [exact E|].
  destruct (iadd_row_inv _ _ _ _ _ E) as (S' & _).
  split; [congruence|]. split; [eapply iadd_row_well_formed; eassumption|].
  intros a b k Hab Hb Hk.
  rewrite (get3_iadd_row c c' i j v E W a b k)
    by (unfold dim0, dim1, dim2; rewrite S; cbn [fst snd]; lia).
  rewrite (H a b k Hab Hb Hk).
  destruct (Nat.eqb a i && Nat.eqb b j).
  - rewrite (C k) by lia. rewrite wrap64_add. f_equal. lia.
  - f_equal. lia.
Qed.

(** Adding a row below the diagonal leaves the cells above it. *)
Lemma iadd_row_lower (n nb : nat) (c : ndarray3) (i j : nat) (v : list Z)
    (F : nat -> nat -> nat -> nat) :
  tensor_counts n nb c F -> length v = nb ->
  (i < n)%nat -> (j < i)%nat ->
  exists c', iadd_row c i j v = Ok c' /\ tensor_counts n nb c' F.
Proof.
  intros (S & W & H) L Hi Hj.
  destruct (iadd_row_ok n nb c i j v S L Hi ltac:(lia)) as [c' E].
  exists c'. split; [exact E|].
  destruct (iadd_row_inv _ _ _ _ _ E) as (S' & _).
  split; [congruence|]. split; [eapply iadd_row_well_formed; eassumption|].
  intros a b k Hab Hb Hk.
  rewrite (get3_iadd_row c c' i j v E W a b k)
    by (unfold dim0, dim1, dim2; rewrite S; cbn [fst snd]; lia).
  destruct (Nat.eqb_spec a i) as [->|]; [|apply H; assumption].
  destruct (Nat.eqb_spec b j) as [->|]; [lia|apply H; assumption].
Qed.

Lemma existsb_eqb_in (b : nat) (l : list nat) :
  existsb (Nat.eqb b) l = true <-> In b l.
Proof.
  rewrite existsb_exists. split.
  - intros (x & Hx & E). apply Nat.eqb_eq in E. subst. exact Hx.
  - intros H. exists b. split; [exact H|apply Nat.eqb_refl].
Qed.

Lemma existsb_eqb_not_in (b : nat) (l : list nat) :
  ~ In b l -> existsb (Nat.eqb b) l = false.
Proof.
  intros H. destruct (existsb (Nat.eqb b) l) eqn:E; [|reflexivity].
  apply existsb_eqb_in in E. contradiction.
Qed.

Section NumbaCounts.

Variables (n nb : nat) (spike_times spike_labels : list Z).
Variables (window_size bin_size : Z).
Hypothesis Hbs : 0 < bin_size.
Hypothesis Hws : 0 <= window_size < 2 ^ 53.
Hypothesis Hmul : window_size mod bin_size = 0.
Hypothesis Hnb : nb = Z.to_nat (2 * (window_size / bin_size)).

Local Notation unit_times := (times_of_unit spike_times spike_labels).
Local Notation in_bin := (lag_in_bin window_size bin_size).

Hypothesis Htrain :
  forall i, (i < n)%nat ->
    all_later Z.le (unit_times i)
    /\ Forall (fun t => 0 <= t < 2 ^ 62) (unit_times i)
    /\ has_lag window_size (unit_times i) = false.

(** The pairs counted for the units [a] and [b] of the segment. *)
Local Notation counted a b k :=
  (if Nat.eqb a b then count_distinct (in_bin k) (unit_times a)
   else count_pairs (in_bin k) (unit_times a) (unit_times b)).

Lemma numba_units_inner_counts (i : nat) :
  (i < n)%nat ->
  forall (js : list nat) (c : ndarray3) (F : nat -> nat -> nat -> nat),
    Forall (fun j => (i <= j < n)%nat) js -> NoDup js ->
    tensor_counts n nb c F ->
    exists c',
      numba_units_inner spike_times spike_labels window_size bin_size i js c
      = Ok c'
      /\ tensor_counts n nb c'
           (fun a b k =>
              (F a b k
               + if Nat.eqb a i && existsb (Nat.eqb b) js
                 then counted a b k else O)%nat).
Proof.
  intros Hi. induction js as [|j js IH]; intros c F Hjs Hnd T.
  - exists c. split; [reflexivity|].
    eapply tensor_counts_ext; [|exact T].
    intros a b k _ _ _. cbn [existsb]. rewrite andb_false_r. lia.
  - pose proof (Forall_inv Hjs) as Hj. cbn beta in Hj.
    pose proof (Forall_inv_tail Hjs) as Hjs'.
    apply NoDup_cons_iff in Hnd. destruct Hnd as [Hnj Hnd'].
    destruct (Htrain i Hi) as (Si & Bi & Li).
    cbn [numba_units_inner].
    destruct (Nat.eqb_spec i j) as [<-|Hij].
    + destruct (compute_autocorr_numba_counts (unit_times i) window_size
                  bin_size Hbs Hws Hmul (sorted_lag_bounded _ Si Bi) Li)
        as (ac & Ea & La & Ca).
      rewrite Ea. cbn [bind].
      destruct (iadd_row_upper n nb c i i ac F _ T ltac:(congruence) Ca Hi Hi)
        as (c1 & E1 & T1).
      rewrite E1. cbn [bind].
      destruct (IH c1 _ Hjs' Hnd' T1) as (c' & E' & T').
      exists c'. split; [exact E'|].
      eapply tensor_counts_ext; [|exact T'].
      intros a b k _ _ _. cbn [existsb].
      destruct (Nat.eqb_spec a i) as [->|]; cbn [andb]; [|lia].
      destruct (Nat.eqb_spec b i) as [->|]; cbn [orb].
      * rewrite (existsb_eqb_not_in i js Hnj), Nat.eqb_refl. lia.
      * lia.
    + destruct (Htrain j ltac:(lia)) as (Sj & Bj & _).
      destruct (compute_crosscorr_numba_counts (unit_times i) (unit_times j)
                  window_size bin_size Hbs Hws Hmul Si Sj Bi Bj)
        as (cc & Ec & Lc & Cc).
      rewrite Ec. cbn [bind].
      destruct (iadd_row_upper n nb c i j cc F _ T ltac:(congruence) Cc Hi
                  ltac:(lia))
        as (c1 & E1 & T1).
      rewrite E1. cbn [bind].
      destruct (iadd_row_lower n nb c1 j i (rev cc) _ T1
                  ltac:(rewrite length_rev; congruence) ltac:(lia) ltac:(lia))
        as (c2 & E2 & T2).
      rewrite E2. cbn [bind].
      destruct (IH c2 _ Hjs' Hnd' T2) as (c' & E' & T').
      exists c'. split; [exact E'|].
      eapply tensor_counts_ext; [|exact T'].
      intros a b k _ _ _. cbn [existsb].
      destruct (Nat.eqb_spec a i) as [->|]; cbn [andb]; [|lia].
      destruct (Nat.eqb_spec b j) as [->|]; cbn [orb].
      * rewrite (existsb_eqb_not_in j js Hnj).
        destruct (Nat.eqb_spec i j); [contradiction|]. lia.
      * lia.
Qed.

Lemma numba_units_outer_counts :
  forall (units : list nat) (c : ndarray3) (F : nat -> nat -> nat -> nat),
    Forall (fun i => (i < n)%nat) units -> NoDup units ->
    tensor_counts n nb c F ->
    exists c',
      numba_units_outer spike_times spike_labels window_size bin_size n
        units c = Ok c'
      /\ tensor_counts n nb c'
           (fun a b k =>
              (F a b k
               + if existsb (Nat.eqb a) units then counted a b k else O)%nat).
Proof.
  induction units as [|i units IH]; intros c F Hu Hnd T.
  - exists c. split; [reflexivity|].
    eapply tensor_counts_ext; [|exact T]. intros; cbn [existsb]; lia.
  - pose proof (Forall_inv Hu) as Hi. cbn beta in Hi.
    pose proof (Forall_inv_tail Hu) as Hu'.
    apply NoDup_cons_iff in Hnd. destruct Hnd as [Hni Hnd'].
    cbn [numba_units_outer].
    destruct (numba_units_inner_counts i Hi (seq i (n - i)) c F)
      as (c1 & E1 & T1); [| apply seq_NoDup | exact T |].
    { apply Forall_forall. intros j Hj. apply in_seq in Hj. lia. }
    rewrite E1. cbn [bind].
    destruct (IH c1 _ Hu' Hnd' T1) as (c' & E' & T').
    exists c'. split; [exact E'|].
    eapply tensor_counts_ext; [|exact T'].
    intros a b k Hab Hb _. cbn [existsb].
    destruct (Nat.eqb_spec a i) as [->|]; cbn [andb orb]; [|lia].
    rewrite (existsb_eqb_not_in i units Hni).
    rewrite (proj2 (existsb_eqb_in b (seq i (n - i))))
      by (apply in_seq; lia).
    lia.
Qed.

Lemma compute_correlograms_numba_counts (c : ndarray3)
    (F : nat -> nat -> nat -> nat) :
  tensor_counts n nb c F ->
  exists c',
    _compute_correlograms_numba c spike_times spike_labels window_size
      bin_size = Ok c'
    /\ tensor_counts n nb c' (fun a b k => (F a b k + counted a b k)%nat).
Proof.
  intros T. unfold _compute_correlograms_numba.
  assert (D : dim0 c = n) by (unfold dim0; rewrite (proj1 T); reflexivity).
  rewrite D.
  destruct (numba_units_outer_counts (seq 0 n) c F) as (c' & E & T');
    [| apply seq_NoDup | exact T |].
  { apply Forall_forall. intros i Hi. apply in_seq in Hi. lia. }
  exists c'. split; [exact E|].
  eapply tensor_counts_ext; [|exact T'].
  intros a b k Hab Hb _. cbn beta.
  rewrite (proj2 (existsb_eqb_in a (seq 0 n))) by (apply in_seq; lia).
  reflexivity.
Qed.

End NumbaCounts.

Lemma numba_segments_counts (n nb : nat) (window_size bin_size : Z) :
  0 < bin_size -> 0 <= window_size < 2 ^ 53 ->
    window_size mod bin_size = 0 ->
  nb = Z.to_nat (2 * (window_size / bin_size)) ->
  forall (segs : list (list Spike)) (c : ndarray3)
         (F : nat -> nat -> nat -> nat),
    Forall (fun seg =>
              ordered_segment seg
              /\ forall i, (i < n)%nat ->
                   has_lag window_size (train seg i) = false) segs ->
    tensor_counts n nb c F ->
    exists c',
      numba_segments segs window_size bin_size c = Ok c'
      /\ tensor_counts n nb c'
           (fun a b k =>
              (F a b k
               + pairs_in_bin_all window_size bin_size a b k segs)%nat).
Proof.
  intros Hbs Hws Hmul Hnb.
  induction segs as [|seg segs IH]; intros c F Hs T.
  - exists c. split; [reflexivity|].
    eapply tensor_counts_ext; [|exact T].
    intros; unfold pairs_in_bin_all; cbn; lia.
  - pose proof (Forall_inv Hs) as [Ho Hl]. 
    pose proof (Forall_inv_tail Hs) as Hs'.
    cbn [numba_segments].
    destruct (compute_correlograms_numba_counts n nb
                (map wrap64 (times_of seg)) (map wrap32 (labels_of seg))
                window_size bin_size Hbs Hws Hmul Hnb) with (c := c) (F := F)
      as (c1 & E1 & T1); [|exact T|].
    { intros i Hi. rewrite (times_of_unit_train seg i Ho).
      destruct (train_ordered seg i Ho) as [H1 H2].
      split; [exact H1|]. split; [exact H2|]. apply Hl, Hi. }
    rewrite E1. cbn [bind].
    destruct (IH c1 _ Hs' T1) as (c' & E' & T').
    exists c'. split; [exact E'|].
    eapply tensor_counts_ext; [|exact T'].
    intros a b k _ _ _. cbn beta.
    rewrite !(times_of_unit_train seg) by exact Ho.
    unfold pairs_in_bin_all, pairs_in_bin, list_sum. cbn [map fold_right].
    lia.
Qed.

Lemma zeros_counts (n : nat) (num_bins : Z) (c : ndarray3) :
  np_zeros3 n n num_bins = Ok c ->
  tensor_counts n (Z.to_nat num_bins) c (fun _ _ _ => O).
Proof.
  unfold np_zeros3. destruct (num_bins <? 0); [discriminate|].
  intros H. injection H as <-. split; [reflexivity|].
  split; [unfold well_formed; cbn; apply repeat_length|].
  intros a b k _ _ _. unfold get3. cbn [data]. rewrite nth_zeros.
  reflexivity.
Qed.

(** X12. On a sorting whose segments are in time order, with sample
    indices in [0, 2^62) and int32 unit indices, and in which no two spikes
    of one unit are exactly [window_size] apart within a segment, the numba
    strategy returns (bin size positive, window size a non-negative
    multiple of it below 2^53, so that the binary64 quotient of a lag by the
    bin floors exactly): for units a <= b, cell (a, b, k) holds, as an int64
    counter, the number of pairs, summed over the segments, of a spike of
    unit a and a spike of unit b - two different spikes when a = b - whose
    lag d = t_a - t_b satisfies -window_size <= d < window_size and
    window_size // bin_size + floor(d / bin_size) = k; below the diagonal,
    the row of (b, a) is the row of (a, b) reversed. *)
Theorem numba_tensor_counts :
  forall (sorting : Sorting) (window_size bin_size : Z),
    0 < bin_size -> 0 <= window_size < 2 ^ 53 ->
    window_size mod bin_size = 0 ->
    let n := length (unit_ids sorting) in
    let nb := Z.to_nat (2 * (window_size / bin_size)) in
    Forall (fun seg =>
              ordered_segment seg
              /\ forall i, (i < n)%nat ->
                   has_lag window_size (train seg i) = false)
      (to_spike_vector sorting) ->
    exists c,
      compute_correlograms_numba true sorting window_size bin_size = Ok c
      /\ shape c = (n, n, nb)
      /\ forall a b k,
           (a <= b)%nat -> (b < n)%nat -> (k < nb)%nat ->
           get3 c a b k
           = wrap64 (Z.of_nat (pairs_in_bin_all window_size bin_size a b k
                                 (to_spike_vector sorting)))
           /\ (a < b -> get3 c b a (nb - 1 - k) = get3 c a b k)%nat.
Proof.
  intros sorting ws bs Hbs Hws Hmul n nb Hs.
  pose proof (compute_correlograms_numba_mirrored true sorting ws bs) as M.
  unfold compute_correlograms_numba, _compute_num_bins, py_floordiv in *.
  cbn [py_assert bind] in *.
  destruct (Z.eqb_spec bs 0); [lia|]. cbn [bind] in *.
  destruct (np_zeros3 (length (unit_ids sorting)) (length (unit_ids sorting))
              (2 * (ws / bs))) as [c0|e] eqn:E0.
  - cbn [bind] in *.
    destruct (numba_segments_counts n nb ws bs Hbs Hws Hmul eq_refl
                (to_spike_vector sorting) c0 (fun _ _ _ => O) Hs
                (zeros_counts _ _ _ E0))
      as (c & E & S & W & H).
    exists c. split; [exact E|]. split; [exact S|].
    intros a b k Hab Hb Hk. split.
    + rewrite (H a b k Hab Hb Hk). reflexivity.
    + intros Hlt. destruct (M c E) as (_ & _ & Hm).
      rewrite (Hm a b (nb - 1 - k)%nat) by (fold n nb; lia).
      fold nb. f_equal. lia.
  - exfalso. unfold np_zeros3 in E0.
    assert (0 <= ws / bs) by (apply Z.div_pos; lia).
    destruct (Z.ltb_spec (2 * (ws / bs)) 0); [lia|discriminate].
Qed.

Lemma numba_tensor_counts_witness :
  let sorting :=
    mkSorting 30000 [0; 1]
      [[mkSpike 0 0; mkSpike 5 1; mkSpike 12 0];
       [mkSpike 3 1; mkSpike 40 1]] in
  exists c,
    compute_correlograms_numba true sorting 20 10 = Ok c
    /\ shape c = (2%nat, 2%nat, 4%nat)
    /\ forall a b k,
         (a <= b)%nat -> (b < 2)%nat -> (k < 4)%nat ->
         get3 c a b k
         = wrap64 (Z.of_nat (pairs_in_bin_all 20 10 a b k
                               (to_spike_vector sorting)))
         /\ (a < b -> get3 c b a (4 - 1 - k) = get3 c a b k)%nat.
Proof.
  intros sorting.
  apply (numba_tensor_counts sorting 20 10); try lia; try reflexivity.
  repeat constructor; cbn; try lia;
    intros [|[|i]] Hi; try reflexivity; lia.
Defined.

(** ** The rounds of the numpy strategy, pair by pair *)

Lemma map_fst_combine {A B : Type} (l : list A) :
  forall l' : list B,
    (length l' <= length l)%nat ->
    map fst (combine l l') = firstn (length l') l.
Proof.
  induction l as [|x l IH]; intros [|y l'] H; cbn in *; try reflexivity;
    try lia.
  f_equal. apply IH. lia.
Qed.

Lemma map_snd_combine {A B : Type} (l : list A) :
  forall l' : list B,
    (length l' <= length l)%nat -> map snd (combine l l') = l'.
Proof.
  induction l as [|x l IH]; intros [|y l'] H; cbn in *; try reflexivity;
    try lia.
  f_equal. apply IH. lia.
Qed.

Lemma pairs_at_length (shift : nat) (seg : list Spike) :
  length (pairs_at shift seg) = (length seg - shift)%nat.
Proof.
  unfold pairs_at. rewrite length_combine, length_skipn. lia.
Qed.

Lemma slice_to_neg_pairs {A : Type} (f : Spike -> A) (shift : nat)
    (seg : list Spike) :
  slice_to_neg (S shift) (map f seg)
  = map (fun p => f (fst p)) (pairs_at (S shift) seg).
Proof.
  unfold slice_to_neg, pairs_at.
  rewrite <- (map_map fst f), map_fst_combine
    by (rewrite length_skipn; lia).
  rewrite length_map, length_skipn, firstn_map. reflexivity.
Qed.

Lemma slice_from_pairs {A : Type} (f : Spike -> A) (shift : nat)
    (seg : list Spike) :
  slice_from shift (map f seg)
  = map (fun p => f (snd p)) (pairs_at shift seg).
Proof.
  unfold slice_from, pairs_at.
  rewrite <- (map_map snd f), map_snd_combine
    by (rewrite length_skipn; lia).
  apply skipn_map.
Qed.

Lemma np_sub_map {A : Type} (f g : A -> Z) (l : list A) :
  np_sub (map f l) (map g l) = map (fun p => wrap64 (f p - g p)) l.
Proof.
  induction l as [|x l IH]; cbn; [reflexivity|]. f_equal. exact IH.
Qed.

Lemma np_select_map {A B : Type} (f : A -> B) (l : list A) :
  forall m, np_select (map f l) m = map f (np_select l m).
Proof.
  induction l as [|x l IH]; intros [|b m]; cbn; try reflexivity.
  destruct b; cbn; rewrite IH; reflexivity.
Qed.

Lemma np_ravel_multi_index_map {A : Type} (f g h : A -> Z)
    (shp : nat * nat * nat) (l : list A) :
  np_ravel_multi_index (map f l) (map g l) (map h l) shp
  = ravel_cells shp (map (fun p => (f p, g p, h p)) l).
Proof.
  induction l as [|x l IH]; cbn; [reflexivity|]. rewrite IH. reflexivity.
Qed.

(** One pass of a round, read on the pairs of the round. *)
Lemma sign_pass_pairs (seg : list Spike) (bin_size num_half_bins : Z)
    (shift : nat) (sign : Z) (mask : list bool) (c : ndarray3) :
  sign = -1 \/ sign = 1 ->
  sign_pass (times_of seg) (labels_of seg) bin_size num_half_bins
    (S shift) sign (mask, c)
  = (let pairs := pairs_at (S shift) seg in
     let mask' :=
       mask_clear mask
         (map (pair_cleared bin_size num_half_bins sign) pairs) in
     let selected := np_select pairs (slice_to_neg (S shift) mask') in
     indices <- ravel_cells (shape c)
                  (map (pair_cell bin_size num_half_bins sign) selected) ;;
     c' <- ravel_iadd_prefix c (np_bincount indices) ;;
     Ok (mask', c')).
Proof.
  intros Hs. unfold sign_pass, times_of, labels_of.
  rewrite !slice_to_neg_pairs, !slice_from_pairs.
  rewrite np_sub_map. unfold np_mul_scalar, np_floor_divide, np_add_scalar.
  rewrite !map_map. cbv zeta.
  assert (Em :
    (if sign =? -1
     then mask_clear mask
            (map (fun x => wrap64 (wrap64 (sample_index (snd x)
                                           - sample_index (fst x)) * sign)
                           / bin_size <? - num_half_bins)
               (pairs_at (S shift) seg))
     else mask_clear mask
            (map (fun x => wrap64 (wrap64 (sample_index (snd x)
                                           - sample_index (fst x)) * sign)
                           / bin_size >=? num_half_bins)
               (pairs_at (S shift) seg)))
    = mask_clear mask
        (map (pair_cleared bin_size num_half_bins sign)
           (pairs_at (S shift) seg))).
  { unfold pair_cleared, pair_bin. destruct (sign =? -1); reflexivity. }
  rewrite Em. clear Em.
  set (mask' := mask_clear mask _).
  set (m := slice_to_neg (S shift) mask').
  rewrite !np_select_map, !map_map.
  assert (Ei :
    (if sign =? 1
     then np_ravel_multi_index
            (map (fun x => unit_index (snd x))
               (np_select (pairs_at (S shift) seg) m))
            (map (fun x => unit_index (fst x))
               (np_select (pairs_at (S shift) seg) m))
            (map (fun x => wrap64
                             (wrap64 (wrap64 (sample_index (snd x)
                                              - sample_index (fst x)) * sign)
                              / bin_size + num_half_bins))
               (np_select (pairs_at (S shift) seg) m))
            (shape c)
     else np_ravel_multi_index
            (map (fun x => unit_index (fst x))
               (np_select (pairs_at (S shift) seg) m))
            (map (fun x => unit_index (snd x))
               (np_select (pairs_at (S shift) seg) m))
            (map (fun x => wrap64
                             (wrap64 (wrap64 (sample_index (snd x)
                                              - sample_index (fst x)) * sign)
                              / bin_size + num_half_bins))
               (np_select (pairs_at (S shift) seg) m))
            (shape c))
    = ravel_cells (shape c)
        (map (pair_cell bin_size num_half_bins sign)
           (np_select (pairs_at (S shift) seg) m))).
  { rewrite !np_ravel_multi_index_map. unfold pair_cell, pair_bin.
    destruct (sign =? 1); reflexivity. }
  rewrite Ei. reflexivity.
Qed.

(** ** Counting with [np.bincount] *)

Lemma wrap64_add_l (x y : Z) : wrap64 (wrap64 x + y) = wrap64 (x + y).
Proof.
  destruct (wrap64_unfold x) as [m Em]. rewrite Em.
  apply (wrap64_congr _ _ m). ring.
Qed.

Lemma iadd_prefix_nth :
  forall (b buf : list Z),
    (length b <= length buf)%nat ->
    exists buf',
      iadd_prefix buf b = Ok buf'
      /\ length buf' = length buf
      /\ forall p,
           nth p buf' 0
           = if (p <? length b)%nat then wrap64 (nth p buf 0 + nth p b 0)
             else nth p buf 0.
Proof.
  induction b as [|y b IH]; intros buf H.
  - exists buf. split; [destruct buf; reflexivity|].
    split; [reflexivity|]. intros p. reflexivity.
  - destruct buf as [|x buf]; cbn in H; [lia|].
    destruct (IH buf ltac:(lia)) as (r & E & L & N).
    exists (wrap64 (x + y) :: r). cbn [iadd_prefix]. rewrite E. cbn [bind].
    split; [reflexivity|]. split; [cbn; congruence|].
    intros [|p]; [reflexivity|]. cbn [nth length]. rewrite N.
    reflexivity.
Qed.

Lemma fold_max_bound (x : list Z) (v : Z) :
  In v x -> v <= fold_right Z.max 0 x.
Proof.
  induction x as [|y x IH]; intros H; [contradiction|].
  cbn [fold_right]. destruct H as [->|H]; [lia|]. specialize (IH H). lia.
Qed.

Lemma fold_max_lt (x : list Z) (L : Z) :
  0 < L -> Forall (fun v => v < L) x -> fold_right Z.max 0 x < L.
Proof.
  intros HL H. induction H as [|y x Hy _ IH]; cbn [fold_right]; lia.
Qed.

Lemma np_bincount_nth (x : list Z) (p : nat) :
  nth p (np_bincount x) 0 = Z.of_nat (count_occ Z.eq_dec x (Z.of_nat p)).
Proof.
  destruct x as [|y x]; [destruct p; reflexivity|].
  unfold np_bincount. set (l := y :: x). set (top := fold_right Z.max 0 l).
  destruct (Nat.lt_ge_cases p (S (Z.to_nat top))) as [Hp|Hp].
  - rewrite (nth_map_in _ _ 0 O) by (rewrite length_seq; exact Hp).
    rewrite seq_nth by exact Hp. reflexivity.
  - rewrite nth_overflow by (rewrite length_map, length_seq; exact Hp).
    symmetry. apply (f_equal Z.of_nat (y := O)).
    apply count_occ_not_In. intros Hin.
    pose proof (fold_max_bound l _ Hin). fold top in H.
    assert (0 <= top) by (unfold top, l; cbn [fold_right]; lia). lia.
Qed.

Lemma np_bincount_length (x : list Z) (L : nat) :
  Forall (fun v => v < Z.of_nat L) x -> x <> [] ->
  Forall (fun v => 0 <= v) x ->
  (length (np_bincount x) <= L)%nat.
Proof.
  intros H Hne Hpos. destruct x as [|y x]; [contradiction|].
  unfold np_bincount. rewrite length_map, length_seq.
  assert (0 < Z.of_nat L).
  { inversion H; subst. inversion Hpos; subst. lia. }
  pose proof (fold_max_lt (y :: x) (Z.of_nat L) H0 H). lia.
Qed.

(** The buffer after [correlograms.ravel()[:len(bbins)] += bbins]. *)
Lemma ravel_iadd_bincount (c : ndarray3) (indices : list Z) :
  Forall (fun v => 0 <= v < Z.of_nat (length (data c))) indices ->
  exists c',
    ravel_iadd_prefix c (np_bincount indices) = Ok c'
    /\ shape c' = shape c
    /\ length (data c') = length (data c)
    /\ forall p v,
         nth p (data c) 0 = wrap64 v ->
         nth p (data c') 0
         = wrap64 (v + Z.of_nat (count_occ Z.eq_dec indices (Z.of_nat p))).
Proof.
  intros Hi. unfold ravel_iadd_prefix.
  assert (Hl : (length (np_bincount indices) <= length (data c))%nat).
  { destruct indices as [|y x] eqn:E; [cbn; lia|]. rewrite <- E in *.
    apply np_bincount_length.
    - eapply Forall_impl; [|exact Hi]. cbn. intros; lia.
    - rewrite E. discriminate.
    - eapply Forall_impl; [|exact Hi]. cbn. intros; lia. }
  destruct (iadd_prefix_nth _ _ Hl) as (d & E & L & N).
  rewrite E. cbn [bind]. eexists. split; [reflexivity|].
  cbn [shape data]. split; [reflexivity|]. split; [exact L|].
  intros p v Hv. rewrite N, Hv.
  destruct (Nat.ltb_spec p (length (np_bincount indices))) as [H|H].
  - rewrite np_bincount_nth, wrap64_add_l. reflexivity.
  - f_equal.
    pose proof (np_bincount_nth indices p) as B.
    rewrite nth_overflow in B by exact H. lia.
Qed.

(** The cell is [(a, b, k)]. *)
Lemma flat_cell_inj (n nb x y z a b k : Z) :
  0 <= y < n -> 0 <= b < n -> 0 <= z < nb -> 0 <= k < nb ->
  (x * n + y) * nb + z = (a * n + b) * nb + k ->
  x = a /\ y = b /\ z = k.
Proof.
  intros Hy Hb Hz Hk E.
  assert (E1 : x * n + y = a * n + b).
  { destruct (Z.lt_trichotomy (x * n + y) (a * n + b)) as [H|[H|H]];
      [exfalso|exact H|exfalso]; nia. }
  assert (E2 : x = a).
  { destruct (Z.lt_trichotomy x a) as [H|[H|H]];
      [exfalso|exact H|exfalso]; nia. }
  subst x. split; [reflexivity|]. split; nia.
Qed.

Lemma ravel_cells_ok (n nb : nat) (cells : list (Z * Z * Z)) :
  Forall (cell_in_range n nb) cells ->
  ravel_cells (n, n, nb) cells = Ok (map (flat_cell n nb) cells).
Proof.
  induction 1 as [|[[x y] z] cells (Hx & Hy & Hz) _ IH]; [reflexivity|].
  cbn [ravel_cells map]. rewrite IH. unfold ravel_one.
  destruct (Z.leb_spec 0 x); [|lia].
  destruct (Z.ltb_spec x (Z.of_nat n)); [|lia].
  destruct (Z.leb_spec 0 y); [|lia].
  destruct (Z.ltb_spec y (Z.of_nat n)); [|lia].
  destruct (Z.leb_spec 0 z); [|lia].
  destruct (Z.ltb_spec z (Z.of_nat nb)); [|lia].
  reflexivity.
Qed.

Lemma flat_cell_bound (n nb : nat) (cl : Z * Z * Z) :
  cell_in_range n nb cl ->
  0 <= flat_cell n nb cl < Z.of_nat (n * n * nb).
Proof.
  destruct cl as [[x y] z]. intros (Hx & Hy & Hz). cbn [flat_cell].
  split; [nia|].
  rewrite !Nat2Z.inj_mul.
  assert (x * Z.of_nat n + y <= Z.of_nat n * Z.of_nat n - 1) by nia.
  nia.
Qed.

Lemma count_occ_flat (n nb a b k : nat) (cells : list (Z * Z * Z)) :
  Forall (cell_in_range n nb) cells ->
  (b < n)%nat -> (k < nb)%nat ->
  count_occ Z.eq_dec (map (flat_cell n nb) cells)
    (Z.of_nat ((a * n + b) * nb + k))
  = length (filter (cell_is a b k) cells).
Proof.
  intros H Hb Hk.
  induction H as [|[[x y] z] cells (Hx & Hy & Hz) _ IH]; [reflexivity|].
  cbn [map filter count_occ]. rewrite IH. unfold cell_is.
  destruct (Z.eq_dec (flat_cell n nb (x, y, z))
              (Z.of_nat ((a * n + b) * nb + k))) as [E|E].
  - cbn [flat_cell] in E.
    rewrite Nat2Z.inj_add, !Nat2Z.inj_mul, Nat2Z.inj_add, Nat2Z.inj_mul in E.
    apply flat_cell_inj in E; try lia.
    destruct E as (-> & -> & ->). rewrite !Z.eqb_refl. reflexivity.
  - destruct (Z.eqb_spec x (Z.of_nat a)) as [->|]; [|reflexivity].
    destruct (Z.eqb_spec y (Z.of_nat b)) as [->|]; [|reflexivity].
    destruct (Z.eqb_spec z (Z.of_nat k)) as [->|]; [|reflexivity].
    exfalso. apply E. cbn [flat_cell]. lia.
Qed.

(** Counting a list of cells into the tensor. *)
Lemma add_cells (n nb : nat) (c : ndarray3) (F : nat -> nat -> nat -> nat)
    (cells : list (Z * Z * Z)) :
  tensor_holds n nb c F -> Forall (cell_in_range n nb) cells ->
  exists indices c',
    ravel_cells (shape c) cells = Ok indices
    /\ ravel_iadd_prefix c (np_bincount indices) = Ok c'
    /\ tensor_holds n nb c'
         (fun a b k => (F a b k + length (filter (cell_is a b k) cells))%nat).
Proof.
  intros (S & W & H) Hc.
  assert (L : length (data c) = (n * n * nb)%nat).
  { unfold well_formed, dim0, dim1, dim2 in W. rewrite S in W. exact W. }
  exists (map (flat_cell n nb) cells). rewrite S.
  destruct (ravel_iadd_bincount c (map (flat_cell n nb) cells))
    as (c' & E & S' & L' & N).
  { apply Forall_map. eapply Forall_impl; [|exact Hc].
    intros cl Hcl. rewrite L. apply flat_cell_bound, Hcl. }
  exists c'. split; [apply ravel_cells_ok, Hc|]. split; [exact E|].
  split; [congruence|].
  split; [unfold well_formed, dim0, dim1, dim2 in *; rewrite S', L'; exact W|].
  intros a b k Ha Hb Hk. unfold get3, dim1, dim2. rewrite S', S. cbn [fst snd].
  rewrite (N _ (Z.of_nat (F a b k))).
  - rewrite count_occ_flat by assumption. f_equal. lia.
  - specialize (H a b k Ha Hb Hk). unfold get3, dim1, dim2 in H.
    rewrite S in H. exact H.
Qed.

(** ** The mask of the numpy strategy *)

Lemma skipn_nth_error {A : Type} (s : nat) :
  forall l : list A,
    skipn s l
    = match nth_error l s with
      | Some y => y :: skipn (S s) l
      | None => []
      end.
Proof.
  induction s as [|s IH]; intros [|x l]; try reflexivity.
  cbn [skipn nth_error]. rewrite IH. destruct (nth_error l s); reflexivity.
Qed.

Lemma pairs_at_cons (s : nat) (x : Spike) (later : list Spike) :
  pairs_at (S s) (x :: later)
  = match nth_error later s with
    | Some y => (x, y) :: pairs_at (S s) later
    | None => []
    end.
Proof.
  unfold pairs_at. cbn [skipn]. rewrite (skipn_nth_error s later).
  destruct (nth_error later s); reflexivity.
Qed.

Lemma each_later_pairs (R : Spike -> Spike -> Prop) (s : nat) :
  forall seg,
    each_later R seg ->
    Forall (fun p => R (fst p) (snd p)) (pairs_at (S s) seg).
Proof.
  induction seg as [|x later IH]; intros H; [constructor|].
  destruct H as [Hx H]. rewrite pairs_at_cons.
  destruct (nth_error later s) as [y|] eqn:E; [|constructor].
  constructor; [|apply IH, H].
  cbn. rewrite Forall_forall in Hx. apply Hx.
  eapply nth_error_In; eassumption.
Qed.

Section Cleared.

Variables (window_size bin_size : Z).
Hypothesis Hbs : 0 < bin_size.
Hypothesis Hmul : window_size mod bin_size = 0.

Local Notation num_half_bins := (window_size / bin_size).

Lemma pair_bin_neg (p : Spike * Spike) :
  apart window_size (fst p) (snd p) ->
  pair_bin bin_size (-1) p
  = (sample_index (fst p) - sample_index (snd p)) / bin_size.
Proof.
  intros [H _]. unfold pair_bin.
  rewrite (wrap64_small (sample_index (snd p) - sample_index (fst p)))
    by lia.
  rewrite wrap64_small by lia. f_equal. ring.
Qed.

Lemma pair_bin_pos (p : Spike * Spike) :
  apart window_size (fst p) (snd p) ->
  pair_bin bin_size 1 p
  = (sample_index (snd p) - sample_index (fst p)) / bin_size.
Proof.
  intros [H _]. unfold pair_bin.
  rewrite (wrap64_small (sample_index (snd p) - sample_index (fst p)))
    by lia.
  rewrite wrap64_small by lia. f_equal. ring.
Qed.

(** Both tests of a round clear the mask exactly when the later spike is
    not inside the window. *)
Lemma pair_cleared_window (sign : Z) (p : Spike * Spike) :
  sign = -1 \/ sign = 1 ->
  apart window_size (fst p) (snd p) ->
  pair_cleared bin_size num_half_bins sign p
  = negb (in_window window_size p).
Proof.
  intros Hs Hp. pose proof (window_in_bins window_size bin_size Hbs Hmul) as W.
  unfold pair_cleared, in_window. destruct Hs as [-> | ->]; cbn [Z.eqb].
  - rewrite (pair_bin_neg p Hp). destruct Hp as [Hd Hne].
    set (d := sample_index (snd p) - sample_index (fst p)) in *.
    replace (sample_index (fst p) - sample_index (snd p)) with (- d)
      by (unfold d; ring).
    destruct (Z.ltb_spec d window_size) as [H|H]; cbn [negb].
    + apply Z.ltb_ge. apply Z.div_le_lower_bound; [lia|]. nia.
    + apply Z.ltb_lt. apply Z.div_lt_upper_bound; [lia|]. nia.
  - rewrite (pair_bin_pos p Hp). destruct Hp as [Hd Hne].
    set (d := sample_index (snd p) - sample_index (fst p)) in *.
    destruct (Z.ltb_spec d window_size) as [H|H]; cbn [negb].
    + rewrite Z.geb_leb. apply Z.leb_gt.
      apply Z.div_lt_upper_bound; [lia|]. nia.
    + rewrite Z.geb_leb. apply Z.leb_le.
      apply Z.div_le_lower_bound; [lia|]. nia.
Qed.

End Cleared.

Lemma mask_clear_idem :
  forall a cond, mask_clear (mask_clear a cond) cond = mask_clear a cond.
Proof.
  induction a as [|m a IH]; intros [|c cond]; cbn; try reflexivity.
  rewrite IH. destruct c; reflexivity.
Qed.

(** The pairs a pass selects are the pairs inside the window. *)
Lemma select_in_window (window_size : Z) :
  forall (pairs : list (Spike * Spike)) (mask : list bool),
    (length pairs <= length mask)%nat ->
    mask_keeps window_size mask pairs ->
    np_select pairs
      (firstn (length pairs)
         (mask_clear mask
            (map (fun p => negb (in_window window_size p)) pairs)))
    = filter (in_window window_size) pairs.
Proof.
  induction pairs as [|p pairs IH]; intros mask Hl Hk; [reflexivity|].
  destruct mask as [|b mask]; cbn in Hl; [lia|].
  unfold mask_keeps in Hk. cbn [combine] in Hk.
  inversion Hk as [|? ? Hb Hk']; subst. cbn [fst snd] in Hb.
  cbn [map mask_clear length firstn np_select filter].
  rewrite (IH mask ltac:(lia) Hk').
  destruct (in_window window_size p); cbn [negb]; [|reflexivity].
  rewrite Hb by reflexivity. reflexivity.
Qed.

(** No spike of an emptied mask has a partner inside the window. *)
Lemma none_in_window (window_size : Z) :
  forall (pairs : list (Spike * Spike)) (mask : list bool),
    (length pairs <= length mask)%nat ->
    mask_keeps window_size mask pairs ->
    np_any (firstn (length pairs) mask) = false ->
    Forall (fun p => in_window window_size p = false) pairs.
Proof.
  induction pairs as [|p pairs IH]; intros mask Hl Hk Ha; [constructor|].
  destruct mask as [|b mask]; cbn in Hl; [lia|].
  unfold mask_keeps in Hk. cbn [combine] in Hk.
  inversion Hk as [|? ? Hb Hk']; subst. cbn [fst snd] in Hb.
  cbn [length firstn] in Ha. unfold np_any in Ha. cbn [existsb] in Ha.
  apply orb_false_iff in Ha. destruct Ha as [-> Ha].
  constructor.
  - destruct (in_window window_size p); [|reflexivity].
    specialize (Hb eq_refl). discriminate.
  - apply (IH mask); [lia|exact Hk'|exact Ha].
Qed.

(** From one round to the next: the partner of a spike is replaced by the
    following spike, which is not earlier. *)
Lemma mask_keeps_next (window_size : Z) :
  forall (seg later : list Spike) (mask : list bool),
    each_later (fun x y => sample_index x <= sample_index y) later ->
    mask_keeps window_size mask (combine seg later) ->
    mask_keeps window_size
      (mask_clear mask
         (map (fun p => negb (in_window window_size p)) (combine seg later)))
      (combine seg (tl later)).
Proof.
  induction seg as [|x seg IH]; intros later mask Hs Hk;
    [unfold mask_keeps; destruct (mask_clear mask _); constructor|].
  destruct later as [|y later];
    [unfold mask_keeps; cbn; destruct mask; constructor|].
  cbn [tl combine map]. destruct Hs as [Hy Hs].
  destruct mask as [|b mask]; [constructor|].
  unfold mask_keeps in Hk. cbn [combine] in Hk.
  inversion Hk as [|? ? Hb Hk']; subst. cbn [fst snd] in Hb.
  cbn [mask_clear].
  specialize (IH later mask Hs Hk').
  destruct later as [|y' later'].
  - unfold mask_keeps. cbn [combine]. constructor.
  - cbn [tl] in IH. unfold mask_keeps. cbn [combine]. constructor; [|exact IH].
    cbn [fst snd]. unfold in_window in *. cbn [fst snd] in *.
    inversion Hy as [|? ? Hyy _]; subst.
    intros Hin. apply Z.ltb_lt in Hin.
    destruct (Z.ltb_spec (sample_index y - sample_index x) window_size);
      [|lia].
    cbn [negb]. apply Hb. reflexivity.
Qed.

Lemma none_in_window_next (window_size : Z) :
  forall (seg later : list Spike),
    each_later (fun x y => sample_index x <= sample_index y) later ->
    Forall (fun p => in_window window_size p = false) (combine seg later) ->
    Forall (fun p => in_window window_size p = false)
      (combine seg (tl later)).
Proof.
  induction seg as [|x seg IH]; intros later Hs Hn; [constructor|].
  destruct later as [|y later]; [constructor|].
  cbn [tl combine] in *. destruct Hs as [Hy Hs].
  inversion Hn as [|? ? Hxy Hn']; subst.
  specialize (IH later Hs Hn').
  destruct later as [|y' later']; [constructor|].
  cbn [tl combine] in *. constructor; [|exact IH].
  unfold in_window in *. cbn [fst snd] in *.
  inversion Hy as [|? ? Hyy _]; subst.
  apply Z.ltb_ge in Hxy. apply Z.ltb_ge. lia.
Qed.

Lemma tl_skipn {A : Type} (s : nat) :
  forall l : list A, tl (skipn s l) = skipn (S s) l.
Proof.
  induction s as [|s IH]; intros [|x l]; try reflexivity.
  cbn [skipn]. rewrite IH. destruct l; reflexivity.
Qed.

Lemma each_later_skipn (R : Spike -> Spike -> Prop) (s : nat) :
  forall seg, each_later R seg -> each_later R (skipn s seg).
Proof.
  induction s as [|s IH]; intros [|x seg] H; cbn; auto.
  apply IH, H.
Qed.

Lemma each_later_impl (R R' : Spike -> Spike -> Prop) :
  (forall x y, R x y -> R' x y) ->
  forall seg, each_later R seg -> each_later R' seg.
Proof.
  intros HR. induction seg as [|x seg IH]; intros H; [exact I|].
  destruct H as [Hx H]. split; [|apply IH, H].
  eapply Forall_impl; [|exact Hx]. intros y. apply HR.
Qed.

(** ** The rounds of the numpy strategy *)

Section NumpyRounds.

Variables (seg : list Spike) (window_size bin_size : Z) (n : nat).
Hypothesis Hbs : 0 < bin_size.
Hypothesis Hws : 0 <= window_size < 2 ^ 62.
Hypothesis Hmul : window_size mod bin_size = 0.
Hypothesis Hseg : each_later (apart window_size) seg.
Hypothesis Hlab : Forall (fun x => 0 <= unit_index x < Z.of_nat n) seg.

Local Notation num_half_bins := (window_size / bin_size).
Local Notation nb := (Z.to_nat (2 * (window_size / bin_size))).

Lemma pairs_apart (s : nat) :
  Forall (fun p => apart window_size (fst p) (snd p)) (pairs_at (S s) seg).
Proof. apply each_later_pairs, Hseg. Qed.

Lemma pairs_labels (s : nat) (p : Spike * Spike) :
  In p (pairs_at s seg) ->
  0 <= unit_index (fst p) < Z.of_nat n
  /\ 0 <= unit_index (snd p) < Z.of_nat n.
Proof.
  destruct p as [x y]. unfold pairs_at. intros H. cbn [fst snd].
  rewrite Forall_forall in Hlab. split.
  - apply Hlab. eapply in_combine_l; eassumption.
  - apply Hlab. apply in_combine_r in H.
    rewrite <- (firstn_skipn s seg). apply in_or_app. right. exact H.
Qed.

Lemma round_cells_in_range (sign : Z) (s : nat) :
  sign = -1 \/ sign = 1 ->
  Forall (cell_in_range n nb) (round_cells window_size bin_size sign seg s).
Proof.
  intros Hs. unfold round_cells. apply Forall_map, Forall_forall.
  intros p Hp. apply filter_In in Hp. destruct Hp as [Hin Hw].
  destruct (pairs_labels _ p Hin) as [L1 L2].
  pose proof (pairs_apart s) as Ha. rewrite Forall_forall in Ha.
  specialize (Ha p Hin). unfold in_window in Hw. apply Z.ltb_lt in Hw.
  pose proof Ha as [Hd _].
  assert (Hh : 0 <= num_half_bins <= window_size).
  { split; [apply Z.div_pos; lia|].
    pose proof (window_in_bins window_size bin_size Hbs Hmul). nia. }
  unfold pair_cell. destruct Hs as [-> | ->]; cbn [Z.eqb Pos.eqb].
  - rewrite (pair_bin_neg window_size bin_size p Ha).
    pose proof (lag_bin_index window_size bin_size Hbs Hmul
                  (sample_index (fst p) - sample_index (snd p))
                  ltac:(lia)) as Hi.
    rewrite wrap64_small by lia. unfold cell_in_range.
    rewrite Z2Nat.id by lia. lia.
  - rewrite (pair_bin_pos window_size bin_size p Ha).
    pose proof (lag_bin_index window_size bin_size Hbs Hmul
                  (sample_index (snd p) - sample_index (fst p))
                  ltac:(lia)) as Hi.
    rewrite wrap64_small by lia. unfold cell_in_range.
    rewrite Z2Nat.id by lia. lia.
Qed.

Lemma cleared_on_pairs (sign : Z) (s : nat) :
  sign = -1 \/ sign = 1 ->
  map (pair_cleared bin_size num_half_bins sign) (pairs_at (S s) seg)
  = map (fun p => negb (in_window window_size p)) (pairs_at (S s) seg).
Proof.
  intros Hs. apply map_ext_in. intros p Hp.
  apply (pair_cleared_window window_size bin_size Hbs Hmul sign p Hs).
  pose proof (pairs_apart s) as Ha. rewrite Forall_forall in Ha.
  apply Ha, Hp.
Qed.

(** One round: both passes. *)
Lemma one_round (s : nat) (mask : list bool) (c : ndarray3)
    (F : nat -> nat -> nat -> nat) :
  length mask = length seg ->
  mask_keeps window_size mask (pairs_at (S s) seg) ->
  tensor_holds n nb c F ->
  exists mask' c1 c',
    sign_pass (times_of seg) (labels_of seg) bin_size num_half_bins
      (S s) (-1) (mask, c) = Ok (mask', c1)
    /\ sign_pass (times_of seg) (labels_of seg) bin_size num_half_bins
         (S s) 1 (mask', c1) = Ok (mask', c')
    /\ length mask' = length seg
    /\ mask_keeps window_size mask' (pairs_at (S (S s)) seg)
    /\ tensor_holds n nb c'
         (fun a b k =>
            (F a b k + round_count window_size bin_size seg a b k s)%nat).
Proof.
  intros Hl Hk T.
  set (pairs := pairs_at (S s) seg).
  set (mask' := mask_clear mask
                  (map (fun p => negb (in_window window_size p)) pairs)).
  assert (Lp : length pairs = (length mask' - S s)%nat).
  { unfold pairs, mask'. rewrite pairs_at_length, mask_clear_length. lia. }
  assert (Sel : np_select pairs (slice_to_neg (S s) mask')
                = filter (in_window window_size) pairs).
  { unfold slice_to_neg. rewrite <- Lp. unfold mask'.
    apply select_in_window; [|exact Hk].
    unfold pairs. rewrite pairs_at_length. lia. }
  destruct (add_cells n nb c F
              (round_cells window_size bin_size (-1) seg s) T
              (round_cells_in_range (-1) s (or_introl eq_refl)))
    as (i1 & c1 & Ei1 & Ec1 & T1).
  destruct (add_cells n nb c1 _
              (round_cells window_size bin_size 1 seg s) T1
              (round_cells_in_range 1 s (or_intror eq_refl)))
    as (i2 & c' & Ei2 & Ec2 & T2).
  exists mask', c1, c'.
  split; [|split; [|split; [|split]]].
  - rewrite sign_pass_pairs by (left; reflexivity). cbv zeta.
    rewrite cleared_on_pairs by (left; reflexivity).
    fold pairs. fold mask'. rewrite Sel.
    unfold round_cells in Ei1. fold pairs in Ei1. rewrite Ei1. cbn [bind].
    rewrite Ec1. reflexivity.
  - rewrite sign_pass_pairs by (right; reflexivity). cbv zeta.
    rewrite cleared_on_pairs by (right; reflexivity).
    fold pairs. unfold mask' at 1 2. rewrite mask_clear_idem. fold mask'.
    rewrite Sel.
    unfold round_cells in Ei2. fold pairs in Ei2. rewrite Ei2. cbn [bind].
    rewrite Ec2. reflexivity.
  - unfold mask'. rewrite mask_clear_length. exact Hl.
  - unfold mask', pairs, pairs_at. rewrite <- (tl_skipn (S s) seg).
    apply mask_keeps_next; [|exact Hk].
    apply each_later_skipn.
    eapply each_later_impl; [|exact Hseg].
    intros x y [H _]. lia.
  - destruct T2 as (S2 & W2 & H2). split; [exact S2|]. split; [exact W2|].
    intros a b k Ha Hb Hk'. rewrite (H2 a b k Ha Hb Hk').
    unfold round_count. f_equal. lia.
Qed.

Lemma round_count_none (a b k s : nat) :
  Forall (fun p => in_window window_size p = false) (pairs_at (S s) seg) ->
  round_count window_size bin_size seg a b k s = O.
Proof.
  intros H. unfold round_count, round_cells.
  rewrite (filter_none _ _ H). reflexivity.
Qed.

Lemma sum_rounds_none (a b k : nat) :
  forall fuel s,
    Forall (fun p => in_window window_size p = false) (pairs_at (S s) seg) ->
    sum_rounds (round_count window_size bin_size seg a b k) fuel s = O.
Proof.
  induction fuel as [|fuel IH]; intros s H; [reflexivity|].
  cbn [sum_rounds]. rewrite (round_count_none a b k s H), IH; [reflexivity|].
  unfold pairs_at in *. rewrite <- (tl_skipn (S s) seg).
  apply none_in_window_next; [|exact H].
  apply each_later_skipn.
  eapply each_later_impl; [|exact Hseg].
  intros x y [Hxy _]. lia.
Qed.

(** The [while] loop from round [s] on. *)
Lemma shift_loop_counts :
  forall (fuel s : nat) (mask : list bool) (c : ndarray3)
         (F : nat -> nat -> nat -> nat),
    length mask = length seg ->
    mask_keeps window_size mask (pairs_at (S s) seg) ->
    tensor_holds n nb c F ->
    exists c',
      shift_loop fuel (times_of seg) (labels_of seg) bin_size num_half_bins
        (S s) (mask, c) = Ok c'
      /\ tensor_holds n nb c'
           (fun a b k =>
              (F a b k
               + sum_rounds (round_count window_size bin_size seg a b k)
                   fuel s)%nat).
Proof.
  induction fuel as [|fuel IH]; intros s mask c F Hl Hk T.
  - exists c. split.
    + cbn [shift_loop fst snd]. destruct (np_any _); reflexivity.
    + destruct T as (S0 & W0 & H0). split; [exact S0|]. split; [exact W0|].
      intros a b k Ha Hb Hk'. rewrite (H0 a b k Ha Hb Hk').
      cbn [sum_rounds]. f_equal. lia.
  - cbn [shift_loop fst snd].
    destruct (np_any (slice_to_neg (S s) mask)) eqn:Ea.
    + destruct (one_round s mask c F Hl Hk T)
        as (mask' & c1 & c2 & E1 & E2 & Hl' & Hk' & T2).
      rewrite E1. cbn [bind]. rewrite E2. cbn [bind].
      destruct (IH (S s) mask' c2 _ Hl' Hk' T2) as (c' & E' & T').
      exists c'. split; [exact E'|].
      destruct T' as (S' & W' & H'). split; [exact S'|]. split; [exact W'|].
      intros a b k Ha Hb Hk''. rewrite (H' a b k Ha Hb Hk'').
      cbn [sum_rounds]. f_equal. lia.
    + exists c. split; [reflexivity|].
      destruct T as (S0 & W0 & H0). split; [exact S0|]. split; [exact W0|].
      intros a b k Ha Hb Hk'. rewrite (H0 a b k Ha Hb Hk').
      rewrite sum_rounds_none; [f_equal; lia|].
      apply (none_in_window window_size _ mask).
      * rewrite pairs_at_length. lia.
      * exact Hk.
      * unfold slice_to_neg in Ea. rewrite pairs_at_length, <- Hl. exact Ea.
Qed.

End NumpyRounds.

(** ** From rounds to pairs *)

Lemma sum_rounds_ext (G G' : nat -> nat) :
  (forall s, G s = G' s) ->
  forall fuel s, sum_rounds G fuel s = sum_rounds G' fuel s.
Proof.
  intros E. induction fuel as [|fuel IH]; intros s; [reflexivity|].
  cbn [sum_rounds]. rewrite E, IH. reflexivity.
Qed.

Lemma sum_rounds_add (G G' : nat -> nat) :
  forall fuel s,
    sum_rounds (fun j => (G j + G' j)%nat) fuel s
    = (sum_rounds G fuel s + sum_rounds G' fuel s)%nat.
Proof.
  induction fuel as [|fuel IH]; intros s; [reflexivity|].
  cbn [sum_rounds]. rewrite IH. lia.
Qed.

Lemma sum_rounds_shift (G : nat -> nat) :
  forall fuel s,
    sum_rounds G fuel (S s) = sum_rounds (fun j => G (S j)) fuel s.
Proof.
  induction fuel as [|fuel IH]; intros s; [reflexivity|].
  cbn [sum_rounds]. rewrite IH. reflexivity.
Qed.

Lemma sum_rounds_zero (G : nat -> nat) :
  (forall s, G s = O) -> forall fuel s, sum_rounds G fuel s = O.
Proof.
  intros E. induction fuel as [|fuel IH]; intros s; [reflexivity|].
  cbn [sum_rounds]. rewrite E, IH. reflexivity.
Qed.

(** The partners of one spike, round after round, are the later spikes. *)
Lemma sum_rounds_partners (P : Spike -> bool) :
  forall (later : list Spike) (fuel : nat),
    (length later <= fuel)%nat ->
    sum_rounds
      (fun s => match nth_error later s with
                | Some y => if P y then 1%nat else O
                | None => O
                end) fuel 0
    = length (filter P later).
Proof.
  induction later as [|y later IH]; intros fuel H.
  - apply sum_rounds_zero. intros [|s]; reflexivity.
  - destruct fuel as [|fuel]; cbn in H; [lia|].
    cbn [sum_rounds nth_error filter]. rewrite sum_rounds_shift.
    cbn [nth_error]. rewrite (IH fuel) by lia.
    destruct (P y); reflexivity.
Qed.

Lemma sum_rounds_pairs (R : Spike * Spike -> bool) :
  forall (seg : list Spike) (fuel : nat),
    (length seg <= fuel)%nat ->
    sum_rounds (fun s => length (filter R (pairs_at (S s) seg))) fuel 0
    = count_later_spikes (fun x y => R (x, y)) seg.
Proof.
  induction seg as [|x later IH]; intros fuel H.
  - apply sum_rounds_zero. intros s. reflexivity.
  - cbn [length] in H. cbn [count_later_spikes].
    rewrite <- (IH fuel) by lia.
    rewrite <- (sum_rounds_partners (fun y => R (x, y)) later fuel) by lia.
    rewrite <- sum_rounds_add. apply sum_rounds_ext. intros s.
    rewrite pairs_at_cons.
    destruct (nth_error later s) as [y|] eqn:E.
    + cbn [filter]. destruct (R (x, y)); reflexivity.
    + apply nth_error_None in E.
      assert (L : length (pairs_at (S s) later) = O)
        by (rewrite pairs_at_length; lia).
      destruct (pairs_at (S s) later); [reflexivity|discriminate].
Qed.

Lemma filter_map_filter_length {A B : Type} (f : A -> B) (g : B -> bool)
    (h : A -> bool) (l : list A) :
  length (filter g (map f (filter h l)))
  = length (filter (fun p => h p && g (f p)) l).
Proof.
  induction l as [|x l IH]; [reflexivity|].
  cbn [filter]. destruct (h x); cbn [andb map filter].
  - destruct (g (f x)); cbn [length]; rewrite IH; reflexivity.
  - exact IH.
Qed.

Lemma filter_ext_in_length {A : Type} (f g : A -> bool) (l : list A) :
  Forall (fun x => f x = g x) l ->
  length (filter f l) = length (filter g l).
Proof.
  induction 1 as [|x l Hx _ IH]; [reflexivity|].
  cbn [filter]. rewrite Hx. destruct (g x); cbn [length]; rewrite IH;
    reflexivity.
Qed.

Section RoundsToPairs.

Variables (seg : list Spike) (window_size bin_size : Z).
Hypothesis Hbs : 0 < bin_size.
Hypothesis Hws : 0 <= window_size < 2 ^ 62.
Hypothesis Hmul : window_size mod bin_size = 0.
Hypothesis Hseg : each_later (apart window_size) seg.

Local Notation num_half_bins := (window_size / bin_size).
Local Notation in_bin := (spike_lag_in_bin window_size bin_size).

Lemma cell_neg_pass (a b k : nat) (p : Spike * Spike) :
  apart window_size (fst p) (snd p) ->
  in_window window_size p
  && cell_is a b k (pair_cell bin_size num_half_bins (-1) p)
  = in_bin a b k (fst p) (snd p).
Proof.
  intros Ha. pose proof Ha as [Hd Hne].
  unfold pair_cell, cell_is, spike_lag_in_bin, lag_in_bin, in_window.
  cbn [Z.eqb]. rewrite (pair_bin_neg window_size bin_size p Ha).
  set (d := sample_index (snd p) - sample_index (fst p)) in *.
  replace (sample_index (fst p) - sample_index (snd p)) with (- d)
    by (unfold d; ring).
  destruct (Z.ltb_spec d window_size) as [H|H]; cbn [andb].
  - pose proof (lag_bin_index window_size bin_size Hbs Hmul (- d)
                  ltac:(lia)) as Hi.
    assert (Hh : num_half_bins <= window_size).
    { pose proof (window_in_bins window_size bin_size Hbs Hmul).
      assert (0 <= num_half_bins) by (apply Z.div_pos; lia). nia. }
    rewrite wrap64_small by lia.
    destruct (Z.leb_spec (- window_size) (- d)); [|lia].
    destruct (Z.ltb_spec (- d) window_size); [|lia].
    cbn [andb]. rewrite (Z.add_comm (- d / bin_size)). reflexivity.
  - destruct (Z.leb_spec (- window_size) (- d)); [lia|].
    cbn [andb]. rewrite andb_false_r. reflexivity.
Qed.

Lemma cell_pos_pass (a b k : nat) (p : Spike * Spike) :
  apart window_size (fst p) (snd p) ->
  in_window window_size p
  && cell_is a b k (pair_cell bin_size num_half_bins 1 p)
  = in_bin a b k (snd p) (fst p).
Proof.
  intros Ha. pose proof Ha as [Hd Hne].
  unfold pair_cell, cell_is, spike_lag_in_bin, lag_in_bin, in_window.
  cbn [Z.eqb Pos.eqb]. rewrite (pair_bin_pos window_size bin_size p Ha).
  set (d := sample_index (snd p) - sample_index (fst p)) in *.
  destruct (Z.ltb_spec d window_size) as [H|H]; cbn [andb].
  - pose proof (lag_bin_index window_size bin_size Hbs Hmul d
                  ltac:(lia)) as Hi.
    assert (Hh : num_half_bins <= window_size).
    { pose proof (window_in_bins window_size bin_size Hbs Hmul).
      assert (0 <= num_half_bins) by (apply Z.div_pos; lia). nia. }
    rewrite wrap64_small by lia.
    destruct (Z.leb_spec (- window_size) d); [|lia].
    cbn [andb]. rewrite (Z.add_comm (d / bin_size)). reflexivity.
  - rewrite andb_false_r. cbn [andb]. rewrite andb_false_r. reflexivity.
Qed.

Lemma round_count_pairs (a b k s : nat) :
  round_count window_size bin_size seg a b k s
  = (length (filter (fun p => in_bin a b k (fst p) (snd p))
               (pairs_at (S s) seg))
     + length (filter (fun p => in_bin a b k (snd p) (fst p))
                 (pairs_at (S s) seg)))%nat.
Proof.
  unfold round_count, round_cells. rewrite !filter_map_filter_length.
  pose proof (each_later_pairs _ s seg Hseg) as Ha.
  f_equal; apply filter_ext_in_length;
    (eapply Forall_impl; [|exact Ha]); cbn beta; intros p Hp.
  - apply cell_neg_pass, Hp.
  - apply cell_pos_pass, Hp.
Qed.

(** All the rounds together count every pair of two different spikes
    twice: once with its lag, once with the opposite lag. *)
Lemma sum_rounds_count (a b k fuel : nat) :
  (length seg <= fuel)%nat ->
  sum_rounds (round_count window_size bin_size seg a b k) fuel 0
  = (count_later_spikes (in_bin a b k) seg
     + count_later_spikes (fun x y => in_bin a b k y x) seg)%nat.
Proof.
  intros H.
  rewrite (sum_rounds_ext _ _ (round_count_pairs a b k)).
  rewrite sum_rounds_add.
  rewrite (sum_rounds_pairs (fun p => in_bin a b k (fst p) (snd p)))
    by exact H.
  rewrite (sum_rounds_pairs (fun p => in_bin a b k (snd p) (fst p)))
    by exact H.
  reflexivity.
Qed.

End RoundsToPairs.

(** ** From the pairs of a segment to the trains of its units *)

Lemma filter_train_length (g : Z -> bool) (seg : list Spike) (a : nat) :
  length (filter g (train seg a))
  = length (filter (fun y => (unit_index y =? Z.of_nat a) && g (sample_index y))
              seg).
Proof. unfold train. apply filter_map_filter_length. Qed.

Lemma filter_false_length {A : Type} (g : A -> bool) (l : list A) :
  length (filter (fun y => false && g y) l) = O.
Proof. induction l as [|x l IH]; [reflexivity|]. exact IH. Qed.

Lemma train_cons (x : Spike) (seg : list Spike) (a : nat) :
  train (x :: seg) a
  = if unit_index x =? Z.of_nat a then sample_index x :: train seg a
    else train seg a.
Proof.
  unfold train. cbn [filter]. destruct (unit_index x =? Z.of_nat a);
    reflexivity.
Qed.

Lemma filter_length_zero {A : Type} (f : A -> bool) (l : list A) :
  Forall (fun x => f x = false) l -> length (filter f l) = O.
Proof. intros H. rewrite (filter_none f l H). reflexivity. Qed.

Section SpikesToTrains.

Variable P : Z -> Z -> bool.

(** The later spikes of unit [b] that satisfy [P] with an earlier spike
    [x], counted only when [x] is of unit [a]. *)
Lemma partners_after (a b : nat) (x : Spike) (seg : list Spike) :
  length
    (filter (fun y => (unit_index x =? Z.of_nat a)
                      && (unit_index y =? Z.of_nat b)
                      && P (sample_index x) (sample_index y)) seg)
  = if unit_index x =? Z.of_nat a
    then length (filter (P (sample_index x)) (train seg b))
    else O.
Proof.
  destruct (unit_index x =? Z.of_nat a).
  - rewrite filter_train_length. apply filter_ext_in_length.
    apply Forall_forall. intros y _. reflexivity.
  - apply filter_length_zero. apply Forall_forall. intros y _. reflexivity.
Qed.

Lemma partners_before (a b : nat) (x : Spike) (seg : list Spike) :
  length
    (filter (fun y => (unit_index y =? Z.of_nat a)
                      && (unit_index x =? Z.of_nat b)
                      && P (sample_index y) (sample_index x)) seg)
  = if unit_index x =? Z.of_nat b
    then length (filter (fun ti => P ti (sample_index x)) (train seg a))
    else O.
Proof.
  destruct (unit_index x =? Z.of_nat b).
  - rewrite filter_train_length. apply filter_ext_in_length.
    apply Forall_forall. intros y _. rewrite andb_true_r. reflexivity.
  - apply filter_length_zero. apply Forall_forall. intros y _.
    rewrite andb_false_r. reflexivity.
Qed.

Lemma count_later_spikes_same (a : nat) (seg : list Spike) :
  count_later_spikes
    (fun x y => (unit_index x =? Z.of_nat a) && (unit_index y =? Z.of_nat a)
                && P (sample_index x) (sample_index y)) seg
  = count_later P (train seg a).
Proof.
  induction seg as [|x seg IH]; [reflexivity|].
  cbn [count_later_spikes]. rewrite train_cons, IH, partners_after.
  destruct (unit_index x =? Z.of_nat a); reflexivity.
Qed.

Lemma count_later_spikes_same_flip (a : nat) (seg : list Spike) :
  count_later_spikes
    (fun x y => (unit_index y =? Z.of_nat a) && (unit_index x =? Z.of_nat a)
                && P (sample_index y) (sample_index x)) seg
  = count_later (fun ti tj => P tj ti) (train seg a).
Proof.
  induction seg as [|x seg IH]; [reflexivity|].
  cbn [count_later_spikes]. rewrite train_cons, IH, partners_before.
  destruct (unit_index x =? Z.of_nat a); reflexivity.
Qed.

Lemma count_later_spikes_cross (a b : nat) (seg : list Spike) :
  a <> b ->
  Nat.add
    (count_later_spikes
       (fun x y => (unit_index x =? Z.of_nat a) && (unit_index y =? Z.of_nat b)
                   && P (sample_index x) (sample_index y)) seg)
    (count_later_spikes
       (fun x y => (unit_index y =? Z.of_nat a)
                   && (unit_index x =? Z.of_nat b)
                   && P (sample_index y) (sample_index x)) seg)
  = count_pairs P (train seg a) (train seg b).
Proof.
  intros Hab. induction seg as [|x seg IH]; [reflexivity|].
  cbn [count_later_spikes]. rewrite !train_cons.
  rewrite partners_after, partners_before.
  destruct (Z.eqb_spec (unit_index x) (Z.of_nat a)) as [Ea|Ea];
    destruct (Z.eqb_spec (unit_index x) (Z.of_nat b)) as [Eb|Eb];
    try (exfalso; lia).
  - rewrite count_pairs_cons, <- IH. lia.
  - rewrite count_pairs_cons_r, <- IH. lia.
  - rewrite <- IH. lia.
Qed.

End SpikesToTrains.

(** The pairs the numpy strategy counts in a segment are the pairs of the
    trains of the units. *)
Lemma spike_pairs_in_bin (window_size bin_size : Z) (a b k : nat)
    (seg : list Spike) :
  (count_later_spikes (spike_lag_in_bin window_size bin_size a b k) seg
   + count_later_spikes
       (fun x y => spike_lag_in_bin window_size bin_size a b k y x) seg)%nat
  = pairs_in_bin window_size bin_size a b k seg.
Proof.
  unfold pairs_in_bin, spike_lag_in_bin.
  destruct (Nat.eqb_spec a b) as [->|Hab].
  - unfold count_distinct.
    rewrite (count_later_spikes_same (lag_in_bin window_size bin_size k)).
    rewrite (count_later_spikes_same_flip (lag_in_bin window_size bin_size k)).
    reflexivity.
  - apply (count_later_spikes_cross (lag_in_bin window_size bin_size k)).
    exact Hab.
Qed.

(** ** What the tensor of the numpy strategy counts *)

Lemma apart_of_times (window_size : Z) (seg : list Spike) :
  all_later Z.le (times_of seg) ->
  Forall (fun t => 0 <= t < 2 ^ 62) (times_of seg) ->
  has_lag window_size (times_of seg) = false ->
  each_later (apart window_size) seg.
Proof.
  unfold times_of.
  induction seg as [|x seg IH]; intros Hs Hb Hl; [exact I|].
  cbn [map all_later has_lag] in *. destruct Hs as [Hx Hs].
  inversion Hb as [|? ? Hbx Hb']; subst.
  apply orb_false_iff in Hl. destruct Hl as [Hlx Hl].
  split; [|apply IH; assumption].
  apply Forall_forall. intros y Hy.
  assert (Hin : In (sample_index y) (map sample_index seg))
    by (apply in_map; exact Hy).
  rewrite Forall_forall in Hx, Hb'.
  specialize (Hx _ Hin). specialize (Hb' _ Hin). cbn beta in Hb'.
  unfold apart. split; [lia|].
  intros E.
  assert (existsb (fun tj => tj - sample_index x =? window_size)
            (map sample_index seg) = true).
  { apply existsb_exists. exists (sample_index y). split; [exact Hin|].
    apply Z.eqb_eq. exact E. }
  congruence.
Qed.

Lemma NoDup_map_of_nat (l : list nat) : NoDup l -> NoDup (map Z.of_nat l).
Proof.
  induction 1 as [|x l Hx _ IH]; [constructor|].
  cbn [map]. constructor; [|exact IH].
  intros Hin. apply in_map_iff in Hin. destruct Hin as (y & E & Hy).
  apply Nat2Z.inj in E. subst. contradiction.
Qed.

(** When every unit fires in the segment, [np.unique] finds them all. *)
Lemma unique_labels (n : nat) (seg : list Spike) :
  Forall (fun l => 0 <= l < Z.of_nat n) (labels_of seg) ->
  (forall i, (i < n)%nat -> train seg i <> []) ->
  length (np_unique (labels_of seg)) = n.
Proof.
  intros Hl Hf. unfold np_unique.
  set (u := nodup Z.eq_dec (labels_of seg)).
  set (all := map Z.of_nat (seq 0 n)).
  assert (La : length all = n) by (unfold all; rewrite length_map, length_seq; reflexivity).
  assert (I1 : incl u all).
  { intros l Hin. apply nodup_In in Hin. rewrite Forall_forall in Hl.
    specialize (Hl l Hin). unfold all. apply in_map_iff.
    exists (Z.to_nat l). split; [lia|]. apply in_seq. lia. }
  assert (I2 : incl all u).
  { intros l Hin. unfold all in Hin. apply in_map_iff in Hin.
    destruct Hin as (i & <- & Hi). apply in_seq in Hi.
    apply nodup_In. specialize (Hf i ltac:(lia)).
    unfold train in Hf. unfold labels_of.
    destruct (filter _ seg) as [|x r] eqn:E; [contradiction|].
    assert (Hx : In x (filter (fun s => unit_index s =? Z.of_nat i) seg))
      by (rewrite E; left; reflexivity).
    apply filter_In in Hx. destruct Hx as [Hx Hu]. apply Z.eqb_eq in Hu.
    rewrite <- Hu. apply in_map. exact Hx. }
  apply Nat.le_antisymm.
  - rewrite <- La. apply NoDup_incl_length; [apply NoDup_nodup|exact I1].
  - rewrite <- La. apply NoDup_incl_length; [|exact I2].
    apply NoDup_map_of_nat, seq_NoDup.
Qed.

Lemma mask_keeps_ones (window_size : Z) (len : nat)
    (pairs : list (Spike * Spike)) :
  mask_keeps window_size (repeat true len) pairs.
Proof.
  unfold mask_keeps. apply Forall_forall. intros [b p] Hin _.
  apply in_combine_l in Hin. apply repeat_spec in Hin. exact Hin.
Qed.

Lemma zeros_holds (n : nat) (num_bins : Z) (c : ndarray3) :
  np_zeros3 n n num_bins = Ok c ->
  tensor_holds n (Z.to_nat num_bins) c (fun _ _ _ => O).
Proof.
  unfold np_zeros3. destruct (num_bins <? 0); [discriminate|].
  intros H. injection H as <-. split; [reflexivity|].
  split; [unfold well_formed; cbn; apply repeat_length|].
  intros a b k _ _ _. unfold get3. cbn [data]. rewrite nth_zeros.
  reflexivity.
Qed.

Lemma tensor_holds_ext (n nb : nat) (c : ndarray3)
    (F G : nat -> nat -> nat -> nat) :
  (forall a b k, F a b k = G a b k) ->
  tensor_holds n nb c F -> tensor_holds n nb c G.
Proof.
  intros E (S & W & H). split; [exact S|]. split; [exact W|].
  intros a b k Ha Hb Hk. rewrite <- E. apply H; assumption.
Qed.

(** One segment. *)
Lemma correlogram_for_one_segment_counts (seg : list Spike)
    (window_size bin_size : Z) (n : nat) :
  0 < bin_size -> 0 <= window_size < 2 ^ 62 ->
  window_size mod bin_size = 0 ->
  each_later (apart window_size) seg ->
  length (np_unique (labels_of seg)) = n ->
  Forall (fun l => 0 <= l < Z.of_nat n) (labels_of seg) ->
  exists c,
    correlogram_for_one_segment (times_of seg) (labels_of seg)
      window_size bin_size = Ok c
    /\ tensor_holds n (Z.to_nat (2 * (window_size / bin_size))) c
         (fun a b k => pairs_in_bin window_size bin_size a b k seg).
Proof.
  intros Hbs Hws Hmul Hseg Hu Hl.
  unfold correlogram_for_one_segment, _compute_num_bins, py_floordiv.
  destruct (Z.eqb_spec bin_size 0); [lia|]. cbn [bind]. rewrite Hu.
  destruct (np_zeros3 n n (2 * (window_size / bin_size))) as [c0|e] eqn:E0.
  - cbn [bind].
    assert (Hlab : Forall (fun x => 0 <= unit_index x < Z.of_nat n) seg).
    { unfold labels_of in Hl. rewrite Forall_map in Hl. exact Hl. }
    assert (Lt : length (times_of seg) = length seg)
      by (unfold times_of; apply length_map).
    rewrite Lt.
    destruct (shift_loop_counts seg window_size bin_size n Hbs Hws Hmul
                Hseg Hlab (length seg) O (repeat true (length seg)) c0
                (fun _ _ _ => O))
      as (c & E & T).
    + apply repeat_length.
    + apply mask_keeps_ones.
    + apply zeros_holds. exact E0.
    + exists c. split; [exact E|].
      eapply tensor_holds_ext; [|exact T].
      intros a b k. cbn beta.
      rewrite (sum_rounds_count seg window_size bin_size Hbs Hws Hmul Hseg)
        by lia.
      rewrite spike_pairs_in_bin. reflexivity.
  - exfalso. unfold np_zeros3 in E0.
    assert (0 <= window_size / bin_size) by (apply Z.div_pos; lia).
    destruct (Z.ltb_spec (2 * (window_size / bin_size)) 0);
      [lia|discriminate].
Qed.

Lemma nth_combine_seq (l : list Z) :
  forall (start p : nat),
    (p < length l)%nat ->
    nth p (combine (seq start (length l)) l) (O, 0)
    = ((start + p)%nat, nth p l 0).
Proof.
  induction l as [|x l IH]; intros start p H; cbn in H; [lia|].
  cbn [length seq combine]. destruct p as [|p]; cbn [nth].
  - rewrite Nat.add_0_r. reflexivity.
  - rewrite IH by lia. f_equal. lia.
Qed.

(** [a += b] on two tensors of the same shape. *)
Lemma np_iadd3_same (n nb : nat) (a b : ndarray3)
    (F G : nat -> nat -> nat -> nat) :
  tensor_holds n nb a F -> tensor_holds n nb b G ->
  exists c,
    np_iadd3 a b = Ok c
    /\ tensor_holds n nb c (fun i j k => (F i j k + G i j k)%nat).
Proof.
  intros (Sa & Wa & Ha) (Sb & Wb & Hb).
  assert (La : length (data a) = (n * n * nb)%nat).
  { unfold well_formed, dim0, dim1, dim2 in Wa. rewrite Sa in Wa. exact Wa. }
  unfold np_iadd3. rewrite Sa, Sb. unfold broadcastable.
  rewrite !Nat.eqb_refl. cbn [orb andb].
  eexists. split; [reflexivity|].
  split; [reflexivity|].
  split.
  { unfold well_formed, dim0, dim1, dim2. cbn [shape data fst snd].
    rewrite length_map, length_combine, length_seq. lia. }
  intros i j k Hi Hj Hk.
  unfold get3 at 1. unfold dim1, dim2. cbn [shape data fst snd].
  set (p := ((i * n + j) * nb + k)%nat).
  assert (Hp : (p < length (data a))%nat).
  { rewrite La. apply (flat_index_bound n n nb i j k); assumption. }
  rewrite (nth_map_in _ _ 0 (O, 0))
    by (rewrite length_combine, length_seq; lia).
  rewrite nth_combine_seq by exact Hp. cbn [Nat.add].
  assert (Ek : (p mod nb = k)%nat).
  { unfold p. rewrite Nat.add_comm, Nat.Div0.mod_add.
    apply Nat.mod_small. exact Hk. }
  assert (Ed : (p / nb = i * n + j)%nat).
  { unfold p. rewrite Nat.add_comm, Nat.div_add by lia.
    rewrite Nat.div_small by exact Hk. reflexivity. }
  assert (Ej : ((p / nb) mod n = j)%nat).
  { rewrite Ed, Nat.add_comm, Nat.Div0.mod_add.
    apply Nat.mod_small. exact Hj. }
  assert (Ei : (p / nb / n = i)%nat).
  { rewrite Ed, Nat.add_comm, Nat.div_add by lia.
    rewrite Nat.div_small by exact Hj. reflexivity. }
  rewrite Ek, Ej, Ei.
  assert (Bi : bidx n i = i).
  { unfold bidx. destruct (Nat.eqb_spec n 1); [lia|reflexivity]. }
  assert (Bj : bidx n j = j).
  { unfold bidx. destruct (Nat.eqb_spec n 1); [lia|reflexivity]. }
  assert (Bk : bidx nb k = k).
  { unfold bidx. destruct (Nat.eqb_spec nb 1); [lia|reflexivity]. }
  rewrite Bi, Bj, Bk.
  specialize (Ha i j k Hi Hj Hk). specialize (Hb i j k Hi Hj Hk).
  unfold get3, dim1, dim2 in Ha, Hb. rewrite Sa in Ha. rewrite Sb in Hb.
  cbn [fst snd] in Ha, Hb. fold p in Ha, Hb. fold p.
  rewrite Ha, Hb, wrap64_add. f_equal. lia.
Qed.

Lemma numpy_segments_counts (n : nat) (window_size bin_size : Z) :
  0 < bin_size -> 0 <= window_size < 2 ^ 62 ->
  window_size mod bin_size = 0 ->
  forall (segs : list (list Spike)) (c : ndarray3)
         (F : nat -> nat -> nat -> nat),
    Forall (fun seg =>
              each_later (apart window_size) seg
              /\ length (np_unique (labels_of seg)) = n
              /\ Forall (fun l => 0 <= l < Z.of_nat n) (labels_of seg))
      segs ->
    tensor_holds n (Z.to_nat (2 * (window_size / bin_size))) c F ->
    exists c',
      numpy_segments segs window_size bin_size c = Ok c'
      /\ tensor_holds n (Z.to_nat (2 * (window_size / bin_size))) c'
           (fun a b k =>
              (F a b k
               + pairs_in_bin_all window_size bin_size a b k segs)%nat).
Proof.
  intros Hbs Hws Hmul.
  induction segs as [|seg segs IH]; intros c F Hs T.
  - exists c. split; [reflexivity|].
    eapply tensor_holds_ext; [|exact T].
    intros; unfold pairs_in_bin_all; cbn; lia.
  - pose proof (Forall_inv Hs) as (H1 & H2 & H3).
    pose proof (Forall_inv_tail Hs) as Hs'.
    cbn [numpy_segments].
    destruct (correlogram_for_one_segment_counts seg window_size bin_size n
                Hbs Hws Hmul H1 H2 H3) as (c0 & E0 & T0).
    rewrite E0. cbn [bind].
    destruct (np_iadd3_same _ _ c c0 _ _ T T0) as (c1 & E1 & T1).
    rewrite E1. cbn [bind].
    destruct (IH c1 _ Hs' T1) as (c' & E' & T').
    exists c'. split; [exact E'|].
    eapply tensor_holds_ext; [|exact T'].
    intros a b k. cbn beta.
    unfold pairs_in_bin_all, list_sum. cbn [map fold_right]. lia.
Qed.

(** The conditions on a segment: in time order, sample indices in
    [0, 2^62), no two spikes exactly [window_size] apart, unit indices in
    [0, n), and every unit fires. *)
Lemma numpy_segment_ready (window_size : Z) (n : nat) (seg : list Spike) :
  all_later Z.le (times_of seg) ->
  Forall (fun t => 0 <= t < 2 ^ 62) (times_of seg) ->
  has_lag window_size (times_of seg) = false ->
  Forall (fun l => 0 <= l < Z.of_nat n) (labels_of seg) ->
  (forall i, (i < n)%nat -> train seg i <> []) ->
  each_later (apart window_size) seg
  /\ length (np_unique (labels_of seg)) = n
  /\ Forall (fun l => 0 <= l < Z.of_nat n) (labels_of seg).
Proof.
  intros H1 H2 H3 H4 H5. split; [apply apart_of_times; assumption|].
  split; [apply unique_labels; assumption|exact H4].
Qed.

Lemma compute_correlograms_numpy_counts (sorting : Sorting)
    (window_size bin_size : Z) :
  0 < bin_size -> 0 <= window_size < 2 ^ 62 ->
  window_size mod bin_size = 0 ->
  Forall (fun seg =>
            all_later Z.le (times_of seg)
            /\ Forall (fun t => 0 <= t < 2 ^ 62) (times_of seg)
            /\ has_lag window_size (times_of seg) = false
            /\ Forall (fun l => 0 <= l < Z.of_nat (length (unit_ids sorting)))
                 (labels_of seg)
            /\ forall i, (i < length (unit_ids sorting))%nat ->
                 train seg i <> [])
    (to_spike_vector sorting) ->
  exists c,
    compute_correlograms_numpy sorting window_size bin_size = Ok c
    /\ tensor_holds (length (unit_ids sorting))
         (Z.to_nat (2 * (window_size / bin_size))) c
         (fun a b k =>
            pairs_in_bin_all window_size bin_size a b k
              (to_spike_vector sorting)).
Proof.
  intros Hbs Hws Hmul Hs.
  unfold compute_correlograms_numpy, _compute_num_bins, py_floordiv.
  destruct (Z.eqb_spec bin_size 0); [lia|]. cbn [bind].
  destruct (np_zeros3 (length (unit_ids sorting)) (length (unit_ids sorting))
              (2 * (window_size / bin_size))) as [c0|e] eqn:E0.
  - cbn [bind].
    destruct (numpy_segments_counts (length (unit_ids sorting)) window_size
                bin_size Hbs Hws Hmul (to_spike_vector sorting) c0
                (fun _ _ _ => O))
      as (c & E & T).
    + eapply Forall_impl; [|exact Hs]. cbn beta.
      intros seg (H1 & H2 & H3 & H4 & H5).
      apply numpy_segment_ready; assumption.
    + apply zeros_holds. exact E0.
    + exists c. split; [exact E|].
      eapply tensor_holds_ext; [|exact T]. intros; cbn beta; lia.
  - exfalso. unfold np_zeros3 in E0.
    assert (0 <= window_size / bin_size) by (apply Z.div_pos; lia).
    destruct (Z.ltb_spec (2 * (window_size / bin_size)) 0);
      [lia|discriminate].
Qed.

(** X13. On a sorting whose segments are in time order, with sample
    indices in [0, 2^62), unit indices in [0, n), every unit firing in
    every segment and no two spikes of a segment exactly [window_size]
    apart, the numpy strategy returns (bin size positive, window size a
    multiple of it, below 2^62): cell (a, b, k) holds, as an int64 counter,
    the number of pairs, summed over the segments, of a spike of unit a and
    a spike of unit b - two different spikes when a = b - whose lag
    d = t_a - t_b satisfies -window_size <= d < window_size and
    window_size // bin_size + floor(d / bin_size) = k. *)
Theorem numpy_tensor_counts :
  forall (sorting : Sorting) (window_size bin_size : Z),
    0 < bin_size -> 0 <= window_size < 2 ^ 62 ->
    window_size mod bin_size = 0 ->
    let n := length (unit_ids sorting) in
    let nb := Z.to_nat (2 * (window_size / bin_size)) in
    Forall (fun seg =>
              all_later Z.le (times_of seg)
              /\ Forall (fun t => 0 <= t < 2 ^ 62) (times_of seg)
              /\ has_lag window_size (times_of seg) = false
              /\ Forall (fun l => 0 <= l < Z.of_nat n) (labels_of seg)
              /\ forall i, (i < n)%nat -> train seg i <> [])
      (to_spike_vector sorting) ->
    exists c,
      compute_correlograms_numpy sorting window_size bin_size = Ok c
      /\ shape c = (n, n, nb)
      /\ forall a b k,
           (a < n)%nat -> (b < n)%nat -> (k < nb)%nat ->
           get3 c a b k
           = wrap64 (Z.of_nat (pairs_in_bin_all window_size bin_size a b k
                                 (to_spike_vector sorting))).
Proof.
  intros sorting ws bs Hbs Hws Hmul n nb Hs.
  destruct (compute_correlograms_numpy_counts sorting ws bs Hbs Hws Hmul Hs)
    as (c & E & S & _ & H).
  exists c. split; [exact E|]. split; [exact S|]. exact H.
Qed.

Lemma numpy_tensor_counts_witness :
  let sorting :=
    mkSorting 30000 [0; 1]
      [[mkSpike 0 0; mkSpike 5 1; mkSpike 12 0];
       [mkSpike 3 1; mkSpike 40 1; mkSpike 41 0]] in
  exists c,
    compute_correlograms_numpy sorting 20 10 = Ok c
    /\ shape c = (2%nat, 2%nat, 4%nat)
    /\ forall a b k,
         (a < 2)%nat -> (b < 2)%nat -> (k < 4)%nat ->
         get3 c a b k
         = wrap64 (Z.of_nat (pairs_in_bin_all 20 10 a b k
                               (to_spike_vector sorting))).
Proof.
  intros sorting.
  apply (numpy_tensor_counts sorting 20 10); try lia; try reflexivity.
  repeat constructor; cbn; try lia;
    intros [|[|i]] Hi; try discriminate; lia.
Defined.

(** ** Where the two strategies agree *)

Lemma has_lag_train (window_size : Z) (i : nat) (seg : list Spike) :
  has_lag window_size (times_of seg) = false ->
  has_lag window_size (train seg i) = false.
Proof.
  unfold times_of. induction seg as [|x seg IH]; intros H; [reflexivity|].
  cbn [map has_lag] in H. apply orb_false_iff in H. destruct H as [Hx H].
  rewrite train_cons. destruct (unit_index x =? Z.of_nat i); [|apply IH, H].
  cbn [has_lag]. rewrite (IH H), orb_false_r.
  destruct (existsb _ (train seg i)) eqn:E; [|reflexivity].
  apply existsb_exists in E. destruct E as (t & Hin & Ht).
  assert (existsb (fun tj => tj - sample_index x =? window_size)
            (map sample_index seg) = true); [|congruence].
  apply existsb_exists. exists t. split; [|exact Ht].
  unfold train in Hin. apply in_map_iff in Hin.
  destruct Hin as (y & <- & Hy). apply filter_In in Hy.
  apply in_map, Hy.
Qed.

Lemma numba_strategy_counts (sorting : Sorting) (window_size bin_size : Z) :
  0 < bin_size -> 0 <= window_size < 2 ^ 53 ->
  window_size mod bin_size = 0 ->
  Forall (fun seg =>
            ordered_segment seg
            /\ forall i, (i < length (unit_ids sorting))%nat ->
                 has_lag window_size (train seg i) = false)
    (to_spike_vector sorting) ->
  exists c,
    compute_correlograms_numba true sorting window_size bin_size = Ok c
    /\ tensor_counts (length (unit_ids sorting))
         (Z.to_nat (2 * (window_size / bin_size))) c
         (fun a b k =>
            pairs_in_bin_all window_size bin_size a b k
              (to_spike_vector sorting)).
Proof.
  intros Hbs Hws Hmul Hs.
  unfold compute_correlograms_numba, _compute_num_bins, py_floordiv.
  cbn [py_assert bind].
  destruct (Z.eqb_spec bin_size 0); [lia|]. cbn [bind].
  destruct (np_zeros3 (length (unit_ids sorting)) (length (unit_ids sorting))
              (2 * (window_size / bin_size))) as [c0|e] eqn:E0.
  - cbn [bind].
    destruct (numba_segments_counts (length (unit_ids sorting)) _ window_size
                bin_size Hbs Hws Hmul eq_refl (to_spike_vector sorting) c0
                (fun _ _ _ => O) Hs (zeros_counts _ _ _ E0))
      as (c & E & T).
    exists c. split; [exact E|].
    eapply tensor_counts_ext; [|exact T]. intros; cbn beta; lia.
  - exfalso. unfold np_zeros3 in E0.
    assert (0 <= window_size / bin_size) by (apply Z.div_pos; lia).
    destruct (Z.ltb_spec (2 * (window_size / bin_size)) 0);
      [lia|discriminate].
Qed.

Lemma count_pairs_swap (P : Z -> Z -> bool) (times2 : list Z) :
  forall times1,
    count_pairs P times1 times2
    = count_pairs (fun tj ti => P ti tj) times2 times1.
Proof.
  induction times1 as [|ti l IH].
  - unfold count_pairs at 1. cbn [list_prod filter length].
    induction times2 as [|tj l2 IH2]; [reflexivity|].
    rewrite count_pairs_cons. cbn [filter length]. exact IH2.
  - rewrite count_pairs_cons, count_pairs_cons_r, IH. reflexivity.
Qed.

Lemma count_pairs_ext_in (P Q : Z -> Z -> bool) (times2 : list Z) :
  forall times1,
    (forall ti tj, In ti times1 -> In tj times2 -> P ti tj = Q ti tj) ->
    count_pairs P times1 times2 = count_pairs Q times1 times2.
Proof.
  induction times1 as [|ti l IH]; intros H; [reflexivity|].
  rewrite !count_pairs_cons. f_equal.
  - apply filter_ext_in_length, Forall_forall. intros tj Hj.
    apply H; [left; reflexivity|exact Hj].
  - apply IH. intros t t' Ht Ht'. apply H; [right; exact Ht|exact Ht'].
Qed.

(** Two tensors of one shape with the same cells are the same tensor. *)
Lemma tensor_eq (n nb : nat) (c1 c2 : ndarray3) :
  shape c1 = (n, n, nb) -> shape c2 = (n, n, nb) ->
  well_formed c1 -> well_formed c2 ->
  (forall a b k, (a < n)%nat -> (b < n)%nat -> (k < nb)%nat ->
     get3 c1 a b k = get3 c2 a b k) ->
  c1 = c2.
Proof.
  intros S1 S2 W1 W2 H.
  unfold well_formed, dim0, dim1, dim2 in W1, W2.
  rewrite S1 in W1. rewrite S2 in W2. cbn [fst snd] in W1, W2.
  destruct c1 as [s1 d1], c2 as [s2 d2]. cbn [shape data] in *. subst s1 s2.
  f_equal. apply (nth_ext _ _ 0 0); [congruence|].
  intros p Hp. rewrite W1 in Hp.
  assert (Hnb : (0 < nb)%nat) by (destruct nb; [lia|lia]).
  assert (Hn : (0 < n)%nat) by (destruct n; [cbn in Hp; lia|lia]).
  pose proof (Nat.div_mod_eq p nb) as E1.
  pose proof (Nat.div_mod_eq (p / nb) n) as E2.
  pose proof (Nat.mod_upper_bound p nb ltac:(lia)) as B1.
  pose proof (Nat.mod_upper_bound (p / nb) n ltac:(lia)) as B2.
  assert (B3 : (p / nb / n < n)%nat).
  { apply Nat.Div0.div_lt_upper_bound.
    apply Nat.Div0.div_lt_upper_bound. lia. }
  specialize (H (p / nb / n)%nat ((p / nb) mod n)%nat (p mod nb)%nat B3 B2 B1).
  unfold get3, dim1, dim2 in H. cbn [shape data fst snd] in H.
  replace ((p / nb / n * n + (p / nb) mod n) * nb + p mod nb)%nat with p
    in H by nia.
  exact H.
Qed.

Lemma in_train (seg : list Spike) (a : nat) (t : Z) :
  In t (train seg a) ->
  exists x, In x seg /\ unit_index x = Z.of_nat a /\ sample_index x = t.
Proof.
  unfold train. intros H. apply in_map_iff in H. destruct H as (x & E & Hx).
  apply filter_In in Hx. destruct Hx as [Hx Hu]. apply Z.eqb_eq in Hu.
  exists x. repeat split; assumption.
Qed.

Lemma list_sum_map_ext_in {A : Type} (f g : A -> nat) (l : list A) :
  Forall (fun x => f x = g x) l ->
  list_sum (map f l) = list_sum (map g l).
Proof.
  induction 1 as [|x l Hx _ IH]; [reflexivity|].
  cbn [map list_sum fold_right]. unfold list_sum in IH. rewrite Hx, IH.
  reflexivity.
Qed.

(** With no two spikes of different units a whole number of bins apart,
    the pairs of (b, a) in the mirror bin are the pairs of (a, b). *)
Lemma pairs_in_mirror_bin (window_size bin_size : Z) (a b k k' : nat)
    (seg : list Spike) :
  0 < bin_size -> window_size mod bin_size = 0 ->
  a <> b ->
  Z.of_nat k + Z.of_nat k' = 2 * (window_size / bin_size) - 1 ->
  (forall x y, In x seg -> In y seg -> unit_index x <> unit_index y ->
     (sample_index x - sample_index y) mod bin_size <> 0) ->
  pairs_in_bin window_size bin_size b a k' seg
  = pairs_in_bin window_size bin_size a b k seg.
Proof.
  intros Hbs Hmul Hab Hk Hoff. unfold pairs_in_bin.
  destruct (Nat.eqb_spec b a) as [E|_]; [congruence|].
  destruct (Nat.eqb_spec a b) as [E|_]; [congruence|].
  rewrite count_pairs_swap. apply count_pairs_ext_in.
  intros ti tj Hi Hj.
  destruct (in_train _ _ _ Hi) as (x & Hx & Ux & <-).
  destruct (in_train _ _ _ Hj) as (y & Hy & Uy & <-).
  apply lag_in_mirror_bin; try assumption.
  apply Hoff; try assumption. lia.
Qed.

(** X14. Under the conditions of X13, with a window below 2^53 samples
    (where the binary64 quotient of the numba strategy floors exactly) and
    at most 2^31 units, both
    strategies return, and their tensors have the same cells on and above
    the diagonal (units a <= b).  If moreover no two spikes of different
    units of a segment are a whole number of bins apart - simultaneous
    spikes included - the two tensors are equal. *)
Theorem strategies_agree :
  forall (sorting : Sorting) (window_size bin_size : Z),
    0 < bin_size -> 0 <= window_size < 2 ^ 53 ->
    window_size mod bin_size = 0 ->
    let n := length (unit_ids sorting) in
    let nb := Z.to_nat (2 * (window_size / bin_size)) in
    Z.of_nat n <= 2 ^ 31 ->
    Forall (fun seg =>
              all_later Z.le (times_of seg)
              /\ Forall (fun t => 0 <= t < 2 ^ 62) (times_of seg)
              /\ has_lag window_size (times_of seg) = false
              /\ Forall (fun l => 0 <= l < Z.of_nat n) (labels_of seg)
              /\ forall i, (i < n)%nat -> train seg i <> [])
      (to_spike_vector sorting) ->
    exists c_numpy c_numba,
      compute_correlograms_numpy sorting window_size bin_size = Ok c_numpy
      /\ compute_correlograms_numba true sorting window_size bin_size
         = Ok c_numba
      /\ shape c_numba = shape c_numpy
      /\ (forall a b k,
            (a <= b)%nat -> (b < n)%nat -> (k < nb)%nat ->
            get3 c_numba a b k = get3 c_numpy a b k)
      /\ (Forall (fun seg =>
                    forall x y, In x seg -> In y seg ->
                      unit_index x <> unit_index y ->
                      (sample_index x - sample_index y) mod bin_size <> 0)
            (to_spike_vector sorting) ->
          c_numba = c_numpy).
Proof.
  intros sorting ws bs Hbs Hws Hmul n nb Hn Hs.
  destruct (compute_correlograms_numpy_counts sorting ws bs Hbs
              ltac:(change (2 ^ 62) with (2 ^ 53 * 512); lia) Hmul Hs)
    as (c1 & E1 & S1 & W1 & H1).
  destruct (numba_strategy_counts sorting ws bs Hbs Hws Hmul)
    as (c2 & E2 & S2 & W2 & H2).
  { eapply Forall_impl; [|exact Hs]. cbn beta.
    intros seg (A1 & A2 & A3 & A4 & _). split.
    - split; [exact A1|]. split; [exact A2|].
      eapply Forall_impl; [|exact A4]. cbn beta. fold n. intros l Hl. lia.
    - intros i _. apply has_lag_train, A3. }
  fold n nb in S1, H1, S2, H2.
  exists c1, c2. split; [exact E1|]. split; [exact E2|].
  split; [congruence|]. split.
  - intros a b k Hab Hb Hk.
    rewrite (H2 a b k Hab Hb Hk), (H1 a b k ltac:(lia) Hb Hk). reflexivity.
  - intros Hoff. apply (tensor_eq n nb); try assumption.
    intros a b k Ha Hb Hk.
    destruct (Nat.le_gt_cases a b) as [Hab|Hab].
    + rewrite (H2 a b k Hab Hb Hk), (H1 a b k Ha Hb Hk). reflexivity.
    + destruct (compute_correlograms_numba_mirrored true sorting ws bs c2 E2)
        as (_ & _ & Hm).
      fold n nb in Hm.
      rewrite (Hm b a k Hb Ha ltac:(lia) Hk).
      rewrite (H2 b a (nb - 1 - k)%nat ltac:(lia) Ha ltac:(lia)).
      rewrite (H1 a b k Ha Hb Hk). do 2 f_equal.
      unfold pairs_in_bin_all. apply list_sum_map_ext_in.
      eapply Forall_impl; [|exact Hoff]. cbn beta. intros seg Hseg.
      apply pairs_in_mirror_bin; try assumption; [lia|].
      assert (0 <= ws / bs) by (apply Z.div_pos; lia).
      unfold nb in *. lia.
Qed.

Lemma strategies_agree_witness :
  let sorting :=
    mkSorting 30000 [0; 1]
      [[mkSpike 0 0; mkSpike 5 1; mkSpike 12 0];
       [mkSpike 3 1; mkSpike 40 1; mkSpike 41 0]] in
  exists c_numpy c_numba,
    compute_correlograms_numpy sorting 20 10 = Ok c_numpy
    /\ compute_correlograms_numba true sorting 20 10 = Ok c_numba
    /\ shape c_numba = shape c_numpy
    /\ (forall a b k,
          (a <= b)%nat -> (b < 2)%nat -> (k < 4)%nat ->
          get3 c_numba a b k = get3 c_numpy a b k)
    /\ (Forall (fun seg =>
                  forall x y, In x seg -> In y seg ->
                    unit_index x <> unit_index y ->
                    (sample_index x - sample_index y) mod 10 <> 0)
          (to_spike_vector sorting) ->
        c_numba = c_numpy).
Proof.
  intros sorting.
  apply (strategies_agree sorting 20 10); try lia; try reflexivity.
  - cbn. lia.
  - repeat constructor; cbn; try lia;
      intros [|[|i]] Hi; try discriminate; lia.
Defined.

(** ** The tensor as histograms over the returned edges *)

Lemma lag_in_bin_between (window_size bin_size : Z) (k : nat) (ti tj : Z) :
  0 < bin_size -> window_size mod bin_size = 0 ->
  Z.of_nat k < 2 * (window_size / bin_size) ->
  lag_in_bin window_size bin_size k ti tj
  = lag_between (- window_size + Z.of_nat k * bin_size)
      (- window_size + Z.of_nat (S k) * bin_size) ti tj.
Proof.
  intros Hbs Hmul Hk.
  pose proof (window_in_bins window_size bin_size Hbs Hmul) as W.
  unfold lag_in_bin, lag_between.
  set (d := ti - tj). set (q := window_size / bin_size) in *.
  rewrite Nat2Z.inj_succ.
  pose proof (Z.div_mod d bin_size ltac:(lia)) as Ed.
  pose proof (Z.mod_pos_bound d bin_size Hbs) as Bd.
  destruct (Z.eqb_spec (q + d / bin_size) (Z.of_nat k)) as [E|E].
  - assert (d / bin_size = Z.of_nat k - q) by lia.
    destruct (Z.leb_spec (- window_size) d); [|nia].
    destruct (Z.ltb_spec d window_size); [|nia].
    destruct (Z.leb_spec (- window_size + Z.of_nat k * bin_size) d); [|nia].
    destruct (Z.ltb_spec d (- window_size + Z.succ (Z.of_nat k) * bin_size));
      [reflexivity|nia].
  - rewrite andb_false_r.
    destruct (Z.leb_spec (- window_size + Z.of_nat k * bin_size) d);
      [|reflexivity].
    destruct (Z.ltb_spec d (- window_size + Z.succ (Z.of_nat k) * bin_size));
      [|reflexivity].
    exfalso. apply E.
    assert (Z.of_nat k - q <= d / bin_size)
      by (apply Z.div_le_lower_bound; [lia|nia]).
    assert (d / bin_size < Z.of_nat k - q + 1)
      by (apply Z.div_lt_upper_bound; [lia|nia]).
    lia.
Qed.

Lemma all_later_all (R : Z -> Z -> Prop) (times : list Z) :
  (forall ti tj, R ti tj) -> all_later R times.
Proof.
  intros H. induction times as [|t l IH]; [exact I|].
  split; [apply Forall_forall; intros; apply H|exact IH].
Qed.

Lemma pairs_in_bin_between (window_size bin_size : Z)
    (a b k : nat) (seg : list Spike) :
  0 < bin_size -> window_size mod bin_size = 0 ->
  Z.of_nat k < 2 * (window_size / bin_size) ->
  pairs_in_bin window_size bin_size a b k seg
  = pairs_between (- window_size + Z.of_nat k * bin_size)
      (- window_size + Z.of_nat (S k) * bin_size) a b seg.
Proof.
  intros Hbs Hmul Hk. unfold pairs_in_bin, pairs_between.
  destruct (Nat.eqb a b).
  - unfold count_distinct. f_equal; apply count_later_ext, all_later_all;
      intros ti tj; apply lag_in_bin_between; assumption.
  - apply count_pairs_ext_in. intros ti tj _ _.
    apply lag_in_bin_between; assumption.
Qed.

Lemma nth_arange_edges (fs : float) (start stop step : Z) (i : nat) :
  (i < length (np_arange start stop step))%nat ->
  nth i (map (fun k => (float_of_Z k * 1000 / fs)%float)
           (np_arange start stop step)) 0%float
  = edge fs (start + Z.of_nat i * step).
Proof.
  intros H. rewrite (nth_map_in _ _ _ 0) by exact H.
  unfold edge. do 3 f_equal.
  unfold np_arange in *. rewrite length_map, length_seq in H.
  rewrite (nth_map_in _ _ _ O) by (rewrite length_seq; exact H).
  rewrite seq_nth by exact H. reflexivity.
Qed.

(** The geometry the bin planner returns for a positive sampling rate,
    window and bin. *)
Lemma make_bins_geometry sorting window_ms bin_ms bins window_size bin_size :
  (0 <? sampling_frequency sorting)%float = true ->
  (0 <? window_ms)%float = true -> (0 <? bin_ms)%float = true ->
  _make_bins sorting window_ms bin_ms = Ok (bins, window_size, bin_size) ->
  0 < bin_size /\ 0 < window_size /\ window_size mod bin_size = 0
  /\ forall i, (i < length bins)%nat ->
       nth i bins 0%float
       = edge (sampling_frequency sorting)
           (- window_size + Z.of_nat i * bin_size).
Proof.
  intros Hfs Hw Hb H.
  destruct (make_bins_inv _ _ _ _ _ _ H)
    as (rounded & _ & Eb & Ew & Hnz & Hn & Ebins).
  destruct (planner_products_not_negative _ _ _ Hfs Hw Hb) as [_ Nb].
  pose proof (py_round_binary64_nonneg _ _ Nb Eb) as Hb0.
  assert (Hpos : 0 < bin_size) by lia.
  assert (E : window_size = bin_size * (window_size / bin_size)).
  { rewrite Ew at 1. f_equal. rewrite Ew.
    rewrite (Z.mul_comm bin_size), Z.div_mul by exact Hnz. reflexivity. }
  split; [exact Hpos|]. split; [nia|].
  split.
  - rewrite E, Z.mul_comm. apply Z.mod_mul. lia.
  - intros i Hi. rewrite Ebins in Hi |- *. rewrite length_map in Hi.
    apply nth_arange_edges. exact Hi.
Qed.

Open Scope string_scope.

(** The entry point with a strategy that is available. *)
Lemma entry_point_strategy (HAVE_NUMBA : bool) (sorting : Sorting)
    (window_ms bin_ms : float) (method : string) bins window_size bin_size :
  _make_bins sorting window_ms bin_ms = Ok (bins, window_size, bin_size) ->
  method = "numpy" \/ method = "auto"
  \/ (method = "numba" /\ HAVE_NUMBA = true) ->
  compute_correlograms_on_sorting HAVE_NUMBA sorting window_ms bin_ms method
  = (c <- (if (String.eqb method "numpy"
               || (String.eqb method "auto" && negb HAVE_NUMBA))%bool
           then compute_correlograms_numpy sorting window_size bin_size
           else compute_correlograms_numba true sorting window_size
                  bin_size) ;;
     Ok (c, bins)).
Proof.
  intros H Hm. unfold compute_correlograms_on_sorting. rewrite H.
  destruct Hm as [-> | [-> | [-> ->]]]; [|destruct HAVE_NUMBA|]; cbn;
    match goal with
    | |- context [bind ?m (fun c => Ok (Some c))] => destruct m; reflexivity
    end.
Qed.

Close Scope string_scope.

(** X15. Through the entry point, with a positive sampling rate, window
    and bin width, a planned window below 2^53 samples and any strategy that
    is available ("numpy", "auto", or "numba" with numba imported), on a
    sorting that meets the conditions of X14 for the planned window: the
    call returns the planned edges and a tensor with one bin per pair of
    consecutive edges; for units a <= b, cell (a, b, k) holds, as an int64
    counter, the number of pairs, summed over the segments, of a spike of
    unit a and a spike of unit b - two different spikes when a = b - whose
    lag t_a - t_b in samples lies in [lo, lo + bin_size) for
    lo = -window_size + k * bin_size, and the edges [bins[k]] and
    [bins[k + 1]] are these two bounds in milliseconds as the planner
    computes them in floats. *)
Theorem entry_point_histograms :
  forall (HAVE_NUMBA : bool) (sorting : Sorting) (window_ms bin_ms : float)
         (method : string) bins window_size bin_size,
    (0 <? sampling_frequency sorting)%float = true ->
    (0 <? window_ms)%float = true -> (0 <? bin_ms)%float = true ->
    _make_bins sorting window_ms bin_ms = Ok (bins, window_size, bin_size) ->
    window_size < 2 ^ 53 ->
    method = "numpy"%string \/ method = "auto"%string
    \/ (method = "numba"%string /\ HAVE_NUMBA = true) ->
    let fs := sampling_frequency sorting in
    let n := length (unit_ids sorting) in
    Z.of_nat n <= 2 ^ 31 ->
    Forall (fun seg =>
              all_later Z.le (times_of seg)
              /\ Forall (fun t => 0 <= t < 2 ^ 62) (times_of seg)
              /\ has_lag window_size (times_of seg) = false
              /\ Forall (fun l => 0 <= l < Z.of_nat n) (labels_of seg)
              /\ forall i, (i < n)%nat -> train seg i <> [])
      (to_spike_vector sorting) ->
    exists c,
      compute_correlograms_on_sorting HAVE_NUMBA sorting window_ms bin_ms
        method = Ok (c, bins)
      /\ shape c = (n, n, (length bins - 1)%nat)
      /\ forall a b k,
           (a <= b)%nat -> (b < n)%nat -> (S k < length bins)%nat ->
           let lo := - window_size + Z.of_nat k * bin_size in
           nth k bins 0%float = edge fs lo
           /\ nth (S k) bins 0%float = edge fs (lo + bin_size)
           /\ get3 c a b k
              = wrap64 (Z.of_nat (pairs_between_all lo (lo + bin_size) a b
                                    (to_spike_vector sorting))).
Proof.
  intros h sorting window_ms bin_ms method bins ws bs Hfs Hw Hb H Hws Hm fs n
    Hn Hs.
  destruct (make_bins_geometry _ _ _ _ _ _ Hfs Hw Hb H)
    as (Hbs & Hwpos & Hmul & Hedges).
  pose proof (make_bins_edges_count _ _ _ _ _ _ H) as Hlen.
  rewrite (entry_point_strategy h sorting window_ms bin_ms method bins ws bs
             H Hm).
  assert (Hcells : forall c,
            (forall a b k, (a <= b)%nat -> (b < n)%nat ->
               (k < Z.to_nat (2 * (ws / bs)))%nat ->
               get3 c a b k
               = wrap64 (Z.of_nat (pairs_in_bin_all ws bs a b k
                                     (to_spike_vector sorting)))) ->
            forall a b k, (a <= b)%nat -> (b < n)%nat ->
              (S k < length bins)%nat ->
              let lo := - ws + Z.of_nat k * bs in
              nth k bins 0%float = edge fs lo
              /\ nth (S k) bins 0%float = edge fs (lo + bs)
              /\ get3 c a b k
                 = wrap64 (Z.of_nat (pairs_between_all lo (lo + bs) a b
                                       (to_spike_vector sorting)))).
  { intros c Hc a b k Hab Hb' Hk lo.
    split; [apply Hedges; lia|].
    split.
    { rewrite Hedges by lia. unfold fs, lo. f_equal.
      rewrite Nat2Z.inj_succ. lia. }
    rewrite Hc by (assumption || lia). do 2 f_equal.
    unfold pairs_in_bin_all, pairs_between_all. f_equal.
    apply map_ext. intros seg.
    rewrite (pairs_in_bin_between ws bs a b k seg Hbs Hmul).
    - replace (lo + bs) with (- ws + Z.of_nat (S k) * bs)
        by (unfold lo; rewrite Nat2Z.inj_succ; lia).
      reflexivity.
    - assert (0 <= ws / bs) by (apply Z.div_pos; lia). lia. }
  destruct (String.eqb method "numpy"
            || String.eqb method "auto" && negb h)%bool.
  - destruct (compute_correlograms_numpy_counts sorting ws bs Hbs
                ltac:(change (2 ^ 62) with (2 ^ 53 * 512); lia) Hmul Hs)
      as (c & E & S & _ & Hc).
    exists c. rewrite E. split; [reflexivity|].
    split; [rewrite S, Hlen; f_equal; lia|].
    apply Hcells. intros a b k Hab Hb' Hk. apply Hc; lia.
  - destruct (numba_strategy_counts sorting ws bs Hbs ltac:(lia) Hmul)
      as (c & E & S & _ & Hc).
    { eapply Forall_impl; [|exact Hs]. cbn beta.
      intros seg (A1 & A2 & A3 & A4 & _). split.
      - split; [exact A1|]. split; [exact A2|].
        eapply Forall_impl; [|exact A4]. cbn beta. fold n. intros l Hl. lia.
      - intros i _. apply has_lag_train, A3. }
    exists c. rewrite E. split; [reflexivity|].
    split; [rewrite S, Hlen; f_equal; lia|].
    apply Hcells. exact Hc.
Qed.

Lemma entry_point_histograms_witness :
  let sorting :=
    mkSorting 1000 [0; 1]
      [[mkSpike 0 0; mkSpike 5 1; mkSpike 12 0];
       [mkSpike 3 1; mkSpike 40 1; mkSpike 41 0]] in
  let bins := [-20; -10; 0; 10; 20]%float in
  _make_bins sorting 40 10 = Ok (bins, 20, 10)
  /\ exists c,
      compute_correlograms_on_sorting false sorting 40 10 "auto"
      = Ok (c, bins)
      /\ shape c = (2%nat, 2%nat, 4%nat)
      /\ nth 1 bins 0%float = edge 1000 (-10)
      /\ get3 c 0 1 1
         = wrap64 (Z.of_nat (pairs_between_all (-10) 0 0 1
                               (to_spike_vector sorting))).
Proof.
  intros sorting bins.
  assert (Hs : Forall (fun seg =>
              all_later Z.le (times_of seg)
              /\ Forall (fun t => 0 <= t < 2 ^ 62) (times_of seg)
              /\ has_lag 20 (times_of seg) = false
              /\ Forall (fun l => 0 <= l < Z.of_nat 2) (labels_of seg)
              /\ forall i, (i < 2)%nat -> train seg i <> [])
      (to_spike_vector sorting)).
  { repeat constructor; cbn; try lia;
      intros [|[|i]] Hi; try discriminate; lia. }
  assert (E : _make_bins sorting 40 10 = Ok (bins, 20, 10))
    by (vm_compute; reflexivity).
  split; [exact E|].
  destruct (entry_point_histograms false sorting 40%float 10%float "auto" bins
              20 10 eq_refl eq_refl eq_refl E eq_refl
              (or_intror (or_introl eq_refl))
              ltac:(vm_compute; discriminate) Hs)
    as (c & Ec & S & Hc).
  exists c. split; [exact Ec|]. split; [exact S|].
  destruct (Hc O 1%nat 1%nat (le_S _ _ (le_n _)) (le_n _)
              ltac:(repeat constructor))
    as (E1 & _ & E3).
  split; [exact E1|exact E3].
Defined.

(** ** The one-segment function of the numba strategy *)

Lemma combine_times_labels (seg : list Spike) :
  combine (times_of seg) (labels_of seg) = map spike_pair seg.
Proof.
  unfold times_of, labels_of. induction seg as [|s seg IH]; [reflexivity|].
  cbn [map combine]. rewrite IH. reflexivity.
Qed.

Lemma py_axis_ok (d : nat) (k : Z) :
  0 <= k < Z.of_nat d -> py_axis d k = Ok (Z.to_nat k).
Proof.
  intros H. unfold py_axis, wraparound.
  destruct (Z.ltb_spec k 0); [lia|].
  destruct (Z.leb_spec 0 k); [|lia].
  destruct (Z.ltb_spec k (Z.of_nat d)); [|lia]. reflexivity.
Qed.

Lemma flat_index_inj (n nb a b k a' b' k' : nat) :
  (b < n)%nat -> (b' < n)%nat -> (k < nb)%nat -> (k' < nb)%nat ->
  ((a * n + b) * nb + k = (a' * n + b') * nb + k')%nat ->
  a = a' /\ b = b' /\ k = k'.
Proof.
  intros Hb Hb' Hk Hk' E.
  destruct (proj1 (flat_index_row n nb a' b' a b k Hb' Hb Hk)) as [-> ->];
    [lia|].
  repeat split. lia.
Qed.

(** [correlograms[i, j, k] += 1] inside the array. *)
Lemma py_incr3_holds (n nb : nat) (c : ndarray3)
    (F : nat -> nat -> nat -> nat) (li lj z : Z) :
  tensor_holds n nb c F ->
  0 <= li < Z.of_nat n -> 0 <= lj < Z.of_nat n -> 0 <= z < Z.of_nat nb ->
  exists c',
    py_incr3 c li lj z = Ok c'
    /\ tensor_holds n nb c'
         (fun a b k =>
            (F a b k + if cell_is a b k (li, lj, z) then 1 else O)%nat).
Proof.
  intros (S & W & H) Hi Hj Hz.
  assert (L : length (data c) = (n * n * nb)%nat).
  { unfold well_formed, dim0, dim1, dim2 in W. rewrite S in W. exact W. }
  unfold py_incr3, dim0, dim1, dim2. rewrite S. cbn [fst snd].
  rewrite !py_axis_ok by assumption. cbn [bind].
  eexists. split; [reflexivity|].
  split; [reflexivity|].
  split.
  { unfold well_formed, dim0, dim1, dim2. cbn [shape data fst snd].
    rewrite incr_nth_length. exact L. }
  intros a b k Ha Hb Hk.
  unfold get3 at 1. unfold dim1, dim2. cbn [shape data fst snd].
  set (p := ((Z.to_nat li * n + Z.to_nat lj) * nb + Z.to_nat z)%nat).
  assert (Hp : (p < length (data c))%nat).
  { rewrite L. apply flat_index_bound; lia. }
  rewrite nth_incr_nth by exact Hp.
  specialize (H a b k Ha Hb Hk). unfold get3, dim1, dim2 in H.
  rewrite S in H. cbn [fst snd] in H. rewrite H.
  unfold cell_is.
  destruct (Nat.eqb_spec ((a * n + b) * nb + k) p) as [E|E].
  - unfold p in E. apply flat_index_inj in E; try lia.
    destruct E as (-> & -> & ->).
    rewrite !Z2Nat.id by lia. rewrite !Z.eqb_refl. cbn [andb].
    rewrite wrap64_add_l. f_equal. lia.
  - destruct (Z.eqb_spec li (Z.of_nat a)) as [E1|];
      [|cbn [andb]; f_equal; lia].
    destruct (Z.eqb_spec lj (Z.of_nat b)) as [E2|];
      [|cbn [andb]; f_equal; lia].
    destruct (Z.eqb_spec z (Z.of_nat k)) as [E3|];
      [|cbn [andb]; f_equal; lia].
    exfalso. apply E. unfold p. subst li lj z. rewrite !Nat2Z.id.
    reflexivity.
Qed.

Lemma partners_none (P : Spike -> bool) (i : nat) :
  forall (l : list Spike) (j : nat),
    Forall (fun y => P y = false) l -> partners P i j l = O.
Proof.
  induction l as [|y l IH]; intros j H; [reflexivity|].
  inversion H as [|? ? Hy H']; subst. cbn [partners].
  rewrite Hy, (IH (S j) H'). destruct (Nat.eqb i j); reflexivity.
Qed.

(** Skipping spikes that cannot be partners loses nothing. *)
Lemma partners_skip (P : Spike -> bool) (i : nat) :
  forall (s j : nat) (l : list Spike),
    Forall (fun y => P y = false) (firstn s l) ->
    partners P i j l = partners P i (s + j) (skipn s l).
Proof.
  induction s as [|s IH]; intros j l H; [reflexivity|].
  destruct l as [|y l]; [reflexivity|].
  cbn [firstn] in H. inversion H as [|? ? Hy H']; subst.
  cbn [partners skipn]. rewrite Hy, (IH (S j) l H').
  replace (s + S j)%nat with (S s + j)%nat by lia.
  destruct (Nat.eqb i j); reflexivity.
Qed.

Lemma partners_split (P : Spike -> bool) (x : Spike) (post : list Spike) :
  forall (pre : list Spike) (j : nat),
    partners P (j + length pre) j (pre ++ x :: post)
    = (length (filter P pre) + length (filter P post))%nat.
Proof.
  induction pre as [|y pre IH]; intros j.
  - cbn [app length partners filter]. rewrite Nat.add_0_r, Nat.eqb_refl.
    cbn [Nat.add].
    assert (G : forall l m, (j < m)%nat ->
              partners P j m l = length (filter P l)).
    { induction l as [|z l IHl]; intros m Hm; [reflexivity|].
      cbn [partners filter]. rewrite (IHl (S m)) by lia.
      destruct (Nat.eqb_spec j m); [lia|].
      destruct (P z); reflexivity. }
    apply G. lia.
  - cbn [app length partners filter].
    replace (j + S (length pre))%nat with (S j + length pre)%nat by lia.
    rewrite (IH (S j)).
    destruct (Nat.eqb_spec (S j + length pre) j); [lia|].
    destruct (P y); cbn [length]; lia.
Qed.

Lemma sum_filter_snoc (R : Spike -> Spike -> bool) (x : Spike)
    (pre l : list Spike) :
  list_sum (map (fun y => length (filter (R y) (pre ++ [x]))) l)
  = (list_sum (map (fun y => length (filter (R y) pre)) l)
     + length (filter (fun y => R y x) l))%nat.
Proof.
  induction l as [|y l IH]; [reflexivity|].
  cbn [map filter]. unfold list_sum in *. cbn [fold_right]. rewrite IH.
  rewrite filter_app, length_app. cbn [filter].
  destruct (R y x); cbn [length]; lia.
Qed.

(** Summed over the spikes, the partners are the pairs of two different
    spikes, each taken in both orders. *)
Lemma sum_partners_count (R : Spike -> Spike -> bool) :
  forall (l pre : list Spike),
    sum_partners R (pre ++ l) (length pre) l
    = (list_sum (map (fun y => length (filter (R y) pre)) l)
       + (count_later_spikes R l
          + count_later_spikes (fun x y => R y x) l))%nat.
Proof.
  induction l as [|x l IH]; intros pre; [reflexivity|].
  cbn [sum_partners map count_later_spikes].
  unfold list_sum. cbn [fold_right].
  pose proof (partners_split (R x) x l pre O) as Hp.
  cbn [Nat.add] in Hp. rewrite Hp.
  replace (pre ++ x :: l) with ((pre ++ [x]) ++ l)
    by (rewrite <- app_assoc; reflexivity).
  replace (S (length pre)) with (length (pre ++ [x]))
    by (rewrite length_app; cbn; lia).
  rewrite IH. pose proof (sum_filter_snoc R x pre l) as Hs.
  unfold list_sum in *. rewrite Hs. lia.
Qed.

Lemma Forall_firstn_pred {A : Type} (P : A -> Prop) :
  forall (m : nat) (l : list A),
    Forall P (firstn (S m) l) -> Forall P (firstn m l).
Proof.
  induction m as [|m IH]; intros l H; [constructor|].
  destruct l as [|x l]; [constructor|].
  cbn [firstn] in *. inversion H; subst. constructor; [assumption|].
  apply IH. assumption.
Qed.

Lemma Forall_firstn_cons {A : Type} (P : A -> Prop) (x : A) (l : list A)
    (m : nat) :
  P x -> Forall P (firstn m l) -> Forall P (firstn m (x :: l)).
Proof.
  intros Hx H. destruct m as [|m]; [constructor|].
  cbn [firstn]. constructor; [exact Hx|]. apply Forall_firstn_pred, H.
Qed.

Lemma spike_lag_outside (window_size bin_size : Z) (a b k : nat)
    (x y : Spike) :
  window_size <= sample_index x - sample_index y
  \/ sample_index x - sample_index y < - window_size ->
  spike_lag_in_bin window_size bin_size a b k x y = false.
Proof.
  intros H. unfold spike_lag_in_bin, lag_in_bin.
  destruct (Z.leb_spec (- window_size) (sample_index x - sample_index y));
    destruct (Z.ltb_spec (sample_index x - sample_index y) window_size);
    try lia; cbn [andb]; rewrite ?andb_false_r; reflexivity.
Qed.

Section OneSegmentCounts.

Variables (window_size bin_size : Z) (n : nat).
Hypothesis Hbs : 0 < bin_size.
Hypothesis Hws : 0 <= window_size < 2 ^ 62.
Hypothesis Hmul : window_size mod bin_size = 0.

Local Notation num_half_bins := (window_size / bin_size).
Local Notation nb := (Z.to_nat (2 * (window_size / bin_size))).
Local Notation in_bin := (spike_lag_in_bin window_size bin_size).
Local Notation good :=
  (fun y : Spike => 0 <= sample_index y < 2 ^ 62
                    /\ 0 <= unit_index y < Z.of_nat n).
Local Notation ordered :=
  (each_later (fun u v : Spike => sample_index u <= sample_index v)).

(** After a spike that is not more than a window before spike [i], the
    start of the scan moves no further. *)
Lemma one_segment_inner_stays (i : nat) (x : Spike) :
  good x ->
  forall (from_j : list Spike) (j s s' : nat) (c c' : ndarray3),
    Forall (fun y => sample_index x - sample_index y <= window_size)
      from_j ->
    Forall good from_j ->
    one_segment_inner window_size bin_size num_half_bins i
      (sample_index x) (unit_index x) j (map spike_pair from_j) (s, c)
    = Ok (s', c') ->
    s' = s.
Proof.
  intros Hx. cbn beta in Hx.
  induction from_j as [|y rest IH]; intros j s s' c c' Hle Hg E.
  - cbn in E. congruence.
  - inversion Hle as [|? ? Hy Hle']; subst.
    inversion Hg as [|? ? Gy Hg']; subst. cbn beta in Hy, Gy.
    cbn [map spike_pair one_segment_inner] in E.
    destruct (Nat.eqb i j); [eapply IH; eassumption|].
    rewrite (wrap64_small (sample_index x - sample_index y)) in E by lia.
    destruct (Z.eqb_spec (sample_index x - sample_index y) window_size);
      [eapply IH; eassumption|].
    destruct (Z.gtb_spec (sample_index x - sample_index y) window_size);
      [lia|].
    destruct (sample_index x - sample_index y <? - window_size);
      [congruence|].
    destruct (py_incr3 c _ _ _) as [c1|e]; cbn [bind] in E; [|discriminate].
    eapply IH; eassumption.
Qed.

Lemma later_not_after (x y : Spike) (rest : list Spike) (bound : Z) :
  Forall (fun v => sample_index y <= sample_index v) rest ->
  sample_index x - sample_index y <= bound ->
  Forall (fun v => sample_index x - sample_index v <= bound) rest.
Proof.
  intros H Hy. eapply Forall_impl; [|exact H]. cbn beta. intros v Hv. lia.
Qed.

(** The scan of the segment for spike [i]. *)
Lemma one_segment_inner_counts (i : nat) (x : Spike) :
  good x ->
  forall (from_j : list Spike) (j start_j : nat) (c : ndarray3)
         (F : nat -> nat -> nat -> nat),
    ordered from_j -> Forall good from_j -> tensor_holds n nb c F ->
    exists start_j' c',
      one_segment_inner window_size bin_size num_half_bins i
        (sample_index x) (unit_index x) j (map spike_pair from_j)
        (start_j, c) = Ok (start_j', c')
      /\ tensor_holds n nb c'
           (fun a b k => (F a b k + partners (in_bin a b k x) i j from_j)%nat)
      /\ (start_j <= start_j')%nat
      /\ Forall (fun y => window_size < sample_index x - sample_index y)
           (firstn (start_j' - start_j) from_j).
Proof.
  intros Hx. pose proof Hx as Hx'. cbn beta in Hx'.
  induction from_j as [|y rest IH]; intros j start_j c F Hs Hg T.
  - exists start_j, c. split; [reflexivity|]. split.
    + eapply tensor_holds_ext; [|exact T]. intros; cbn [partners]; lia.
    + split; [lia|]. rewrite Nat.sub_diag. constructor.
  - destruct Hs as [Hy Hs]. inversion Hg as [|? ? Gy Hg']; subst.
    cbn beta in Gy.
    set (d := sample_index x - sample_index y).
    assert (Skip : forall st,
              st = (start_j, c) ->
              d <= window_size ->
              (forall a b k,
                 (if Nat.eqb i j then O
                  else if in_bin a b k x y then 1%nat else O) = O) ->
              exists start_j' c',
                one_segment_inner window_size bin_size num_half_bins i
                  (sample_index x) (unit_index x) (S j)
                  (map spike_pair rest) st = Ok (start_j', c')
                /\ tensor_holds n nb c'
                     (fun a b k =>
                        (F a b k
                         + partners (in_bin a b k x) i j (y :: rest))%nat)
                /\ (start_j <= start_j')%nat
                /\ Forall (fun v => window_size
                                    < sample_index x - sample_index v)
                     (firstn (start_j' - start_j) (y :: rest))).
    { intros st -> Hd Hz.
      destruct (IH (S j) start_j c F Hs Hg' T) as (s' & c' & E & T' & _ & _).
      assert (s' = start_j).
      { eapply (one_segment_inner_stays i x Hx rest); [| |exact E].
        - apply (later_not_after x y); assumption.
        - exact Hg'. }
      subst s'. exists start_j, c'. split; [exact E|]. split.
      - eapply tensor_holds_ext; [|exact T']. intros a b k.
        cbn [partners]. rewrite Hz. reflexivity.
      - split; [lia|]. rewrite Nat.sub_diag. constructor. }
    cbn [map spike_pair one_segment_inner]. fold d.
    destruct (Nat.eqb i j) eqn:Eij.
    + destruct (Z.le_gt_cases d window_size) as [Hd|Hd].
      * apply Skip; [reflexivity|exact Hd|reflexivity].
      * destruct (IH (S j) start_j c F Hs Hg' T)
          as (s' & c' & E & T' & Hle & Hpre).
        exists s', c'. split; [exact E|]. split.
        -- eapply tensor_holds_ext; [|exact T']. intros a b k.
           cbn [partners]. rewrite Eij. reflexivity.
        -- split; [exact Hle|]. apply Forall_firstn_cons; assumption.
    + rewrite (wrap64_small d) by (unfold d; lia).
      destruct (Z.eqb_spec d window_size) as [Ed|Ed].
      { apply Skip; [reflexivity|lia|]. intros a b k.
        rewrite spike_lag_outside by (fold d; lia). reflexivity. }
      destruct (Z.gtb_spec d window_size) as [Hgt|Hle].
      { destruct (IH (S j) (S start_j) c F Hs Hg' T)
          as (s' & c' & E & T' & Hss & Hpre).
        exists s', c'. split; [exact E|]. split.
        - eapply tensor_holds_ext; [|exact T']. intros a b k.
          cbn [partners]. rewrite Eij.
          rewrite spike_lag_outside by (fold d; lia). reflexivity.
        - split; [lia|].
          replace (s' - start_j)%nat with (S (s' - S start_j)) by lia.
          cbn [firstn]. constructor; [exact Hgt|exact Hpre]. }
      destruct (Z.ltb_spec d (- window_size)) as [Hbr|Hin].
      { exists start_j, c. split; [reflexivity|]. split.
        - eapply tensor_holds_ext; [|exact T]. intros a b k.
          rewrite partners_none; [lia|].
          constructor.
          + apply spike_lag_outside. fold d. lia.
          + eapply Forall_impl; [|exact Hy]. cbn beta. intros v Hv.
            apply spike_lag_outside. unfold d in Hbr. lia.
        - split; [lia|]. rewrite Nat.sub_diag. constructor. }
      pose proof (lag_bin_index window_size bin_size Hbs Hmul d
                    ltac:(lia)) as Hidx.
      destruct (py_incr3_holds n nb c F (unit_index x) (unit_index y)
                  (num_half_bins + d / bin_size) T ltac:(lia) ltac:(lia)
                  ltac:(lia))
        as (c1 & E1 & T1).
      rewrite E1. cbn [bind].
      destruct (IH (S j) start_j c1 _ Hs Hg' T1)
        as (s' & c' & E & T' & _ & _).
      assert (s' = start_j).
      { eapply (one_segment_inner_stays i x Hx rest); [| |exact E].
        - apply (later_not_after x y); [assumption|fold d; lia].
        - exact Hg'. }
      subst s'. exists start_j, c'. split; [exact E|]. split.
      * eapply tensor_holds_ext; [|exact T']. intros a b k.
        cbn [partners]. rewrite Eij.
        unfold cell_is, spike_lag_in_bin, lag_in_bin. fold d.
        destruct (Z.leb_spec (- window_size) d); [|lia].
        destruct (Z.ltb_spec d window_size); [|lia].
        cbn [andb]. 
        destruct ((unit_index x =? Z.of_nat a)
                  && (unit_index y =? Z.of_nat b)
                  && (num_half_bins + d / bin_size =? Z.of_nat k)); lia.
      * split; [lia|]. rewrite Nat.sub_diag. constructor.
Qed.

End OneSegmentCounts.

Section OneSegmentOuter.

Variables (window_size bin_size : Z) (n : nat) (all : list Spike).
Hypothesis Hbs : 0 < bin_size.
Hypothesis Hws : 0 <= window_size < 2 ^ 62.
Hypothesis Hmul : window_size mod bin_size = 0.
Hypothesis Hall :
  each_later (fun u v : Spike => sample_index u <= sample_index v) all.
Hypothesis Hgood :
  Forall (fun y : Spike => 0 <= sample_index y < 2 ^ 62
                           /\ 0 <= unit_index y < Z.of_nat n) all.

Local Notation num_half_bins := (window_size / bin_size).
Local Notation nb := (Z.to_nat (2 * (window_size / bin_size))).
Local Notation in_bin := (spike_lag_in_bin window_size bin_size).

Lemma one_segment_outer_counts :
  forall (from_i : list Spike) (i start_j : nat) (c : ndarray3)
         (F : nat -> nat -> nat -> nat),
    each_later (fun u v : Spike => sample_index u <= sample_index v)
      from_i ->
    Forall (fun y : Spike => 0 <= sample_index y < 2 ^ 62
                             /\ 0 <= unit_index y < Z.of_nat n) from_i ->
    (forall x, In x from_i ->
       Forall (fun y => window_size < sample_index x - sample_index y)
         (firstn start_j all)) ->
    tensor_holds n nb c F ->
    exists c',
      one_segment_outer window_size bin_size num_half_bins
        (map spike_pair all) i (map spike_pair from_i) (start_j, c) = Ok c'
      /\ tensor_holds n nb c'
           (fun a b k =>
              (F a b k + sum_partners (in_bin a b k) all i from_i)%nat).
Proof.
  induction from_i as [|x rest IH]; intros i start_j c F Hs Hg Hinv T.
  - exists c. split; [reflexivity|].
    eapply tensor_holds_ext; [|exact T]. intros; cbn [sum_partners]; lia.
  - destruct Hs as [Hx Hs]. pose proof (Forall_inv Hg) as Gx.
    pose proof (Forall_inv_tail Hg) as Hg'.
    cbn [map one_segment_outer fst]. unfold slice_from.
    rewrite skipn_map. cbn [spike_pair].
    destruct (one_segment_inner_counts window_size bin_size n Hbs Hws Hmul
                i x Gx (skipn start_j all) start_j start_j c F)
      as (s' & c1 & E & T1 & Hle & Hpre).
    + apply each_later_skipn, Hall.
    + apply Forall_skipn, Hgood.
    + exact T.
    + rewrite E. cbn [bind].
      edestruct (IH (S i) s' c1) as (c' & E' & T');
        [exact Hs|exact Hg'| |exact T1|].
      * intros x' Hx'.
        replace s' with (start_j + (s' - start_j))%nat by lia.
        rewrite firstn_add_skipn. apply Forall_app. split.
        -- apply Hinv. right. exact Hx'.
        -- rewrite Forall_forall in Hx. specialize (Hx x' Hx').
           eapply Forall_impl; [|exact Hpre]. cbn beta. intros v Hv. lia.
      * exists c'. split; [exact E'|].
        eapply tensor_holds_ext; [|exact T']. intros a b k.
        cbn [sum_partners].
        rewrite (partners_skip (in_bin a b k x) i start_j O all).
        -- rewrite Nat.add_0_r. lia.
        -- eapply Forall_impl; [|exact (Hinv x (or_introl eq_refl))].
           cbn beta. intros v Hv. apply spike_lag_outside. lia.
Qed.

End OneSegmentOuter.

Lemma list_sum_zero {A : Type} (f : A -> nat) (l : list A) :
  (forall y, f y = O) -> list_sum (map f l) = O.
Proof.
  intros H. induction l as [|x l IH]; [reflexivity|].
  cbn [map]. unfold list_sum in *. cbn [fold_right]. rewrite H, IH.
  reflexivity.
Qed.

Lemma ordered_of_times (seg : list Spike) :
  all_later Z.le (times_of seg) ->
  each_later (fun u v : Spike => sample_index u <= sample_index v) seg.
Proof.
  unfold times_of. induction seg as [|x seg IH]; intros H; [exact I|].
  cbn [map all_later] in H. destruct H as [Hx H].
  split; [|apply IH, H].
  rewrite Forall_map in Hx. exact Hx.
Qed.

(** X16. The one-segment function that the numba strategy keeps but never
    calls is right on a time-ordered segment: given its six arguments - a
    (n, n, num_bins) tensor of counters, sample indices in [0, 2^62), unit
    indices in [0, n), a positive bin size that divides the window size
    (below 2^62) and num_half_bins = window_size // bin_size - it returns,
    and adds to cell (a, b, k) the number of pairs of a spike of unit a
    and a spike of unit b - two different spikes when a = b - whose lag
    d = t_a - t_b satisfies -window_size <= d < window_size and
    num_half_bins + floor(d / bin_size) = k, two spikes exactly
    window_size apart included (only the lag -window_size is counted);
    moving start_j and leaving the inner loop loses no pair. *)
Theorem one_segment_numba_counts :
  forall (seg : list Spike) (window_size bin_size : Z) (n : nat)
         (c : ndarray3) (F : nat -> nat -> nat -> nat),
    0 < bin_size -> 0 <= window_size < 2 ^ 62 ->
    window_size mod bin_size = 0 ->
    all_later Z.le (times_of seg) ->
    Forall (fun t => 0 <= t < 2 ^ 62) (times_of seg) ->
    Forall (fun l => 0 <= l < Z.of_nat n) (labels_of seg) ->
    let nb := Z.to_nat (2 * (window_size / bin_size)) in
    tensor_holds n nb c F ->
    exists c',
      _compute_correlograms_one_segment_numba
        [PyArr3 c; PyArr1 (times_of seg); PyArr1 (labels_of seg);
         PyInt window_size; PyInt bin_size;
         PyInt (window_size / bin_size)] = Ok c'
      /\ shape c' = (n, n, nb)
      /\ forall a b k,
           (a < n)%nat -> (b < n)%nat -> (k < nb)%nat ->
           get3 c' a b k
           = wrap64 (Z.of_nat (F a b k
                               + pairs_in_bin window_size bin_size a b k
                                   seg)).
Proof.
  intros seg ws bs n c F Hbs Hws Hmul Hs Ht Hl nb T.
  unfold _compute_correlograms_one_segment_numba.
  rewrite combine_times_labels.
  assert (Hgood : Forall (fun y : Spike =>
                            0 <= sample_index y < 2 ^ 62
                            /\ 0 <= unit_index y < Z.of_nat n) seg).
  { unfold times_of, labels_of in Ht, Hl.
    rewrite Forall_map in Ht, Hl. rewrite Forall_forall in *.
    intros y Hy. split; [apply Ht|apply Hl]; exact Hy. }
  pose proof (ordered_of_times seg Hs) as Ho.
  destruct (one_segment_outer_counts ws bs n seg Hbs Hws Hmul Ho Hgood
              seg O O c F Ho Hgood) as (c' & E & S & W & H).
  - intros x _. constructor.
  - exact T.
  - exists c'. split; [exact E|]. split; [exact S|].
    intros a b k Ha Hb Hk. rewrite (H a b k Ha Hb Hk). do 3 f_equal.
    pose proof (sum_partners_count (spike_lag_in_bin ws bs a b k) seg [])
      as Hc.
    cbn [app length] in Hc. rewrite Hc.
    rewrite list_sum_zero by (intros y; reflexivity).
    cbn [Nat.add]. apply spike_pairs_in_bin.
Qed.

Lemma one_segment_numba_counts_witness :
  let seg := [mkSpike 0 0; mkSpike 5 1; mkSpike 12 0; mkSpike 25 1] in
  let c := mkArr3 (2, 2, 4)%nat (repeat 0 16) in
  exists c',
    _compute_correlograms_one_segment_numba
      [PyArr3 c; PyArr1 (times_of seg); PyArr1 (labels_of seg);
       PyInt 20; PyInt 10; PyInt (20 / 10)] = Ok c'
    /\ shape c' = (2%nat, 2%nat, 4%nat)
    /\ forall a b k,
         (a < 2)%nat -> (b < 2)%nat -> (k < 4)%nat ->
         get3 c' a b k
         = wrap64 (Z.of_nat (O + pairs_in_bin 20 10 a b k seg)).
Proof.
  intros seg c.
  apply (one_segment_numba_counts seg 20 10 2 c (fun _ _ _ => O));
    try lia; try reflexivity.
  - cbn. repeat split; repeat constructor; lia.
  - repeat constructor; cbn; lia.
  - repeat constructor; cbn; lia.
  - split; [reflexivity|]. split; [reflexivity|].
    intros a b k _ _ _. unfold get3, c. cbn [data]. rewrite nth_zeros.
    reflexivity.
Defined.

(** ** Segments in which not every unit fires *)

Lemma ravel_one_error (shp : nat * nat * nat) (i j k : Z) (e : exn) :
  ravel_one shp i j k = Raise e -> e = ValueError.
Proof.
  unfold ravel_one. destruct shp as [[d0 d1] d2].
  destruct (_ && _); [discriminate|]. intros H. injection H as <-.
  reflexivity.
Qed.

Lemma np_ravel_multi_index_error (shp : nat * nat * nat) (e : exn) :
  forall i j k,
    np_ravel_multi_index i j k shp = Raise e -> e = ValueError.
Proof.
  induction i as [|x i IH]; intros [|y j] [|z k]; cbn; try discriminate.
  destruct (ravel_one shp x y z) eqn:E1; cbn [bind].
  - destruct (np_ravel_multi_index i j k shp) eqn:E2; cbn [bind];
      [discriminate|].
    intros H. injection H as <-. eapply IH; eassumption.
  - intros H. injection H as <-. eapply ravel_one_error; eassumption.
Qed.

Lemma iadd_prefix_error (e : exn) :
  forall b buf, iadd_prefix buf b = Raise e -> e = ValueError.
Proof.
  induction b as [|y b IH]; intros [|x buf]; cbn; try discriminate.
  - intros H. injection H as <-. reflexivity.
  - destruct (iadd_prefix buf b) eqn:E; cbn [bind]; [discriminate|].
    intros H. injection H as <-. eapply IH; eassumption.
Qed.

Lemma sign_pass_result times labels bs nhb shift sign mask c :
  (exists mask' c',
      sign_pass times labels bs nhb shift sign (mask, c) = Ok (mask', c')
      /\ shape c' = shape c)
  \/ sign_pass times labels bs nhb shift sign (mask, c) = Raise ValueError.
Proof.
  unfold sign_pass.
  destruct (if sign =? 1 then _ else _) as [idx|e] eqn:Ei; cbn [bind].
  - unfold ravel_iadd_prefix.
    destruct (iadd_prefix (data c) (np_bincount idx)) as [d|e] eqn:Ed;
      cbn [bind].
    + left. eexists. eexists. split; reflexivity.
    + right. rewrite (iadd_prefix_error _ _ _ Ed). reflexivity.
  - right. f_equal.
    destruct (sign =? 1); eapply np_ravel_multi_index_error; eassumption.
Qed.

Lemma shift_loop_result times labels bs nhb :
  forall fuel shift mask c,
    (exists c',
        shift_loop fuel times labels bs nhb shift (mask, c) = Ok c'
        /\ shape c' = shape c)
    \/ shift_loop fuel times labels bs nhb shift (mask, c)
       = Raise ValueError.
Proof.
  induction fuel as [|fuel IH]; intros shift mask c;
    cbn [shift_loop fst snd].
  - left. exists c. destruct (np_any _); split; reflexivity.
  - destruct (np_any _); [|left; exists c; split; reflexivity].
    destruct (sign_pass_result times labels bs nhb shift (-1) mask c)
      as [(m1 & c1 & E1 & S1) | E1]; rewrite E1; cbn [bind];
      [|right; reflexivity].
    destruct (sign_pass_result times labels bs nhb shift 1 m1 c1)
      as [(m2 & c2 & E2 & S2) | E2]; rewrite E2; cbn [bind];
      [|right; reflexivity].
    destruct (IH (S shift) m2 c2) as [(c' & E & S) | E].
    + left. exists c'. split; [exact E|congruence].
    + right. exact E.
Qed.

(** What one segment gives: a tensor with one row and one column per unit
    that fires in the segment, or a [ValueError]. *)
Lemma correlogram_for_one_segment_result times labels ws bs :
  bs <> 0 ->
  (exists c0,
      correlogram_for_one_segment times labels ws bs = Ok c0
      /\ shape c0 = (length (np_unique labels), length (np_unique labels),
                     Z.to_nat (2 * (ws / bs))))
  \/ correlogram_for_one_segment times labels ws bs = Raise ValueError.
Proof.
  intros Hbs. unfold correlogram_for_one_segment, _compute_num_bins,
    py_floordiv.
  destruct (Z.eqb_spec bs 0); [contradiction|]. cbn [bind].
  unfold np_zeros3. destruct (2 * (ws / bs) <? 0); cbn [bind];
    [right; reflexivity|].
  destruct (shift_loop_result times labels bs (ws / bs) (length times) 1
              (repeat true (length times))
              (mkArr3 (length (np_unique labels), length (np_unique labels),
                       Z.to_nat (2 * (ws / bs)))
                 (repeat 0 (length (np_unique labels)
                            * length (np_unique labels)
                            * Z.to_nat (2 * (ws / bs))))))
    as [(c' & E & S) | E].
  - left. exists c'. split; [exact E|exact S].
  - right. exact E.
Qed.

Lemma np_iadd3_error (a b : ndarray3) (e : exn) :
  np_iadd3 a b = Raise e -> e = ValueError.
Proof.
  unfold np_iadd3. destruct (shape a) as [[a0 a1] a2].
  destruct (shape b) as [[b0 b1] b2].
  destruct (_ && _); [discriminate|]. intros H. injection H as <-.
  reflexivity.
Qed.

Lemma np_iadd3_mismatch (n nb u nb' : nat) (a b : ndarray3) :
  shape a = (n, n, nb) -> shape b = (u, u, nb') ->
  u <> n -> u <> 1%nat ->
  np_iadd3 a b = Raise ValueError.
Proof.
  intros Sa Sb H1 H2. unfold np_iadd3. rewrite Sa, Sb.
  unfold broadcastable.
  destruct (Nat.eqb_spec u n); [contradiction|].
  destruct (Nat.eqb_spec u 1); [contradiction|]. reflexivity.
Qed.

Lemma numpy_segments_mismatch (n nb : nat) (ws bs : Z) :
  bs <> 0 ->
  forall (segs : list (list Spike)) (c : ndarray3),
    shape c = (n, n, nb) ->
    Exists (fun seg =>
              length (np_unique (labels_of seg)) <> n
              /\ length (np_unique (labels_of seg)) <> 1%nat) segs ->
    numpy_segments segs ws bs c = Raise ValueError.
Proof.
  intros Hbs. induction segs as [|seg segs IH]; intros c S H.
  - inversion H.
  - cbn [numpy_segments].
    destruct (correlogram_for_one_segment_result (times_of seg)
                (labels_of seg) ws bs Hbs) as [(c0 & E0 & S0) | E0];
      rewrite E0; cbn [bind]; [|reflexivity].
    apply Exists_cons in H. destruct H as [[H1 H2] | H].
    + rewrite (np_iadd3_mismatch n nb _ _ c c0 S S0 H1 H2). reflexivity.
    + destruct (np_iadd3 c c0) as [c1|e] eqn:E1; cbn [bind].
      * apply IH; [|exact H].
        destruct (np_iadd3_shape _ _ _ E1) as [S1 _]. congruence.
      * rewrite (np_iadd3_error _ _ _ E1). reflexivity.
Qed.

(** X17. The numpy strategy needs every unit to fire in every segment:
    with a bin size other than 0, as soon as the number of distinct unit
    indices among the spikes of some segment is neither the number of units
    of the sorting nor 1 - a segment without spikes included - the call
    raises a [ValueError], whatever the other segments hold. *)
Theorem numpy_needs_every_unit :
  forall (sorting : Sorting) (window_size bin_size : Z),
    bin_size <> 0 ->
    Exists (fun seg =>
              length (np_unique (labels_of seg)) <> length (unit_ids sorting)
              /\ length (np_unique (labels_of seg)) <> 1%nat)
      (to_spike_vector sorting) ->
    compute_correlograms_numpy sorting window_size bin_size
    = Raise ValueError.
Proof.
  intros sorting ws bs Hbs H.
  unfold compute_correlograms_numpy, _compute_num_bins, py_floordiv.
  destruct (Z.eqb_spec bs 0); [contradiction|]. cbn [bind].
  unfold np_zeros3. destruct (2 * (ws / bs) <? 0); cbn [bind];
    [reflexivity|].
  eapply numpy_segments_mismatch; [exact Hbs|reflexivity|exact H].
Qed.

Lemma numpy_needs_every_unit_witness :
  compute_correlograms_numpy
    (mkSorting 30000 [0; 1; 2]
       [[mkSpike 0 0; mkSpike 5 1; mkSpike 9 2]; [mkSpike 0 0; mkSpike 5 2]])
    20 10
  = Raise ValueError.
Proof.
  apply numpy_needs_every_unit; [lia|].
  apply Exists_cons_tl, Exists_cons_hd. cbn. split; lia.
Defined.

(** ** Segments in which only the first unit fires *)

(** [a += b] when [b] has a single row and a single column: numpy repeats
    it over all rows and columns of [a]. *)
Lemma np_iadd3_broadcast (n nb : nat) (a b : ndarray3)
    (F G : nat -> nat -> nat -> nat) :
  tensor_holds n nb a F -> tensor_holds 1 nb b G ->
  exists c,
    np_iadd3 a b = Ok c
    /\ tensor_holds n nb c (fun i j k => (F i j k + G O O k)%nat).
Proof.
  intros (Sa & Wa & Ha) (Sb & Wb & Hb).
  assert (La : length (data a) = (n * n * nb)%nat).
  { unfold well_formed, dim0, dim1, dim2 in Wa. rewrite Sa in Wa. exact Wa. }
  unfold np_iadd3. rewrite Sa, Sb. unfold broadcastable.
  rewrite !Nat.eqb_refl. rewrite !orb_true_r. cbn [orb andb].
  eexists. split; [reflexivity|].
  split; [reflexivity|].
  split.
  { unfold well_formed, dim0, dim1, dim2. cbn [shape data fst snd].
    rewrite length_map, length_combine, length_seq. lia. }
  intros i j k Hi Hj Hk.
  unfold get3 at 1. unfold dim1, dim2. cbn [shape data fst snd].
  set (p := ((i * n + j) * nb + k)%nat).
  assert (Hp : (p < length (data a))%nat).
  { rewrite La. apply (flat_index_bound n n nb i j k); assumption. }
  rewrite (nth_map_in _ _ 0 (O, 0))
    by (rewrite length_combine, length_seq; lia).
  rewrite nth_combine_seq by exact Hp. cbn [Nat.add].
  assert (Ek : (p mod nb = k)%nat).
  { unfold p. rewrite Nat.add_comm, Nat.Div0.mod_add.
    apply Nat.mod_small. exact Hk. }
  rewrite Ek.
  assert (B1 : forall x, bidx 1 x = O) by (intros x; reflexivity).
  assert (Bk : bidx nb k = k).
  { unfold bidx. destruct (Nat.eqb_spec nb 1); [lia|reflexivity]. }
  rewrite !B1, Bk.
  specialize (Ha i j k Hi Hj Hk).
  specialize (Hb O O k ltac:(lia) ltac:(lia) Hk).
  unfold get3, dim1, dim2 in Ha, Hb. rewrite Sa in Ha. rewrite Sb in Hb.
  cbn [fst snd] in Ha, Hb. fold p in Ha.
  rewrite Ha, Hb, wrap64_add. f_equal. lia.
Qed.

Lemma first_unit_only (seg : list Spike) :
  seg <> [] -> Forall (fun l => l = 0) (labels_of seg) ->
  length (np_unique (labels_of seg)) = 1%nat
  /\ Forall (fun l => 0 <= l < Z.of_nat 1) (labels_of seg).
Proof.
  intros Hne Hl.
  assert (Hr : Forall (fun l => 0 <= l < Z.of_nat 1) (labels_of seg)).
  { eapply Forall_impl; [|exact Hl]. cbn beta. intros l ->. lia. }
  split; [|exact Hr].
  apply unique_labels; [exact Hr|].
  intros i Hi. assert (i = O) by lia. subst i.
  destruct seg as [|x seg]; [contradiction|].
  unfold labels_of in Hl. cbn [map] in Hl. inversion Hl as [|? ? Hx _]; subst.
  rewrite train_cons, Hx. cbn. discriminate.
Qed.

Lemma numpy_segments_first_unit (n : nat) (window_size bin_size : Z) :
  0 < bin_size -> 0 <= window_size < 2 ^ 62 ->
  window_size mod bin_size = 0 ->
  forall (segs : list (list Spike)) (c : ndarray3)
         (F : nat -> nat -> nat -> nat),
    Forall (fun seg =>
              seg <> []
              /\ Forall (fun l => l = 0) (labels_of seg)
              /\ all_later Z.le (times_of seg)
              /\ Forall (fun t => 0 <= t < 2 ^ 62) (times_of seg)
              /\ has_lag window_size (times_of seg) = false) segs ->
    tensor_holds n (Z.to_nat (2 * (window_size / bin_size))) c F ->
    exists c',
      numpy_segments segs window_size bin_size c = Ok c'
      /\ tensor_holds n (Z.to_nat (2 * (window_size / bin_size))) c'
           (fun a b k =>
              (F a b k
               + pairs_in_bin_all window_size bin_size O O k segs)%nat).
Proof.
  intros Hbs Hws Hmul.
  induction segs as [|seg segs IH]; intros c F Hs T.
  - exists c. split; [reflexivity|].
    eapply tensor_holds_ext; [|exact T].
    intros; unfold pairs_in_bin_all; cbn; lia.
  - pose proof (Forall_inv Hs) as (H1 & H2 & H3 & H4 & H5).
    pose proof (Forall_inv_tail Hs) as Hs'.
    destruct (first_unit_only seg H1 H2) as [Hu Hr].
    cbn [numpy_segments].
    destruct (correlogram_for_one_segment_counts seg window_size bin_size 1
                Hbs Hws Hmul (apart_of_times _ _ H3 H4 H5) Hu Hr)
      as (c0 & E0 & T0).
    rewrite E0. cbn [bind].
    destruct (np_iadd3_broadcast _ _ c c0 _ _ T T0) as (c1 & E1 & T1).
    rewrite E1. cbn [bind].
    destruct (IH c1 _ Hs' T1) as (c' & E' & T').
    exists c'. split; [exact E'|].
    eapply tensor_holds_ext; [|exact T'].
    intros a b k. cbn beta.
    unfold pairs_in_bin_all, list_sum. cbn [map fold_right]. lia.
Qed.

(** X18. When only the first unit fires - every spike of every segment
    has unit index 0, in time order, no two of them exactly [window_size]
    apart - the numpy strategy returns, and numpy's broadcasting writes the
    autocorrelogram of that unit into every cell: for all units a and b,
    whether they fire or not, cell (a, b, k) holds the count of the pairs
    of unit 0 in bin k. *)
Theorem numpy_first_unit_everywhere :
  forall (sorting : Sorting) (window_size bin_size : Z),
    0 < bin_size -> 0 <= window_size < 2 ^ 62 ->
    window_size mod bin_size = 0 ->
    let n := length (unit_ids sorting) in
    let nb := Z.to_nat (2 * (window_size / bin_size)) in
    Forall (fun seg =>
              seg <> []
              /\ Forall (fun l => l = 0) (labels_of seg)
              /\ all_later Z.le (times_of seg)
              /\ Forall (fun t => 0 <= t < 2 ^ 62) (times_of seg)
              /\ has_lag window_size (times_of seg) = false)
      (to_spike_vector sorting) ->
    exists c,
      compute_correlograms_numpy sorting window_size bin_size = Ok c
      /\ shape c = (n, n, nb)
      /\ forall a b k,
           (a < n)%nat -> (b < n)%nat -> (k < nb)%nat ->
           get3 c a b k
           = wrap64 (Z.of_nat (pairs_in_bin_all window_size bin_size O O k
                                 (to_spike_vector sorting))).
Proof.
  intros sorting ws bs Hbs Hws Hmul n nb Hs.
  unfold compute_correlograms_numpy, _compute_num_bins, py_floordiv.
  destruct (Z.eqb_spec bs 0); [lia|]. cbn [bind].
  destruct (np_zeros3 n n (2 * (ws / bs))) as [c0|e] eqn:E0.
  - fold n. rewrite E0. cbn [bind].
    destruct (numpy_segments_first_unit n ws bs Hbs Hws Hmul
                (to_spike_vector sorting) c0 (fun _ _ _ => O) Hs
                (zeros_holds _ _ _ E0))
      as (c & E & S & _ & H).
    exists c. split; [exact E|]. split; [exact S|].
    intros a b k Ha Hb Hk. rewrite (H a b k Ha Hb Hk). reflexivity.
  - exfalso. unfold np_zeros3 in E0.
    assert (0 <= ws / bs) by (apply Z.div_pos; lia).
    destruct (Z.ltb_spec (2 * (ws / bs)) 0); [lia|discriminate].
Qed.

Lemma numpy_first_unit_everywhere_witness :
  let sorting :=
    mkSorting 30000 [0; 1] [[mkSpike 0 0; mkSpike 5 0; mkSpike 12 0]] in
  exists c,
    compute_correlograms_numpy sorting 20 10 = Ok c
    /\ shape c = (2%nat, 2%nat, 4%nat)
    /\ forall a b k,
         (a < 2)%nat -> (b < 2)%nat -> (k < 4)%nat ->
         get3 c a b k
         = wrap64 (Z.of_nat (pairs_in_bin_all 20 10 O O k
                               (to_spike_vector sorting))).
Proof.
  intros sorting.
  apply (numpy_first_unit_everywhere sorting 20 10); try lia;
    try reflexivity.
  repeat constructor; cbn; try lia; discriminate.
Defined.

(** ** Conservation: the counts of the tensor add up to the pairs *)

Lemma list_sum_map_add {A : Type} (f g : A -> nat) (l : list A) :
  list_sum (map (fun p => (f p + g p)%nat) l)
  = (list_sum (map f l) + list_sum (map g l))%nat.
Proof.
  induction l as [|x l IH]; [reflexivity|].
  cbn [map]. unfold list_sum in *. cbn [fold_right]. rewrite IH. lia.
Qed.

Lemma list_sum_map_ext {A : Type} (f g : A -> nat) (l : list A) :
  (forall x, f x = g x) -> list_sum (map f l) = list_sum (map g l).
Proof. intros H. f_equal. apply map_ext, H. Qed.

Lemma sum_indicator (i M : nat) :
  list_sum (map (fun p => if Nat.eqb i p then 1%nat else O) (seq 0 M))
  = if Nat.ltb i M then 1%nat else O.
Proof.
  induction M as [|M IH]; [reflexivity|].
  rewrite seq_S, map_app, list_sum_app, IH. cbn [Nat.add map list_sum fold_right].
  destruct (Nat.ltb_spec i M); destruct (Nat.eqb_spec i M);
    destruct (Nat.ltb_spec i (S M)); lia.
Qed.

(** Sorting the elements of a list by an index below [M] loses only those
    whose index is not below [M]. *)
Lemma filter_partition {A : Type} (idx : A -> nat) (M : nat) (l : list A) :
  list_sum (map (fun p => length (filter (fun e => Nat.eqb (idx e) p) l))
              (seq 0 M))
  = length (filter (fun e => Nat.ltb (idx e) M) l).
Proof.
  induction l as [|e l IH].
  - cbn [filter length]. apply list_sum_zero. reflexivity.
  - cbn [filter].
    rewrite (list_sum_map_ext _
               (fun p => ((if Nat.eqb (idx e) p then 1 else 0)
                          + length (filter (fun e0 => Nat.eqb (idx e0) p) l))
                         %nat)).
    + rewrite list_sum_map_add, IH, sum_indicator.
      destruct (Nat.ltb (idx e) M); reflexivity.
    + intros p. destruct (Nat.eqb (idx e) p); reflexivity.
Qed.

Lemma count_later_spikes_partition (idx : Spike -> Spike -> nat) (M : nat)
    (seg : list Spike) :
  list_sum (map (fun p => count_later_spikes
                            (fun x y => Nat.eqb (idx x y) p) seg)
              (seq 0 M))
  = count_later_spikes (fun x y => Nat.ltb (idx x y) M) seg.
Proof.
  induction seg as [|x seg IH].
  - cbn [count_later_spikes]. apply list_sum_zero. reflexivity.
  - cbn [count_later_spikes].
    rewrite list_sum_map_add, IH, (filter_partition (idx x)). reflexivity.
Qed.

Lemma sum_nth (l : list Z) :
  fold_right Z.add 0 l
  = fold_right Z.add 0 (map (fun p => nth p l 0) (seq 0 (length l))).
Proof.
  induction l as [|x l IH]; [reflexivity|].
  cbn [length seq map fold_right nth]. rewrite <- seq_shift, map_map.
  cbn [nth]. rewrite <- IH. reflexivity.
Qed.

Lemma zsum_of_nat {A : Type} (f : A -> nat) (l : list A) :
  fold_right Z.add 0 (map (fun p => Z.of_nat (f p)) l)
  = Z.of_nat (list_sum (map f l)).
Proof.
  induction l as [|x l IH]; [reflexivity|].
  cbn [map fold_right]. unfold list_sum in *. cbn [fold_right]. rewrite IH.
  lia.
Qed.

Lemma list_sum_le_term (f : nat -> nat) (l : list nat) (p : nat) :
  In p l -> (f p <= list_sum (map f l))%nat.
Proof.
  induction l as [|x l IH]; intros H; [contradiction|].
  cbn [map]. unfold list_sum in *. cbn [fold_right].
  destruct H as [->|H]; [lia|]. specialize (IH H). lia.
Qed.

Lemma count_later_spikes_ext (P P' : Spike -> Spike -> bool)
    (seg : list Spike) :
  each_later (fun x y => P x y = P' x y /\ P y x = P' y x) seg ->
  count_later_spikes P seg = count_later_spikes P' seg
  /\ count_later_spikes (fun x y => P y x) seg
     = count_later_spikes (fun x y => P' y x) seg.
Proof.
  induction seg as [|x seg IH]; intros H; [split; reflexivity|].
  destruct H as [Hx H]. destruct (IH H) as [E1 E2].
  cbn [count_later_spikes]. rewrite E1, E2.
  split; f_equal; apply filter_ext_in_length;
    (eapply Forall_impl; [|exact Hx]); cbn beta; intros y [A B]; assumption.
Qed.

Lemma each_later_forall (R : Spike -> Spike -> Prop) (P : Spike -> Prop)
    (seg : list Spike) :
  (forall x y, P x -> P y -> R x y) -> Forall P seg -> each_later R seg.
Proof.
  intros HR. induction 1 as [|x seg Hx Hseg IH]; [exact I|].
  split; [|exact IH].
  eapply Forall_impl; [|exact Hseg]. cbn beta. intros y Hy. apply HR;
    assumption.
Qed.

Lemma list_sum_swap {A : Type} (f : nat -> A -> nat) (ps : list nat)
    (l : list A) :
  list_sum (map (fun p => list_sum (map (f p) l)) ps)
  = list_sum (map (fun e => list_sum (map (fun p => f p e) ps)) l).
Proof.
  induction l as [|e l IH].
  - cbn [map]. rewrite list_sum_zero by reflexivity. reflexivity.
  - cbn [map]. unfold list_sum at 3. cbn [fold_right].
    fold (list_sum (map (fun e0 => list_sum (map (fun p => f p e0) ps)) l)).
    rewrite <- IH, <- list_sum_map_add. apply list_sum_map_ext.
    intros p. unfold list_sum. reflexivity.
Qed.

Lemma decode_position (n nb p : nat) :
  (p < n * n * nb)%nat ->
  (p / nb / n < n)%nat /\ ((p / nb) mod n < n)%nat /\ (p mod nb < nb)%nat
  /\ ((p / nb / n * n + (p / nb) mod n) * nb + p mod nb = p)%nat.
Proof.
  intros Hp.
  assert (Hnb : (0 < nb)%nat) by (destruct nb; lia).
  assert (Hn : (0 < n)%nat) by (destruct n; [cbn in Hp; lia|lia]).
  pose proof (Nat.div_mod_eq p nb) as E1.
  pose proof (Nat.div_mod_eq (p / nb) n) as E2.
  pose proof (Nat.mod_upper_bound p nb ltac:(lia)) as B1.
  pose proof (Nat.mod_upper_bound (p / nb) n ltac:(lia)) as B2.
  assert (B3 : (p / nb / n < n)%nat).
  { apply Nat.Div0.div_lt_upper_bound.
    apply Nat.Div0.div_lt_upper_bound. lia. }
  repeat split; try assumption. nia.
Qed.

(** The sum of the entries of a tensor that holds counts, when the counts
    add up to less than 2^63. *)
Lemma tensor_total (n nb : nat) (c : ndarray3)
    (F : nat -> nat -> nat -> nat) :
  tensor_holds n nb c F ->
  Z.of_nat (list_sum (map (fun p => F (p / nb / n) ((p / nb) mod n)
                                      (p mod nb))%nat
                        (seq 0 (n * n * nb)))) < 2 ^ 63 ->
  total c
  = Z.of_nat (list_sum (map (fun p => F (p / nb / n) ((p / nb) mod n)
                                        (p mod nb))%nat
                          (seq 0 (n * n * nb)))).
Proof.
  intros (Sh & W & H) Hsmall.
  unfold well_formed, dim0, dim1, dim2 in W. rewrite Sh in W.
  cbn [fst snd] in W.
  unfold total. rewrite sum_nth, W, <- zsum_of_nat.
  f_equal. apply map_ext_in. intros p Hp.
  pose proof (list_sum_le_term
                (fun p => F (p / nb / n) ((p / nb) mod n) (p mod nb))%nat
                _ p Hp) as Hle.
  cbn beta in Hle.
  apply in_seq in Hp.
  destruct (decode_position n nb p ltac:(lia)) as (Ha & Hb & Hk & E).
  specialize (H _ _ _ Ha Hb Hk). unfold get3, dim1, dim2 in H.
  rewrite Sh in H. cbn [fst snd] in H. rewrite E in H. rewrite H.
  apply wrap64_small. lia.
Qed.

Lemma filter_prod_cons_r {A B : Type} (Q : A * B -> bool) (l1 : list A)
    (e : B) (l2 : list B) :
  length (filter Q (list_prod l1 (e :: l2)))
  = (length (filter (fun a => Q (a, e)) l1)
     + length (filter Q (list_prod l1 l2)))%nat.
Proof.
  induction l1 as [|a l1 IH]; [reflexivity|].
  cbn [list_prod map app filter].
  destruct (Q (a, e)); cbn [length];
    rewrite !filter_app, !length_app, IH; lia.
Qed.

(** The ordered pairs of two different positions of an indexed list. *)
Lemma distinct_positions (P : Z -> Z -> bool) (l : list (nat * Z)) :
  NoDup (map fst l) ->
  length (filter (fun '((i, ti), (j, tj)) => negb (Nat.eqb i j) && P ti tj)
            (list_prod l l))
  = count_distinct P (map snd l).
Proof.
  unfold count_distinct.
  induction l as [|[i ti] l IH]; intros Hn; [reflexivity|].
  cbn [map fst snd] in Hn. apply NoDup_cons_iff in Hn.
  destruct Hn as [Hi Hn].
  cbn [list_prod map app filter]. rewrite Nat.eqb_refl. cbn [negb andb].
  rewrite filter_app, length_app, filter_prod_cons_r, (IH Hn).
  cbn [map snd count_later].
  assert (E1 : length (filter (fun '((i0, ti0), (j, tj)) =>
                                 negb (Nat.eqb i0 j) && P ti0 tj)
                         (map (fun y => ((i, ti), y)) l))
               = length (filter (P ti) (map snd l))).
  { clear IH Hn. induction l as [|[j tj] l IHl]; [reflexivity|].
    cbn [map fst snd filter] in *.
    destruct (Nat.eqb_spec i j) as [->|_]; [exfalso; apply Hi; left;
                                           reflexivity|].
    cbn [negb andb].
    destruct (P ti tj); cbn [length];
      rewrite IHl by (intros Hin; apply Hi; right; exact Hin); reflexivity. }
  assert (E2 : length (filter (fun a : nat * Z =>
                                 let '((i0, ti0), (j, tj)) := (a, (i, ti)) in
                                 negb (Nat.eqb i0 j) && P ti0 tj) l)
               = length (filter (fun tj => P tj ti) (map snd l))).
  { clear IH Hn E1. induction l as [|[j tj] l IHl]; [reflexivity|].
    cbn [map fst snd filter] in *.
    destruct (Nat.eqb_spec j i) as [->|_]; [exfalso; apply Hi; left;
                                           reflexivity|].
    cbn [negb andb].
    destruct (P tj ti); cbn [length];
      rewrite IHl by (intros Hin; apply Hi; right; exact Hin); reflexivity. }
  rewrite E1, E2. lia.
Qed.

Lemma count_later_of_spikes (P : Z -> Z -> bool) (seg : list Spike) :
  count_later P (times_of seg)
  = count_later_spikes (fun x y => P (sample_index x) (sample_index y)) seg.
Proof.
  unfold times_of. induction seg as [|x seg IH]; [reflexivity|].
  cbn [map count_later count_later_spikes]. rewrite IH. f_equal.
  clear IH. induction seg as [|y seg IH]; [reflexivity|].
  cbn [map filter]. destruct (P (sample_index x) (sample_index y));
    cbn [length]; rewrite IH; reflexivity.
Qed.

(** The pairs of two different events of a segment with a lag inside the
    window, as pairs of an event and a later one. *)
Lemma pairs_in_window_later (window_size : Z) (seg : list Spike) :
  pairs_in_window window_size seg
  = Z.of_nat
      (count_later_spikes (spike_lag_in_window window_size) seg
       + count_later_spikes
           (fun x y => spike_lag_in_window window_size y x) seg).
Proof.
  unfold pairs_in_window. cbv zeta. f_equal.
  set (P := fun ti tj : Z =>
              (- window_size <=? ti - tj) && (ti - tj <? window_size)).
  rewrite (filter_ext _
             (fun '((i, ti), (j, tj)) => negb (Nat.eqb i j) && P ti tj)).
  - rewrite distinct_positions.
    + assert (Es : map snd (combine (seq 0 (length seg)) (times_of seg))
                   = times_of seg).
      { clear. unfold times_of. generalize O.
        induction seg as [|x seg IH]; intros s; [reflexivity|].
        cbn [length seq map combine snd]. rewrite IH. reflexivity. }
      rewrite Es. unfold count_distinct.
      rewrite !count_later_of_spikes. reflexivity.
    + assert (Ef : map fst (combine (seq 0 (length seg)) (times_of seg))
                   = seq 0 (length seg)).
      { clear. unfold times_of. generalize O.
        induction seg as [|x seg IH]; intros s; [reflexivity|].
        cbn [length seq map combine fst]. rewrite IH. reflexivity. }
      rewrite Ef. apply seq_NoDup.
  - intros [[i ti] [j tj]]. unfold P. rewrite <- andb_assoc. f_equal.
    destruct (Z.ltb_spec (- window_size) (tj - ti));
      destruct (Z.leb_spec (tj - ti) window_size);
      destruct (Z.leb_spec (- window_size) (ti - tj));
      destruct (Z.ltb_spec (ti - tj) window_size); cbn [andb];
      lia || reflexivity.
Qed.

Section Conservation.

Variables (window_size bin_size : Z) (n : nat).
Hypothesis Hbs : 0 < bin_size.
Hypothesis Hws : 0 <= window_size < 2 ^ 62.
Hypothesis Hmul : window_size mod bin_size = 0.

Local Notation num_half_bins := (window_size / bin_size).
Local Notation nb := (Z.to_nat (2 * (window_size / bin_size))).
Local Notation cells := (n * n * nb)%nat.
Local Notation row p := (p / nb / n)%nat.
Local Notation col p := ((p / nb) mod n)%nat.
Local Notation bin p := (p mod nb)%nat.
Local Notation in_range :=
  (fun x : Spike => 0 <= unit_index x < Z.of_nat n).

(** A pair is counted in the cell at position [p] exactly when [p] is its
    position. *)
Lemma in_bin_position (x y : Spike) (p : nat) :
  in_range x -> in_range y -> (p < cells)%nat ->
  spike_lag_in_bin window_size bin_size (row p) (col p) (bin p) x y
  = Nat.eqb (pair_position window_size bin_size n nb x y) p.
Proof.
  intros Hx Hy Hp. cbn beta in Hx, Hy.
  destruct (decode_position n nb p Hp) as (Ha & Hb & Hk & E).
  unfold spike_lag_in_bin, lag_in_bin, pair_position, spike_lag_in_window.
  set (d := sample_index x - sample_index y).
  destruct (Z.leb_spec (- window_size) d) as [H1|H1];
    [destruct (Z.ltb_spec d window_size) as [H2|H2]|]; cbn [andb].
  - pose proof (lag_bin_index window_size bin_size Hbs Hmul d ltac:(lia))
      as Hz.
    set (z := num_half_bins + d / bin_size) in *.
    cbn [flat_cell].
    assert (Eq : Z.to_nat ((unit_index x * Z.of_nat n + unit_index y)
                           * Z.of_nat nb + z)
                 = ((Z.to_nat (unit_index x) * n + Z.to_nat (unit_index y))
                    * nb + Z.to_nat z)%nat).
    { assert (0 <= unit_index x * Z.of_nat n) by nia.
      rewrite Z2Nat.inj_add by nia.
      rewrite Z2Nat.inj_mul by lia.
      rewrite Z2Nat.inj_add by lia.
      rewrite Z2Nat.inj_mul by lia.
      rewrite !Nat2Z.id. reflexivity. }
    rewrite Eq.
    destruct (Nat.eqb_spec
                ((Z.to_nat (unit_index x) * n + Z.to_nat (unit_index y)) * nb
                 + Z.to_nat z) p) as [Ep|Ep].
    + rewrite <- E in Ep. apply flat_index_inj in Ep; lia.
    + destruct (Z.eqb_spec (unit_index x) (Z.of_nat (row p))) as [E1|];
        [|reflexivity].
      destruct (Z.eqb_spec (unit_index y) (Z.of_nat (col p))) as [E2|];
        [|reflexivity].
      destruct (Z.eqb_spec z (Z.of_nat (bin p))) as [E3|]; [|reflexivity].
      exfalso. apply Ep. rewrite E1, E2, E3, !Nat2Z.id. exact E.
  - rewrite andb_false_r. symmetry. apply Nat.eqb_neq. lia.
  - rewrite andb_false_r. symmetry. apply Nat.eqb_neq. lia.
Qed.

Lemma position_in_window (x y : Spike) :
  in_range x -> in_range y ->
  Nat.ltb (pair_position window_size bin_size n nb x y) cells
  = spike_lag_in_window window_size x y.
Proof.
  intros Hx Hy. cbn beta in Hx, Hy. unfold pair_position.
  destruct (spike_lag_in_window window_size x y) eqn:W.
  - unfold spike_lag_in_window in W. apply andb_true_iff in W.
    destruct W as [W1 W2]. apply Z.leb_le in W1. apply Z.ltb_lt in W2.
    pose proof (lag_bin_index window_size bin_size Hbs Hmul _
                  (conj W1 W2)) as Hz.
    apply Nat.ltb_lt.
    pose proof (flat_cell_bound n nb
                  (unit_index x, unit_index y,
                   num_half_bins
                   + (sample_index x - sample_index y) / bin_size)) as B.
    cbn [cell_in_range] in B. specialize (B ltac:(lia)). lia.
  - apply Nat.ltb_ge. lia.
Qed.

(** Over all the cells, the pairs of a segment counted are those inside
    the window. *)
Lemma pairs_over_cells (seg : list Spike) :
  Forall in_range seg ->
  list_sum (map (fun p => pairs_in_bin window_size bin_size
                            (row p) (col p) (bin p) seg) (seq 0 cells))
  = (count_later_spikes (spike_lag_in_window window_size) seg
     + count_later_spikes
         (fun x y => spike_lag_in_window window_size y x) seg)%nat.
Proof.
  intros Hr.
  set (idx := pair_position window_size bin_size n nb).
  assert (E1 : forall p, In p (seq 0 cells) ->
            pairs_in_bin window_size bin_size (row p) (col p) (bin p) seg
            = (count_later_spikes (fun x y => Nat.eqb (idx x y) p) seg
               + count_later_spikes (fun x y => Nat.eqb (idx y x) p) seg)
              %nat).
  { intros p Hp. apply in_seq in Hp. rewrite <- spike_pairs_in_bin.
    destruct (count_later_spikes_ext
                (spike_lag_in_bin window_size bin_size (row p) (col p)
                   (bin p))
                (fun x y => Nat.eqb (idx x y) p) seg) as [A B].
    - apply (each_later_forall _ in_range); [|exact Hr].
      intros x y Hx Hy. split; apply in_bin_position; (assumption || lia).
    - rewrite A, B. reflexivity. }
  rewrite (map_ext_in _ _ _ E1), list_sum_map_add.
  rewrite (count_later_spikes_partition idx).
  rewrite (count_later_spikes_partition (fun x y => idx y x)).
  destruct (count_later_spikes_ext
              (fun x y => Nat.ltb (idx x y) cells)
              (spike_lag_in_window window_size) seg) as [A B].
  - apply (each_later_forall _ in_range); [|exact Hr].
    intros x y Hx Hy. split; apply position_in_window; assumption.
  - rewrite A, B. reflexivity.
Qed.

End Conservation.

(** X19. When the numpy strategy counts right (every unit fires in every
    segment, the segments are ordered by time and no two events of a segment
    are exactly [window_size] samples apart) and the pairs of the sorting
    are fewer than 2^63, the entries of the tensor it returns add up to the
    number of ordered pairs of two different events of one segment with a
    lag inside the window: no pair is lost and none is counted twice. *)
Theorem numpy_conserves_pairs :
  forall (sorting : Sorting) (window_size bin_size : Z),
    0 < bin_size -> 0 <= window_size < 2 ^ 62 ->
    window_size mod bin_size = 0 ->
    let n := length (unit_ids sorting) in
    Forall (fun seg =>
              all_later Z.le (times_of seg)
              /\ Forall (fun t => 0 <= t < 2 ^ 62) (times_of seg)
              /\ has_lag window_size (times_of seg) = false
              /\ Forall (fun l => 0 <= l < Z.of_nat n) (labels_of seg)
              /\ forall i, (i < n)%nat -> train seg i <> [])
      (to_spike_vector sorting) ->
    pairs_in_window_all window_size sorting < 2 ^ 63 ->
    exists c,
      compute_correlograms_numpy sorting window_size bin_size = Ok c
      /\ total c = pairs_in_window_all window_size sorting.
Proof.
  intros sorting ws bs Hbs Hws Hmul n Hs Hsmall.
  destruct (compute_correlograms_numpy_counts sorting ws bs Hbs Hws Hmul Hs)
    as (c & E & T).
  exists c. split; [exact E|]. fold n in T.
  set (nb := Z.to_nat (2 * (ws / bs))) in *.
  assert (K : Z.of_nat
                (list_sum
                   (map (fun p =>
                           pairs_in_bin_all ws bs (p / nb / n)
                             ((p / nb) mod n) (p mod nb)
                             (to_spike_vector sorting))%nat
                      (seq 0 (n * n * nb))))
              = pairs_in_window_all ws sorting).
  { unfold pairs_in_window_all, pairs_in_bin_all.
    rewrite (list_sum_swap
               (fun p seg => pairs_in_bin ws bs (p / nb / n)
                               ((p / nb) mod n) (p mod nb) seg)%nat).
    rewrite (list_sum_map_ext_in _
               (fun seg =>
                  (count_later_spikes (spike_lag_in_window ws) seg
                   + count_later_spikes
                       (fun x y => spike_lag_in_window ws y x) seg)%nat)).
    - rewrite <- zsum_of_nat. f_equal. apply map_ext. intros seg.
      symmetry. apply pairs_in_window_later.
    - eapply Forall_impl; [|exact Hs]. cbn beta.
      intros seg (_ & _ & _ & Hl & _).
      apply (pairs_over_cells ws bs n Hbs Hmul).
      unfold labels_of in Hl. rewrite Forall_map in Hl. exact Hl. }
  rewrite (tensor_total n nb c _ T); [exact K|].
  rewrite K. exact Hsmall.
Qed.

Lemma numpy_conserves_pairs_witness :
  let sorting :=
    mkSorting 30000 [0; 1]
      [[mkSpike 0 0; mkSpike 5 1; mkSpike 12 0];
       [mkSpike 3 1; mkSpike 40 1; mkSpike 41 0]] in
  pairs_in_window_all 20 sorting = 8
  /\ exists c,
       compute_correlograms_numpy sorting 20 10 = Ok c
       /\ total c = pairs_in_window_all 20 sorting.
Proof.
  intros sorting. split; [reflexivity|].
  apply (numpy_conserves_pairs sorting 20 10); try lia; try reflexivity.
  repeat constructor; cbn; try lia;
    intros [|[|i]] Hi; try discriminate; lia.
Defined.
(** ** The layout of the bin edges *)

Lemma float_opp_involutive (x : float) : (- - x)%float = x.
Proof.
  apply FloatAxioms.Prim2SF_inj. rewrite !FloatAxioms.opp_spec.
  destruct (Prim2SF x); cbn [SFopp]; rewrite ?negb_involutive; reflexivity.
Qed.

Lemma binary_round_aux_opp (s : bool) (m e : Z) (l : location) :
  binary_round_aux prec emax (negb s) m e l
  = SFopp (binary_round_aux prec emax s m e l).
Proof.
  unfold binary_round_aux.
  destruct (shr_fexp prec emax m e l) as [mrs' e'].
  destruct (shr_fexp prec emax _ e' loc_Exact) as [mrs'' e''].
  destruct (shr_m mrs''); [reflexivity| |reflexivity].
  destruct (Z.leb _ _); reflexivity.
Qed.

Lemma SF2Prim_opp (x : spec_float) : SF2Prim (SFopp x) = (- SF2Prim x)%float.
Proof.
  destruct x as [[|]|[|]| |[|] m e]; try reflexivity.
  cbn [SFopp negb SF2Prim]. symmetry. apply float_opp_involutive.
Qed.

Lemma float_of_Z_opp (k : Z) :
  k <> 0 -> float_of_Z (- k) = (- float_of_Z k)%float.
Proof.
  intros Hk. unfold float_of_Z.
  destruct k as [|p|p]; [contradiction| |]; cbn [Z.opp binary_normalize];
    unfold binary_round;
    destruct (shl_align p 0 _) as [mz ez].
  - change true with (negb false). rewrite binary_round_aux_opp.
    apply SF2Prim_opp.
  - change true with (negb false). rewrite binary_round_aux_opp.
    rewrite SF2Prim_opp, float_opp_involutive. reflexivity.
Qed.

Lemma float_mul_opp_l (x y : float) : (- x * y)%float = (- (x * y))%float.
Proof.
  apply FloatAxioms.Prim2SF_inj.
  rewrite FloatAxioms.opp_spec, !FloatAxioms.mul_spec, FloatAxioms.opp_spec.
  unfold FloatAxioms.SF64mul, SFmul.
  destruct (Prim2SF x) as [sx|sx| |sx mx ex],
           (Prim2SF y) as [sy|sy| |sy my ey]; cbn [SFopp];
    try reflexivity; try (destruct sx, sy; reflexivity).
  replace (xorb (negb sx) sy) with (negb (xorb sx sy))
    by (destruct sx, sy; reflexivity).
  apply binary_round_aux_opp.
Qed.

Lemma float_div_opp_l (x y : float) : (- x / y)%float = (- (x / y))%float.
Proof.
  apply FloatAxioms.Prim2SF_inj.
  rewrite FloatAxioms.opp_spec, !FloatAxioms.div_spec, FloatAxioms.opp_spec.
  unfold FloatAxioms.SF64div, SFdiv.
  destruct (Prim2SF x) as [sx|sx| |sx mx ex],
           (Prim2SF y) as [sy|sy| |sy my ey]; cbn [SFopp];
    try reflexivity; try (destruct sx, sy; reflexivity).
  destruct (SFdiv_core_binary _ _ _ _ _ _) as [[mz ez] lz].
  replace (xorb (negb sx) sy) with (negb (xorb sx sy))
    by (destruct sx, sy; reflexivity).
  apply binary_round_aux_opp.
Qed.

(** Opposite lags have opposite edges. *)
Lemma edge_opp (fs : float) (k : Z) :
  k <> 0 -> edge fs (- k) = (- edge fs k)%float.
Proof.
  intros Hk. unfold edge.
  rewrite (float_of_Z_opp k Hk), float_mul_opp_l, float_div_opp_l. reflexivity.
Qed.

(** The edge of lag zero is zero. *)
Lemma edge_0 (fs : float) : (0 <? fs)%float = true -> edge fs 0 = 0%float.
Proof.
  intros Hf. unfold edge.
  change (float_of_Z 0 * 1000)%float with 0%float.
  apply FloatAxioms.Prim2SF_inj. rewrite FloatAxioms.div_spec.
  rewrite FloatAxioms.ltb_spec in Hf. unfold SFltb in Hf.
  change (Prim2SF 0) with (S754_zero false) in *.
  unfold FloatAxioms.SF64div, SFdiv.
  destruct (Prim2SF fs) as [s|s| |s m e]; cbn in Hf; try discriminate;
    destruct s; (discriminate || reflexivity).
Qed.

(** X3. When the bin planner succeeds on a positive sampling rate, window
    and bin width, its edges are [num_bins + 1] floats, the i-th being
    [float(-window_size + i * bin_size) * 1e3 / fs]; they mirror each other
    about the middle edge, which is zero: the edge at the same distance on
    the other side is the opposite float. *)
Theorem bin_edges_layout :
  forall sorting window_ms bin_ms bins window_size bin_size,
    (0 <? sampling_frequency sorting)%float = true ->
    (0 <? window_ms)%float = true -> (0 <? bin_ms)%float = true ->
    _make_bins sorting window_ms bin_ms = Ok (bins, window_size, bin_size) ->
    let fs := sampling_frequency sorting in
    let n := Z.to_nat (2 * (window_size / bin_size)) in
    length bins = S n
    /\ (forall i, (i <= n)%nat ->
          nth i bins 0%float
          = edge fs (- window_size + Z.of_nat i * bin_size))
    /\ (forall i, (i <= n)%nat -> i <> Nat.div n 2 ->
          nth (n - i) bins 0%float = (- nth i bins 0)%float)
    /\ nth (Nat.div n 2) bins 0%float = 0%float.
Proof.
  intros sorting window_ms bin_ms bins ws bs Hfs Hw Hb H fs n.
  destruct (make_bins_geometry _ _ _ _ _ _ Hfs Hw Hb H)
    as (Hbs & Hwpos & Hmul & Hedges).
  pose proof (make_bins_edges_count _ _ _ _ _ _ H) as Hlen.
  fold n in Hlen. fold fs in Hedges.
  pose proof (window_in_bins ws bs Hbs Hmul) as Ews.
  set (q := ws / bs) in *.
  assert (Hq : 1 <= q) by nia.
  assert (Hhalf : Z.of_nat (Nat.div n 2) = q).
  { unfold n. rewrite Z2Nat.inj_mul by lia.
    change (Z.to_nat 2) with 2%nat.
    rewrite Nat.mul_comm, Nat.div_mul by lia. lia. }
  assert (Hn : Z.of_nat n = 2 * q) by (unfold n; lia).
  split; [exact Hlen|]. split; [|split].
  - intros i Hi. apply Hedges. lia.
  - intros i Hi Hne. rewrite !Hedges by lia.
    rewrite <- edge_opp by nia. f_equal.
    rewrite Nat2Z.inj_sub by exact Hi. nia.
  - rewrite Hedges by lia. rewrite Hhalf.
    replace (- ws + q * bs) with 0 by nia.
    apply edge_0, Hfs.
Qed.

Lemma bin_edges_layout_witness :
  let bins := [-25; -20; -15; -10; -5; 0; 5; 10; 15; 20; 25]%float in
  _make_bins (mkSorting 1000 [0] []) 50 5 = Ok (bins, 25, 5)
  /\ length bins = 11%nat
  /\ nth (10 - 2) bins 0%float = (- nth 2 bins 0)%float
  /\ nth 5 bins 0%float = 0%float.
Proof.
  intros bins.
  assert (E : _make_bins (mkSorting 1000 [0] []) 50 5 = Ok (bins, 25, 5))
    by (vm_compute; reflexivity).
  destruct (bin_edges_layout (mkSorting 1000 [0] []) 50%float 5%float bins
              25 5 eq_refl eq_refl eq_refl E) as (L & _ & M & Z0).
  split; [exact E|]. split; [exact L|].
  split; [|exact Z0].
  apply (M 2%nat); [repeat constructor|discriminate].
Defined.

(** ** The quotient of the compiled kernels beyond 2^53 *)

(** On these inputs [floor_div] is the floor of the hardware quotient of
    the two converted operands. *)
Example floor_div_is_the_float_quotient :
  forallb (fun '(x, b) =>
             match float_floor (float_of_Z x / float_of_Z b)%float with
             | Some z => floor_div x b =? z
             | None => false
             end) sample_quotients = true.
Proof. vm_compute. reflexivity. Qed.

(** Beyond 2^53 the rounded quotient is no longer the exact one: a lag one
    sample short of the bin size, of three bin sizes, of the window is
    counted one bin further, the last of them out of the array. *)
Example floor_div_beyond_2_53 :
  floor_div (2 ^ 59 - 1) (2 ^ 59) = 1
  /\ (2 ^ 59 - 1) / 2 ^ 59 = 0
  /\ floor_div (3 * 2 ^ 53 - 1) (2 ^ 53) = 3
  /\ (3 * 2 ^ 53 - 1) / 2 ^ 53 = 2
  /\ _compute_crosscorr_numba [2 ^ 59 - 1] [0] (2 ^ 60) (2 ^ 59)
     = Ok [0; 0; 0; 1]
  /\ _compute_autocorr_numba [0; 2 ^ 59 - 1] (2 ^ 60) (2 ^ 59)
     = Ok [0; 1; 0; 1]
  /\ _compute_autocorr_numba [0; 3 * 2 ^ 53 - 1] (4 * 2 ^ 53) (2 ^ 53)
     = Ok [0; 1; 0; 0; 0; 0; 0; 1]
  /\ _compute_autocorr_numba [0; 2 ^ 55 - 1] (2 ^ 55) (2 ^ 53)
     = Raise OutOfBounds.
Proof. vm_compute. repeat split; reflexivity. Qed.
